(** * R.A.R.E. Award website: storage adapter, validation engine,
      form/step controller and submission endpoint

    A shallow embedding of the JavaScript modules

      - [js/local-storage.js]            (module [LocalStorage])
      - [js/accessibility.js], second half: the form validation module
                                         (module [Validation])
      - [js/form-handler.js]             (module [FormHandler])
      - [functions/submit-nomination.js] (module [SubmitNomination])

    together with the part of the JavaScript platform these modules call
    (module [JS]): strings as sequences of UTF-16 code units, [trim],
    decimal printing, objects with their property order, and
    [JSON.stringify] / [JSON.parse].

    Conventions.  A JavaScript string is a [list N] of code units.  A
    JavaScript number is modelled exactly when it is a safe integer
    ([Int z] with [|z| < 2^53]); any other number is kept as the JSON
    literal that denotes it ([Lit]), the double itself is not modelled.
    Code that can throw returns a [result]; state is passed explicitly. *)

From Stdlib Require Import ZArith NArith List Ascii String Bool Lia QArith Qround.
From Stdlib Require Import DecimalN DecimalFacts.
From stdpp Require Import gmap list.

Set Warnings "-register-all".

Open Scope Z_scope.

(* ================================================================== *)
(** * The JavaScript platform                                          *)
(* ================================================================== *)

Module JS.

(** ** Strings *)

Abbreviation jsstring := (list N).

Definition cu (a : ascii) : N := N_of_ascii a.

(** [js "abc"] is the JavaScript string literal ['abc']. *)
Definition js (s : string) : jsstring := map cu (list_ascii_of_string s).

Definition str_eqb (a b : jsstring) : bool := bool_decide (a = b).

(** ECMAScript WhiteSpace and LineTerminator code units, as removed by
    [String.prototype.trim] and matched by [\s]. *)
Definition is_whitespace (c : N) : bool :=
  ((9 <=? c) && (c <=? 13) || (c =? 32) || (c =? 160) || (c =? 5760)
   || (8192 <=? c) && (c <=? 8202) || (c =? 8232) || (c =? 8233)
   || (c =? 8239) || (c =? 8287) || (c =? 12288) || (c =? 65279))%N.

Fixpoint trimStart (s : jsstring) : jsstring :=
  match s with
  | c :: r => if is_whitespace c then trimStart r else s
  | [] => []
  end.

Definition trimEnd (s : jsstring) : jsstring := rev (trimStart (rev s)).

Definition trim (s : jsstring) : jsstring := trimEnd (trimStart s).

(** [s.startsWith(p)] *)
Fixpoint startsWith (s p : jsstring) {struct p} : bool :=
  match p, s with
  | [], _ => true
  | _ :: _, [] => false
  | a :: p', b :: s' => (a =? b)%N && startsWith s' p'
  end.

(** [s.includes(p)] *)
Fixpoint includes (s p : jsstring) : bool :=
  startsWith s p ||
  match s with
  | [] => false
  | _ :: s' => includes s' p
  end.

(** [s.padStart(n, '0')] *)
Definition padStart0 (n : nat) (s : jsstring) : jsstring :=
  repeat (cu "0") (n - length s) ++ s.

(** ** Decimal printing of integers *)

Definition digit_cu (d : N) : N := (48 + d)%N.

Fixpoint uint_units (d : Decimal.uint) : jsstring :=
  match d with
  | Decimal.Nil => []
  | Decimal.D0 r => cu "0" :: uint_units r
  | Decimal.D1 r => cu "1" :: uint_units r
  | Decimal.D2 r => cu "2" :: uint_units r
  | Decimal.D3 r => cu "3" :: uint_units r
  | Decimal.D4 r => cu "4" :: uint_units r
  | Decimal.D5 r => cu "5" :: uint_units r
  | Decimal.D6 r => cu "6" :: uint_units r
  | Decimal.D7 r => cu "7" :: uint_units r
  | Decimal.D8 r => cu "8" :: uint_units r
  | Decimal.D9 r => cu "9" :: uint_units r
  end.

(** [String(n)] for a non-negative integer. *)
Definition N_toString (n : N) : jsstring := uint_units (N.to_uint n).

(** [String(z)] for an integer. *)
Definition Z_toString (z : Z) : jsstring :=
  match z with
  | Z0 => js "0"
  | Zpos p => N_toString (Npos p)
  | Zneg p => cu "-" :: N_toString (Npos p)
  end.

(** ** Values *)

(** A number is a safe integer, or any other JSON number literal. *)
Inductive number : Type :=
| Int (z : Z)
| Lit (l : jsstring).

Inductive value : Type :=
| VUndefined
| VNull
| VBool (b : bool)
| VNum (n : number)
| VStr (s : jsstring)
| VArr (l : list value)
| VObj (ms : list (jsstring * value))
| VFunction (name : jsstring).

(** Values that [JSON.stringify] turns into [undefined]. *)
Definition is_undefined (v : value) : bool :=
  match v with VUndefined | VFunction _ => true | _ => false end.

Definition is_digit (c : N) : bool := ((48 <=? c) && (c <=? 57))%N.

(** A literal denotes zero when its mantissa has no non-zero digit. *)
Fixpoint lit_is_zero (l : jsstring) : bool :=
  match l with
  | [] => true
  | c :: r =>
      if ((c =? 101) || (c =? 69))%N then true
      else if is_digit c && negb (c =? 48)%N then false
      else lit_is_zero r
  end.

(** ToBoolean *)
Definition truthy (v : value) : bool :=
  match v with
  | VUndefined | VNull => false
  | VBool b => b
  | VNum (Int z) => negb (z =? 0)
  | VNum (Lit l) => negb (lit_is_zero l)
  | VStr s => match s with [] => false | _ => true end
  | VArr _ | VObj _ | VFunction _ => true
  end.

(** [a || b] *)
Definition or_else (a b : value) : value := if truthy a then a else b.

(** ** Objects: ordinary property order *)

Section Objects.
Context {A : Type}.

Definition obj_get (o : list (jsstring * A)) (k : jsstring) : option A :=
  snd <$> find (fun kv => str_eqb (fst kv) k) o.

Definition obj_has (o : list (jsstring * A)) (k : jsstring) : bool :=
  existsb (fun kv => str_eqb (fst kv) k) o.

Definition obj_keys (o : list (jsstring * A)) : list jsstring := map fst o.

Definition obj_delete (o : list (jsstring * A)) (k : jsstring)
  : list (jsstring * A) :=
  List.filter (fun kv => negb (str_eqb (fst kv) k)) o.

Fixpoint obj_replace (o : list (jsstring * A)) (k : jsstring) (v : A)
  : list (jsstring * A) :=
  match o with
  | [] => []
  | (k', v') :: r =>
      if str_eqb k' k then (k', v) :: r else (k', v') :: obj_replace r k v
  end.
End Objects.

Fixpoint units_value (s : jsstring) (acc : N) : option N :=
  match s with
  | [] => Some acc
  | c :: r => if is_digit c then units_value r (10 * acc + (c - 48))%N else None
  end.

(** An array index is a canonical numeric string below [2^32 - 1]. *)
Definition array_index (k : jsstring) : option N :=
  match k with
  | [] => None
  | _ =>
      match units_value k 0%N with
      | Some n =>
          if str_eqb (N_toString n) k && (n <? 4294967295)%N then Some n
          else None
      | None => None
      end
  end.

Section ObjectOrder.
Context {A : Type}.

(** A new array-index key goes before the first key that is not a
    smaller array index. *)
Fixpoint obj_insert_index (o : list (jsstring * A)) (n : N)
         (k : jsstring) (v : A) : list (jsstring * A) :=
  match o with
  | [] => [(k, v)]
  | (k', v') :: r =>
      match array_index k' with
      | Some m =>
          if (m <? n)%N then (k', v') :: obj_insert_index r n k v
          else (k, v) :: o
      | None => (k, v) :: o
      end
  end.

(** [o[k] = v] on an ordinary object: an existing property keeps its
    place, a new array index is sorted in, any other new key is last. *)
Definition obj_set (o : list (jsstring * A)) (k : jsstring) (v : A)
  : list (jsstring * A) :=
  if obj_has o k then obj_replace o k v
  else match array_index k with
       | Some n => obj_insert_index o n k v
       | None => o ++ [(k, v)]
       end.
End ObjectOrder.

(** Property read [v.k] for a key that is not built in: [None] is the
    TypeError raised on [undefined] and [null]. *)
Definition get_prop (v : value) (k : jsstring) : option value :=
  match v with
  | VUndefined | VNull => None
  | VObj ms => Some (default VUndefined (obj_get ms k))
  | _ => Some VUndefined
  end.

(** ** JSON.stringify *)

Definition hex_digit (d : N) : N := (if d <? 10 then 48 + d else 87 + d)%N.

(** [\uXXXX] with lower-case hexadecimal digits. *)
Definition uescape (c : N) : jsstring :=
  [92; 117; hex_digit (c / 4096 mod 16); hex_digit (c / 256 mod 16);
   hex_digit (c / 16 mod 16); hex_digit (c mod 16)]%N.

Definition is_high_surrogate (c : N) : bool := ((55296 <=? c) && (c <=? 56319))%N.
Definition is_low_surrogate (c : N) : bool := ((56320 <=? c) && (c <=? 57343))%N.

(** QuoteJSONString on one code unit that is not a surrogate. *)
Definition escape1 (c : N) : jsstring :=
  (if c =? 8 then [92; 98]
   else if c =? 9 then [92; 116]
   else if c =? 10 then [92; 110]
   else if c =? 12 then [92; 102]
   else if c =? 13 then [92; 114]
   else if c =? 34 then [92; 34]
   else if c =? 92 then [92; 92]
   else if c <? 32 then uescape c
   else [c])%N.

(** A surrogate pair is copied, a lone surrogate is escaped. *)
Fixpoint escape (s : jsstring) : jsstring :=
  match s with
  | [] => []
  | c :: r =>
      if is_high_surrogate c then
        match r with
        | d :: r' =>
            if is_low_surrogate d then c :: d :: escape r'
            else uescape c ++ escape r
        | [] => uescape c
        end
      else if is_low_surrogate c then uescape c ++ escape r
      else escape1 c ++ escape r
  end.

Definition quote (s : jsstring) : jsstring := 34%N :: escape s ++ [34%N].

Fixpoint join_comma (l : list jsstring) : jsstring :=
  match l with
  | [] => []
  | [x] => x
  | x :: r => x ++ cu "," :: join_comma r
  end.

(** SerializeJSONProperty without indentation.  An array element that
    is [undefined] or a function prints as [null]; such a member of an
    object is left out. *)
Fixpoint stringify (v : value) : jsstring :=
  match v with
  | VUndefined | VFunction _ => js "null"
  | VNull => js "null"
  | VBool true => js "true"
  | VBool false => js "false"
  | VNum (Int z) => Z_toString z
  | VNum (Lit l) => l
  | VStr s => quote s
  | VArr l => cu "[" :: join_comma (map stringify l) ++ [cu "]"]
  | VObj ms =>
      cu "{" ::
      join_comma
        ((fix members (ms : list (jsstring * value)) : list jsstring :=
            match ms with
            | [] => []
            | (k, v) :: r =>
                if is_undefined v then members r
                else (quote k ++ cu ":" :: stringify v) :: members r
            end) ms)
      ++ [cu "}"]
  end.

(** [JSON.stringify(v)]: [None] is the result [undefined]. *)
Definition JSON_stringify (v : value) : option jsstring :=
  if is_undefined v then None else Some (stringify v).

(** ** JSON.parse *)

Inductive pres (A : Type) : Type :=
| POk (a : A) (rest : jsstring)
| PSyntax
| PFuel.
Arguments POk {A} a rest.
Arguments PSyntax {A}.
Arguments PFuel {A}.

Definition is_json_ws (c : N) : bool :=
  ((c =? 9) || (c =? 10) || (c =? 13) || (c =? 32))%N.

Fixpoint skip_ws (s : jsstring) : jsstring :=
  match s with
  | c :: r => if is_json_ws c then skip_ws r else s
  | [] => []
  end.

Definition hex_value (c : N) : option N :=
  (if (48 <=? c) && (c <=? 57) then Some (c - 48)
   else if (97 <=? c) && (c <=? 102) then Some (c - 87)
   else if (65 <=? c) && (c <=? 70) then Some (c - 55)
   else None)%N.

Definition hex4 (a b c d : N) : option N :=
  match hex_value a, hex_value b, hex_value c, hex_value d with
  | Some x, Some y, Some z, Some w => Some (x * 4096 + y * 256 + z * 16 + w)%N
  | _, _, _, _ => None
  end.

Definition unescape (e : N) : option N :=
  (if e =? 34 then Some 34
   else if e =? 92 then Some 92
   else if e =? 47 then Some 47
   else if e =? 98 then Some 8
   else if e =? 102 then Some 12
   else if e =? 110 then Some 10
   else if e =? 114 then Some 13
   else if e =? 116 then Some 9
   else None)%N.

(** The characters of a string literal after its opening quote. *)
Fixpoint string_body (s : jsstring) : option (jsstring * jsstring) :=
  match s with
  | [] => None
  | c :: r =>
      if (c =? 34)%N then Some ([], r)
      else if (c =? 92)%N then
        match r with
        | [] => None
        | e :: r1 =>
            if (e =? 117)%N then
              match r1 with
              | h1 :: h2 :: h3 :: h4 :: r2 =>
                  match hex4 h1 h2 h3 h4 with
                  | Some u =>
                      match string_body r2 with
                      | Some (t, r3) => Some (u :: t, r3)
                      | None => None
                      end
                  | None => None
                  end
              | _ => None
              end
            else
              match unescape e with
              | Some u =>
                  match string_body r1 with
                  | Some (t, r3) => Some (u :: t, r3)
                  | None => None
                  end
              | None => None
              end
        end
      else if (c <? 32)%N then None
      else
        match string_body r with
        | Some (t, r3) => Some (c :: t, r3)
        | None => None
        end
  end.

Definition digit_cons (c : N) (d : Decimal.uint) : Decimal.uint :=
  (if c =? 48 then Decimal.D0 d
   else if c =? 49 then Decimal.D1 d
   else if c =? 50 then Decimal.D2 d
   else if c =? 51 then Decimal.D3 d
   else if c =? 52 then Decimal.D4 d
   else if c =? 53 then Decimal.D5 d
   else if c =? 54 then Decimal.D6 d
   else if c =? 55 then Decimal.D7 d
   else if c =? 56 then Decimal.D8 d
   else Decimal.D9 d)%N.

(** The longest prefix of decimal digits. *)
Fixpoint lex_uint (s : jsstring) : Decimal.uint * jsstring :=
  match s with
  | c :: r =>
      if is_digit c then
        let (d, r') := lex_uint r in (digit_cons c d, r')
      else (Decimal.Nil, s)
  | [] => (Decimal.Nil, [])
  end.

(** [int]: a single [0], or digits that do not start with [0]. *)
Definition int_part_ok (d : Decimal.uint) : bool :=
  match d with
  | Decimal.Nil => false
  | Decimal.D0 Decimal.Nil => true
  | Decimal.D0 _ => false
  | _ => true
  end.

(** [frac]: [.] and at least one digit. *)
Definition lex_frac (s : jsstring) : option (bool * jsstring) :=
  match s with
  | c :: r =>
      if (c =? 46)%N then
        match lex_uint r with
        | (Decimal.Nil, _) => None
        | (_, r') => Some (true, r')
        end
      else Some (false, s)
  | [] => Some (false, s)
  end.

(** [exp]: [e] or [E], an optional sign, and at least one digit. *)
Definition lex_exp (s : jsstring) : option (bool * jsstring) :=
  match s with
  | c :: r =>
      if ((c =? 101) || (c =? 69))%N then
        let r1 := match r with
                  | g :: r' => if ((g =? 43) || (g =? 45))%N then r' else r
                  | [] => r
                  end in
        match lex_uint r1 with
        | (Decimal.Nil, _) => None
        | (_, r') => Some (true, r')
        end
      else Some (false, s)
  | [] => Some (false, s)
  end.

Definition safe_integer (z : Z) : bool := Z.abs z <? 9007199254740992.

(** A number token.  A plain integer literal in the safe range is an
    [Int]; [-0] and every other token is kept as its text. *)
Definition lex_number (s : jsstring) : option (number * jsstring) :=
  let (neg, s1) := match s with
                   | c :: r => if (c =? 45)%N then (true, r) else (false, s)
                   | [] => (false, s)
                   end in
  let (d, s2) := lex_uint s1 in
  if int_part_ok d then
    match lex_frac s2 with
    | Some (f, s3) =>
        match lex_exp s3 with
        | Some (e, s4) =>
            let n := Z.of_N (N.of_uint d) in
            let z := if neg then - n else n in
            if negb f && negb e && safe_integer z && negb (neg && (n =? 0))
            then Some (Int z, s4)
            else Some (Lit (take (length s - length s4) s), s4)
        | None => None
        end
    | None => None
    end
  else None.

Fixpoint parse_value (fuel : nat) (s : jsstring) : pres value :=
  match fuel with
  | O => PFuel
  | S f =>
      match skip_ws s with
      | [] => PSyntax
      | c :: r =>
          if (c =? 123)%N then
            match skip_ws r with
            | c' :: r' =>
                if (c' =? 125)%N then POk (VObj []) r'
                else parse_members f (c' :: r') []
            | [] => PSyntax
            end
          else if (c =? 91)%N then
            match skip_ws r with
            | c' :: r' =>
                if (c' =? 93)%N then POk (VArr []) r'
                else parse_elements f (c' :: r') []
            | [] => PSyntax
            end
          else if (c =? 34)%N then
            match string_body r with
            | Some (t, r') => POk (VStr t) r'
            | None => PSyntax
            end
          else if startsWith (c :: r) (js "true") then POk (VBool true) (drop 4 (c :: r))
          else if startsWith (c :: r) (js "false") then POk (VBool false) (drop 5 (c :: r))
          else if startsWith (c :: r) (js "null") then POk VNull (drop 4 (c :: r))
          else
            match lex_number (c :: r) with
            | Some (n, r') => POk (VNum n) r'
            | None => PSyntax
            end
      end
  end
with parse_elements (fuel : nat) (s : jsstring) (acc : list value) : pres value :=
  match fuel with
  | O => PFuel
  | S f =>
      match parse_value f s with
      | POk v r =>
          match skip_ws r with
          | c :: r' =>
              if (c =? 44)%N then parse_elements f r' (v :: acc)
              else if (c =? 93)%N then POk (VArr (rev (v :: acc))) r'
              else PSyntax
          | [] => PSyntax
          end
      | PSyntax => PSyntax
      | PFuel => PFuel
      end
  end
with parse_members (fuel : nat) (s : jsstring) (acc : list (jsstring * value))
  : pres value :=
  match fuel with
  | O => PFuel
  | S f =>
      match skip_ws s with
      | c :: r =>
          if (c =? 34)%N then
            match string_body r with
            | Some (k, r1) =>
                match skip_ws r1 with
                | c1 :: r2 =>
                    if (c1 =? 58)%N then
                      match parse_value f r2 with
                      | POk v r3 =>
                          match skip_ws r3 with
                          | c3 :: r4 =>
                              if (c3 =? 44)%N then parse_members f r4 (obj_set acc k v)
                              else if (c3 =? 125)%N then POk (VObj (obj_set acc k v)) r4
                              else PSyntax
                          | [] => PSyntax
                          end
                      | PSyntax => PSyntax
                      | PFuel => PFuel
                      end
                    else PSyntax
                | [] => PSyntax
                end
            | None => PSyntax
            end
          else PSyntax
      | [] => PSyntax
      end
  end.

(** ToString, for the values of this model. *)
Fixpoint toString (v : value) : jsstring :=
  match v with
  | VUndefined => js "undefined"
  | VNull => js "null"
  | VBool true => js "true"
  | VBool false => js "false"
  | VNum (Int z) => Z_toString z
  | VNum (Lit l) => l
  | VStr s => s
  | VArr l =>
      join_comma
        (map (fun e => match e with
                       | VUndefined | VNull => []
                       | _ => toString e
                       end) l)
  | VObj _ => js "[object Object]"
  | VFunction name => js "function " ++ name ++ js "() { [native code] }"
  end.

(** [parseInt(s)]: [None] is [NaN]. *)
Fixpoint hex_prefix_value (s : jsstring) (acc : option Z) : option Z :=
  match s with
  | c :: r =>
      match hex_value c with
      | Some d => hex_prefix_value r (Some (16 * default 0 acc + Z.of_N d))
      | None => acc
      end
  | [] => acc
  end.

Fixpoint dec_prefix_value (s : jsstring) (acc : option Z) : option Z :=
  match s with
  | c :: r =>
      if is_digit c
      then dec_prefix_value r (Some (10 * default 0 acc + Z.of_N (c - 48)))
      else acc
  | [] => acc
  end.

Definition parseInt (s : jsstring) : option Z :=
  let s1 := trimStart s in
  let (neg, s2) :=
    match s1 with
    | c :: r => if (c =? 45)%N then (true, r)
                else if (c =? 43)%N then (false, r) else (false, s1)
    | [] => (false, s1)
    end in
  let magnitude :=
    match s2 with
    | z :: x :: r =>
        if ((z =? 48) && ((x =? 120) || (x =? 88)))%N
        then hex_prefix_value r None
        else dec_prefix_value s2 None
    | _ => dec_prefix_value s2 None
    end in
  (fun m => if neg then - m else m) <$> magnitude.

(** [JSON.parse(s)]: [None] is the SyntaxError.  Two units of fuel per
    code unit are enough for every input ([parse_value_fuel] below). *)
Definition JSON_parse (s : jsstring) : option value :=
  match parse_value (S (2 * length s)) s with
  | POk v r => match skip_ws r with [] => Some v | _ => None end
  | _ => None
  end.

(** ** Values that JSON represents *)

(** An object built by the parser has its keys in property order:
    [k] can follow the keys [seen] when it is new and, if it is an
    array index, when only smaller array indices came before. *)
Definition appendable (seen : list jsstring) (k : jsstring) : bool :=
  negb (existsb (fun k' => str_eqb k' k) seen) &&
  match array_index k with
  | Some n =>
      forallb (fun k' => match array_index k' with
                         | Some m => (m <? n)%N
                         | None => false
                         end) seen
  | None => true
  end.

(** The keys [ks] are in the order in which an object lists them. *)
Fixpoint keys_ordered (seen ks : list jsstring) : bool :=
  match ks with
  | [] => true
  | k :: r => appendable seen k && keys_ordered (seen ++ [k]) r
  end.

(** The values that [JSON.stringify] writes and [JSON.parse] reads
    back: no [undefined], no function, numbers that are safe integers,
    objects with their keys in property order. *)
Fixpoint json_value (v : value) : bool :=
  match v with
  | VUndefined => false
  | VNull | VBool _ | VStr _ => true
  | VNum (Int z) => safe_integer z
  | VNum (Lit _) => false
  | VFunction _ => false
  | VArr l => forallb json_value l
  | VObj ms =>
      keys_ordered [] (map fst ms) &&
      (fix all (ms : list (jsstring * value)) : bool :=
         match ms with
         | [] => true
         | (_, v) :: r => json_value v && all r
         end) ms
  end.

(** The number of nodes of a value, a bound on the nesting that the
    parser has to follow. *)
Fixpoint size (v : value) : nat :=
  match v with
  | VArr l => S (list_sum (map (fun e => S (size e)) l))
  | VObj ms =>
      S ((fix sum (ms : list (jsstring * value)) : nat :=
            match ms with
            | [] => O
            | (_, v) :: r => (S (size v) + sum r)%nat
            end) ms)
  | _ => 1%nat
  end.

(** What may follow a value inside a text: the end, a comma, or a
    closing bracket or brace. *)
Definition delim (rest : jsstring) : Prop :=
  match rest with
  | [] => True
  | c :: _ => c = 44%N \/ c = 93%N \/ c = 125%N
  end.

(** One more code unit in front of the result of [string_body]. *)
Definition body_cons (c : N) (o : option (jsstring * jsstring)) :=
  match o with
  | Some (t, r) => Some (c :: t, r)
  | None => None
  end.

(** Induction on values with the hypothesis available for every
    element of an array and every member of an object. *)
Section value_induction.
Variable P : value -> Prop.
Hypothesis Hundef : P VUndefined.
Hypothesis Hnull : P VNull.
Hypothesis Hbool : forall b, P (VBool b).
Hypothesis Hnum : forall n, P (VNum n).
Hypothesis Hstr : forall s, P (VStr s).
Hypothesis Harr : forall l, Forall P l -> P (VArr l).
Hypothesis Hobj : forall ms, Forall (fun kv => P (snd kv)) ms -> P (VObj ms).
Hypothesis Hfun : forall s, P (VFunction s).

Fixpoint value_nested_ind (v : value) : P v :=
  match v with
  | VUndefined => Hundef
  | VNull => Hnull
  | VBool b => Hbool b
  | VNum n => Hnum n
  | VStr s => Hstr s
  | VFunction s => Hfun s
  | VArr l =>
      Harr l ((fix go (l : list value) : Forall P l :=
                 match l with
                 | [] => @List.Forall_nil _ P
                 | e :: r => @List.Forall_cons _ P e r (value_nested_ind e) (go r)
                 end) l)
  | VObj ms =>
      Hobj ms ((fix go (ms : list (jsstring * value))
                 : Forall (fun kv => P (snd kv)) ms :=
                  match ms with
                  | [] => @List.Forall_nil _ _
                  | kv :: r =>
                      @List.Forall_cons _ (fun kv => P (snd kv)) kv r
                        (value_nested_ind (snd kv)) (go r)
                  end) ms)
  end.

End value_induction.

(** The [fix] of [stringify] that writes the members of an object. *)
Fixpoint members_text (ms : list (jsstring * value)) : list jsstring :=
  match ms with
  | [] => []
  | (k, v) :: r =>
      if is_undefined v then members_text r
      else (quote k ++ cu ":" :: stringify v) :: members_text r
  end.

(** The [fix] of [size] on the members of an object. *)
Fixpoint members_size (ms : list (jsstring * value)) : nat :=
  match ms with
  | [] => O
  | (_, v) :: r => (S (size v) + members_size r)%nat
  end.

(** The [fix] of [json_value] on the members of an object. *)
Fixpoint members_json (ms : list (jsstring * value)) : bool :=
  match ms with
  | [] => true
  | (_, v) :: r => json_value v && members_json r
  end.

(** A text that starts like a value: not with white space and not with
    a closing bracket or brace. *)
Definition value_head (s : jsstring) : Prop :=
  match s with
  | c :: _ => is_json_ws c = false /\ c <> 93%N /\ c <> 125%N
  | [] => False
  end.

(** The nodes of the elements of an array. *)
Definition elements_size (l : list value) : nat :=
  list_sum (map (fun e => S (size e)) l).

(** Parsing what [stringify] wrote gives the value back, with any
    fuel above its size and whatever follows it. *)
Definition roundtrips (v : value) : Prop :=
  json_value v = true ->
  forall f rest, delim rest -> (size v < f)%nat ->
  parse_value f (stringify v ++ rest) = POk v rest.

(** [o[k] = v] for a member [(k, v)]. *)
Definition set_member (o : list (jsstring * value)) (kv : jsstring * value) :=
  obj_set o (fst kv) (snd kv).

(** A result that is not [PFuel] stays the same with more fuel. *)
Definition stable (f : nat) : Prop :=
  (forall s, parse_value f s <> PFuel -> parse_value (S f) s = parse_value f s) /\
  (forall s acc, parse_elements f s acc <> PFuel ->
                 parse_elements (S f) s acc = parse_elements f s acc) /\
  (forall s acc, parse_members f s acc <> PFuel ->
                 parse_members (S f) s acc = parse_members f s acc).

(** Fuel above twice the length of the text is never used up, and a
    parsed value consumes at least one code unit. *)
Definition fueled (f : nat) : Prop :=
  (forall s, (2 * length s < f)%nat ->
     parse_value f s <> PFuel /\
     forall v r, parse_value f s = POk v r -> (length r < length s)%nat) /\
  (forall s acc, (2 * length s + 1 < f)%nat ->
     parse_elements f s acc <> PFuel /\
     forall v r, parse_elements f s acc = POk v r -> (length r < length s)%nat) /\
  (forall s acc, (2 * length s + 1 < f)%nat ->
     parse_members f s acc <> PFuel /\
     forall v r, parse_members f s acc = POk v r -> (length r < length s)%nat).

(** ** Places in the property order *)

(** The keys that follow the array index [n] in property order, and
    those that precede it. *)
Definition above (n : N) (k : jsstring) : bool :=
  match array_index k with
  | Some m => (n <? m)%N
  | None => true
  end.

Definition below (n : N) (k : jsstring) : bool :=
  match array_index k with
  | Some m => (m <? n)%N
  | None => false
  end.

End JS.

(* ================================================================== *)
(** * js/local-storage.js                                              *)
(* ================================================================== *)

Module LocalStorage.
Import JS.

(** ** The browser's [Storage] objects *)

(** A thrown DOMException or Error. *)
Record exn : Type := mkExn {
  exn_name : jsstring;
  exn_code : Z;
  exn_message : jsstring
}.

Definition QuotaExceededError : exn :=
  mkExn (js "QuotaExceededError") 22 (js "The quota has been exceeded.").

Inductive result (A : Type) : Type :=
| Ok (a : A)
| Throw (e : exn).
Arguments Ok {A} a.
Arguments Throw {A} e.

(** [window.localStorage] or [window.sessionStorage].  [accepts] is the
    user agent's quota policy: [setItem] throws a QuotaExceededError
    when it refuses the write.  When [failing] is [Some e], every call
    on the object throws [e].  Keys are enumerated in the user agent's
    order, here that of [map_to_list]. *)
Record native : Type := mkNative {
  items : gmap jsstring jsstring;
  accepts : jsstring -> jsstring -> gmap jsstring jsstring -> bool;
  failing : option exn
}.

Definition with_items (n : native) (m : gmap jsstring jsstring) : native :=
  mkNative m (accepts n) (failing n).

Definition native_setItem (n : native) (k v : jsstring) : result native :=
  match failing n with
  | Some e => Throw e
  | None =>
      if accepts n k v (items n) then Ok (with_items n (<[k := v]> (items n)))
      else Throw QuotaExceededError
  end.

Definition native_getItem (n : native) (k : jsstring) : result (option jsstring) :=
  match failing n with
  | Some e => Throw e
  | None => Ok (items n !! k)
  end.

Definition native_removeItem (n : native) (k : jsstring) : result native :=
  match failing n with
  | Some e => Throw e
  | None => Ok (with_items n (delete k (items n)))
  end.

Definition native_clear (n : native) : result native :=
  match failing n with
  | Some e => Throw e
  | None => Ok (with_items n ∅)
  end.

Definition native_length (n : native) : result nat :=
  match failing n with
  | Some e => Throw e
  | None => Ok (length (map_to_list (items n)))
  end.

(** [storage.key(i)]: [null] past the end. *)
Definition native_key (n : native) (i : nat) : result (option jsstring) :=
  match failing n with
  | Some e => Throw e
  | None => Ok (fst <$> map_to_list (items n) !! i)
  end.

(** ** The in-memory fallback objects *)

(** The own property names of [Object.prototype]; the fallback objects
    are created by [{}] and inherit them. *)
Definition proto_keys : list jsstring :=
  map js ["constructor"; "hasOwnProperty"; "isPrototypeOf";
          "propertyIsEnumerable"; "toLocaleString"; "toString"; "valueOf";
          "__proto__"; "__defineGetter__"; "__defineSetter__";
          "__lookupGetter__"; "__lookupSetter__"]%string.

Definition inherited (k : jsstring) : bool :=
  existsb (fun p => str_eqb p k) proto_keys.

(** [memory[key] = stringValue].  Assigning a string to [__proto__]
    runs the inherited setter, which ignores it. *)
Definition mem_set (o : list (jsstring * jsstring)) (k v : jsstring)
  : list (jsstring * jsstring) :=
  if str_eqb k (js "__proto__") then o else obj_set o k v.

(** [memory[key]]: an own string, an inherited member, or [undefined]. *)
Inductive mem_value : Type :=
| MOwn (s : jsstring)
| MInherited
| MUndefined.

Definition mem_read (o : list (jsstring * jsstring)) (k : jsstring) : mem_value :=
  match obj_get o k with
  | Some s => MOwn s
  | None => if inherited k then MInherited else MUndefined
  end.

(** [key in memory] *)
Definition mem_in (o : list (jsstring * jsstring)) (k : jsstring) : bool :=
  obj_has o k || inherited k.

(** ** Module state *)

Record state : Type := mkState {
  localStorageAvailable : bool;
  sessionStorageAvailable : bool;
  memory_local : list (jsstring * jsstring);
  memory_session : list (jsstring * jsstring);
  window_localStorage : native;
  window_sessionStorage : native
}.

Definition window_storage (isSession : bool) (st : state) : native :=
  if isSession then window_sessionStorage st else window_localStorage st.

Definition set_window_storage (isSession : bool) (n : native) (st : state) : state :=
  if isSession then
    mkState (localStorageAvailable st) (sessionStorageAvailable st)
            (memory_local st) (memory_session st) (window_localStorage st) n
  else
    mkState (localStorageAvailable st) (sessionStorageAvailable st)
            (memory_local st) (memory_session st) n (window_sessionStorage st).

Definition set_memory (isSession : bool) (o : list (jsstring * jsstring))
           (st : state) : state :=
  if isSession then
    mkState (localStorageAvailable st) (sessionStorageAvailable st)
            (memory_local st) o (window_localStorage st) (window_sessionStorage st)
  else
    mkState (localStorageAvailable st) (sessionStorageAvailable st)
            o (memory_session st) (window_localStorage st) (window_sessionStorage st).

(** ** A state monad with exceptions

    A thrown exception keeps the state reached so far, as in
    JavaScript. *)
Definition M (A : Type) : Type := state -> result A * state.

Definition ret {A} (a : A) : M A := fun st => (Ok a, st).
Definition throw {A} (e : exn) : M A := fun st => (Throw e, st).
Definition bind {A B} (m : M A) (k : A -> M B) : M B :=
  fun st => match m st with
            | (Ok a, st') => k a st'
            | (Throw e, st') => (Throw e, st')
            end.
(** [try { body } catch (e) { handler }] *)
Definition try_catch {A} (body : M A) (handler : exn -> M A) : M A :=
  fun st => match body st with
            | (Ok a, st') => (Ok a, st')
            | (Throw e, st') => handler e st'
            end.

Notation "x <- m ;; k" := (bind m (fun x => k))
  (at level 62, m at next level, right associativity).
Notation "m ;;; k" := (bind m (fun _ => k))
  (at level 62, right associativity).

(** Calls on a native storage object, named by its scope. *)
Definition setItem (isSession : bool) (k v : jsstring) : M unit :=
  fun st => match native_setItem (window_storage isSession st) k v with
            | Ok n => (Ok tt, set_window_storage isSession n st)
            | Throw e => (Throw e, st)
            end.

Definition getItem (isSession : bool) (k : jsstring) : M (option jsstring) :=
  fun st => (native_getItem (window_storage isSession st) k, st).

Definition removeItem (isSession : bool) (k : jsstring) : M unit :=
  fun st => match native_removeItem (window_storage isSession st) k with
            | Ok n => (Ok tt, set_window_storage isSession n st)
            | Throw e => (Throw e, st)
            end.

Definition clearItems (isSession : bool) : M unit :=
  fun st => match native_clear (window_storage isSession st) with
            | Ok n => (Ok tt, set_window_storage isSession n st)
            | Throw e => (Throw e, st)
            end.

Definition storage_length (isSession : bool) : M nat :=
  fun st => (native_length (window_storage isSession st), st).

Definition storage_key (isSession : bool) (i : nat) : M (option jsstring) :=
  fun st => (native_key (window_storage isSession st) i, st).

(** ** The module's functions *)

(** [testStorageAvailability(storageType)] *)
Definition testStorageAvailability (isSession : bool) : M bool :=
  try_catch
    (setItem isSession (js "__storage_test__") (js "test") ;;;
     removeItem isSession (js "__storage_test__") ;;;
     ret true)
    (fun _ => ret false).

(** [safeParse(value)] on a stored text. *)
Definition safeParse (value : jsstring) : JS.value :=
  match JSON_parse value with
  | Some v => v
  | None => VStr value
  end.

(** [safeStringify(value)]: [None] is [undefined].  [JSON.stringify]
    does not throw on the values of this model. *)
Definition safeStringify (v : value) : option jsstring :=
  match v with
  | VUndefined => None
  | VNull => Some (js "null")
  | VStr s => Some s
  | _ => JSON_stringify v
  end.

(** [getStorage(isSession)]: [true] when the native object is used. *)
Definition getStorage (isSession : bool) : M bool :=
  fun st => (Ok (if isSession then sessionStorageAvailable st
                 else localStorageAvailable st), st).

Definition getMemoryStorage (isSession : bool) : M (list (jsstring * jsstring)) :=
  fun st => (Ok (if isSession then memory_session st else memory_local st), st).

Definition putMemoryStorage (isSession : bool) (o : list (jsstring * jsstring))
  : M unit :=
  fun st => (Ok tt, set_memory isSession o st).

Definition keysToCheck : list jsstring :=
  map js ["rare_form_draft_"; "rare_form_autosave_"; "rare_temp_"; "rare_old_"]%string.

(** The first loop of [_handleQuotaExceeded], at index [i - 1]:
    [true] when the new value was stored and the function returns. *)
Fixpoint evict_prefixed (i : nat) (isSession : bool) (newKey newValue : jsstring)
  : M bool :=
  match i with
  | O => ret false
  | S j =>
      key <- storage_key isSession j ;;
      match key with
      | Some k =>
          if match k with [] => false | _ => true end
             && existsb (fun prefix => startsWith k prefix) keysToCheck
          then
            removeItem isSession k ;;;
            stored <- try_catch (setItem isSession newKey newValue ;;; ret true)
                                (fun _ => ret false) ;;
            if stored then ret true
            else evict_prefixed j isSession newKey newValue
          else evict_prefixed j isSession newKey newValue
      | None => evict_prefixed j isSession newKey newValue
      end
  end.

(** The number of steps a loop over the native keys can take: a bound
    for the recursion, not a call on the storage object. *)
Definition key_count (isSession : bool) : M nat :=
  fun st => (Ok (length (map_to_list (items (window_storage isSession st)))), st).

(** The second loop: the keys that contain [_timestamp_], from index
    [i]; [storage.length] is read at every step. *)
Fixpoint timestamped (fuel i : nat) (isSession : bool) (acc : list jsstring)
  : M (list jsstring) :=
  match fuel with
  | O => ret acc
  | S f =>
      len <- storage_length isSession ;;
      if (i <? len)%nat then
        key <- storage_key isSession i ;;
        match key with
        | Some k =>
            if match k with [] => false | _ => true end
               && includes k (js "_timestamp_")
            then timestamped f (S i) isSession (acc ++ [k])
            else timestamped f (S i) isSession acc
        | None => timestamped f (S i) isSession acc
        end
      else ret acc
  end.

Fixpoint removeAll (isSession : bool) (ks : list jsstring) : M unit :=
  match ks with
  | [] => ret tt
  | k :: r => removeItem isSession k ;;; removeAll isSession r
  end.

(** [Storage._handleQuotaExceeded(storage, newKey, newValue)] *)
Definition handleQuotaExceeded (isSession : bool) (newKey newValue : jsstring)
  : M unit :=
  len <- storage_length isSession ;;
  stored <- evict_prefixed len isSession newKey newValue ;;
  if stored then ret tt
  else
    bound <- key_count isSession ;;
    timestampedKeys <- timestamped (S bound) 0 isSession [] ;;
    if (0 <? length timestampedKeys)%nat then
      removeAll isSession
        (take (Nat.div2 (S (length timestampedKeys))) timestampedKeys) ;;;
      setItem isSession newKey newValue
    else
      throw (mkExn (js "Error") 0 (js "Unable to clear space for new storage item")).

Definition invalid_key (key : jsstring) : bool :=
  match key with [] => true | _ => false end.

Definition is_quota_error (e : exn) : bool :=
  str_eqb (exn_name e) (js "QuotaExceededError") || (exn_code e =? 22).

(** The first half of [Storage.set]: the write to the native object,
    with one retry after eviction.  [false] when the code falls through
    to the in-memory fallback. *)
Definition native_write (isSession : bool) (key stringValue : jsstring) : M bool :=
  storage <- getStorage isSession ;;
  if storage then
    try_catch (setItem isSession key stringValue ;;; ret true)
      (fun e =>
         if is_quota_error e then
           try_catch
             (handleQuotaExceeded isSession key stringValue ;;; ret true)
             (fun _ => ret false)
         else ret false)
  else ret false.

(** [Storage.set(key, value, isSession)] *)
Definition set (key : jsstring) (value : JS.value) (isSession : bool) : M bool :=
  if invalid_key key then ret false
  else
    match safeStringify value with
    | None => ret false
    | Some stringValue =>
        stored <- native_write isSession key stringValue ;;
        if stored then ret true
        else
          memory <- getMemoryStorage isSession ;;
          putMemoryStorage isSession (mem_set memory key stringValue) ;;;
          ret true
    end.

(** What a caller can hand to [Storage.set]: a value of this model, or
    an object on which [JSON.stringify] throws (a cyclic structure, a
    BigInt inside, a [toJSON] that throws).  For such an object [text]
    is what [String(value)] gives in the [catch] block of
    [safeStringify]: a text, or an exception of its own, as for an
    object without prototype. *)
Inductive argument : Type :=
| Plain (v : JS.value)
| Unserializable (text : result jsstring).

(** [safeStringify(value)] on an argument. *)
Definition safeStringifyOf (a : argument) : result (option jsstring) :=
  match a with
  | Plain v => Ok (safeStringify v)
  | Unserializable (Ok text) => Ok (Some text)
  | Unserializable (Throw e) => Throw e
  end.

(** [Storage.set(key, value, isSession)] on an argument: the call of
    [safeStringify] is outside every [try] block. *)
Definition setOf (key : jsstring) (a : argument) (isSession : bool) : M bool :=
  if invalid_key key then ret false
  else
    match safeStringifyOf a with
    | Throw e => throw e
    | Ok None => ret false
    | Ok (Some stringValue) =>
        stored <- native_write isSession key stringValue ;;
        if stored then ret true
        else
          memory <- getMemoryStorage isSession ;;
          putMemoryStorage isSession (mem_set memory key stringValue) ;;;
          ret true
    end.

(** [Storage.get(key, isSession)] *)
Definition get (key : jsstring) (isSession : bool) : M JS.value :=
  if invalid_key key then ret VNull
  else
    storage <- getStorage isSession ;;
    found <-
      (if storage then
         try_catch
           (value <- getItem isSession key ;;
            ret (Some match value with
                      | Some s => safeParse s
                      | None => VNull
                      end))
           (fun _ => ret None)
       else ret None) ;;
    match found with
    | Some v => ret v
    | None =>
        memory <- getMemoryStorage isSession ;;
        ret match mem_read memory key with
            | MOwn s => safeParse s
            | MInherited =>
                if str_eqb key (js "__proto__") then VObj [] else VFunction key
            | MUndefined => VNull
            end
    end.

(** [Storage.remove(key, isSession)] *)
Definition remove (key : jsstring) (isSession : bool) : M bool :=
  if invalid_key key then ret false
  else
    storage <- getStorage isSession ;;
    (if storage then try_catch (removeItem isSession key) (fun _ => ret tt)
     else ret tt) ;;;
    memory <- getMemoryStorage isSession ;;
    putMemoryStorage isSession (obj_delete memory key) ;;;
    ret true.

(** [Storage.clear(isSession)] *)
Definition clear (isSession : bool) : M bool :=
  storage <- getStorage isSession ;;
  (if storage then try_catch (clearItems isSession) (fun _ => ret tt)
   else ret tt) ;;;
  memory <- getMemoryStorage isSession ;;
  putMemoryStorage isSession
    (fold_left (fun o k => obj_delete o k) (obj_keys memory) memory) ;;;
  ret true.

(** [Storage.has(key, isSession)] *)
Definition has (key : jsstring) (isSession : bool) : M bool :=
  if invalid_key key then ret false
  else
    storage <- getStorage isSession ;;
    found <-
      (if storage then
         try_catch
           (value <- getItem isSession key ;;
            ret (Some match value with Some _ => true | None => false end))
           (fun _ => ret None)
       else ret None) ;;
    match found with
    | Some b => ret b
    | None =>
        memory <- getMemoryStorage isSession ;;
        ret (mem_in memory key)
    end.

(** The loop of [Storage.keys] over the native keys from index [i]. *)
Fixpoint native_keys (fuel i : nat) (isSession : bool) (keys : list jsstring)
  : M (list jsstring) :=
  match fuel with
  | O => ret keys
  | S f =>
      len <- storage_length isSession ;;
      if (i <? len)%nat then
        key <- storage_key isSession i ;;
        match key with
        | Some (c :: k) => native_keys f (S i) isSession (keys ++ [c :: k])
        | _ => native_keys f (S i) isSession keys
        end
      else ret keys
  end.

(** [Storage.keys(isSession)] *)
Definition keys (isSession : bool) : M (list jsstring) :=
  storage <- getStorage isSession ;;
  found <-
    (if storage then
       try_catch
         (bound <- key_count isSession ;;
          ks <- native_keys (S bound) 0 isSession [] ;;
          ret (Some ks))
         (fun _ => ret None)
     else ret None) ;;
  match found with
  | Some ks => ret ks
  | None =>
      memory <- getMemoryStorage isSession ;;
      ret (obj_keys memory)
  end.

(** The body of the [forEach] of [Storage.size]. *)
Fixpoint size_loop (ks : list jsstring) (isSession : bool) (size : Z) : M Z :=
  match ks with
  | [] => ret size
  | key :: r =>
      value <- get key isSession ;;
      match safeStringify value with
      | Some (c :: s) =>
          size_loop r isSession
            (size + Z.of_nat (length key) * 2 + Z.of_nat (length (c :: s)) * 2)
      | _ => size_loop r isSession size
      end
  end.

(** [Storage.size(isSession)] *)
Definition size (isSession : bool) : M Z :=
  ks <- keys isSession ;;
  size_loop ks isSession 0.

(** [Storage.isAvailable(isSession)] *)
Definition isAvailable (isSession : bool) : M bool := getStorage isSession.

(** [initLocalStorage()]: the availability flags are set from the test. *)
Definition initLocalStorage : M unit :=
  l <- testStorageAvailability false ;;
  s <- testStorageAvailability true ;;
  fun st =>
    (Ok tt, mkState l s (memory_local st) (memory_session st)
                    (window_localStorage st) (window_sessionStorage st)).

(** The state when the script has been loaded, before
    [initLocalStorage] has run. *)
Definition loaded (l s : native) : state := mkState false false [] [] l s.

(** ** The two paths of the adapter *)

(** The flag of the scope, as [getStorage] reads it. *)
Definition available (isSession : bool) (st : state) : bool :=
  if isSession then sessionStorageAvailable st else localStorageAvailable st.

(** The fallback object of the scope. *)
Definition memory (isSession : bool) (st : state) : list (jsstring * jsstring) :=
  if isSession then memory_session st else memory_local st.

(** The native object of the scope is not used, or every call on it throws. *)
Definition down (isSession : bool) (st : state) : Prop :=
  available isSession st = false \/
  exists e, failing (window_storage isSession st) = Some e.

(** What [Storage.get] answers from the fallback object. *)
Definition memory_answer (o : list (jsstring * jsstring)) (key : jsstring) : value :=
  match mem_read o key with
  | MOwn s => safeParse s
  | MInherited => if str_eqb key (js "__proto__") then VObj [] else VFunction key
  | MUndefined => VNull
  end.

(** What [Storage.size] adds for one key of the fallback object: twice
    the length of the key and of the text that [safeStringify] gives
    for what [Storage.get] answers. *)
Definition entry_size (o : list (jsstring * jsstring)) (key : jsstring) : Z :=
  match safeStringify match key with
                      | [] => VNull
                      | _ => memory_answer o key
                      end with
  | Some (c :: s) => Z.of_nat (length key) * 2 + Z.of_nat (length (c :: s)) * 2
  | _ => 0
  end.

(** The sum over the keys of the fallback object. *)
Definition memory_size (o : list (jsstring * jsstring)) : Z :=
  fold_right (fun key size => entry_size o key + size) 0 (obj_keys o).

(** No parser function yields [undefined]. *)
Definition defined_results (f : nat) : Prop :=
  (forall s v r, parse_value f s = POk v r -> is_undefined v = false) /\
  (forall s acc v r, parse_elements f s acc = POk v r -> is_undefined v = false) /\
  (forall s acc v r, parse_members f s acc = POk v r -> is_undefined v = false).

(** [st'] differs from [st] at most in the items of the native objects. *)
Definition same_shell (st st' : state) : Prop :=
  localStorageAvailable st' = localStorageAvailable st /\
  sessionStorageAvailable st' = sessionStorageAvailable st /\
  memory_local st' = memory_local st /\
  memory_session st' = memory_session st /\
  failing (window_localStorage st') = failing (window_localStorage st) /\
  failing (window_sessionStorage st') = failing (window_sessionStorage st).

(** The native object of the scope works and holds [v] under [k]. *)
Definition stored_at (sc : bool) (k v : jsstring) (st : state) : Prop :=
  failing (window_storage sc st) = None /\
  items (window_storage sc st) !! k = Some v.

(** The write of [text] under [key] lands where [Storage.get] looks:
    the native object is out of use, or the native write succeeds. *)
Definition lands (sc : bool) (key text : jsstring) (st : state) : Prop :=
  (down sc st /\ key <> js "__proto__") \/
  exists st1, native_write sc key text st = (Ok true, st1).

(** A native object without quota, and one on which every call
    throws. *)
Definition unlimited : native := mkNative ∅ (fun _ _ _ => true) None.

Definition blocked : native :=
  mkNative ∅ (fun _ _ _ => true)
           (Some (mkExn (js "SecurityError") 18 (js "The operation is insecure."))).

(** An object without prototype that refers to itself:
    [JSON.stringify] and [String] both throw on it. *)
Definition unprintable : argument :=
  Unserializable
    (Throw (mkExn (js "TypeError") 0 (js "Cannot convert object to primitive value"))).

(** A structured value. *)
Definition sample : value :=
  VObj [(js "name", VStr (js "Ada")); (js "step", VNum (Int 2));
        (js "tags", VArr [VStr (js "a"); VNull; VBool true])]%string.

(** The native object of the scope takes every write. *)
Definition roomy (sc : bool) (st : state) : Prop :=
  available sc st = true /\
  failing (window_storage sc st) = None /\
  forall k v m, accepts (window_storage sc st) k v m = true.

(** Every [Storage.set] lands where [Storage.get] reads. *)
Definition dependable (sc : bool) (st : state) : Prop :=
  down sc st \/ roomy sc st.

(** ** Eviction, probes and samples *)

(** The keys that [_handleQuotaExceeded] may remove: those that start
    with one of [keysToCheck] and those that contain [_timestamp_]. *)
Definition evictable (k : jsstring) : bool :=
  existsb (fun prefix => startsWith k prefix) keysToCheck
  || includes k (js "_timestamp_").

(** What [Storage.get] makes of the item of a working native object. *)
Definition native_answer (n : native) (k : jsstring) : value :=
  match items n !! k with
  | Some s => safeParse s
  | None => VNull
  end.

(** The items of the scope are the same at [k]. *)
Definition same_item (sc : bool) (k : jsstring) (st st' : state) : Prop :=
  items (window_storage sc st') !! k = items (window_storage sc st) !! k.

(** A native object that takes values of at most four code units. *)
Definition small_quota (m : gmap jsstring jsstring) : native :=
  mkNative m (fun _ v _ => (length v <=? 4)%nat) None.

(** The state after [initLocalStorage] on such a local storage that
    holds an old note. *)
Definition cramped : state :=
  snd (initLocalStorage (loaded (small_quota {[ js "note" := js "old" ]}) unlimited)).

(** The probe of [testStorageAvailability] goes through. *)
Definition usable (n : native) : bool :=
  match failing n with
  | Some _ => false
  | None => accepts n (js "__storage_test__") (js "test") (items n)
  end.

(** The keys that [Storage.keys] collects from a native object: those
    that are not empty, in the order of [storage.key]. *)
Definition native_key_list (n : native) : list jsstring :=
  List.filter (fun k => match k with [] => false | _ => true end)
              (map fst (map_to_list (items n))).

End LocalStorage.

(* ================================================================== *)
(** * js/accessibility.js: the form validation module                  *)
(* ================================================================== *)

Module Validation.
Import JS.

(** ** The document *)

(** A form control.  Only what the module reads is kept. *)
Record element : Type := mkElement {
  el_tag : jsstring;
  el_id : jsstring;
  el_name : jsstring;
  el_type : jsstring;
  el_value : jsstring;
  el_checked : bool;
  el_attrs : list (jsstring * jsstring);
  el_classes : list jsstring
}.

Definition hasAttribute (e : element) (a : string) : bool :=
  obj_has (el_attrs e) (js a).

(** [e.getAttribute(a) || e.getAttribute(b)], when the result is truthy. *)
Definition attribute_or (e : element) (a b : string) : option jsstring :=
  match obj_get (el_attrs e) (js a) with
  | Some (c :: s) => Some (c :: s)
  | _ => match obj_get (el_attrs e) (js b) with
         | Some (c :: s) => Some (c :: s)
         | _ => None
         end
  end.

Definition has_class (e : element) (c : string) : bool :=
  existsb (fun x => str_eqb x (js c)) (el_classes e).

(** [document.querySelectorAll('input[name="..."]:checked')]; the name
    is taken to need no escaping inside the selector. *)
Definition checked_inputs (doc : list element) (name : jsstring) : list element :=
  List.filter (fun e => str_eqb (el_tag e) (js "input")
                        && str_eqb (el_name e) name && el_checked e) doc.

(** ** Configuration *)

Definition minStoryLength : Z := 200.

Definition msg_required := js "This field is required".
Definition msg_email := js "Please enter a valid email address".
Definition msg_phone := js "Please enter a valid phone number".
Definition msg_pattern := js "Please match the required format".
Definition msg_department := js "Please select a valid department".
Definition msg_relationship :=
  js "Please describe your relationship to the nominee".

(** [NaN] prints as [NaN]. *)
Definition number_text (n : option Z) : jsstring :=
  match n with Some z => Z_toString z | None => js "NaN" end.

Definition msg_minLength (n : option Z) : jsstring :=
  js "Must be at least " ++ number_text n ++ js " characters".
Definition msg_maxLength (n : option Z) : jsstring :=
  js "Must be no more than " ++ number_text n ++ js " characters".

(** ** Rules *)

Inductive rule : Type :=
| RRequired
| REmail
| RPhone
| RMinLength (n : option Z)
| RMaxLength (n : option Z)
| RPattern (p : jsstring)
| RCustom (validator : jsstring) (param : option jsstring).

Definition when {A} (b : bool) (x : A) : list A := if b then [x] else [].

(** [extractValidationRules(field)] *)
Definition extractValidationRules (field : element) : list rule :=
  when (hasAttribute field "required" || hasAttribute field "data-required")
       RRequired ++
  when (str_eqb (el_type field) (js "email") || hasAttribute field "data-email")
       REmail ++
  when (str_eqb (el_type field) (js "tel") || hasAttribute field "data-phone")
       RPhone ++
  match attribute_or field "minlength" "data-min-length" with
  | Some a => [RMinLength (parseInt a)]
  | None => []
  end ++
  match attribute_or field "maxlength" "data-max-length" with
  | Some a => [RMaxLength (parseInt a)]
  | None => []
  end ++
  match attribute_or field "pattern" "data-pattern" with
  | Some p => [RPattern p]
  | None => []
  end ++
  when (str_eqb (el_name field) (js "story") || has_class field "nominee-story")
       (RCustom (js "storyMinimum") None) ++
  when (str_eqb (el_name field) (js "qualities") || has_class field "quality-checkbox")
       (RCustom (js "checkboxGroup") (Some (el_name field))) ++
  when (str_eqb (el_name field) (js "department") || has_class field "department-select")
       (RCustom (js "department") None) ++
  when (str_eqb (el_name field) (js "relationship") || has_class field "relationship-field")
       (RCustom (js "relationship") None).

Definition is_required (r : rule) : bool :=
  match r with RRequired => true | _ => false end.

(** [hasRequiredRule(rules)] *)
Definition hasRequiredRule (rules : list rule) : bool := existsb is_required rules.

(** [getFieldValue(field)] *)
Definition getFieldValue (doc : list element) (field : element) : value :=
  if str_eqb (el_type field) (js "checkbox") then
    match el_name field with
    | [] => VBool (el_checked field)
    | name => VArr (map (fun cb => VStr (el_value cb)) (checked_inputs doc name))
    end
  else if str_eqb (el_type field) (js "radio") then
    match checked_inputs doc (el_name field) with
    | c :: _ => VStr (el_value c)
    | [] => VStr []
    end
  else VStr (el_value field).

(** The number of pieces of [s.split(/\s+/)] for a trimmed [s]. *)
Fixpoint pieces (s : jsstring) (in_gap : bool) : nat :=
  match s with
  | [] => 1
  | c :: r =>
      if is_whitespace c then
        if in_gap then pieces r true else S (pieces r true)
      else pieces r false
  end.

Definition departments : list jsstring :=
  map js ["engineering"; "sales"; "marketing"; "hr"; "finance"; "operations";
          "customer-service"; "product"; "design"; "other"]%string.

Definition emailRegex : jsstring := js "^[^\s@]+@[^\s@]+\.[^\s@]+$".
Definition phoneRegex : jsstring := js "^\+?[\d\s\-()]+$".

(** [a >= b] on numbers, where [None] is [NaN]. *)
Definition ge_number (a : Z) (b : option Z) : bool :=
  match b with Some z => z <=? a | None => false end.
Definition le_number (a : Z) (b : option Z) : bool :=
  match b with Some z => a <=? z | None => false end.

Section Validators.
(** [new RegExp(source).test(s)]; [None] when the source does not
    compile.  The regular expression engine is not modelled. *)
Variable RegExp_test : jsstring -> jsstring -> option bool.
(** [s.toLowerCase()] *)
Variable toLowerCase : jsstring -> jsstring.
(** [Math.round] of a quotient that lies exactly halfway between two
    integers: whether the double-precision result is rounded up. *)
Variable half_up : Z -> Z -> bool.

(** A regular expression literal always compiles. *)
Definition literal_test (source s : jsstring) : bool :=
  default false (RegExp_test source s).

(** The base validators.  [None] is the TypeError raised when a string
    method is called on a value that has none. *)
Definition validator_required (v : value) : bool :=
  match v with
  | VStr s => negb (str_eqb (trim s) [])
  | VArr l => match l with [] => false | _ => true end
  | VNull | VUndefined => false
  | _ => true
  end.

Definition validator_email (v : value) : option bool :=
  if negb (truthy v) then Some true
  else match v with
       | VStr s => Some (literal_test emailRegex (trim s))
       | _ => None
       end.

Definition validator_phone (v : value) : option bool :=
  if negb (truthy v) then Some true
  else match v with
       | VStr s =>
           let cleaned := List.filter is_digit s in
           Some (literal_test phoneRegex s
                 && (10 <=? length cleaned)%nat && (length cleaned <=? 15)%nat)
       | _ => None
       end.

Definition validator_minLength (v : value) (n : option Z) : option bool :=
  if negb (truthy v) then Some true
  else match v with
       | VStr s => Some (ge_number (Z.of_nat (length (trim s))) n)
       | _ => None
       end.

Definition validator_maxLength (v : value) (n : option Z) : option bool :=
  if negb (truthy v) then Some true
  else match v with
       | VStr s => Some (le_number (Z.of_nat (length (trim s))) n)
       | _ => None
       end.

Definition validator_pattern (v : value) (p : jsstring) : bool :=
  if negb (truthy v) then true
  else default false (RegExp_test p (toString v)).

(** The custom validators. *)
Definition custom_storyMinimum (v : value) : option bool :=
  if negb (truthy v) then Some false
  else match v with
       | VStr s => Some (minStoryLength <=? Z.of_nat (length (trim s)))
       | _ => None
       end.

Definition custom_checkboxGroup (doc : list element) (fieldName : jsstring) : bool :=
  match checked_inputs doc fieldName with [] => false | _ => true end.

Definition custom_department (v : value) : option bool :=
  if negb (truthy v) then Some false
  else match v with
       | VStr s => Some (existsb (fun d => str_eqb d (toLowerCase s)) departments)
       | _ => None
       end.

Definition custom_relationship (v : value) : option bool :=
  if negb (truthy v) then Some false
  else match v with
       | VStr s =>
           Some ((2 <=? pieces (trim s) false)%nat
                 && (10 <=? length (trim s))%nat)
       | _ => None
       end.

(** One rule of the loop in [validateField]: whether it passed and the
    message pushed when it did not. *)
Definition check_rule (doc : list element) (v : value) (r : rule)
  : option (bool * jsstring) :=
  match r with
  | RRequired => Some (validator_required v, msg_required)
  | REmail => passed ← validator_email v; Some (passed, msg_email)
  | RPhone => passed ← validator_phone v; Some (passed, msg_phone)
  | RMinLength n => passed ← validator_minLength v n; Some (passed, msg_minLength n)
  | RMaxLength n => passed ← validator_maxLength v n; Some (passed, msg_maxLength n)
  | RPattern p => Some (validator_pattern v p, msg_pattern)
  | RCustom validator param =>
      if str_eqb validator (js "storyMinimum") then
        passed ← custom_storyMinimum v; Some (passed, js "Invalid value")
      else if str_eqb validator (js "checkboxGroup") then
        Some (custom_checkboxGroup doc
                match param with
                | Some (c :: p) => c :: p
                | _ => toString v
                end,
              js "Invalid value")
      else if str_eqb validator (js "department") then
        passed ← custom_department v; Some (passed, msg_department)
      else if str_eqb validator (js "relationship") then
        passed ← custom_relationship v; Some (passed, msg_relationship)
      else Some (true, [])
  end.

(** The loop over the rules: validity and the messages, in order. *)
Fixpoint check_rules (doc : list element) (v : value) (rules : list rule)
  : option (bool * list jsstring) :=
  match rules with
  | [] => Some (true, [])
  | r :: rest =>
      '(passed, message) ← check_rule doc v r;
      '(isValid, errors) ← check_rules doc v rest;
      Some (passed && isValid,
            if passed then errors else message :: errors)
  end.

(** ** Module state *)

Record fieldState : Type := mkFieldState {
  fs_element : element;
  fs_formId : jsstring;
  fs_rules : list rule;
  fs_isValid : bool;
  fs_isDirty : bool;
  fs_value : value
}.

Record formState : Type := mkFormState {
  form_isValid : bool;
  form_completion : Z
}.

(** [state], with the one part of the document the module writes that
    the claims speak about: the [disabled] flag of the submit control of
    each form that has one. *)
Record state : Type := mkState {
  forms : list (jsstring * formState);
  fields : list (jsstring * fieldState);
  errors : list (jsstring * list jsstring);
  touched : list jsstring;
  completionPercentage : Z;
  submitDisabled : list (jsstring * bool)
}.

(** [Map.prototype.set]: a present key keeps its place, a new one is last. *)
Definition map_set {A} (m : list (jsstring * A)) (k : jsstring) (v : A)
  : list (jsstring * A) :=
  if obj_has m k then obj_replace m k v else m ++ [(k, v)].

(** [Math.round((valid / required) * 100)] for [0 <= valid <= required]
    and [0 < required]: the nearest integer to [100 valid / required],
    the direction at an exact half left to [half_up].  When the exact
    quotient is not at a half it is at least [1 / (2 required)] away
    from one, which the two roundings of the double computation cannot
    bridge for any number of fields a page can hold; at an exact half
    the double product may fall on either side. *)
Definition round_percent (valid required : Z) : Z :=
  let q := (200 * valid) / (2 * required) in
  let rest := (200 * valid) mod (2 * required) in
  if rest <? required then q
  else if required <? rest then q + 1
  else if half_up valid required then q + 1 else q.

(** The fields of a form, those with a [required] rule, and the valid
    ones among these. *)
Definition formFields (formId : jsstring) (st : state) : list fieldState :=
  List.filter (fun f => str_eqb (fs_formId f) formId) (map snd (fields st)).

Definition requiredFields (formId : jsstring) (st : state) : list fieldState :=
  List.filter (fun f => hasRequiredRule (fs_rules f)) (formFields formId st).

Definition validFields (formId : jsstring) (st : state) : list fieldState :=
  List.filter fs_isValid (requiredFields formId st).

(** [updateFormCompletion(formId)] *)
Definition updateFormCompletion (formId : jsstring) (st : state) : state :=
  match obj_get (forms st) formId with
  | None => st
  | Some formState =>
      let completion :=
        if (0 <? length (requiredFields formId st))%nat
        then round_percent (Z.of_nat (length (validFields formId st)))
                           (Z.of_nat (length (requiredFields formId st)))
        else 100 in
      let isValid := forallb fs_isValid (requiredFields formId st) in
      mkState (map_set (forms st) formId (mkFormState isValid completion))
              (fields st) (errors st) (touched st) completion
              (if obj_has (submitDisabled st) formId
               then obj_replace (submitDisabled st) formId (negb isValid)
               else submitDisabled st)
  end.

(** [updateFieldUI(field, isValid, errors)], the error map. *)
Definition updateFieldUI (field : element) (isValid : bool)
           (errs : list jsstring) (st : state) : state :=
  if negb (existsb (fun t => str_eqb t (el_id field)) (touched st)) then st
  else
    mkState (forms st) (fields st)
            (if isValid then obj_delete (errors st) (el_id field)
             else map_set (errors st) (el_id field) errs)
            (touched st) (completionPercentage st) (submitDisabled st).

(** [validateField(field)]: [None] when a validator raises. *)
Definition validateField (doc : list element) (field : element) (st : state)
  : option (bool * state) :=
  match obj_get (fields st) (el_id field) with
  | None => Some (true, st)
  | Some fieldState =>
      let v := getFieldValue doc field in
      '(isValid, errs) ← check_rules doc v (fs_rules fieldState);
      let fieldState' :=
        mkFieldState (fs_element fieldState) (fs_formId fieldState)
                     (fs_rules fieldState) isValid (fs_isDirty fieldState) v in
      let st1 := mkState (forms st) (map_set (fields st) (el_id field) fieldState')
                         (errors st) (touched st) (completionPercentage st)
                         (submitDisabled st) in
      let st2 := updateFieldUI field isValid errs st1 in
      Some (isValid, updateFormCompletion (fs_formId fieldState) st2)
  end.

(** What the identifier [form] stands for where [initField] reads it.
    The function does not bind it and neither does the module, so it
    is looked up in the global scope: [Unresolvable] when the global
    object has no property of that name (no script defines one and the
    page has no element with id [form], and no embed, form, img,
    object or frame named so), which is a ReferenceError;
    [NotQueryable] for a value without a method [querySelectorAll]
    (such as the collection that stands for several elements of that
    id), which is a TypeError at the call; [AnElement] for an element
    of the page, whose [querySelectorAll] returns the list of
    matches. *)
Inductive global : Type :=
| Unresolvable
| NotQueryable
| AnElement.

(** Whether [form.querySelectorAll(`input[name="${field.name}"]`)]
    returns. *)
Definition finds_group (form : global) : bool :=
  match form with
  | Unresolvable => false
  | NotQueryable => false
  | AnElement => true
  end.

(** [initField(field, formId)] at time [now], the stored field state.
    A field without an id is given a generated one.  The flag is
    [false] when the function raises: its last statement, for a
    checkbox with a name, looks up the group of the checkbox through
    the identifier [form]; the listeners it then adds to the boxes of
    the group are not part of the state. *)
Definition initField (form : global) (doc : list element) (now : Z)
           (field : element) (formId : jsstring) (st : state) : state * bool :=
  match el_id field, el_name field with
  | [], [] => (st, true)
  | _, _ =>
      let fieldId :=
        match el_id field with
        | [] => js "field-" ++ el_name field ++ js "-" ++ Z_toString now
        | i => i
        end in
      let field' :=
        mkElement (el_tag field) fieldId (el_name field) (el_type field)
                  (el_value field) (el_checked field) (el_attrs field)
                  (el_classes field) in
      let rules := extractValidationRules field' in
      (mkState (forms st)
               (map_set (fields st) fieldId
                  (mkFieldState field' formId rules (negb (hasRequiredRule rules))
                                false (getFieldValue doc field')))
               (errors st) (touched st) (completionPercentage st)
               (submitDisabled st),
       if str_eqb (el_type field) (js "checkbox")
          && match el_name field with [] => false | _ => true end
       then finds_group form
       else true)
  end.

End Validators.

(** ** Sample forms *)

(** An engine for which every pattern matches, and lower case for the
    letters A to Z. *)
Definition any_regexp : jsstring -> jsstring -> option bool := fun _ _ => Some true.

Definition ascii_lower (s : jsstring) : jsstring :=
  map (fun c => if ((65 <=? c) && (c <=? 90))%N then (c + 32)%N else c) s.

(** A text input with the given attributes. *)
Definition text_input (id_ name_ value_ : string) (attrs : list (string * string))
  : element :=
  mkElement (js "input") (js id_) (js name_) (js "text") (js value_) false
            (map (fun kv => (js (fst kv), js (snd kv))) attrs) [].

(** The state after [initForm] of a form [formId] whose controls are
    [fs], each with the validity recorded for it; the submit control is
    registered and disabled. *)
Definition registered (formId : string) (fs : list (element * bool)) : state :=
  mkState [(js formId, mkFormState false 0)]
          (map (fun fb => (el_id (fst fb),
                           mkFieldState (fst fb) (js formId)
                                        (extractValidationRules (fst fb))
                                        (snd fb) false (VStr (el_value (fst fb)))))
               fs)
          [] [] 0 [(js formId, true)].

(** A text input whose name is its id. *)
Definition input_with_id (i : jsstring) (value_ : jsstring) (attrs : list (string * string))
  : element :=
  mkElement (js "input") i i (js "text") value_ false
            (map (fun kv => (js (fst kv), js (snd kv))) attrs) [].

(** An empty required field, and a form with 200 filled-in required
    fields followed by it. *)
Definition empty_field : element :=
  input_with_id (js "last") [] [("required", "")]%string.

Definition large_form : state :=
  registered "f"
    (map (fun i => (input_with_id (js "q" ++ N_toString (N.of_nat i)) (js "x")
                                  [("required", "")]%string, true))
         (seq 0 200)
     ++ [(empty_field, false)]).

(** The nominee field with a minimum length of 3. *)
Definition name_field (value_ : string) : element :=
  text_input "nominee" "nominee" value_ [("minlength", "3")]%string.

(** A required checkbox without a name, not checked. *)
Definition agree_box : element :=
  mkElement (js "input") (js "agree") [] (js "checkbox") (js "on") false
            [(js "required", [])] [].

(** ** Registration, the event handlers and saved values *)

(** [state.touched.has(id)] and [state.touched.add(id)] *)
Definition is_touched (id : jsstring) (st : state) : bool :=
  existsb (fun t => str_eqb t id) (touched st).

Definition touch (id : jsstring) (st : state) : state :=
  mkState (forms st) (fields st) (errors st)
          (if is_touched id st then touched st else touched st ++ [id])
          (completionPercentage st) (submitDisabled st).

(** The id under which [initField] stores a field. *)
Definition fieldIdOf (now : Z) (field : element) : jsstring :=
  match el_id field with
  | [] => js "field-" ++ el_name field ++ js "-" ++ Z_toString now
  | i => i
  end.

(** The [fields.forEach(field => initField(field, form.id))] of
    [initForms]; each field comes with the time at which it is reached.
    The flag is [false] when a call raised, which ends the loop. *)
Fixpoint initFields (form : global) (doc : list element) (formId : jsstring)
         (fs : list (element * Z)) (st : state) : state * bool :=
  match fs with
  | [] => (st, true)
  | (field, now) :: rest =>
      let (st1, returned) := initField form doc now field formId st in
      if returned then initFields form doc formId rest st1 else (st1, false)
  end.

(** A form of the page: its id, the time at which [initForms] reaches
    it, and its controls in document order. *)
Record formElement : Type := mkFormElement {
  fe_id : jsstring;
  fe_now : Z;
  fe_fields : list (element * Z)
}.

(** [initForms()] *)
Fixpoint initForms (form : global) (doc : list element) (fms : list formElement)
         (st : state) : state * bool :=
  match fms with
  | [] => (st, true)
  | fm :: rest =>
      let formId := match fe_id fm with
                    | [] => js "form-" ++ Z_toString (fe_now fm)
                    | i => i
                    end in
      let st1 := mkState (map_set (forms st) formId (mkFormState false 0))
                         (fields st) (errors st) (touched st)
                         (completionPercentage st) (submitDisabled st) in
      let (st2, returned) := initFields form doc formId (fe_fields fm) st1 in
      if returned then initForms form doc rest st2 else (st2, false)
  end.

(** A checkbox with a name: [initField] looks up its group through
    the identifier [form]. *)
Definition named_checkbox (field : element) : bool :=
  str_eqb (el_type field) (js "checkbox")
  && match el_name field with [] => false | _ => true end.

(** A checkbox with a name whose group [initField] fails to look up. *)
Definition raising_checkbox (form : global) (field : element) : bool :=
  named_checkbox field && negb (finds_group form).

Definition has_raising_checkbox (form : global) (fm : formElement) : bool :=
  existsb (fun ft => raising_checkbox form (fst ft)) (fe_fields fm).

(** The module state when the script is loaded. *)
Definition initial (buttons : list (jsstring * bool)) : state :=
  mkState [] [] [] [] 0 buttons.

(** A checkbox of the [qualities] group. *)
Definition quality (id_ value_ : string) : element :=
  mkElement (js "input") (js id_) (js "qualities") (js "checkbox") (js value_)
            false [] [].

(** The nomination form: two text inputs, a group of two checkboxes,
    and a required text area after them. *)
Definition story_area : element :=
  mkElement (js "textarea") (js "story") (js "story") (js "textarea") []
            false [(js "required", [])] [].

Definition nomination : formElement :=
  mkFormElement (js "nominationForm") 0
    [(text_input "nominee" "nominee" "" [("required", "")]%string, 1);
     (quality "q1" "reliable", 2); (quality "q2" "empathetic", 3);
     (story_area, 4)].

Definition nickname (value_ : string) : element :=
  text_input "nick" "nick" value_ [("maxlength", "3")]%string.

(** [document.getElementById(id)] *)
Definition getElementById (doc : list element) (id : jsstring) : option element :=
  match id with
  | [] => None
  | _ => find (fun e => str_eqb (el_id e) id) doc
  end.

(** The key under which the module saves the values of a form. *)
Definition formAutosaveKey (formId : jsstring) : jsstring :=
  js "rare_form_autosave_" ++ formId.

(** [collectFormData(formId)]; assigning to [__proto__] creates no
    property. *)
Definition collectFormData (formId : jsstring) (st : state) : value :=
  VObj (fold_left
          (fun data kv =>
             if str_eqb (fs_formId (snd kv)) formId
             then if str_eqb (fst kv) (js "__proto__") then data
                  else obj_set data (fst kv) (fs_value (snd kv))
             else data)
          (fields st) []).

(** [saveFieldToStorage(field)], the write; [window.Storage] is the
    adapter of js/local-storage.js, which does not raise. *)
Definition saveFieldToStorage (field : element) (st : state)
           (ls : LocalStorage.state) : LocalStorage.state :=
  match obj_get (fields st) (el_id field) with
  | Some fieldState =>
      match fs_formId fieldState with
      | [] => ls
      | formId =>
          snd (LocalStorage.set (formAutosaveKey formId)
                                (collectFormData formId st) false ls)
      end
  | None => ls
  end.

(** A listener of the module that an event sets off: [handleFieldBlur]
    and [handleFieldChange], which [initField] adds to each control it
    stores, and the [() => validateField(field)] that it adds to the
    boxes of the group of a checkbox [field]. *)
Inductive listener : Type :=
| OnBlur (target : element)
| OnChange (target : element)
| OnGroupChange (field : element).

(** Whether the listener ends with [saveFieldToStorage]. *)
Definition saving (l : listener) : bool :=
  match l with
  | OnBlur _ => true
  | OnChange _ => true
  | OnGroupChange _ => false
  end.

(** [Array.from(state.errors.keys())[0]], when it is not the empty
    string, looked up with [document.getElementById]. *)
Definition firstErrorField (doc : list element) (st : state) : option element :=
  match errors st with
  | [] => None
  | (firstError, _) :: _ =>
      match firstError with
      | [] => None
      | _ => getElementById doc firstError
      end
  end.

Section Handlers.
Variable RegExp_test : jsstring -> jsstring -> option bool.
Variable toLowerCase : jsstring -> jsstring.
Variable half_up : Z -> Z -> bool.
Local Abbreviation validateField := (validateField RegExp_test toLowerCase half_up).

(** [handleFieldBlur(e)] for [e.target = field]: [None] when
    [validateField] raises. *)
Definition handleFieldBlur (doc : list element) (field : element)
           (st : state) (ls : LocalStorage.state)
  : option (state * LocalStorage.state) :=
  '(_, st1) ← validateField doc field (touch (el_id field) st);
  Some (st1, saveFieldToStorage field st1 ls).

(** [handleFieldChange(e)] for [e.target = field]: [None] when
    [validateField] raises. *)
Definition handleFieldChange (doc : list element) (field : element)
           (st : state) (ls : LocalStorage.state)
  : option (state * LocalStorage.state) :=
  '(_, st1) ← validateField doc field st;
  Some (st1, saveFieldToStorage field st1 ls).

(** One listener run by the browser while it dispatches an event.  What
    the listener raises is reported to the console and does not reach
    the code that set the event off; [handleFieldBlur] has then
    marked its field as touched, and nothing else is changed. *)
Definition run (doc : list element) (l : listener) (st : state)
           (ls : LocalStorage.state) : state * LocalStorage.state :=
  match l with
  | OnBlur target =>
      match handleFieldBlur doc target st ls with
      | Some r => r
      | None => (touch (el_id target) st, ls)
      end
  | OnChange target =>
      match handleFieldChange doc target st ls with
      | Some r => r
      | None => (st, ls)
      end
  | OnGroupChange field =>
      match validateField doc field st with
      | Some (_, st1) => (st1, ls)
      | None => (st, ls)
      end
  end.

Fixpoint dispatch (doc : list element) (ls_ : list listener) (st : state)
         (ls : LocalStorage.state) : state * LocalStorage.state :=
  match ls_ with
  | [] => (st, ls)
  | l :: rest => let (st1, ls1) := run doc l st ls in dispatch doc rest st1 ls1
  end.

(** The loop of [validateForm] and of [handleFormSubmit] over
    [state.fields]; [touching] adds each field of the form to
    [state.touched] first. *)
Fixpoint validateEach (touching : bool) (doc : list element) (formId : jsstring)
         (ids : list jsstring) (st : state) (allValid : bool)
  : option (bool * state) :=
  match ids with
  | [] => Some (allValid, st)
  | fieldId :: rest =>
      match obj_get (fields st) fieldId with
      | Some fieldState =>
          if str_eqb (fs_formId fieldState) formId then
            let st1 := if touching then touch fieldId st else st in
            match getElementById doc fieldId with
            | Some field =>
                '(valid, st2) ← validateField doc field st1;
                validateEach touching doc formId rest st2 (allValid && valid)
            | None => validateEach touching doc formId rest st1 allValid
            end
          else validateEach touching doc formId rest st allValid
      | None => validateEach touching doc formId rest st allValid
      end
  end.

(** [validateForm(formId)] *)
Definition validateForm (doc : list element) (formId : jsstring) (st : state)
  : option (bool * state) :=
  match obj_get (forms st) formId with
  | None => Some (false, st)
  | Some _ => validateEach false doc formId (map fst (fields st)) st true
  end.

(** [handleFormSubmit(e)] for [e.target] the form [formId]: the value
    returned, the module state and the storage.  On the failing branch
    [field.focus()] moves the focus to the first field in error, and
    the control that loses it is sent its events before [focus]
    returns: [focus field] is the list of the listeners of the module
    that the browser runs then, in their order.  It is empty when no
    control that [initField] stored loses the focus: when the field
    has the focus already or cannot take it, or when the focus was on
    the submit button.  A control that loses the focus is sent [blur],
    after [change] if its edits were not committed yet. *)
Definition handleFormSubmit (focus : element -> list listener)
           (doc : list element) (formId : jsstring)
           (st : state) (ls : LocalStorage.state)
  : option (bool * state * LocalStorage.state) :=
  match validateEach true doc formId (map fst (fields st)) st true with
  | Some (true, st1) =>
      Some (true, st1, snd (LocalStorage.remove (formAutosaveKey formId) false ls))
  | Some (false, st1) =>
      match firstErrorField doc st1 with
      | Some field =>
          let (st2, ls2) := dispatch doc (focus field) st1 ls in
          Some (false, st2, ls2)
      | None => Some (false, st1, ls)
      end
  | None => None
  end.

(** What the loops find for one field: whether it passes its rules. *)
Definition field_ok (doc : list element) (formId : jsstring) (st : state)
           (fieldId : jsstring) : bool :=
  match obj_get (fields st) fieldId with
  | Some fieldState =>
      if str_eqb (fs_formId fieldState) formId then
        match getElementById doc fieldId with
        | Some field =>
            match check_rules RegExp_test toLowerCase doc (getFieldValue doc field)
                              (fs_rules fieldState) with
            | Some (b, _) => b
            | None => true
            end
        | None => true
        end
      else true
  | None => true
  end.
End Handlers.

(** Every recorded value is one that JSON represents, as those that
    [getFieldValue] returns are. *)
Definition plain_values (st : state) : Prop :=
  Forall (fun kv => json_value (fs_value (snd kv)) = true) (fields st).

(** [st] has the rules and the form ids of [st0], field by field. *)
Definition same_rules (st0 st : state) : Prop :=
  forall id, (fun f => (fs_rules f, fs_formId f)) <$> obj_get (fields st) id
             = (fun f => (fs_rules f, fs_formId f)) <$> obj_get (fields st0) id.

(** A page: one form with a required name and an optional nickname. *)
Definition name_input (value_ : string) : element :=
  text_input "name" "name" value_ [("required", "")]%string.

Definition nick_input (value_ : string) : element :=
  text_input "nick" "nick" value_ [("maxlength", "3")]%string.

Definition two_fields (name_ nick_ : string) : state :=
  registered "form" [(name_input name_, false); (nick_input nick_, true)].

(** Moving the focus to the name takes it from the nickname. *)
Definition from_nick (field : element) : list listener :=
  if str_eqb (el_id field) (js "name") then [OnBlur (nick_input "abc")] else [].

Definition roomy_storage : LocalStorage.state :=
  LocalStorage.mkState true true [] [] LocalStorage.unlimited LocalStorage.unlimited.

End Validation.

(* ================================================================== *)
(** * js/form-handler.js                                               *)
(* ================================================================== *)

Module FormHandler.
Import JS.

(** ** Configuration *)

Definition autoSaveDelay : Z := 500.
Definition autoSaveKey : jsstring := js "rare_form_autosave".
Definition autoSaveCurrentKey : jsstring := autoSaveKey ++ js "_current".
Definition draftsKey : jsstring := js "rare_form_drafts".
Definition maxDrafts : nat := 5.
Definition successRedirect : jsstring := js "success.html".
Definition configSteps : Z := 4.
Definition submitTimeout : Z := 30000.
Definition submissionRefKey : jsstring := js "rare_submission_ref".

(** ** The page *)

(** A control inside a step: what [saveStepData] reads. *)
Record field : Type := mkField {
  f_name : jsstring;
  f_id : jsstring;
  f_type : jsstring;
  f_value : jsstring;
  f_checked : bool;
  f_files : nat
}.

(** The classes [active] and [completed] of a step indicator. *)
Record indicator : Type := mkIndicator {
  ind_active : bool;
  ind_completed : bool
}.

(** A message container: its text and whether it is displayed. *)
Record container : Type := mkContainer {
  c_text : value;
  c_shown : bool
}.

Record button : Type := mkButton {
  b_text : jsstring;
  b_disabled : bool
}.

(** What a pending [setTimeout] callback does. *)
Inductive action : Type :=
| Focus
| HideStepError
| HideSuccess
| RemoveInfo
| RemoveAnnouncement
| HideAutoSaveIndicator
| Redirect (url : jsstring).

(** The module's [state] object, the elements it caches, and the parts
    of the browser it acts on.  [autoSaveTimer] tells whether an
    auto-save is pending; the other pending timers are in [timers] with
    their delays.  [confetti] is [None] when [window.triggerConfetti]
    is not a function, else the number of times it was called;
    [requests] counts the calls of [fetch]. *)
Record world : Type := mkWorld {
  currentStep : Z;
  totalSteps : Z;
  formData : value;
  isSubmitting : bool;
  autoSaveTimer : bool;
  currentDraftId : value;
  form : bool;
  steps : list (list field);
  stepIndicators : list indicator;
  errorContainer : option container;
  successContainer : option container;
  submitBtn : option button;
  announcements : list value;
  timers : list (Z * action);
  storage : LocalStorage.state;
  requests : nat;
  confetti : option nat
}.

(** Record updates. *)
Definition set_currentStep (n : Z) (w : world) : world :=
  mkWorld n (totalSteps w) (formData w) (isSubmitting w) (autoSaveTimer w)
          (currentDraftId w) (form w) (steps w) (stepIndicators w)
          (errorContainer w) (successContainer w) (submitBtn w)
          (announcements w) (timers w) (storage w) (requests w) (confetti w).

Definition set_totalSteps (n : Z) (w : world) : world :=
  mkWorld (currentStep w) n (formData w) (isSubmitting w) (autoSaveTimer w)
          (currentDraftId w) (form w) (steps w) (stepIndicators w)
          (errorContainer w) (successContainer w) (submitBtn w)
          (announcements w) (timers w) (storage w) (requests w) (confetti w).

Definition set_formData (v : value) (w : world) : world :=
  mkWorld (currentStep w) (totalSteps w) v (isSubmitting w) (autoSaveTimer w)
          (currentDraftId w) (form w) (steps w) (stepIndicators w)
          (errorContainer w) (successContainer w) (submitBtn w)
          (announcements w) (timers w) (storage w) (requests w) (confetti w).

Definition set_isSubmitting (b : bool) (w : world) : world :=
  mkWorld (currentStep w) (totalSteps w) (formData w) b (autoSaveTimer w)
          (currentDraftId w) (form w) (steps w) (stepIndicators w)
          (errorContainer w) (successContainer w) (submitBtn w)
          (announcements w) (timers w) (storage w) (requests w) (confetti w).

Definition set_autoSaveTimer (b : bool) (w : world) : world :=
  mkWorld (currentStep w) (totalSteps w) (formData w) (isSubmitting w) b
          (currentDraftId w) (form w) (steps w) (stepIndicators w)
          (errorContainer w) (successContainer w) (submitBtn w)
          (announcements w) (timers w) (storage w) (requests w) (confetti w).

Definition set_currentDraftId (v : value) (w : world) : world :=
  mkWorld (currentStep w) (totalSteps w) (formData w) (isSubmitting w)
          (autoSaveTimer w) v (form w) (steps w) (stepIndicators w)
          (errorContainer w) (successContainer w) (submitBtn w)
          (announcements w) (timers w) (storage w) (requests w) (confetti w).

Definition set_steps (s : list (list field)) (w : world) : world :=
  mkWorld (currentStep w) (totalSteps w) (formData w) (isSubmitting w)
          (autoSaveTimer w) (currentDraftId w) (form w) s (stepIndicators w)
          (errorContainer w) (successContainer w) (submitBtn w)
          (announcements w) (timers w) (storage w) (requests w) (confetti w).

Definition set_stepIndicators (l : list indicator) (w : world) : world :=
  mkWorld (currentStep w) (totalSteps w) (formData w) (isSubmitting w)
          (autoSaveTimer w) (currentDraftId w) (form w) (steps w) l
          (errorContainer w) (successContainer w) (submitBtn w)
          (announcements w) (timers w) (storage w) (requests w) (confetti w).

Definition set_errorContainer (c : option container) (w : world) : world :=
  mkWorld (currentStep w) (totalSteps w) (formData w) (isSubmitting w)
          (autoSaveTimer w) (currentDraftId w) (form w) (steps w)
          (stepIndicators w) c (successContainer w) (submitBtn w)
          (announcements w) (timers w) (storage w) (requests w) (confetti w).

Definition set_successContainer (c : option container) (w : world) : world :=
  mkWorld (currentStep w) (totalSteps w) (formData w) (isSubmitting w)
          (autoSaveTimer w) (currentDraftId w) (form w) (steps w)
          (stepIndicators w) (errorContainer w) c (submitBtn w)
          (announcements w) (timers w) (storage w) (requests w) (confetti w).

Definition set_submitBtn (b : option button) (w : world) : world :=
  mkWorld (currentStep w) (totalSteps w) (formData w) (isSubmitting w)
          (autoSaveTimer w) (currentDraftId w) (form w) (steps w)
          (stepIndicators w) (errorContainer w) (successContainer w) b
          (announcements w) (timers w) (storage w) (requests w) (confetti w).

Definition set_announcements (l : list value) (w : world) : world :=
  mkWorld (currentStep w) (totalSteps w) (formData w) (isSubmitting w)
          (autoSaveTimer w) (currentDraftId w) (form w) (steps w)
          (stepIndicators w) (errorContainer w) (successContainer w)
          (submitBtn w) l (timers w) (storage w) (requests w) (confetti w).

Definition set_timers (l : list (Z * action)) (w : world) : world :=
  mkWorld (currentStep w) (totalSteps w) (formData w) (isSubmitting w)
          (autoSaveTimer w) (currentDraftId w) (form w) (steps w)
          (stepIndicators w) (errorContainer w) (successContainer w)
          (submitBtn w) (announcements w) l (storage w) (requests w) (confetti w).

Definition set_storage (s : LocalStorage.state) (w : world) : world :=
  mkWorld (currentStep w) (totalSteps w) (formData w) (isSubmitting w)
          (autoSaveTimer w) (currentDraftId w) (form w) (steps w)
          (stepIndicators w) (errorContainer w) (successContainer w)
          (submitBtn w) (announcements w) (timers w) s (requests w) (confetti w).

Definition set_requests (n : nat) (w : world) : world :=
  mkWorld (currentStep w) (totalSteps w) (formData w) (isSubmitting w)
          (autoSaveTimer w) (currentDraftId w) (form w) (steps w)
          (stepIndicators w) (errorContainer w) (successContainer w)
          (submitBtn w) (announcements w) (timers w) (storage w) n (confetti w).

Definition set_confetti (c : option nat) (w : world) : world :=
  mkWorld (currentStep w) (totalSteps w) (formData w) (isSubmitting w)
          (autoSaveTimer w) (currentDraftId w) (form w) (steps w)
          (stepIndicators w) (errorContainer w) (successContainer w)
          (submitBtn w) (announcements w) (timers w) (storage w) (requests w) c.

(** [setTimeout(callback, delay)] *)
Definition setTimeout (a : action) (delay : Z) (w : world) : world :=
  set_timers (timers w ++ [(delay, a)]) w.

(** What a handler leaves behind: it returns, or an exception escapes
    it.  [Stray v w] is a handler that wrote [v], the step of a stored
    record and not a safe integer, into [state.currentStep]; [w] is the
    page at that write, with the step index it had before.  What the
    handler and the page do with such an index is not followed. *)
Inductive outcome : Type :=
| Done (w : world)
| Raised (e : LocalStorage.exn) (w : world)
| Stray (v : value) (w : world).

Definition TypeError (message : string) : LocalStorage.exn :=
  LocalStorage.mkExn (js "TypeError") 0 (js message).

(** ** Messages *)

(** [announceToScreenReader(message)] *)
Definition announceToScreenReader (message : value) (w : world) : world :=
  setTimeout RemoveAnnouncement 1000
    (set_announcements (announcements w ++ [message]) w).

(** [showFormError(message)] *)
Definition showFormError (message : value) (w : world) : world :=
  announceToScreenReader message
    (match errorContainer w with
     | Some _ => set_errorContainer (Some (mkContainer message true)) w
     | None => w
     end).

(** [showFormSuccess(message)] *)
Definition showFormSuccess (message : value) (w : world) : world :=
  setTimeout HideSuccess 5000
    (announceToScreenReader message
       (match successContainer w with
        | Some _ => set_successContainer (Some (mkContainer message true)) w
        | None => w
        end)).

(** [showFormInfo(message)] *)
Definition showFormInfo (message : value) (w : world) : world :=
  setTimeout RemoveInfo 5000 w.

(** [showStepError(message)] *)
Definition showStepError (message : value) (w : world) : world :=
  match steps w !! Z.to_nat (currentStep w - 1) with
  | Some _ => setTimeout HideStepError 5000 w
  | None => w
  end.

(** [clearErrors()] *)
Definition clearErrors (w : world) : world :=
  match errorContainer w with
  | Some _ => set_errorContainer (Some (mkContainer (VStr []) false)) w
  | None => w
  end.

(** [showLoadingState(show)] *)
Definition showLoadingState (show : bool) (w : world) : world :=
  match submitBtn w with
  | Some _ =>
      set_submitBtn
        (Some (mkButton (if show then js "Submitting..." else js "Submit") show)) w
  | None => w
  end.

(** ** Steps *)

(** [updateStepIndicators()] *)
Definition updateStepIndicators (w : world) : world :=
  set_stepIndicators
    (imap (fun index _ =>
             let stepNum := Z.of_nat index + 1 in
             mkIndicator (stepNum =? currentStep w) (stepNum <? currentStep w))
          (stepIndicators w))
    w.

(** [announceStep()] *)
Definition announceStep (w : world) : world :=
  announceToScreenReader
    (VStr (js "Step " ++ Z_toString (currentStep w) ++ js " of "
           ++ Z_toString (totalSteps w)))
    w.

(** [showStep(stepNumber)].  The class changes on the step elements, the
    navigation buttons and the progress bar are left out. *)
Definition showStep (stepNumber : Z) (w : world) : world :=
  if (stepNumber <? 1) || (totalSteps w <? stepNumber) then w
  else
    let w1 := set_currentStep stepNumber w in
    let w2 :=
      match steps w1 !! Z.to_nat (stepNumber - 1) with
      | Some (_ :: _) => setTimeout Focus 100 w1
      | _ => w1
      end in
    announceStep (updateStepIndicators w2).

(** ** The form-data aggregate *)

(** [formData[name]]: an own property, else an inherited member of
    [Object.prototype], else [undefined]. *)
Definition prop_read (ms : list (jsstring * value)) (name : jsstring) : value :=
  match obj_get ms name with
  | Some v => v
  | None =>
      if LocalStorage.inherited name then
        if str_eqb name (js "__proto__") then VObj [] else VFunction name
      else VUndefined
  end.

(** [formData[name] = v].  Assigning to [__proto__] does not create a
    property (the change of prototype by an object value is left out). *)
Definition prop_write (ms : list (jsstring * value)) (name : jsstring) (v : value)
  : list (jsstring * value) :=
  if str_eqb name (js "__proto__") then ms else obj_set ms name v.

(** [v !== s] for a string [s]. *)
Definition differs (s : jsstring) (v : value) : bool :=
  match v with VStr t => negb (str_eqb t s) | _ => true end.

(** The body of the loop of [saveStepData] for one field; [None] is a
    TypeError. *)
Definition saveField (ms : list (jsstring * value)) (f : field)
  : option (list (jsstring * value)) :=
  let name := match f_name f with [] => f_id f | n => n end in
  match name with
  | [] => Some ms
  | _ =>
      if str_eqb (f_type f) (js "checkbox") then
        let ms1 := if truthy (prop_read ms name) then ms
                   else prop_write ms name (VArr []) in
        match prop_read ms1 name with
        | VArr l =>
            if f_checked f then
              if forallb (differs (f_value f)) l
              then Some (prop_write ms1 name (VArr (l ++ [VStr (f_value f)])))
              else Some ms1
            else Some (prop_write ms1 name (VArr (List.filter (differs (f_value f)) l)))
        | VStr s =>
            if f_checked f && includes s (f_value f) then Some ms1 else None
        | _ => None
        end
      else if str_eqb (f_type f) (js "radio") then
        if f_checked f then Some (prop_write ms name (VStr (f_value f))) else Some ms
      else if str_eqb (f_type f) (js "file") then
        if (0 <? f_files f)%nat then Some (prop_write ms name (VObj [])) else Some ms
      else Some (prop_write ms name (VStr (f_value f)))
  end.

Fixpoint saveFields (ms : list (jsstring * value)) (fs : list field)
  : list (jsstring * value) * bool :=
  match fs with
  | [] => (ms, true)
  | f :: r =>
      match saveField ms f with
      | Some ms' => saveFields ms' r
      | None => (ms, false)
      end
  end.

(** [scheduleAutoSave()] *)
Definition scheduleAutoSave (w : world) : world := set_autoSaveTimer true w.

(** [saveStepData()].  The aggregate is an object unless a stored
    record replaced it; a File is kept as an object without enumerable
    properties.  On [null] and [undefined] the first property read
    raises; any other aggregate that is not an object is not modelled
    and is treated the same way. *)
Definition saveStepData (w : world) : outcome :=
  match steps w !! Z.to_nat (currentStep w - 1) with
  | None => Done w
  | Some fs =>
      match formData w with
      | VObj ms =>
          let (ms', ok) := saveFields ms fs in
          if ok then Done (scheduleAutoSave (set_formData (VObj ms') w))
          else Raised (TypeError "not a function") (set_formData (VObj ms') w)
      | _ =>
          if forallb (fun f => match f_name f, f_id f with
                               | [], [] => true
                               | _, _ => false
                               end) fs
          then Done (scheduleAutoSave w)
          else Raised (TypeError "Cannot read properties") w
      end
  end.

(** [goToStep(stepNumber)] *)
Definition goToStep (stepNumber : Z) (w : world) : outcome :=
  if (1 <=? stepNumber) && (stepNumber <=? totalSteps w) then
    match saveStepData w with
    | Done w' => Done (showStep stepNumber w')
    | o => o
    end
  else Done w.

(** The click listener of the step indicator at [index], bound in
    [initMultiStepForm]. *)
Definition clickIndicator (index : nat) (w : world) : outcome :=
  match stepIndicators w !! index with
  | Some indicator =>
      if ind_completed indicator then goToStep (Z.of_nat index + 1) w
      else Done w
  | None => Done w
  end.

(** [handlePrev(e)] *)
Definition handlePrev (w : world) : outcome :=
  match saveStepData w with
  | Done w' =>
      if 1 <? currentStep w' then Done (showStep (currentStep w' - 1) w')
      else Done w'
  | o => o
  end.

(** [clearFormData()] *)
Definition clearFormData (w : world) : world :=
  set_currentDraftId VNull (set_currentStep 1 (set_formData (VObj []) w)).

(** [initMultiStepForm()], the state.  The listeners it binds are
    [handleNext], [handlePrev], [clickIndicator] and
    [handleKeyboardNavigation]. *)
Definition initMultiStepForm (w : world) : world :=
  if negb (form w) || (length (steps w) =? 0)%nat then w
  else showStep 1 (set_totalSteps (Z.of_nat (length (steps w))) w).

(** ** Auto-save and drafts *)

(** The adapter of js/local-storage.js, run on the world's storage. *)
Definition Storage_get (key : jsstring) (w : world)
  : LocalStorage.result value * world :=
  let (r, st) := LocalStorage.get key false (storage w) in (r, set_storage st w).

Definition Storage_set (key : jsstring) (v : value) (w : world)
  : LocalStorage.result bool * world :=
  let (r, st) := LocalStorage.set key v false (storage w) in (r, set_storage st w).

Definition Storage_remove (key : jsstring) (w : world)
  : LocalStorage.result bool * world :=
  let (r, st) := LocalStorage.remove key false (storage w) in (r, set_storage st w).

(** [performAutoSave()], run by the auto-save timer at time [now];
    [newId] is what [generateDraftId()] would return. *)
Definition performAutoSave (now newId : jsstring) (w : world) : world :=
  let w0 := set_autoSaveTimer false w in
  let saveData :=
    VObj [(js "formData", formData w0);
          (js "currentStep", VNum (Int (currentStep w0)));
          (js "timestamp", VStr now);
          (js "draftId", or_else (currentDraftId w0) (VStr newId))] in
  match Storage_set autoSaveCurrentKey saveData w0 with
  | (LocalStorage.Ok _, w1) => setTimeout HideAutoSaveIndicator 2000 w1
  | (LocalStorage.Throw _, w1) => w1
  end.

(** [clearAutoSave()] *)
Definition clearAutoSave (w : world) : world :=
  match Storage_remove autoSaveCurrentKey w with
  | (LocalStorage.Ok _, w1) => set_currentDraftId VNull w1
  | (LocalStorage.Throw _, w1) => w1
  end.

Section Restore.
(** The writes of [restoreFormData()] to the controls selected by name
    and id; [None] when a selector is refused.  Selectors are not
    modelled. *)
Variable restoreFields : value -> list (list field) -> option (list (list field)).

(** The comparisons [v < n] and [v > n] of the engine for a value [v]
    that is not a safe integer: it converts [v] to a number first, and
    a comparison with [NaN] is false.  [None] is the TypeError of a
    conversion that fails. *)
Variable lessThan : value -> Z -> option bool.
Variable greaterThan : value -> Z -> option bool.

(** [showStep(step)] for the step of a stored record.  A safe integer
    goes through [showStep].  Any other value meets the guard
    [stepNumber < 1 || stepNumber > state.totalSteps] through the two
    comparisons; when neither holds it is written to
    [state.currentStep]. *)
Definition showStoredStep (step : value) (w : world) : outcome :=
  match step with
  | VNum (Int z) => Done (showStep z w)
  | v =>
      match lessThan v 1 with
      | None => Raised (TypeError "Cannot convert object to primitive value") w
      | Some true => Done w
      | Some false =>
          match greaterThan v (totalSteps w) with
          | None => Raised (TypeError "Cannot convert object to primitive value") w
          | Some true => Done w
          | Some false => Stray v w
          end
      end
  end.

(** [restoreFormData()]: [None] when it raises. *)
Definition restoreFormData (w : world) : option world :=
  match formData w with
  | VNull | VUndefined => None
  | fd => (fun s => set_steps s w) <$> restoreFields fd (steps w)
  end.

(** [loadAutoSave()] *)
Definition loadAutoSave (w : world) : outcome :=
  match Storage_get autoSaveCurrentKey w with
  | (LocalStorage.Throw _, w1) => Done w1
  | (LocalStorage.Ok savedData, w1) =>
      if truthy savedData
         && truthy (default VUndefined (get_prop savedData (js "formData")))
      then
        let w2 := set_currentDraftId
                    (default VUndefined (get_prop savedData (js "draftId")))
                    (set_formData
                       (default VUndefined (get_prop savedData (js "formData"))) w1) in
        match restoreFormData w2 with
        | None => Done w2
        | Some w3 =>
            let step := default VUndefined (get_prop savedData (js "currentStep")) in
            if truthy step then
              match showStoredStep step w3 with
              | Done w4 => Done (showFormInfo VNull w4)
              | Raised _ w4 => Done w4
              | Stray v w4 => Stray v w4
              end
            else Done (showFormInfo VNull w3)
        end
      else Done w1
  end.

(** [drafts.find(d => d.id === draftId)]: [None] is the TypeError on a
    [null] element. *)
Fixpoint findDraft (l : list value) (draftId : jsstring) : option (option value) :=
  match l with
  | [] => Some None
  | d :: r =>
      match get_prop d (js "id") with
      | None => None
      | Some (VStr i) => if str_eqb i draftId then Some (Some d) else findDraft r draftId
      | Some _ => findDraft r draftId
      end
  end.

(** [loadDraft(draftId)] *)
Definition loadDraft (draftId : jsstring) (w : world) : outcome :=
  let failed w' := Done (showFormError (VStr (js "Failed to load draft")) w') in
  match Storage_get draftsKey w with
  | (LocalStorage.Throw _, w1) => failed w1
  | (LocalStorage.Ok stored, w1) =>
      match or_else stored (VArr []) with
      | VArr l =>
          match findDraft l draftId with
          | None => failed w1
          | Some None => Done w1
          | Some (Some draft) =>
              let w2 := set_currentDraftId
                          (default VUndefined (get_prop draft (js "id")))
                          (set_formData
                             (default VUndefined (get_prop draft (js "formData"))) w1) in
              match restoreFormData w2 with
              | None => failed w2
              | Some w3 =>
                  let step := or_else (default VUndefined
                                         (get_prop draft (js "currentStep")))
                                      (VNum (Int 1)) in
                  match showStoredStep step w3 with
                  | Done w4 =>
                      Done (showFormSuccess
                              (VStr (js "Draft " ++ [34%N]
                                     ++ toString (default VUndefined
                                                    (get_prop draft (js "name")))
                                     ++ [34%N] ++ js " loaded")) w4)
                  | Raised _ w4 => failed w4
                  | Stray v w4 => Stray v w4
                  end
              end
          end
      | _ => failed w1
      end
  end.
End Restore.

(** [saveDraft(e)].  [answer] is what [prompt] returned, [today] and
    [now] the date in the two formats used, [newId] the result of
    [generateDraftId()].  The rendering of [loadDraftsList()] is left
    out. *)
Definition saveDraft (answer : option jsstring) (today now newId : jsstring)
           (w : world) : world :=
  let draftName :=
    match answer with
    | Some (c :: a) => c :: a
    | _ => js "Draft " ++ today
    end in
  let draft :=
    VObj [(js "id", VStr newId);
          (js "name", VStr draftName);
          (js "formData", formData w);
          (js "currentStep", VNum (Int (currentStep w)));
          (js "createdAt", VStr now)] in
  let failed w' := showFormError (VStr (js "Failed to save draft")) w' in
  match Storage_get draftsKey w with
  | (LocalStorage.Throw _, w1) => failed w1
  | (LocalStorage.Ok stored, w1) =>
      match or_else stored (VArr []) with
      | VArr l =>
          let drafts := draft :: l in
          let drafts :=
            if (maxDrafts <? length drafts)%nat then removelast drafts else drafts in
          match Storage_set draftsKey (VArr drafts) w1 with
          | (LocalStorage.Ok _, w2) =>
              showFormSuccess
                (VStr (js "Draft " ++ [34%N] ++ draftName ++ [34%N]
                       ++ js " saved successfully")) w2
          | (LocalStorage.Throw _, w2) => failed w2
          end
      | _ => failed w1
      end
  end.

(** [drafts.filter(d => d.id !== draftId)] *)
Fixpoint withoutDraft (l : list value) (draftId : jsstring) : option (list value) :=
  match l with
  | [] => Some []
  | d :: r =>
      i ← get_prop d (js "id");
      r' ← withoutDraft r draftId;
      Some (if differs draftId i then d :: r' else r')
  end.

(** [deleteDraft(draftId)]; [confirmed] is what [confirm] returned. *)
Definition deleteDraft (confirmed : bool) (draftId : jsstring) (w : world) : world :=
  if negb confirmed then w
  else
    let failed w' := showFormError (VStr (js "Failed to delete draft")) w' in
    match Storage_get draftsKey w with
    | (LocalStorage.Throw _, w1) => failed w1
    | (LocalStorage.Ok stored, w1) =>
        match or_else stored (VArr []) with
        | VArr l =>
            match withoutDraft l draftId with
            | Some filtered =>
                match Storage_set draftsKey (VArr filtered) w1 with
                | (LocalStorage.Ok _, w2) =>
                    showFormSuccess (VStr (js "Draft deleted")) w2
                | (LocalStorage.Throw _, w2) => failed w2
                end
            | None => failed w1
            end
        | _ => failed w1
        end
    end.

(** ** Submission *)

(** What [fetch] did: it rejected (a TypeError on a network failure, an
    AbortError when the timeout aborted it), or it answered; [body] is
    what [response.json()] gives. *)
Inductive fetched : Type :=
| Rejected (e : LocalStorage.exn)
| Responded (ok : bool) (status : Z) (body : LocalStorage.result value).

(** The surroundings of one submission: the network, the
    [Math.random()] of [simulateSubmission], the product
    [Math.random() * 10000] of [generateReferenceNumber] as the engine
    computes it, and the date. *)
Record submission : Type := mkSubmission {
  sub_fetch : fetched;
  sub_random : Q;
  sub_refRandom : Q;
  sub_year : Z;
  sub_month : Z
}.

(** [generateReferenceNumber()]; [month] is [date.getMonth()] and
    [scaled] the product [Math.random() * 10000]. *)
Definition generateReferenceNumber (year month : Z) (scaled : Q) : jsstring :=
  js "RARE-" ++ Z_toString year ++ padStart0 2 (Z_toString (month + 1))
  ++ js "-" ++ padStart0 4 (Z_toString (Qfloor scaled)).

(** [simulateSubmission()] *)
Definition simulateSubmission (s : submission) : value :=
  if negb (Qle_bool (sub_random s) (1 # 10)) then
    VObj [(js "success", VBool true);
          (js "referenceNumber",
           VStr (generateReferenceNumber (sub_year s) (sub_month s) (sub_refRandom s)));
          (js "message", VStr (js "Nomination submitted successfully"))]
  else
    VObj [(js "success", VBool false);
          (js "error", VStr (js "Simulated error for testing"))].

(** The [catch] block of [submitForm]. *)
Definition submitForm_catch (s : submission) (error : LocalStorage.exn)
  : LocalStorage.result value :=
  if str_eqb (LocalStorage.exn_name error) (js "TypeError")
     || includes (LocalStorage.exn_message error) (js "fetch")
  then LocalStorage.Ok (simulateSubmission s)
  else LocalStorage.Throw error.

(** [submitForm(formData)] *)
Definition submitForm (s : submission) (w : world)
  : LocalStorage.result value * world :=
  let w1 := set_requests (S (requests w)) w in
  match sub_fetch s with
  | Rejected e => (submitForm_catch s e, w1)
  | Responded ok status body =>
      if ok then
        match body with
        | LocalStorage.Ok v => (LocalStorage.Ok v, w1)
        | LocalStorage.Throw e => (submitForm_catch s e, w1)
        end
      else
        (submitForm_catch s
           (LocalStorage.mkExn (js "Error") 0
              (js "HTTP error! status: " ++ Z_toString status)), w1)
  end.

(** [handleSubmitError(error)] *)
Definition handleSubmitError (error : value) (w : world) : world :=
  let w1 := showFormError error w in
  match submitBtn w1 with
  | Some b => set_submitBtn (Some (mkButton (js "Retry Submission") (b_disabled b))) w1
  | None => w1
  end.

(** [handleSubmitSuccess(response)] for a response that is not [null]. *)
Definition handleSubmitSuccess (response : value) (w : world) : outcome :=
  let w1 := clearFormData (clearAutoSave w) in
  let w2 := showFormSuccess
              (or_else (default VUndefined (get_prop response (js "message")))
                       (VStr (js "Form submitted successfully"))) w1 in
  let referenceNumber := default VUndefined (get_prop response (js "referenceNumber")) in
  let stored :=
    if truthy referenceNumber then
      match LocalStorage.setItem true submissionRefKey (toString referenceNumber)
                                 (storage w2) with
      | (LocalStorage.Ok _, st) => Done (set_storage st w2)
      | (LocalStorage.Throw e, st) => Raised e (set_storage st w2)
      end
    else Done w2 in
  match stored with
  | Done w3 =>
      let w4 := match confetti w3 with
                | Some n => set_confetti (Some (S n)) w3
                | None => w3
                end in
      Done (setTimeout (Redirect successRedirect) 2000 w4)
  | o => o
  end.

(** [prepareSubmitData()] raises on an aggregate that is [null] or
    [undefined]. *)
Definition prepareSubmitData (w : world) : bool :=
  match formData w with
  | VNull | VUndefined => false
  | _ => true
  end.

(** [handleSubmit(e)].  [valid] is the result of [validateAllSteps()]. *)
Definition handleSubmit (valid : bool) (s : submission) (w : world) : outcome :=
  if isSubmitting w then Done w
  else if negb valid then
    Done (showFormError (VStr (js "Please complete all required fields")) w)
  else
    let w1 := clearErrors (showLoadingState true (set_isSubmitting true w)) in
    if negb (prepareSubmitData w1)
    then Raised (TypeError "Cannot convert undefined or null to object") w1
    else
      let (r, w2) := submitForm s w1 in
      let caught (e : LocalStorage.exn) (w' : world) :=
        handleSubmitError
          (or_else (VStr (LocalStorage.exn_message e))
                   (VStr (js "Network error occurred"))) w' in
      let w3 :=
        match r with
        | LocalStorage.Ok response =>
            match get_prop response (js "success") with
            | None => caught (TypeError "Cannot read properties of null") w2
            | Some success =>
                if truthy success then
                  match handleSubmitSuccess response w2 with
                  | Done w' => w'
                  | Raised e w' => caught e w'
                  | Stray _ w' => w'
                  end
                else
                  handleSubmitError
                    (or_else (default VUndefined (get_prop response (js "error")))
                             (VStr (js "Submission failed"))) w2
            end
        | LocalStorage.Throw e => caught e w2
        end in
      Done (showLoadingState false (set_isSubmitting false w3)).

(** [handleNext(e)].  [valid] is the result of [validateCurrentStep()];
    [validAll] and [s] serve the submission started from the last step. *)
Definition handleNext (valid validAll : bool) (s : submission) (w : world) : outcome :=
  if negb valid then
    Done (showStepError (VStr (js "Please correct the errors before proceeding")) w)
  else
    match saveStepData w with
    | Done w' =>
        if currentStep w' <? totalSteps w' then Done (showStep (currentStep w' + 1) w')
        else handleSubmit validAll s w'
    | o => o
    end.

(** [handleKeyboardNavigation(e)] *)
Definition handleKeyboardNavigation (altKey : bool) (key : jsstring)
           (valid validAll : bool) (s : submission) (w : world) : outcome :=
  if negb (form w) then Done w
  else if altKey then
    if str_eqb key (js "ArrowRight") && (currentStep w <? totalSteps w)
    then handleNext valid validAll s w
    else if str_eqb key (js "ArrowLeft") && (1 <? currentStep w)
    then handlePrev w
    else Done w
  else Done w.

(** The module's state when the script has been loaded. *)
Definition loaded (form_ : bool) (steps_ : list (list field))
           (indicators : list indicator) (err succ : option container)
           (btn : option button) (st : LocalStorage.state) (confetti_ : option nat)
  : world :=
  mkWorld 1 configSteps (VObj []) false false VNull form_ steps_ indicators
          err succ btn [] [] st 0 confetti_.

(** ** The controller as a step relation *)

(** What the user, the timers and the page do. *)
Inductive event : Type :=
| Init
| Next (valid validAll : bool) (s : submission)
| Prev
| GoToStep (stepNumber : Z)
| ClickIndicator (index : nat)
| KeyDown (altKey : bool) (key : jsstring) (valid validAll : bool) (s : submission)
| Submit (valid : bool) (s : submission)
| AutoSaveFires (now newId : jsstring)
| LoadAutoSave
| SaveDraft (answer : option jsstring) (today now newId : jsstring)
| LoadDraft (draftId : jsstring)
| DeleteDraft (confirmed : bool) (draftId : jsstring)
| ClearForm.

Section Run.
Variable restoreFields : value -> list (list field) -> option (list (list field)).
Variable lessThan : value -> Z -> option bool.
Variable greaterThan : value -> Z -> option bool.

(** The handler that an event runs. *)
Definition handle (ev : event) (w : world) : outcome :=
  match ev with
  | Init => Done (initMultiStepForm w)
  | Next valid validAll s => handleNext valid validAll s w
  | Prev => handlePrev w
  | GoToStep n => goToStep n w
  | ClickIndicator i => clickIndicator i w
  | KeyDown altKey key valid validAll s =>
      handleKeyboardNavigation altKey key valid validAll s w
  | Submit valid s => handleSubmit valid s w
  | AutoSaveFires now newId => Done (performAutoSave now newId w)
  | LoadAutoSave => loadAutoSave restoreFields lessThan greaterThan w
  | SaveDraft answer today now newId => Done (saveDraft answer today now newId w)
  | LoadDraft draftId => loadDraft restoreFields lessThan greaterThan draftId w
  | DeleteDraft confirmed draftId => Done (deleteDraft confirmed draftId w)
  | ClearForm => Done (clearFormData w)
  end.

(** The world a handler leaves, whether it returned or raised. *)
Definition leaves (o : outcome) (w' : world) : Prop :=
  o = Done w' \/ exists e, o = Raised e w'.

(** The worlds the controller reaches from the loaded page. *)
Inductive reachable : world -> Prop :=
| reachable_loaded form_ steps_ indicators err succ btn st confetti_ :
    reachable (loaded form_ steps_ indicators err succ btn st confetti_)
| reachable_event w ev w' :
    reachable w -> leaves (handle ev w) w' -> reachable w'.

End Run.

(** The step index is one of the steps. *)
Definition in_range (w : world) : Prop := 1 <= currentStep w <= totalSteps w.

(** The handler left a step index that is a safe integer. *)
Definition settled (o : outcome) : Prop :=
  match o with Stray _ _ => False | _ => True end.

(** [w'] has the step index and the step count of [w]. *)
Definition same_step (w w' : world) : Prop :=
  currentStep w' = currentStep w /\ totalSteps w' = totalSteps w.

(** The indicators carry [completed] exactly below the current step,
    as [updateStepIndicators] leaves them. *)
Definition synced (w : world) : Prop :=
  forall i ind, stepIndicators w !! i = Some ind ->
                ind_completed ind = (Z.of_nat i + 1 <? currentStep w).

(** [w'] has the step index and the indicators of [w]. *)
Definition same_marks (w w' : world) : Prop :=
  currentStep w' = currentStep w /\ stepIndicators w' = stepIndicators w.

(** What [clearFormData] leaves of the steps: the index is 1 and the
    indicators are those of [w]. *)
Definition reset_unmarked (w w' : world) : Prop :=
  currentStep w' = 1 /\ stepIndicators w' = stepIndicators w.

(** ** Sample pages *)

(** Restoring the controls leaves them as they are. *)
Definition keep : value -> list (list field) -> option (list (list field)) :=
  fun _ s => Some s.

(** A text input of a step. *)
Definition text_field (name_ value_ : string) : field :=
  mkField (js name_) (js name_) (js "text") (js value_) false 0.

(** Both native objects work and have no quota. *)
Definition unlimited_storage : LocalStorage.state :=
  LocalStorage.mkState true true [] [] LocalStorage.unlimited LocalStorage.unlimited.

(** A page with four steps and four indicators, after [initMultiStepForm]. *)
Definition four_steps : world :=
  initMultiStepForm
    (loaded true
       [[text_field "nominee" "Ada"]; [text_field "story" ""];
        [text_field "department" ""]; [text_field "relationship" ""]]
       (repeat (mkIndicator false false) 4)
       (Some (mkContainer (VStr []) false)) (Some (mkContainer (VStr []) false))
       (Some (mkButton (js "Submit") false)) unlimited_storage (Some 0%nat)).

(** The world an outcome leaves. *)
Definition advance (o : outcome) : world :=
  match o with Done w => w | Raised _ w => w | Stray _ w => w end.

(** The value of [state.currentStep] when the handler ends. *)
Definition stepAfter (o : outcome) : value :=
  match o with
  | Done w => VNum (Int (currentStep w))
  | Raised _ w => VNum (Int (currentStep w))
  | Stray v _ => v
  end.

(** The page after [goToStep(3)]. *)
Definition at_step_three : world :=
  advance (goToStep 3 four_steps).

Import LocalStorage.

(** The errors that the [catch] block of [submitForm] throws again. *)
Definition passes_through (e : exn) : bool :=
  negb (str_eqb (exn_name e) (js "TypeError") || includes (exn_message e) (js "fetch")).

(** The answer of [submitForm] carries no success indication. *)
Definition no_success (r : result value) : bool :=
  match r with
  | Throw _ => true
  | Ok v => match get_prop v (js "success") with
            | None => true
            | Some x => negb (truthy x)
            end
  end.

(** A failed attempt: [fetch] rejects with an error that is passed on
    (an abort by the timeout), or with a network error and the
    simulated submission fails; the status is an error status; the body
    cannot be read; or the body carries no truthy [success]. *)
Definition failure (s : submission) : Prop :=
  match sub_fetch s with
  | Rejected e =>
      passes_through e = true \/ Qle_bool (sub_random s) (1 # 10) = true
  | Responded false _ _ => True
  | Responded true _ (Throw e) =>
      passes_through e = true \/ Qle_bool (sub_random s) (1 # 10) = true
  | Responded true _ (Ok v) => no_success (Ok v) = true
  end.

(** The endpoint is not reached and the simulated submission stands in
    with a success: [fetch] rejects, or the body cannot be read, with
    a TypeError or a message that mentions [fetch], and
    [Math.random()] exceeds 0.1. *)
Definition simulated (s : submission) : Prop :=
  match sub_fetch s with
  | Rejected e => passes_through e = false
  | Responded true _ (Throw e) => passes_through e = false
  | _ => False
  end /\ Qle_bool (sub_random s) (1 # 10) = false.

(** What [handleSubmitError] leaves, given the world before the attempt. *)
Definition error_surfaced (w w' : world) (message : value) : Prop :=
  announcements w' = announcements w ++ [message] /\
  (forall c, errorContainer w = Some c ->
             errorContainer w' = Some (mkContainer message true)) /\
  timers w' = timers w ++ [(1000, RemoveAnnouncement)].

(** The aggregate holds one answer. *)
Definition filled (w : world) : world :=
  set_formData (VObj [(js "nominee", VStr (js "Ada"))]) w.

(** The timeout aborts the request; the network is unreachable; the
    endpoint accepts the nomination. *)
Definition timed_out : submission :=
  mkSubmission
    (Rejected (mkExn (js "AbortError") 20 (js "The user aborted a request.")))
    (1 # 2) (1 # 2) 2025 0.

Definition network_error : submission :=
  mkSubmission (Rejected (mkExn (js "TypeError") 0 (js "Failed to fetch")))
               (1 # 2) (85 # 2) 2025 0.

Definition accepted : submission :=
  mkSubmission
    (Responded true 200
       (Ok (VObj [(js "success", VBool true);
                  (js "referenceNumber", VStr (js "RARE-202501-0042"))])))
    (1 # 2) (1 # 2) 2025 0.

(** The session storage refuses every call, as when the user agent
    blocks site data. *)
Definition session_blocked : world :=
  set_storage (mkState true false [] [] unlimited blocked) (filled four_steps).

(** The record [saveDraft] builds. *)
Definition draftRecord (answer : option jsstring) (today now newId : jsstring)
           (w : world) : value :=
  VObj [(js "id", VStr newId);
        (js "name", VStr match answer with
                         | Some (c :: a) => c :: a
                         | _ => js "Draft " ++ today
                         end);
        (js "formData", formData w);
        (js "currentStep", VNum (Int (currentStep w)));
        (js "createdAt", VStr now)].

(** The list [saveDraft] writes when the stored list is [l]. *)
Definition draftsAfter (draft : value) (l : list value) : list value :=
  if (maxDrafts <? length (draft :: l))%nat then removelast (draft :: l)
  else draft :: l.

(** The stored list as [saveDraft] and [loadDraft] read it. *)
Definition storedDrafts (w : world) (l : list value) : Prop :=
  exists stored, fst (Storage_get draftsKey w) = LocalStorage.Ok stored /\
                 or_else stored (VArr []) = VArr l.

(** [saveDraft] run once for each entry of [ds], first entry first. *)
Fixpoint saveDrafts (ds : list (option jsstring * jsstring * jsstring * jsstring))
         (w : world) : world :=
  match ds with
  | [] => w
  | (a, t, n, i) :: r => saveDrafts r (saveDraft a t n i w)
  end.

(** The records of the saves [ds] on a world [w]. *)
Definition draftRecords (ds : list (option jsstring * jsstring * jsstring * jsstring))
           (w : world) : list value :=
  map (fun '(a, t, n, i) => draftRecord a t n i w) ds.

(** Six saves under the same name, and the page after the first five
    with the list then stored. *)
Definition six_saves : list (option jsstring * jsstring * jsstring * jsstring) :=
  map (fun i => (Some (js "draft"), js "1/1/2025", js "2025-01-01T00:00:00.000Z", i))
      [js "draft_1"; js "draft_2"; js "draft_3"; js "draft_4"; js "draft_5";
       js "draft_6"].

Definition five_saved : world := saveDrafts (take 5 six_saves) (filled four_steps).

Definition five_drafts : list value :=
  rev (draftRecords (take 5 six_saves) (filled four_steps)).

(** A stored draft that names step 9 of a form with four steps. *)
Definition stale_draft : value :=
  VObj [(js "id", VStr (js "draft_9"));
        (js "name", VStr (js "old"));
        (js "formData", VObj [(js "nominee", VStr (js "Ada"))]);
        (js "currentStep", VNum (Int 9));
        (js "createdAt", VStr (js "2025-01-01T00:00:00.000Z"))].

(** The local storage holds that draft. *)
Definition stale_storage : LocalStorage.state :=
  LocalStorage.mkState true true [] []
    (with_items unlimited (<[draftsKey := stringify (VArr [stale_draft])]> ∅))
    unlimited.

(** The loaded page of four steps on that storage. *)
Definition stale_page : world :=
  FormHandler.loaded true
    [[text_field "nominee" ""]; [text_field "story" ""];
     [text_field "department" ""]; [text_field "relationship" ""]]
    (repeat (mkIndicator false false) 4)
    (Some (mkContainer (VStr []) false)) (Some (mkContainer (VStr []) false))
    (Some (mkButton (js "Submit") false)) stale_storage (Some 0%nat).

(** The comparisons of the engine with a value that converts to
    [NaN], as a text without a digit does: both are false. *)
Definition nan_compare : value -> Z -> option bool := fun _ _ => Some false.

(** A stored draft whose step is a text. *)
Definition texted_draft : value :=
  VObj [(js "id", VStr (js "draft_7"));
        (js "name", VStr (js "old"));
        (js "formData", VObj [(js "nominee", VStr (js "Ada"))]);
        (js "currentStep", VStr (js "abc"));
        (js "createdAt", VStr (js "2025-01-01T00:00:00.000Z"))].

(** The loaded page of four steps on a local storage that holds that
    draft. *)
Definition texted_page : world :=
  FormHandler.loaded true
    [[text_field "nominee" ""]; [text_field "story" ""];
     [text_field "department" ""]; [text_field "relationship" ""]]
    (repeat (mkIndicator false false) 4)
    (Some (mkContainer (VStr []) false)) (Some (mkContainer (VStr []) false))
    (Some (mkButton (js "Submit") false))
    (LocalStorage.mkState true true [] []
       (with_items unlimited (<[draftsKey := stringify (VArr [texted_draft])]> ∅))
       unlimited)
    (Some 0%nat).

(** ** Frames, stored records and samples *)

(** The fields a handler that only moves between steps leaves alone. *)
Definition same_page (w w' : world) : Prop :=
  formData w' = formData w /\ storage w' = storage w /\
  requests w' = requests w /\ isSubmitting w' = isSubmitting w /\
  currentDraftId w' = currentDraftId w /\ totalSteps w' = totalSteps w /\
  steps w' = steps w.

(** [w'] has the request count and the submission flag of [w]. *)
Definition same_traffic (w w' : world) : Prop :=
  requests w' = requests w /\ isSubmitting w' = isSubmitting w.

(** A page whose aggregate a stored record replaced by [null]. *)
Definition emptied : world := set_formData VNull four_steps.

(** The test of [drafts.filter(d => d.id !== draftId)] on an element
    whose [id] can be read. *)
Definition keeps (draftId : jsstring) (d : value) : bool :=
  match get_prop d (js "id") with
  | Some i => differs draftId i
  | None => true
  end.

(** The record [performAutoSave] writes. *)
Definition autoSaveRecord (now newId : jsstring) (w : world) : value :=
  VObj [(js "formData", formData w);
        (js "currentStep", VNum (Int (currentStep w)));
        (js "timestamp", VStr now);
        (js "draftId", or_else (currentDraftId w) (VStr newId))].

(** The page loaded again on the storage another page left. *)
Definition reloaded (w : world) : world :=
  set_storage (storage w) four_steps.

(** [field.name || field.id] *)
Definition fieldName (f : field) : jsstring :=
  match f_name f with [] => f_id f | n => n end.

(** The array a checkbox group has in the aggregate; none yet is the
    empty one. *)
Definition group (ms : list (jsstring * value)) (name : jsstring) : list value :=
  match prop_read ms name with VArr l => l | _ => [] end.

(** A checked box of a group. *)
Definition fast_box : field :=
  mkField (js "values") (js "v1") (js "checkbox") (js "fast") true 0.

End FormHandler.

(* ================================================================== *)
(** * functions/submit-nomination.js                                   *)
(* ================================================================== *)

Module SubmitNomination.
Import JS.

(** The request: [headers] is [None] when the event has none, [body]
    is [None] when it is [null] or missing. *)
Record event : Type := mkEvent {
  httpMethod : jsstring;
  headers : option (list (jsstring * jsstring));
  body : option jsstring
}.

Record response : Type := mkResponse {
  statusCode : Z;
  responseBody : jsstring
}.

(** The clock and the random source: the two [new Date()] of the
    template string, read as [getFullYear()] and [getMonth()], and the
    product [Math.random() * 10000] as the engine computes it. *)
Record surroundings : Type := mkSurroundings {
  fullYear : Z;
  month : Z;
  scaled : Q
}.

Section Handler.
(** The [message] of the error raised by [JSON.parse] on a text, and of
    the TypeError raised by reading a property of [undefined]; both are
    the engine's own wording. *)
Variable SyntaxError_message : jsstring -> jsstring.
Variable TypeError_message : jsstring.

(** The reference code of the template string. *)
Definition reference (s : surroundings) : jsstring :=
  js "RARE-" ++ Z_toString (fullYear s) ++ padStart0 2 (Z_toString (month s + 1))
  ++ js "-" ++ padStart0 4 (Z_toString (Qfloor (scaled s))).

Definition failure (message : jsstring) : response :=
  mkResponse 400
    (stringify (VObj [(js "success", VBool false); (js "error", VStr message)])).

(** [exports.handler(event)] *)
Definition handler (e : event) (s : surroundings) : response :=
  if negb (str_eqb (httpMethod e) (js "POST")) then
    mkResponse 405 (stringify (VObj [(js "error", VStr (js "Method Not Allowed"))]))
  else
    match headers e with
    | None => failure TypeError_message
    | Some hs =>
        let contentType := default [] (obj_get hs (js "content-type")) in
        let text := match body e with
                    | Some (c :: b) => c :: b
                    | _ => js "{}"
                    end in
        if includes contentType (js "application/json")
           && match JSON_parse text with None => true | Some _ => false end
        then failure (SyntaxError_message text)
        else
          mkResponse 200
            (stringify (VObj [(js "success", VBool true);
                              (js "referenceNumber", VStr (reference s))]))
    end.
End Handler.

(** ** The two ways through the [try] block *)

(** [event.body || '{}'] *)
Definition payload_text (e : event) : jsstring :=
  match body e with
  | Some (c :: b) => c :: b
  | _ => js "{}"
  end.

(** The [try] block raises: the event has no headers, or the content
    type names JSON and the body is not JSON. *)
Definition raises (e : event) : bool :=
  match headers e with
  | None => true
  | Some hs =>
      includes (default [] (obj_get hs (js "content-type"))) (js "application/json")
      && match JSON_parse (payload_text e) with None => true | Some _ => false end
  end.

(** The shape of a reference code: [RARE-], six digits, a hyphen and
    four digits. *)
Definition is_reference (r : jsstring) : bool :=
  match r with
  | [82; 65; 82; 69; 45; y1; y2; y3; y4; m1; m2; 45; n1; n2; n3; n4]%N =>
      forallb is_digit [y1; y2; y3; y4; m1; m2; n1; n2; n3; n4]
  | _ => false
  end.

(** Texts of four and of two decimal digits. *)
Definition four_digits (t : jsstring) : bool :=
  (length t =? 4)%nat && forallb is_digit t.

Definition two_digits (t : jsstring) : bool :=
  (length t =? 2)%nat && forallb is_digit t.

(** ** Sample requests *)

(** A form post, and a JSON post whose body breaks off. *)
Definition urlencoded : event :=
  mkEvent (js "POST")
          (Some [(js "content-type", js "application/x-www-form-urlencoded")])
          (Some (js "nominee=Ada")).

Definition truncated : event :=
  mkEvent (js "POST") (Some [(js "content-type", js "application/json")])
          (Some (js "{")).

(** January 2025, the random product being 42.5. *)
Definition january : surroundings := mkSurroundings 2025 0 (85 # 2).

(** The wording of one engine for the two errors. *)
Definition engine_message (text : jsstring) : jsstring :=
  js "Unexpected end of JSON input".

Definition engine_TypeError : jsstring :=
  js "Cannot read properties of undefined (reading 'content-type')".

End SubmitNomination.

(* ================================================================== *)
(** * Properties                                                       *)
(* ================================================================== *)

(** ** [JSON.parse] reads back what [JSON.stringify] wrote *)

Module JSONFacts.
Import JS.

Lemma str_eqb_eq a b : str_eqb a b = true <-> a = b.
Proof. unfold str_eqb. apply bool_decide_eq_true. Qed.

Lemma str_eqb_neq a b : str_eqb a b = false <-> a <> b.
Proof. unfold str_eqb. apply bool_decide_eq_false. Qed.

Lemma obj_insert_index_append {A} (o : list (jsstring * A)) n k v :
  forallb (fun k' => match array_index k' with
                     | Some m => (m <? n)%N
                     | None => false
                     end) (map fst o) = true ->
  obj_insert_index o n k v = o ++ [(k, v)].
Proof.
  induction o as [|[k' v'] o IH]; simpl; [reflexivity|].
  intros H. apply andb_true_iff in H as [H1 H2].
  destruct (array_index k') as [m|]; [|discriminate].
  rewrite H1. f_equal. auto.
Qed.

Lemma obj_has_keys {A} (o : list (jsstring * A)) k :
  obj_has o k = existsb (fun k' => str_eqb k' k) (map fst o).
Proof. unfold obj_has. induction o as [|[k' v'] o IH]; simpl; congruence. Qed.

Lemma obj_set_append {A} (o : list (jsstring * A)) k v :
  appendable (map fst o) k = true -> obj_set o k v = o ++ [(k, v)].
Proof.
  unfold appendable, obj_set. intros H.
  apply andb_true_iff in H as [H1 H2].
  rewrite obj_has_keys. apply negb_true_iff in H1. rewrite H1.
  destruct (array_index k); [|reflexivity].
  by apply obj_insert_index_append.
Qed.

Lemma fold_obj_set_ordered {A} (ms acc : list (jsstring * A)) :
  keys_ordered (map fst acc) (map fst ms) = true ->
  fold_left (fun o kv => obj_set o (fst kv) (snd kv)) ms acc = acc ++ ms.
Proof.
  revert acc. induction ms as [|[k v] ms IH]; intros acc H; simpl in *.
  - by rewrite app_nil_r.
  - apply andb_true_iff in H as [H1 H2].
    rewrite (obj_set_append _ _ _ H1).
    rewrite IH.
    + by rewrite <- app_assoc.
    + by rewrite map_app.
Qed.

Lemma lex_uint_nondigit s :
  match s with c :: _ => is_digit c = false | [] => True end ->
  lex_uint s = (Decimal.Nil, s).
Proof. destruct s as [|c r]; simpl; [reflexivity|]. by intros ->. Qed.

Lemma lex_uint_units d rest :
  match rest with c :: _ => is_digit c = false | [] => True end ->
  lex_uint (uint_units d ++ rest) = (d, rest).
Proof.
  intros H. induction d; simpl; try rewrite IHd; try reflexivity.
  by apply lex_uint_nondigit.
Qed.

Lemma int_part_ok_unorm d : int_part_ok (Decimal.unorm d) = true.
Proof.
  unfold Decimal.unorm.
  pose proof (DecimalFacts.nzhead_nonzero d) as Hnz.
  destruct (Decimal.nzhead d) as [|u|u|u|u|u|u|u|u|u|u]; try reflexivity.
  exfalso. by apply (Hnz u).
Qed.

Lemma int_part_ok_to_uint n : int_part_ok (N.to_uint n) = true.
Proof.
  rewrite <- (DecimalN.Unsigned.of_to n) at 1.
  rewrite DecimalN.Unsigned.to_of. apply int_part_ok_unorm.
Qed.

Lemma delim_not_digit rest :
  delim rest -> match rest with c :: _ => is_digit c = false | [] => True end.
Proof. destruct rest as [|c r]; simpl; [done|]. by intros [->|[->| ->]]. Qed.

Lemma lex_frac_delim rest : delim rest -> lex_frac rest = Some (false, rest).
Proof. destruct rest as [|c r]; simpl; [done|]. by intros [->|[->| ->]]. Qed.

Lemma lex_exp_delim rest : delim rest -> lex_exp rest = Some (false, rest).
Proof. destruct rest as [|c r]; simpl; [done|]. by intros [->|[->| ->]]. Qed.

Lemma uint_units_head_digit d :
  d <> Decimal.Nil -> exists c r, uint_units d = c :: r /\ is_digit c = true.
Proof. destruct d; try done; intros _; simpl; eauto. Qed.

Lemma N_toString_head n :
  exists c r, N_toString n = c :: r /\ is_digit c = true.
Proof.
  apply uint_units_head_digit. intros H.
  pose proof (int_part_ok_to_uint n) as Hok. by rewrite H in Hok.
Qed.

Lemma lex_number_N n rest :
  delim rest -> (Z.of_N n <? 9007199254740992) = true ->
  lex_number (N_toString n ++ rest) = Some (Int (Z.of_N n), rest).
Proof.
  intros Hd Hs. unfold lex_number.
  destruct (N_toString_head n) as (c & r & Hc & Hdig).
  assert (Hneg : (c =? 45)%N = false).
  { unfold is_digit in Hdig. apply andb_true_iff in Hdig as [H1 H2].
    apply N.leb_le in H1. apply N.eqb_neq. lia. }
  rewrite Hc. cbn [app]. rewrite Hneg. change (c :: r ++ rest) with ((c :: r) ++ rest). rewrite <- Hc.
  unfold N_toString at 1.
  rewrite lex_uint_units by (by apply delim_not_digit).
  rewrite int_part_ok_to_uint, lex_frac_delim, lex_exp_delim by done.
  rewrite DecimalN.Unsigned.of_to. simpl.
  unfold safe_integer. rewrite Z.abs_eq by lia. by rewrite Hs.
Qed.

Lemma lex_number_Z z rest :
  delim rest -> safe_integer z = true ->
  lex_number (Z_toString z ++ rest) = Some (Int z, rest).
Proof.
  intros Hd Hs. unfold safe_integer in Hs. destruct z as [|p|p].
  - apply (lex_number_N 0 rest Hd). reflexivity.
  - change (Z_toString (Z.pos p)) with (N_toString (Npos p)).
    change (Z.pos p) with (Z.of_N (Npos p)).
    apply (lex_number_N (Npos p) rest Hd). exact Hs.
  - change (Z_toString (Z.neg p)) with (45%N :: N_toString (Npos p)).
    unfold lex_number. cbn [app].
    change ((45 =? 45)%N) with true. cbv iota beta.
    unfold N_toString at 1.
    rewrite lex_uint_units by (by apply delim_not_digit).
    rewrite int_part_ok_to_uint, lex_frac_delim, lex_exp_delim by done.
    rewrite DecimalN.Unsigned.of_to.
    change (- Z.of_N (N.pos p)) with (Z.neg p).
    change (Z.of_N (N.pos p) =? 0) with false.
    unfold safe_integer. rewrite Hs. reflexivity.
Qed.

Lemma hex_value_digit d : (d < 16)%N -> hex_value (hex_digit d) = Some d.
Proof.
  intros Hd. unfold hex_digit, hex_value.
  destruct (N.ltb_spec d 10).
  - replace ((48 <=? 48 + d)%N) with true by (symmetry; apply N.leb_le; lia).
    replace ((48 + d <=? 57)%N) with true by (symmetry; apply N.leb_le; lia).
    simpl. f_equal. lia.
  - replace ((48 <=? 87 + d)%N) with true by (symmetry; apply N.leb_le; lia).
    replace ((87 + d <=? 57)%N) with false by (symmetry; apply N.leb_gt; lia).
    replace ((97 <=? 87 + d)%N) with true by (symmetry; apply N.leb_le; lia).
    replace ((87 + d <=? 102)%N) with true by (symmetry; apply N.leb_le; lia).
    simpl. f_equal. lia.
Qed.

Lemma hex4_uescape c :
  (c < 65536)%N ->
  hex4 (hex_digit (c / 4096 mod 16)) (hex_digit (c / 256 mod 16))
       (hex_digit (c / 16 mod 16)) (hex_digit (c mod 16)) = Some c.
Proof.
  intros Hc. unfold hex4.
  rewrite !hex_value_digit by (apply N.mod_lt; lia).
  f_equal.
  pose proof (N.div_mod' c 16) as E1.
  pose proof (N.div_mod' (c / 16) 16) as E2.
  pose proof (N.div_mod' (c / 256) 16) as E3.
  rewrite N.Div0.div_div in E2, E3.
  change (16 * 16)%N with 256%N in E2. change (256 * 16)%N with 4096%N in E3.
  assert (E4 : ((c / 4096) mod 16 = c / 4096)%N).
  { apply N.mod_small. apply N.Div0.div_lt_upper_bound. lia. }
  rewrite E4.
  generalize dependent (c / 4096)%N. generalize dependent ((c / 256) mod 16)%N.
  generalize dependent (c / 256)%N. generalize dependent ((c / 16) mod 16)%N.
  generalize dependent (c / 16)%N. generalize dependent (c mod 16)%N.
  intros. lia.
Qed.

Lemma string_body_uescape c t :
  (c < 65536)%N ->
  string_body (uescape c ++ t) = body_cons c (string_body t).
Proof.
  intros Hc. unfold uescape. cbn [app string_body].
  change ((92 =? 34)%N) with false. change ((92 =? 92)%N) with true.
  change ((117 =? 117)%N) with true. cbv iota.
  rewrite hex4_uescape by done. reflexivity.
Qed.

Lemma string_body_plain c t :
  (32 <= c)%N -> c <> 34%N -> c <> 92%N ->
  string_body (c :: t) = body_cons c (string_body t).
Proof.
  intros H1 H2 H3. cbn [string_body].
  apply N.eqb_neq in H2, H3. rewrite H2, H3.
  replace ((c <? 32)%N) with false by (symmetry; apply N.ltb_ge; lia).
  reflexivity.
Qed.

Lemma string_body_escape1 c t :
  string_body (escape1 c ++ t) = body_cons c (string_body t).
Proof.
  unfold escape1.
  destruct (N.eqb_spec c 8) as [->|]; [reflexivity|].
  destruct (N.eqb_spec c 9) as [->|]; [reflexivity|].
  destruct (N.eqb_spec c 10) as [->|]; [reflexivity|].
  destruct (N.eqb_spec c 12) as [->|]; [reflexivity|].
  destruct (N.eqb_spec c 13) as [->|]; [reflexivity|].
  destruct (N.eqb_spec c 34) as [->|]; [reflexivity|].
  destruct (N.eqb_spec c 92) as [->|]; [reflexivity|].
  destruct (N.ltb_spec c 32).
  - apply string_body_uescape. lia.
  - by apply string_body_plain.
Qed.

Lemma string_body_close rest : string_body (34%N :: rest) = Some ([], rest).
Proof. reflexivity. Qed.

Lemma string_body_escape_len n : forall s rest,
  (length s <= n)%nat ->
  string_body (escape s ++ 34%N :: rest) = Some (s, rest).
Proof.
  induction n as [|n IH]; intros s rest Hlen.
  - destruct s; [reflexivity | simpl in Hlen; lia].
  - destruct s as [|c r]; [reflexivity|].
    simpl in Hlen. cbn [escape].
    destruct (is_high_surrogate c) eqn:Hh.
    + unfold is_high_surrogate in Hh. apply andb_true_iff in Hh as [Hh1 Hh2].
      apply N.leb_le in Hh1, Hh2.
      destruct r as [|d r'].
      * rewrite string_body_uescape by lia. reflexivity.
      * destruct (is_low_surrogate d) eqn:Hl.
        -- unfold is_low_surrogate in Hl. apply andb_true_iff in Hl as [Hl1 Hl2].
           apply N.leb_le in Hl1, Hl2.
           cbn [app]. rewrite string_body_plain by lia.
           rewrite string_body_plain by lia.
           rewrite IH by (simpl in Hlen; lia). reflexivity.
        -- rewrite <- app_assoc, string_body_uescape by lia.
           rewrite IH by lia. reflexivity.
    + destruct (is_low_surrogate c) eqn:Hl.
      * unfold is_low_surrogate in Hl. apply andb_true_iff in Hl as [Hl1 Hl2].
        apply N.leb_le in Hl1, Hl2.
        rewrite <- app_assoc, string_body_uescape by lia.
        rewrite IH by lia. reflexivity.
      * rewrite <- app_assoc, string_body_escape1.
        rewrite IH by lia. reflexivity.
Qed.

Lemma string_body_escape s rest :
  string_body (escape s ++ 34%N :: rest) = Some (s, rest).
Proof. by apply (string_body_escape_len (length s)). Qed.

Lemma string_body_quote s rest :
  string_body (escape s ++ [34%N] ++ rest) = Some (s, rest).
Proof. apply string_body_escape. Qed.

Lemma stringify_obj ms :
  stringify (VObj ms) = cu "{" :: join_comma (members_text ms) ++ [cu "}"].
Proof. reflexivity. Qed.

Lemma size_obj ms : size (VObj ms) = S (members_size ms).
Proof. reflexivity. Qed.

Lemma json_value_obj ms :
  json_value (VObj ms) = keys_ordered [] (map fst ms) && members_json ms.
Proof. reflexivity. Qed.

Lemma stringify_head v : json_value v = true -> value_head (stringify v).
Proof.
  destruct v as [| |[|]|[z|l]|s|l|ms|g]; simpl; try done.
  intros _. destruct z as [|p|p]; simpl; try done.
  - destruct (N_toString_head (Npos p)) as (c & r & -> & Hd).
    unfold is_digit in Hd. apply andb_true_iff in Hd as [H1 H2].
    apply N.leb_le in H1, H2. simpl. unfold is_json_ws.
    repeat split; try lia.
    repeat (apply orb_false_iff; split); apply N.eqb_neq; lia.
Qed.

Lemma skip_ws_head s : value_head s -> skip_ws s = s.
Proof. destruct s as [|c r]; simpl; [done|]. by intros [-> _]. Qed.

Lemma value_head_app s t : value_head s -> value_head (s ++ t).
Proof. destruct s; simpl; done. Qed.

Lemma parse_value_number f s n r :
  match s with
  | c :: _ => is_digit c = true \/ c = 45%N
  | [] => False
  end ->
  lex_number s = Some (n, r) ->
  parse_value (S f) s = POk (VNum n) r.
Proof.
  destruct s as [|c t]; [done|]. intros Hc Hlex.
  assert (Hws : is_json_ws c = false /\ (c =? 123)%N = false /\
                (c =? 91)%N = false /\ (c =? 34)%N = false /\
                (116 =? c)%N = false /\ (102 =? c)%N = false /\
                (110 =? c)%N = false).
  { unfold is_json_ws. destruct Hc as [Hd| ->]; [|by repeat split].
    unfold is_digit in Hd. apply andb_true_iff in Hd as [H1 H2].
    apply N.leb_le in H1, H2.
    repeat split; try (apply N.eqb_neq; lia).
    repeat (apply orb_false_iff; split); apply N.eqb_neq; lia. }
  destruct Hws as (H0 & H1 & H2 & H3 & H4 & H5 & H6).
  cbn [parse_value skip_ws]. rewrite H0, H1, H2, H3.
  cbn [startsWith js list_ascii_of_string map].
  change (cu "t") with 116%N. change (cu "f") with 102%N. change (cu "n") with 110%N.
  rewrite H4, H5, H6. cbn [andb]. by rewrite Hlex.
Qed.

Lemma Z_toString_head z :
  match Z_toString z with
  | c :: _ => is_digit c = true \/ c = 45%N
  | [] => False
  end.
Proof.
  destruct z as [|p|p]; simpl; [by left | | by right].
  destruct (N_toString_head (Npos p)) as (c & r & -> & Hd). by left.
Qed.

Lemma parse_elements_stringify l :
  Forall roundtrips l -> forallb json_value l = true -> l <> [] ->
  forall f acc rest, (elements_size l < f)%nat ->
  parse_elements f (join_comma (map stringify l) ++ 93%N :: rest) acc
  = POk (VArr (rev acc ++ l)) rest.
Proof.
  induction l as [|e l IH]; [done|].
  intros HF Hj _ f acc rest Hf.
  apply Forall_cons in HF as [He HF].
  cbn [forallb] in Hj. apply andb_true_iff in Hj as [Hje Hjl].
  unfold elements_size in Hf. simpl in Hf.
  destruct f as [|f]; [lia|]. cbn [parse_elements].
  destruct l as [|e2 l].
  - cbn [map join_comma].
    rewrite (He Hje f (93%N :: rest)) by (simpl; auto; lia).
    cbn [skip_ws]. change (is_json_ws 93) with false. cbv iota.
    change ((93 =? 44)%N) with false. change ((93 =? 93)%N) with true.
    cbv iota. simpl rev. reflexivity.
  - change (join_comma (map stringify (e :: e2 :: l)))
      with (stringify e ++ 44%N :: join_comma (map stringify (e2 :: l))).
    rewrite <- app_assoc. cbn [app].
    rewrite (He Hje f) by (simpl; auto; lia).
    cbn [skip_ws]. change (is_json_ws 44) with false. cbv iota.
    change ((44 =? 44)%N) with true. cbv iota.
    rewrite IH; try done.
    + simpl rev. by rewrite <- app_assoc.
    + unfold elements_size. lia.
Qed.

Lemma parse_members_stringify ms :
  Forall (fun kv => roundtrips (snd kv)) ms -> members_json ms = true ->
  ms <> [] ->
  forall f acc rest, (members_size ms < f)%nat ->
  parse_members f (join_comma (members_text ms) ++ 125%N :: rest) acc
  = POk (VObj (fold_left set_member ms acc)) rest.
Proof.
  induction ms as [|[k v] ms IH]; [done|].
  intros HF Hj _ f acc rest Hf.
  apply Forall_cons in HF as [He HF]. cbn [snd] in He.
  cbn [members_json] in Hj. apply andb_true_iff in Hj as [Hje Hjl].
  cbn [members_size] in Hf.
  assert (Hu : is_undefined v = false) by (by destruct v).
  destruct f as [|f]; [lia|]. cbn [parse_members].
  cbn [members_text]. rewrite Hu.
  destruct ms as [|[k2 v2] ms].
  - cbn [members_text join_comma]. unfold quote.
    cbn [app skip_ws]. change (is_json_ws 34) with false. cbv iota.
    change ((34 =? 34)%N) with true. cbv iota.
    rewrite <- !app_assoc. rewrite string_body_quote.
    cbn [app skip_ws]. change (cu ":") with 58%N.
    change (is_json_ws 58) with false. cbv iota.
    change ((58 =? 58)%N) with true. cbv iota.
    rewrite (He Hje f (125%N :: rest)) by (simpl; auto; lia).
    cbn [skip_ws]. change (is_json_ws 125) with false. cbv iota.
    change ((125 =? 44)%N) with false. change ((125 =? 125)%N) with true.
    cbv iota. reflexivity.
  - assert (Hu2 : is_undefined v2 = false).
    { cbn [members_json] in Hjl. apply andb_true_iff in Hjl as [Hj2 _].
      by destruct v2. }
    remember ((k2, v2) :: ms) as ms2 eqn:Hms2.
    assert (Hne : exists x r, members_text ms2 = x :: r).
    { subst ms2. cbn [members_text]. rewrite Hu2. eauto. }
    destruct Hne as (x & r & Hx).
    rewrite Hx.
    change (join_comma ((quote k ++ cu ":" :: stringify v) :: x :: r))
      with ((quote k ++ cu ":" :: stringify v) ++ 44%N :: join_comma (x :: r)).
    rewrite <- Hx. unfold quote.
    cbn [app skip_ws]. change (is_json_ws 34) with false. cbv iota.
    change ((34 =? 34)%N) with true. cbv iota.
    rewrite <- !app_assoc. rewrite string_body_quote.
    cbn [app skip_ws]. change (cu ":") with 58%N.
    change (is_json_ws 58) with false. cbv iota.
    change ((58 =? 58)%N) with true. cbv iota.
    rewrite <- ?app_assoc. cbn [app].
    rewrite (He Hje f) by (simpl; auto; lia).
    cbn [skip_ws]. change (is_json_ws 44) with false. cbv iota.
    change ((44 =? 44)%N) with true. cbv iota.
    rewrite IH; try done.
    + by subst ms2.
    + lia.
Qed.

Lemma parse_stringify v : roundtrips v.
Proof.
  induction v using value_nested_ind; unfold roundtrips.
  - discriminate.
  - intros _ [|f] rest Hd Hf; [simpl in Hf; lia|]. reflexivity.
  - intros _ [|f] rest Hd Hf; [simpl in Hf; lia|]. by destruct b.
  - destruct n as [z|l]; [|discriminate].
    cbn [json_value stringify]. intros Hs [|f] rest Hd Hf; [simpl in Hf; lia|].
    apply parse_value_number.
    + pose proof (Z_toString_head z) as Hh.
      destruct (Z_toString z); [done|]. exact Hh.
    + by apply lex_number_Z.
  - intros _ [|f] rest Hd Hf; [simpl in Hf; lia|].
    cbn [stringify]. unfold quote. cbn [app parse_value skip_ws].
    change (is_json_ws 34) with false. cbv iota.
    change ((34 =? 123)%N) with false. change ((34 =? 91)%N) with false.
    change ((34 =? 34)%N) with true. cbv iota.
    rewrite <- app_assoc. by rewrite string_body_quote.
  - intros Hj [|f] rest Hd Hf; [simpl in Hf; lia|].
    cbn [json_value] in Hj. cbn [stringify].
    cbn [app parse_value skip_ws]. change (cu "[") with 91%N.
    change (is_json_ws 91) with false. cbv iota.
    change ((91 =? 123)%N) with false. change ((91 =? 91)%N) with true.
    cbv iota. rewrite <- app_assoc.
    change ([cu "]"] ++ rest) with (93%N :: rest).
    destruct l as [|e l].
    + reflexivity.
    + assert (Hh : value_head (join_comma (map stringify (e :: l)) ++ 93%N :: rest)).
      { apply value_head_app.
        cbn [forallb] in Hj. apply andb_true_iff in Hj as [Hje _].
        pose proof (stringify_head e Hje) as He.
        cbn [map]. destruct (map stringify l); cbn [join_comma]; [done|].
        by apply value_head_app. }
      rewrite skip_ws_head by done.
      destruct (join_comma (map stringify (e :: l)) ++ 93%N :: rest)
        as [|c r] eqn:Htxt; [done|].
      destruct Hh as (_ & Hc & _). apply N.eqb_neq in Hc. rewrite Hc.
      rewrite <- Htxt.
      rewrite (parse_elements_stringify (e :: l)); try done.
      change (size (VArr (e :: l))) with (S (elements_size (e :: l))) in Hf.
      lia.
  - intros Hj [|f] rest Hd Hf; [simpl in Hf; lia|].
    rewrite json_value_obj in Hj. apply andb_true_iff in Hj as [Hk Hj].
    rewrite stringify_obj. rewrite size_obj in Hf.
    cbn [app parse_value skip_ws]. change (cu "{") with 123%N.
    change (is_json_ws 123) with false. cbv iota.
    change ((123 =? 123)%N) with true. cbv iota. rewrite <- app_assoc.
    change ([cu "}"] ++ rest) with (125%N :: rest).
    destruct ms as [|[k v] ms].
    + reflexivity.
    + assert (Hu : is_undefined v = false).
      { cbn [members_json] in Hj. apply andb_true_iff in Hj as [Hj2 _].
        by destruct v. }
      assert (Hh : exists r, join_comma (members_text ((k, v) :: ms)) ++ 125%N :: rest
                             = 34%N :: r).
      { cbn [members_text]. rewrite Hu. unfold quote.
        destruct (members_text ms); cbn [join_comma app]; eauto. }
      destruct Hh as [r Hr]. rewrite Hr. cbn [skip_ws].
      change (is_json_ws 34) with false. cbv iota.
      change ((34 =? 125)%N) with false. cbv iota.
      rewrite <- Hr.
      rewrite (parse_members_stringify ((k, v) :: ms)); try done; [|lia].
      do 2 f_equal.
      apply (fold_obj_set_ordered ((k, v) :: ms) []). exact Hk.
  - discriminate.
Qed.

Lemma parse_stringify_fuel v f :
  json_value v = true -> (size v < f)%nat ->
  parse_value f (stringify v) = POk v [].
Proof.
  intros Hj Hf. rewrite <- (app_nil_r (stringify v)).
  by apply parse_stringify.
Qed.

Lemma parse_value_S f s :
  parse_value (S f) s =
  match skip_ws s with
  | [] => PSyntax
  | c :: r =>
      if (c =? 123)%N then
        match skip_ws r with
        | c' :: r' =>
            if (c' =? 125)%N then POk (VObj []) r'
            else parse_members f (c' :: r') []
        | [] => PSyntax
        end
      else if (c =? 91)%N then
        match skip_ws r with
        | c' :: r' =>
            if (c' =? 93)%N then POk (VArr []) r'
            else parse_elements f (c' :: r') []
        | [] => PSyntax
        end
      else if (c =? 34)%N then
        match string_body r with
        | Some (t, r') => POk (VStr t) r'
        | None => PSyntax
        end
      else if startsWith (c :: r) (js "true") then POk (VBool true) (drop 4 (c :: r))
      else if startsWith (c :: r) (js "false") then POk (VBool false) (drop 5 (c :: r))
      else if startsWith (c :: r) (js "null") then POk VNull (drop 4 (c :: r))
      else
        match lex_number (c :: r) with
        | Some (n, r') => POk (VNum n) r'
        | None => PSyntax
        end
  end.
Proof. reflexivity. Qed.

Lemma parse_elements_S f s acc :
  parse_elements (S f) s acc =
  match parse_value f s with
  | POk v r =>
      match skip_ws r with
      | c :: r' =>
          if (c =? 44)%N then parse_elements f r' (v :: acc)
          else if (c =? 93)%N then POk (VArr (rev (v :: acc))) r'
          else PSyntax
      | [] => PSyntax
      end
  | PSyntax => PSyntax
  | PFuel => PFuel
  end.
Proof. reflexivity. Qed.

Lemma parse_members_S f s acc :
  parse_members (S f) s acc =
  match skip_ws s with
  | c :: r =>
      if (c =? 34)%N then
        match string_body r with
        | Some (k, r1) =>
            match skip_ws r1 with
            | c1 :: r2 =>
                if (c1 =? 58)%N then
                  match parse_value f r2 with
                  | POk v r3 =>
                      match skip_ws r3 with
                      | c3 :: r4 =>
                          if (c3 =? 44)%N then parse_members f r4 (obj_set acc k v)
                          else if (c3 =? 125)%N then POk (VObj (obj_set acc k v)) r4
                          else PSyntax
                      | [] => PSyntax
                      end
                  | PSyntax => PSyntax
                  | PFuel => PFuel
                  end
                else PSyntax
            | [] => PSyntax
            end
        | None => PSyntax
        end
      else PSyntax
  | [] => PSyntax
  end.
Proof. reflexivity. Qed.

Lemma stable_all f : stable f.
Proof.
  induction f as [|f (IHv & IHe & IHm)]; repeat split; try (intros; simpl in *; congruence).
  - intros s H. rewrite (parse_value_S (S f)). rewrite parse_value_S in H |- *.
    destruct (skip_ws s) as [|c r]; [done|].
    destruct (c =? 123)%N.
    { destruct (skip_ws r) as [|c' r']; [done|].
      destruct (c' =? 125)%N; [done|]. by apply IHm. }
    destruct (c =? 91)%N; [|done].
    destruct (skip_ws r) as [|c' r']; [done|].
    destruct (c' =? 93)%N; [done|]. by apply IHe.
  - intros s acc H. rewrite (parse_elements_S (S f)). rewrite parse_elements_S in H |- *.
    destruct (parse_value f s) as [v r| |] eqn:E; [| |done].
    + rewrite IHv, E by (rewrite E; discriminate).
      destruct (skip_ws r) as [|c r']; [done|].
      destruct (c =? 44)%N; [|done]. by apply IHe.
    + rewrite IHv, E by (rewrite E; discriminate). done.
  - intros s acc H. rewrite (parse_members_S (S f)). rewrite parse_members_S in H |- *.
    destruct (skip_ws s) as [|c r]; [done|].
    destruct (c =? 34)%N; [|done].
    destruct (string_body r) as [[k r1]|]; [|done].
    destruct (skip_ws r1) as [|c1 r2]; [done|].
    destruct (c1 =? 58)%N; [|done].
    destruct (parse_value f r2) as [v r3| |] eqn:E; [| |done].
    + rewrite IHv, E by (rewrite E; discriminate).
      destruct (skip_ws r3) as [|c3 r4]; [done|].
      destruct (c3 =? 44)%N; [|done]. by apply IHm.
    + rewrite IHv, E by (rewrite E; discriminate). done.
Qed.

Lemma parse_value_stable f f' s :
  (f <= f')%nat -> parse_value f s <> PFuel -> parse_value f' s = parse_value f s.
Proof.
  induction 1 as [|f' Hle IH]; [done|]. intros H.
  destruct (stable_all f') as (Hv & _). rewrite Hv; rewrite IH; done.
Qed.

Lemma skip_ws_length s : (length (skip_ws s) <= length s)%nat.
Proof.
  induction s as [|c r IH]; simpl; [lia|].
  destruct (is_json_ws c); simpl; lia.
Qed.

Lemma string_body_length s t r :
  string_body s = Some (t, r) -> (length r < length s)%nat.
Proof.
  revert t r. induction s as [s IH] using (induction_ltof1 _ (@length N)).
  unfold ltof in IH. intros t r H.
  destruct s as [|c s1]; [done|]. cbn [string_body] in H.
  destruct (c =? 34)%N. { injection H as <- <-. simpl. lia. }
  destruct (c =? 92)%N.
  - destruct s1 as [|e s2]; [done|].
    destruct (e =? 117)%N.
    + destruct s2 as [|h1 [|h2 [|h3 [|h4 s3]]]]; try done.
      destruct (hex4 h1 h2 h3 h4); [|done].
      destruct (string_body s3) as [[t' r']|] eqn:E; [|done].
      injection H as <- <-. apply IH in E; simpl in *; lia.
    + destruct (unescape e); [|done].
      destruct (string_body s2) as [[t' r']|] eqn:E; [|done].
      injection H as <- <-. apply IH in E; simpl in *; lia.
  - destruct (c <? 32)%N; [done|].
    destruct (string_body s1) as [[t' r']|] eqn:E; [|done].
    injection H as <- <-. apply IH in E; simpl in *; lia.
Qed.

Lemma lex_uint_length s d r :
  lex_uint s = (d, r) -> (length r <= length s)%nat /\ (d <> Decimal.Nil -> (length r < length s)%nat).
Proof.
  revert d r. induction s as [|c s IH]; intros d r H; simpl in H.
  - injection H as <- <-. split; [done|]. intros; done.
  - destruct (is_digit c).
    + destruct (lex_uint s) as [d' r'] eqn:E. injection H as <- <-.
      destruct (IH _ _ eq_refl) as [H1 _]. simpl. split; [lia|]. intros _. lia.
    + injection H as <- <-. split; [done|]. intros; done.
Qed.

Lemma lex_frac_length s b r : lex_frac s = Some (b, r) -> (length r <= length s)%nat.
Proof.
  destruct s as [|c s]; simpl. { intros [= <- <-]. done. }
  destruct (c =? 46)%N.
  - destruct (lex_uint s) as [d r'] eqn:E.
    apply lex_uint_length in E as [E _].
    destruct d; intros [= <- <-]; simpl; lia.
  - intros [= <- <-]. done.
Qed.

Lemma lex_exp_length s b r : lex_exp s = Some (b, r) -> (length r <= length s)%nat.
Proof.
  destruct s as [|c s]; simpl. { intros [= <- <-]. done. }
  destruct ((c =? 101)%N || (c =? 69)%N).
  - match goal with |- context [lex_uint ?x] => destruct (lex_uint x) as [d r'] eqn:E;
      assert (length x <= length s)%nat end.
    { destruct s as [|g s']; [done|]. destruct ((g =? 43)%N || (g =? 45)%N); simpl; lia. }
    apply lex_uint_length in E as [E _].
    destruct d; intros [= <- <-]; simpl; lia.
  - intros [= <- <-]. done.
Qed.

Lemma lex_number_length s n r :
  lex_number s = Some (n, r) -> (length r < length s)%nat.
Proof.
  unfold lex_number.
  match goal with |- context [let (neg, s1) := ?x in _] =>
    destruct x as [neg s1] eqn:E0 end.
  assert (H1 : (length s1 <= length s)%nat).
  { destruct s as [|c s']; [by injection E0 as <- <-|].
    destruct (c =? 45)%N; injection E0 as <- <-; simpl; lia. }
  destruct (lex_uint s1) as [d s2] eqn:E1.
  apply lex_uint_length in E1 as [E1 E1'].
  destruct (int_part_ok d) eqn:Hok; [|done].
  assert (d <> Decimal.Nil) by (by destruct d).
  destruct (lex_frac s2) as [[fr s3]|] eqn:E2; [|done].
  apply lex_frac_length in E2.
  destruct (lex_exp s3) as [[ex s4]|] eqn:E3; [|done].
  apply lex_exp_length in E3.
  specialize (E1' H).
  match goal with |- context [if ?b then _ else _] => destruct b end;
    intros [= <- <-]; lia.
Qed.

Lemma fueled_all f : fueled f.
Proof.
  induction f as [|f (IHv & IHe & IHm)]; (split; [|split]);
    try (intros; exfalso; simpl in *; lia).
  - intros s Hf. rewrite parse_value_S.
    pose proof (skip_ws_length s) as Hs.
    destruct (skip_ws s) as [|c r]; [split; done|]. simpl in Hs.
    destruct (c =? 123)%N.
    { pose proof (skip_ws_length r) as Hr.
      destruct (skip_ws r) as [|c' r']; [split; done|]. simpl in Hr.
      destruct (c' =? 125)%N.
      - split; [done|]. intros v r0 [= <- <-]. lia.
      - destruct (IHm (c' :: r') []) as [H1 H2]; [simpl; lia|].
        split; [done|]. intros v r0 E. apply H2 in E. simpl in E. lia. }
    destruct (c =? 91)%N.
    { pose proof (skip_ws_length r) as Hr.
      destruct (skip_ws r) as [|c' r']; [split; done|]. simpl in Hr.
      destruct (c' =? 93)%N.
      - split; [done|]. intros v r0 [= <- <-]. lia.
      - destruct (IHe (c' :: r') []) as [H1 H2]; [simpl; lia|].
        split; [done|]. intros v r0 E. apply H2 in E. simpl in E. lia. }
    destruct (c =? 34)%N.
    { destruct (string_body r) as [[t r']|] eqn:E; [|split; done].
      apply string_body_length in E.
      split; [done|]. intros v r0 [= <- <-]. lia. }
    destruct (startsWith (c :: r) (js "true")).
    { split; [done|]. intros v r0 [= <- <-]. simpl. rewrite length_drop. lia. }
    destruct (startsWith (c :: r) (js "false")).
    { split; [done|]. intros v r0 [= <- <-]. simpl. rewrite length_drop. lia. }
    destruct (startsWith (c :: r) (js "null")).
    { split; [done|]. intros v r0 [= <- <-]. simpl. rewrite length_drop. lia. }
    destruct (lex_number (c :: r)) as [[n r']|] eqn:E; [|split; done].
    apply lex_number_length in E. simpl in E.
    split; [done|]. intros v r0 [= <- <-]. lia.
  - intros s acc Hf. rewrite parse_elements_S.
    destruct (IHv s) as [H1 H2]; [lia|].
    destruct (parse_value f s) as [v r| |] eqn:E; [|split; done|done].
    specialize (H2 v r eq_refl).
    pose proof (skip_ws_length r) as Hr.
    destruct (skip_ws r) as [|c r']; [split; done|]. simpl in Hr.
    destruct (c =? 44)%N.
    + destruct (IHe r' (v :: acc)) as [H3 H4]; [lia|].
      split; [done|]. intros v0 r0 E0. apply H4 in E0. lia.
    + destruct (c =? 93)%N; [|split; done].
      split; [done|]. intros v0 r0 [= <- <-]. lia.
  - intros s acc Hf. rewrite parse_members_S.
    pose proof (skip_ws_length s) as Hs.
    destruct (skip_ws s) as [|c r]; [split; done|]. simpl in Hs.
    destruct (c =? 34)%N; [|split; done].
    destruct (string_body r) as [[k r1]|] eqn:Ek; [|split; done].
    apply string_body_length in Ek.
    pose proof (skip_ws_length r1) as Hr1.
    destruct (skip_ws r1) as [|c1 r2]; [split; done|]. simpl in Hr1.
    destruct (c1 =? 58)%N; [|split; done].
    destruct (IHv r2) as [H1 H2]; [lia|].
    destruct (parse_value f r2) as [v r3| |] eqn:E; [|split; done|done].
    specialize (H2 v r3 eq_refl).
    pose proof (skip_ws_length r3) as Hr3.
    destruct (skip_ws r3) as [|c3 r4]; [split; done|]. simpl in Hr3.
    destruct (c3 =? 44)%N.
    + destruct (IHm r4 (obj_set acc k v)) as [H3 H4]; [lia|].
      split; [done|]. intros v0 r0 E0. apply H4 in E0. lia.
    + destruct (c3 =? 125)%N; [|split; done].
      split; [done|]. intros v0 r0 [= <- <-]. lia.
Qed.

(** [JSON.parse] never runs out of fuel. *)
Lemma parse_value_fuel s : parse_value (S (2 * length s)) s <> PFuel.
Proof. destruct (fueled_all (S (2 * length s))) as (H & _). apply H. lia. Qed.

(** [JSON.parse(JSON.stringify(v))] is [v] for every JSON value. *)
Lemma JSON_stringify_json v :
  json_value v = true -> JSON_stringify v = Some (stringify v).
Proof. by destruct v as [| | |[|]| | | |]. Qed.

Lemma JSON_parse_stringify v :
  json_value v = true -> JSON_parse (stringify v) = Some v.
Proof.
  intros Hj. unfold JSON_parse.
  set (t := stringify v).
  pose proof (parse_value_fuel t) as Hfuel.
  set (F := (S (2 * length t) + S (size v))%nat).
  assert (HF : parse_value F t = POk v []).
  { apply parse_stringify_fuel; [done|]. unfold F. lia. }
  rewrite <- (parse_value_stable (S (2 * length t)) F t) by (done || unfold F; lia).
  by rewrite HF.
Qed.

End JSONFacts.

(** ** The storage adapter *)

Module StorageFacts.
Import JS JSONFacts LocalStorage.

Lemma window_storage_set_memory sc o st :
  window_storage sc (set_memory sc o st) = window_storage sc st.
Proof. by destruct sc. Qed.

Lemma available_set_memory sc o st :
  available sc (set_memory sc o st) = available sc st.
Proof. by destruct sc. Qed.

Lemma memory_set_memory sc o st : memory sc (set_memory sc o st) = o.
Proof. by destruct sc. Qed.

Lemma down_set_memory sc o st : down sc st -> down sc (set_memory sc o st).
Proof.
  unfold down. rewrite available_set_memory, window_storage_set_memory. done.
Qed.

Section Down.
Variable sc : bool.
Variable st : state.
Hypothesis Hdown : down sc st.

Lemma down_setItem k v :
  available sc st = true -> exists e, setItem sc k v st = (Throw e, st).
Proof.
  intros Ha. destruct Hdown as [Hd|[e He]]; [congruence|].
  exists e. unfold setItem, native_setItem. by rewrite He.
Qed.

Lemma down_getItem k :
  available sc st = true -> exists e, getItem sc k st = (Throw e, st).
Proof.
  intros Ha. destruct Hdown as [Hd|[e He]]; [congruence|].
  exists e. unfold getItem, native_getItem. by rewrite He.
Qed.

Lemma down_removeItem k :
  available sc st = true -> exists e, removeItem sc k st = (Throw e, st).
Proof.
  intros Ha. destruct Hdown as [Hd|[e He]]; [congruence|].
  exists e. unfold removeItem, native_removeItem. by rewrite He.
Qed.

Lemma down_clearItems :
  available sc st = true -> exists e, clearItems sc st = (Throw e, st).
Proof.
  intros Ha. destruct Hdown as [Hd|[e He]]; [congruence|].
  exists e. unfold clearItems, native_clear. by rewrite He.
Qed.

Lemma down_storage_length :
  available sc st = true -> exists e, storage_length sc st = (Throw e, st).
Proof.
  intros Ha. destruct Hdown as [Hd|[e He]]; [congruence|].
  exists e. unfold storage_length, native_length. by rewrite He.
Qed.

Lemma down_handleQuotaExceeded k v :
  available sc st = true -> exists e, handleQuotaExceeded sc k v st = (Throw e, st).
Proof.
  intros Ha. destruct (down_storage_length Ha) as [e He].
  exists e. unfold handleQuotaExceeded, bind. by rewrite He.
Qed.

Lemma down_native_write k v : native_write sc k v st = (Ok false, st).
Proof.
  unfold native_write, bind, getStorage. fold (available sc st).
  destruct (available sc st) eqn:Ha; [|reflexivity].
  unfold try_catch.
  destruct (down_setItem k v Ha) as [e ->].
  destruct (is_quota_error e); [|reflexivity].
  by destruct (down_handleQuotaExceeded k v Ha) as [e' ->].
Qed.

Lemma down_set k v :
  set k v sc st =
  match k, safeStringify v with
  | _ :: _, Some text => (Ok true, set_memory sc (mem_set (memory sc st) k text) st)
  | _, _ => (Ok false, st)
  end.
Proof.
  unfold set. destruct k as [|c k]; [reflexivity|]. cbn [invalid_key].
  destruct (safeStringify v) as [text|]; [|reflexivity].
  unfold bind. rewrite down_native_write. by destruct sc.
Qed.

Lemma down_get k :
  get k sc st =
  (Ok match k with [] => VNull | _ => memory_answer (memory sc st) k end, st).
Proof.
  unfold get. destruct k as [|c k]; [reflexivity|]. cbn [invalid_key].
  unfold bind, getStorage. fold (available sc st).
  destruct (available sc st) eqn:Ha.
  - unfold try_catch. destruct (down_getItem (c :: k) Ha) as [e ->].
    by destruct sc.
  - by destruct sc.
Qed.

Lemma down_remove k :
  remove k sc st =
  match k with
  | [] => (Ok false, st)
  | _ => (Ok true, set_memory sc (obj_delete (memory sc st) k) st)
  end.
Proof.
  unfold remove. destruct k as [|c k]; [reflexivity|]. cbn [invalid_key].
  unfold bind, getStorage. fold (available sc st).
  destruct (available sc st) eqn:Ha.
  - unfold try_catch. destruct (down_removeItem (c :: k) Ha) as [e ->].
    by destruct sc.
  - by destruct sc.
Qed.

Lemma down_clear :
  clear sc st =
  (Ok true,
   set_memory sc (fold_left (fun o k => obj_delete o k)
                            (obj_keys (memory sc st)) (memory sc st)) st).
Proof.
  unfold clear, bind, getStorage. fold (available sc st).
  destruct (available sc st) eqn:Ha.
  - unfold try_catch. destruct (down_clearItems Ha) as [e ->].
    by destruct sc.
  - by destruct sc.
Qed.

Lemma down_has k :
  has k sc st =
  (Ok match k with [] => false | _ => mem_in (memory sc st) k end, st).
Proof.
  unfold has. destruct k as [|c k]; [reflexivity|]. cbn [invalid_key].
  unfold bind, getStorage. fold (available sc st).
  destruct (available sc st) eqn:Ha.
  - unfold try_catch. destruct (down_getItem (c :: k) Ha) as [e ->].
    by destruct sc.
  - by destruct sc.
Qed.

Lemma down_keys : keys sc st = (Ok (obj_keys (memory sc st)), st).
Proof.
  unfold keys, bind, getStorage. fold (available sc st).
  destruct (available sc st) eqn:Ha.
  - unfold try_catch, key_count.
    destruct (S (length (map_to_list (items (window_storage sc st))))) eqn:Hn; [done|].
    cbn [native_keys]. unfold bind.
    destruct (down_storage_length Ha) as [e ->]. by destruct sc.
  - by destruct sc.
Qed.

Lemma down_size_loop ks acc :
  size_loop ks sc acc st
  = (Ok (acc + fold_right (fun key size => entry_size (memory sc st) key + size) 0 ks),
     st).
Proof.
  revert acc. induction ks as [|k ks IH]; intros acc.
  { cbn [size_loop fold_right]. unfold ret. by rewrite Z.add_0_r. }
  cbn [size_loop fold_right]. unfold bind. rewrite down_get. unfold entry_size at 1.
  match goal with |- context [safeStringify ?v] => destruct (safeStringify v) as [[|c s]|] end;
    rewrite IH; do 2 f_equal; lia.
Qed.

Lemma down_size : size sc st = (Ok (memory_size (memory sc st)), st).
Proof. unfold size, bind. rewrite down_keys. by rewrite down_size_loop. Qed.

Lemma down_setOf k a :
  setOf k a sc st =
  match k, safeStringifyOf a with
  | _ :: _, Throw e => (Throw e, st)
  | _ :: _, Ok (Some text) =>
      (Ok true, set_memory sc (mem_set (memory sc st) k text) st)
  | _, _ => (Ok false, st)
  end.
Proof.
  unfold setOf. destruct k as [|c k]; [reflexivity|]. cbn [invalid_key].
  destruct (safeStringifyOf a) as [[text|]|e]; [|reflexivity|reflexivity].
  unfold bind. rewrite down_native_write. by destruct sc.
Qed.

End Down.

Lemma defined_results_all f : defined_results f.
Proof.
  induction f as [|f (IHv & IHe & IHm)]; (split; [|split]); try (intros; discriminate).
  - intros s v r. rewrite parse_value_S.
    destruct (skip_ws s) as [|c t]; [done|].
    destruct (c =? 123)%N.
    { destruct (skip_ws t) as [|c' r']; [done|].
      destruct (c' =? 125)%N; [by intros [= <- <-]|]. apply IHm. }
    destruct (c =? 91)%N.
    { destruct (skip_ws t) as [|c' r']; [done|].
      destruct (c' =? 93)%N; [by intros [= <- <-]|]. apply IHe. }
    destruct (c =? 34)%N.
    { destruct (string_body t) as [[u r']|]; [|done]. by intros [= <- <-]. }
    destruct (startsWith (c :: t) (js "true")); [by intros [= <- <-]|].
    destruct (startsWith (c :: t) (js "false")); [by intros [= <- <-]|].
    destruct (startsWith (c :: t) (js "null")); [by intros [= <- <-]|].
    destruct (lex_number (c :: t)) as [[n r']|]; [|done]. by intros [= <- <-].
  - intros s acc v r. rewrite parse_elements_S.
    destruct (parse_value f s) as [v0 r0| |]; [|done|done].
    destruct (skip_ws r0) as [|c r']; [done|].
    destruct (c =? 44)%N; [apply IHe|].
    destruct (c =? 93)%N; [|done]. by intros [= <- <-].
  - intros s acc v r. rewrite parse_members_S.
    destruct (skip_ws s) as [|c t]; [done|].
    destruct (c =? 34)%N; [|done].
    destruct (string_body t) as [[k r1]|]; [|done].
    destruct (skip_ws r1) as [|c1 r2]; [done|].
    destruct (c1 =? 58)%N; [|done].
    destruct (parse_value f r2) as [v0 r3| |]; [|done|done].
    destruct (skip_ws r3) as [|c3 r4]; [done|].
    destruct (c3 =? 44)%N; [apply IHm|].
    destruct (c3 =? 125)%N; [|done]. by intros [= <- <-].
Qed.

Lemma JSON_parse_defined s v : JSON_parse s = Some v -> is_undefined v = false.
Proof.
  unfold JSON_parse.
  destruct (parse_value (S (2 * length s)) s) as [v0 r| |] eqn:E; [|done|done].
  destruct (skip_ws r); [|done]. intros [= <-].
  destruct (defined_results_all (S (2 * length s))) as (H & _). eauto.
Qed.

Lemma safeParse_defined s : is_undefined (safeParse s) = false.
Proof.
  unfold safeParse. destruct (JSON_parse s) eqn:E; [|reflexivity].
  by apply JSON_parse_defined in E.
Qed.

Lemma memory_answer_defined o k : memory_answer o k <> VUndefined.
Proof.
  unfold memory_answer. destruct (mem_read o k).
  - pose proof (safeParse_defined s). by destruct (safeParse s).
  - by destruct (str_eqb k (js "__proto__")).
  - done.
Qed.

Lemma obj_get_replace {A} (o : list (jsstring * A)) k v :
  obj_has o k = true -> obj_get (obj_replace o k v) k = Some v.
Proof.
  unfold obj_has, obj_get. induction o as [|[k' v'] o IH]; simpl; [done|].
  destruct (str_eqb k' k) eqn:E; simpl; rewrite E; [done|]. auto.
Qed.

Lemma obj_get_insert_index {A} (o : list (jsstring * A)) n k v :
  obj_has o k = false -> obj_get (obj_insert_index o n k v) k = Some v.
Proof.
  unfold obj_has, obj_get. induction o as [|[k' v'] o IH]; simpl.
  - intros _. assert (str_eqb k k = true) as -> by (by apply str_eqb_eq). done.
  - intros H. apply orb_false_iff in H as [H1 H2].
    assert (Hkk : str_eqb k k = true) by (by apply str_eqb_eq).
    destruct (array_index k') as [m|]; [destruct (m <? n)%N|]; simpl;
      rewrite ?H1, ?Hkk; auto.
Qed.

Lemma obj_get_app_new {A} (o : list (jsstring * A)) k v :
  obj_has o k = false -> obj_get (o ++ [(k, v)]) k = Some v.
Proof.
  unfold obj_has, obj_get. induction o as [|[k' v'] o IH]; simpl.
  - intros _. assert (str_eqb k k = true) as -> by (by apply str_eqb_eq). done.
  - intros H. apply orb_false_iff in H as [H1 H2]. rewrite H1. auto.
Qed.

Lemma obj_get_set {A} (o : list (jsstring * A)) k v :
  obj_get (obj_set o k v) k = Some v.
Proof.
  unfold obj_set. destruct (obj_has o k) eqn:H.
  - by apply obj_get_replace.
  - destruct (array_index k); [by apply obj_get_insert_index | by apply obj_get_app_new].
Qed.

Lemma memory_answer_set o k text :
  k <> js "__proto__" -> memory_answer (mem_set o k text) k = safeParse text.
Proof.
  intros Hk. unfold memory_answer, mem_read, mem_set.
  apply str_eqb_neq in Hk. rewrite Hk. by rewrite obj_get_set.
Qed.

Lemma same_shell_refl st : same_shell st st.
Proof. by repeat split. Qed.

Lemma same_shell_trans a b c : same_shell a b -> same_shell b c -> same_shell a c.
Proof.
  intros (?&?&?&?&?&?) (?&?&?&?&?&?). repeat split; congruence.
Qed.

Lemma same_shell_available sc st st' :
  same_shell st st' -> available sc st' = available sc st.
Proof. intros (?&?&?&?&?&?). by destruct sc. Qed.

Lemma same_shell_failing sc st st' :
  same_shell st st' ->
  failing (window_storage sc st') = failing (window_storage sc st).
Proof. intros (?&?&?&?&?&?). by destruct sc. Qed.

Lemma same_shell_set_items sc st m :
  same_shell st (set_window_storage sc (with_items (window_storage sc st) m) st).
Proof. destruct sc; by repeat split. Qed.

Lemma window_storage_set sc n st :
  window_storage sc (set_window_storage sc n st) = n.
Proof. by destruct sc. Qed.

Lemma setItem_ok sc k v st st' :
  setItem sc k v st = (Ok tt, st') -> same_shell st st' /\ stored_at sc k v st'.
Proof.
  unfold setItem, native_setItem.
  destruct (failing (window_storage sc st)) eqn:Hf; [done|].
  destruct (accepts _ _ _ _); [|done]. intros [= <-].
  split; [apply same_shell_set_items|].
  unfold stored_at. rewrite window_storage_set. cbn.
  split; [done|]. apply lookup_insert_eq.
Qed.

Lemma setItem_throw sc k v st e st' :
  setItem sc k v st = (Throw e, st') -> st' = st.
Proof.
  unfold setItem. destruct (native_setItem _ _ _); by intros [= <-].
Qed.

Lemma removeItem_shell sc k st r st' :
  removeItem sc k st = (r, st') -> same_shell st st'.
Proof.
  unfold removeItem, native_removeItem.
  destruct (failing (window_storage sc st)); intros [= <- <-].
  - apply same_shell_refl.
  - apply same_shell_set_items.
Qed.

Lemma storage_key_state sc i st r st' : storage_key sc i st = (r, st') -> st' = st.
Proof. by intros [= <- <-]. Qed.

Lemma storage_length_state sc st r st' : storage_length sc st = (r, st') -> st' = st.
Proof. by intros [= <- <-]. Qed.

Lemma try_setItem sc k v st b st' :
  try_catch (setItem sc k v ;;; ret true) (fun _ => ret false) st = (Ok b, st') ->
  same_shell st st' /\ (b = true -> stored_at sc k v st').
Proof.
  unfold try_catch, bind, ret.
  destruct (setItem sc k v st) as [[[]|e] st1] eqn:E.
  - intros [= <- <-]. apply setItem_ok in E as [H1 H2]. by split.
  - apply setItem_throw in E as ->. intros [= <- <-].
    split; [apply same_shell_refl | done].
Qed.

Lemma evict_prefixed_post i sc k v : forall st r st',
  evict_prefixed i sc k v st = (r, st') ->
  same_shell st st' /\ (r = Ok true -> stored_at sc k v st').
Proof.
  induction i as [|j IH]; intros st r st'; cbn [evict_prefixed].
  - intros [= <- <-]. split; [apply same_shell_refl | done].
  - unfold bind at 1.
    destruct (storage_key sc j st) as [[key|e] st1] eqn:Ek;
      apply storage_key_state in Ek as ->.
    2:{ intros [= <- <-]. split; [apply same_shell_refl | done]. }
    destruct key as [key|]; [|apply IH].
    match goal with |- context [if ?b then _ else _] => destruct b end; [|apply IH].
    unfold bind at 1.
    destruct (removeItem sc key st) as [[[]|e] st1] eqn:Er;
      apply removeItem_shell in Er.
    2:{ intros [= <- <-]. by split. }
    unfold bind at 1.
    destruct (try_catch (setItem sc k v;;; ret true) (λ _ : exn, ret false) st1)
      as [[b|e] st2] eqn:Et.
    2:{ unfold try_catch, bind, ret in Et.
        destruct (setItem sc k v st1) as [[[]|e'] st3]; done. }
    apply try_setItem in Et as [Hs Hb].
    destruct b.
    + intros [= <- <-]. split; [by eapply same_shell_trans; eauto | auto].
    + intros H. apply IH in H as [H1 H2].
      split; [|done]. eapply same_shell_trans; [|exact H1].
      by eapply same_shell_trans.
Qed.

Lemma timestamped_state f : forall i sc acc st r st',
  timestamped f i sc acc st = (r, st') -> st' = st.
Proof.
  induction f as [|f IH]; intros i sc acc st r st'; cbn [timestamped].
  - by intros [= <- <-].
  - unfold bind at 1. cbn [storage_length].
    destruct (native_length (window_storage sc st)) as [len|e]; [|by intros [= <- <-]].
    destruct (i <? len)%nat; [|by intros [= <- <-]].
    unfold bind at 1. cbn [storage_key].
    destruct (native_key (window_storage sc st) i) as [[key|]|e];
      [| apply IH | by intros [= <- <-]].
    match goal with |- context [if ?b then _ else _] => destruct b end; apply IH.
Qed.

Lemma removeAll_shell sc ks : forall st r st',
  removeAll sc ks st = (r, st') -> same_shell st st'.
Proof.
  induction ks as [|k ks IH]; intros st r st'; cbn [removeAll].
  - intros [= <- <-]. apply same_shell_refl.
  - unfold bind.
    destruct (removeItem sc k st) as [[[]|e] st1] eqn:Er;
      apply removeItem_shell in Er.
    + intros H. apply IH in H. by eapply same_shell_trans.
    + by intros [= <- <-].
Qed.

Lemma handleQuotaExceeded_post sc k v st r st' :
  handleQuotaExceeded sc k v st = (r, st') ->
  same_shell st st' /\ (r = Ok tt -> stored_at sc k v st').
Proof.
  unfold handleQuotaExceeded. unfold bind at 1.
  destruct (storage_length sc st) as [[len|e] st1] eqn:El;
    apply storage_length_state in El as ->.
  2:{ intros [= <- <-]. split; [apply same_shell_refl | done]. }
  unfold bind at 1.
  destruct (evict_prefixed len sc k v st) as [[b|e] st1] eqn:Ee;
    apply evict_prefixed_post in Ee as [Hs1 Hb].
  2:{ intros [= <- <-]. by split. }
  destruct b.
  { intros [= <- <-]. split; [done|]. intros _. by apply Hb. }
  unfold bind at 1. unfold key_count at 1.
  unfold bind at 1.
  match goal with |- context [timestamped ?f ?i ?s ?a ?x] =>
    destruct (timestamped f i s a x) as [[tks|e] st2] eqn:Et;
    apply timestamped_state in Et as -> end.
  2:{ intros [= <- <-]. by split. }
  destruct (0 <? length tks)%nat.
  2:{ intros [= <- <-]. by split. }
  unfold bind at 1.
  match goal with |- context [removeAll ?s ?l ?x] =>
    destruct (removeAll s l x) as [[[]|e] st2] eqn:Er;
    apply removeAll_shell in Er end.
  2:{ intros [= <- <-]. split; [by eapply same_shell_trans | done]. }
  destruct (setItem sc k v st2) as [[[]|e] st3] eqn:Es.
  - apply setItem_ok in Es as [H1 H2]. intros [= <- <-].
    split; [|done]. eapply same_shell_trans; [|exact H1]. by eapply same_shell_trans.
  - apply setItem_throw in Es as ->. intros [= <- <-].
    split; [by eapply same_shell_trans | done].
Qed.

Lemma native_write_post sc k v st b st' :
  native_write sc k v st = (Ok b, st') ->
  same_shell st st' /\
  (b = true -> available sc st = true /\ stored_at sc k v st').
Proof.
  unfold native_write, bind, getStorage. fold (available sc st).
  destruct (available sc st) eqn:Ha.
  2:{ intros [= <- <-]. split; [apply same_shell_refl | done]. }
  unfold try_catch at 1.
  destruct (setItem sc k v st) as [[[]|e] st1] eqn:Es.
  - apply setItem_ok in Es as [H1 H2]. intros [= <- <-]. by split.
  - apply setItem_throw in Es as ->.
    destruct (is_quota_error e).
    2:{ intros [= <- <-]. split; [apply same_shell_refl | done]. }
    unfold try_catch.
    destruct (handleQuotaExceeded sc k v st) as [[[]|e'] st2] eqn:Eh;
      apply handleQuotaExceeded_post in Eh as [H1 H2]; intros [= <- <-].
    + split; [done|]. intros _. split; [done|]. by apply H2.
    + by split.
Qed.

Lemma native_write_total sc k v st :
  exists b st', native_write sc k v st = (Ok b, st').
Proof.
  unfold native_write, bind, getStorage.
  match goal with |- context [if ?c then _ else _] => destruct c end; [|by eauto].
  unfold try_catch at 1.
  destruct (setItem sc k v st) as [[[]|e] st1]; [by eauto|].
  destruct (is_quota_error e); [|by eauto].
  unfold try_catch.
  destruct (handleQuotaExceeded sc k v st1) as [[[]|e'] st2]; by eauto.
Qed.

(** [Storage.get] when the native object of the scope holds [v]. *)
Lemma get_stored sc k v st :
  k <> [] -> available sc st = true -> stored_at sc k v st ->
  get k sc st = (Ok (safeParse v), st).
Proof.
  intros Hk Ha [Hf Hi]. unfold get.
  destruct k as [|c k]; [done|]. cbn [invalid_key].
  unfold bind, getStorage. fold (available sc st). rewrite Ha.
  unfold try_catch, bind, getItem, native_getItem. by rewrite Hf, Hi.
Qed.

Lemma set_get_lands sc st key v text :
  key <> [] -> safeStringify v = Some text -> lands sc key text st ->
  exists st', set key v sc st = (Ok true, st') /\
              get key sc st' = (Ok (safeParse text), st').
Proof.
  intros Hk Hs [[Hd Hp]|[st1 Hw]].
  - rewrite (down_set sc st Hd). destruct key as [|c key]; [done|]. rewrite Hs.
    eexists. split; [reflexivity|].
    rewrite down_get by (by apply down_set_memory).
    by rewrite memory_set_memory, memory_answer_set.
  - exists st1. unfold set. destruct key as [|c key]; [done|]. cbn [invalid_key].
    rewrite Hs. unfold bind. rewrite Hw. split; [reflexivity|].
    apply native_write_post in Hw as [Hsh Hst].
    destruct (Hst eq_refl) as [Ha Hat].
    apply get_stored; [done| |done].
    by rewrite (same_shell_available sc st st1).
Qed.

Lemma safeParse_stringify v :
  json_value v = true -> safeParse (stringify v) = v.
Proof. intros H. unfold safeParse. by rewrite JSON_parse_stringify. Qed.

Lemma safeStringify_json v :
  json_value v = true -> (forall s, v <> VStr s) ->
  safeStringify v = Some (stringify v).
Proof.
  destruct v as [| |b|[z|l]|s|l|ms|g]; try done.
  intros _ H. by destruct (H s).
Qed.

(** C1 (amended).  When the text that [Storage.set] writes lands where
    [Storage.get] reads, [set] answers [true] and [get] then returns
    that text read back by [safeParse].  For a value that JSON
    represents and that is not a string this is the value itself.  A
    string is written as it is: it comes back as the same string when
    it is not JSON text, and as the value it denotes when it is.  A
    second [set] of the same key and value that lands leaves [get] with
    the same answer. *)
Theorem storage_set_get sc st key v text :
  key <> [] -> safeStringify v = Some text -> lands sc key text st ->
  exists st',
    set key v sc st = (Ok true, st') /\
    get key sc st' = (Ok (safeParse text), st') /\
    (json_value v = true -> (forall s, v <> VStr s) -> safeParse text = v) /\
    (forall s, v = VStr s ->
       text = s /\
       (JSON_parse s = None -> safeParse text = VStr s) /\
       (forall w, JSON_parse s = Some w -> safeParse text = w)) /\
    (lands sc key text st' ->
     exists st'', set key v sc st' = (Ok true, st'') /\
                  get key sc st'' = (Ok (safeParse text), st'')).
Proof.
  intros Hk Hs Hl.
  destruct (set_get_lands sc st key v text Hk Hs Hl) as (st' & H1 & H2).
  exists st'. split; [done|]. split; [done|]. split; [|split].
  - intros Hj Hn. rewrite (safeStringify_json v Hj Hn) in Hs.
    injection Hs as <-. by apply safeParse_stringify.
  - intros s ->. injection Hs as <-. split; [done|].
    split; [intros Hp | intros w Hp]; unfold safeParse; by rewrite Hp.
  - by apply set_get_lands.
Qed.

Lemma storage_set_get_witness :
  exists st',
    set (js "draft") sample false (mkState true true [] [] unlimited unlimited)
    = (Ok true, st') /\
    get (js "draft") false st' = (Ok sample, st').
Proof.
  destruct (storage_set_get false (mkState true true [] [] unlimited unlimited)
              (js "draft") sample (stringify sample)) as (st' & H1 & H2 & H3 & _).
  - done.
  - reflexivity.
  - right. eexists. vm_compute. reflexivity.
  - exists st'. split; [exact H1|]. rewrite H2.
    rewrite H3; [reflexivity | reflexivity | done].
Defined.

(** The string [123] is stored as it is and read back as the number
    123. *)
Lemma storage_string_not_unchanged :
  ~ (forall sc st key s st',
       set key (VStr s) sc st = (Ok true, st') ->
       fst (get key sc st') = Ok (VStr s)).
Proof.
  intros H.
  specialize (H false (mkState true true [] [] unlimited unlimited)
                (js "k") (js "123") _ eq_refl).
  vm_compute in H. discriminate.
Qed.

Lemma obj_delete_keys {A} ks : forall (o : list (jsstring * A)),
  Forall (fun kv => In (fst kv) ks) o ->
  fold_left (fun o k => obj_delete o k) ks o = [].
Proof.
  induction ks as [|k ks IH]; intros o Ho; cbn [fold_left].
  - destruct o as [|kv o]; [done|]. inversion Ho as [|? ? H]; subst. destruct H.
  - apply IH. unfold obj_delete.
    induction o as [|kv o IHo]; [done|]. inversion Ho as [|? ? H Hr]; subst.
    cbn [List.filter]. destruct (str_eqb (fst kv) k) eqn:E; cbn [negb]; [by apply IHo|].
    constructor; [|by apply IHo]. destruct H as [H|H]; [|done].
    apply str_eqb_neq in E. congruence.
Qed.

Lemma obj_delete_all {A} (o : list (jsstring * A)) :
  fold_left (fun o k => obj_delete o k) (obj_keys o) o = [].
Proof.
  apply obj_delete_keys. apply List.Forall_forall. intros kv Hin.
  unfold obj_keys. by apply in_map.
Qed.

Lemma setOf_plain k v sc st : setOf k (Plain v) sc st = set k v sc st.
Proof. reflexivity. Qed.

Lemma memory_size_nonneg o : 0 <= memory_size o.
Proof.
  unfold memory_size. induction (obj_keys o) as [|k ks IH]; [done|].
  cbn [fold_right]. unfold entry_size at 1.
  destruct (safeStringify _) as [[|c s]|]; lia.
Qed.




End StorageFacts.

(** ** The validation engine *)

Module ValidationFacts.
Import JS JSONFacts StorageFacts Validation.

Lemma trimStart_length s : (length (trimStart s) <= length s)%nat.
Proof.
  induction s as [|c r IH]; simpl; [lia|].
  destruct (is_whitespace c); simpl; lia.
Qed.

Lemma trim_length s : (length (trim s) <= length s)%nat.
Proof.
  unfold trim, trimEnd. rewrite length_rev.
  etransitivity; [apply trimStart_length|].
  rewrite length_rev. apply trimStart_length.
Qed.

Section Rules.
Variable RegExp_test : jsstring -> jsstring -> option bool.
Variable toLowerCase : jsstring -> jsstring.
Variable half_up : Z -> Z -> bool.
Abbreviation check_rule := (check_rule RegExp_test toLowerCase).
Abbreviation check_rules := (check_rules RegExp_test toLowerCase).
Abbreviation validateField := (validateField RegExp_test toLowerCase half_up).
Abbreviation updateFormCompletion := (updateFormCompletion half_up).

(** No validator raises on a string. *)
Lemma check_rule_string doc s r : exists p m, check_rule doc (VStr s) r = Some (p, m).
Proof.
  destruct r; cbn; unfold validator_email, validator_phone, validator_minLength,
    validator_maxLength, custom_storyMinimum, custom_department, custom_relationship;
    try (destruct (negb (truthy (VStr s))); cbn; by eauto); try by eauto.
  repeat match goal with |- context [if ?b then _ else _] => destruct b; cbn end;
    by eauto.
Qed.

Lemma check_rules_string doc s rules :
  exists b errs, check_rules doc (VStr s) rules = Some (b, errs).
Proof.
  induction rules as [|r rules (b & errs & IH)]; [by eexists _, _|].
  cbn [Validation.check_rules].
  destruct (check_rule_string doc s r) as (p & m & ->). cbn. rewrite IH. cbn.
  by eauto.
Qed.

Lemma check_rules_failed doc v rules r m b errs :
  In r rules -> check_rule doc v r = Some (false, m) ->
  check_rules doc v rules = Some (b, errs) -> b = false.
Proof.
  revert b errs. induction rules as [|r0 rules IH]; [done|].
  intros b errs [->|Hin] Hr; cbn [Validation.check_rules].
  - rewrite Hr. cbn. destruct (check_rules doc v rules) as [[b' e']|]; [|done].
    cbn. by intros [= <- <-].
  - destruct (check_rule doc v r0) as [[p0 m0]|]; [|done]. cbn.
    destruct (check_rules doc v rules) as [[b' e']|] eqn:E; [|done]. cbn.
    intros [= <- <-]. rewrite (IH b' e' Hin Hr eq_refl). by destruct p0.
Qed.

Lemma hasRequiredRule_In rules : hasRequiredRule rules = true -> In RRequired rules.
Proof.
  unfold hasRequiredRule. intros H. apply existsb_exists in H as (r & Hin & Hr).
  by destruct r.
Qed.

End Rules.

Lemma obj_has_get {A} (m : list (jsstring * A)) k :
  obj_has m k = true <-> exists v, obj_get m k = Some v.
Proof.
  unfold obj_has, obj_get. induction m as [|[k' v'] m IH]; simpl.
  - split; [done | by intros [v Hv]].
  - destruct (str_eqb k' k); simpl; [|exact IH]. split; [by eauto | done].
Qed.

Lemma obj_replace_In {A} (m : list (jsstring * A)) k v :
  obj_has m k = true -> In v (map snd (obj_replace m k v)).
Proof.
  unfold obj_has. induction m as [|[k' v'] m IH]; simpl; [done|].
  destruct (str_eqb k' k); simpl; [by left|]. intros H. right. by apply IH.
Qed.

Lemma map_set_In {A} (m : list (jsstring * A)) k v : In v (map snd (map_set m k v)).
Proof.
  unfold map_set. destruct (obj_has m k) eqn:H; [by apply obj_replace_In|].
  rewrite map_app. apply in_or_app. right. by left.
Qed.

Lemma obj_get_replace_other {A} (m : list (jsstring * A)) k v k' :
  obj_get (obj_replace m k v) k' =
  if str_eqb k k' then (if obj_has m k then Some v else None) else obj_get m k'.
Proof.
  unfold obj_get, obj_has. induction m as [|[k0 v0] m IH]; simpl.
  - by destruct (str_eqb k k').
  - destruct (str_eqb k0 k) eqn:E; simpl.
    + apply str_eqb_eq in E as ->. by destruct (str_eqb k k').
    + destruct (str_eqb k0 k') eqn:E'; simpl.
      * apply str_eqb_eq in E' as ->.
        assert (str_eqb k k' = false) as ->; [|done].
        apply str_eqb_neq. apply str_eqb_neq in E. congruence.
      * exact IH.
Qed.

Lemma filter_In_length {A} (f : A -> bool) (l : list A) x :
  In x l -> f x = false -> (length (List.filter f l) < length l)%nat.
Proof.
  induction l as [|y l IH]; [done|]. intros [->|Hin] Hx; simpl.
  - rewrite Hx. pose proof (List.filter_length_le f l). lia.
  - specialize (IH Hin Hx). destruct (f y); simpl; lia.
Qed.

Lemma forallb_In_false {A} (f : A -> bool) (l : list A) x :
  In x l -> f x = false -> forallb f l = false.
Proof.
  intros Hin Hx. destruct (forallb f l) eqn:E; [|done].
  rewrite forallb_forall in E. rewrite (E x Hin) in Hx. done.
Qed.

Lemma round_percent_nearest half_up v r :
  0 < r -> Z.abs (2 * r * round_percent half_up v r - 200 * v) <= r.
Proof.
  intros Hr. unfold round_percent.
  pose proof (Z.div_mod (200 * v) (2 * r) ltac:(lia)) as Hdm.
  pose proof (Z.mod_pos_bound (200 * v) (2 * r) ltac:(lia)) as Hb.
  set (q := (200 * v) / (2 * r)) in *. set (m := (200 * v) mod (2 * r)) in *.
  destruct (Z.ltb_spec m r); [nia|].
  destruct (Z.ltb_spec r m); [nia|].
  destruct (half_up v r); nia.
Qed.

Lemma round_percent_le half_up v r :
  0 < r -> v <= r -> round_percent half_up v r <= 100.
Proof.
  intros Hr Hv. pose proof (round_percent_nearest half_up v r Hr). nia.
Qed.

Lemma round_percent_lt half_up v r :
  0 < r -> v < r -> r < 200 -> round_percent half_up v r < 100.
Proof.
  intros Hr Hv Hs. pose proof (round_percent_nearest half_up v r Hr). nia.
Qed.

Lemma round_percent_nonneg half_up v r :
  0 < r -> 0 <= v -> 0 <= round_percent half_up v r.
Proof.
  intros Hr Hv. pose proof (round_percent_nearest half_up v r Hr). nia.
Qed.

Lemma obj_get_map_set {A} (m : list (jsstring * A)) k v :
  obj_get (map_set m k v) k = Some v.
Proof.
  unfold map_set. destruct (obj_has m k) eqn:H.
  - by apply obj_get_replace.
  - by apply obj_get_app_new.
Qed.

Section Completion.
Variable RegExp_test : jsstring -> jsstring -> option bool.
Variable toLowerCase : jsstring -> jsstring.
Variable half_up : Z -> Z -> bool.
Abbreviation check_rules' := (check_rules RegExp_test toLowerCase).
Abbreviation validateField' := (validateField RegExp_test toLowerCase half_up).
Abbreviation updateFormCompletion' := (updateFormCompletion half_up).

Lemma updateFormCompletion_spec formId st fs0 :
  obj_get (forms st) formId = Some fs0 ->
  let st' := updateFormCompletion' formId st in
  let r := Z.of_nat (length (requiredFields formId st)) in
  let v := Z.of_nat (length (validFields formId st)) in
  let c := completionPercentage st' in
  fields st' = fields st /\
  obj_get (forms st') formId =
    Some (mkFormState (forallb fs_isValid (requiredFields formId st)) c) /\
  (r = 0 -> c = 100) /\
  (0 < r -> Z.abs (2 * r * c - 200 * v) <= r) /\
  0 <= c <= 100 /\
  (forall f, In f (requiredFields formId st) -> fs_isValid f = false ->
     (r < 200 -> c < 100) /\
     forallb fs_isValid (requiredFields formId st) = false /\
     (forall b, obj_get (submitDisabled st) formId = Some b ->
                obj_get (submitDisabled st') formId = Some true)) /\
  (forall b, obj_get (submitDisabled st) formId = Some b ->
     obj_get (submitDisabled st') formId
     = Some (negb (forallb fs_isValid (requiredFields formId st)))).
Proof.
  intros Hf. cbv zeta. unfold Validation.updateFormCompletion. rewrite Hf.
  cbn [completionPercentage fields forms submitDisabled].
  pose proof (List.filter_length_le fs_isValid (requiredFields formId st)) as Hle.
  fold (validFields formId st) in Hle.
  split; [done|]. split; [apply obj_get_map_set|].
  assert (Hbtn : forall b, obj_get (submitDisabled st) formId = Some b ->
            obj_get (if obj_has (submitDisabled st) formId
                     then obj_replace (submitDisabled st) formId
                            (negb (forallb fs_isValid (requiredFields formId st)))
                     else submitDisabled st) formId
            = Some (negb (forallb fs_isValid (requiredFields formId st)))).
  { intros b Hb.
    assert (Hh : obj_has (submitDisabled st) formId = true)
      by (apply obj_has_get; eauto).
    rewrite Hh. by apply obj_get_replace. }
  destruct (Nat.ltb_spec 0 (length (requiredFields formId st))) as [Hpos|Hz].
  - split; [lia|]. split; [intros _; apply round_percent_nearest; lia|].
    split.
    { split; [apply round_percent_nonneg | apply round_percent_le]; lia. }
    split; [|done].
    intros f Hin Hv.
    pose proof (filter_In_length fs_isValid _ f Hin Hv) as Hlt.
    fold (validFields formId st) in Hlt.
    split; [intros Hs; apply round_percent_lt; lia|].
    assert (Hall : forallb fs_isValid (requiredFields formId st) = false)
      by (by apply (forallb_In_false _ _ f)).
    split; [done|]. intros b Hb. rewrite Hall. cbn.
    assert (Hh : obj_has (submitDisabled st) formId = true)
      by (apply obj_has_get; eauto).
    rewrite Hh. by apply obj_get_replace.
  - split; [done|]. split; [lia|]. split; [lia|]. split; [|done].
    intros f Hin. destruct (requiredFields formId st); [done | simpl in Hz; lia].
Qed.

Lemma updateFieldUI_frame field b errs st :
  let st' := updateFieldUI field b errs st in
  forms st' = forms st /\ fields st' = fields st /\
  submitDisabled st' = submitDisabled st.
Proof.
  cbv zeta. unfold updateFieldUI.
  by destruct (negb _).
Qed.

(** C3 (amended).  After [validateField] on a field of a form the
    completion percentage of the form is 100 when the form has no
    required field and otherwise the integer nearest to 100 times
    valid over required, at most 100, where a field counts as valid by
    the flag recorded at its last validation.  The form is marked valid,
    and a registered submit control enabled, exactly when every
    required field is recorded as valid.  When the field validated is
    required and its value is one the [required] validator rejects (a
    text that trims to the empty string, an empty group of
    checkboxes), the field is recorded as invalid, the form is marked
    invalid and the submit control is disabled; the percentage is then
    below 100 provided the form has fewer than 200 required fields. *)
Theorem completion_percentage doc field st fstate formst isValid errs :
  obj_get (fields st) (el_id field) = Some fstate ->
  obj_get (forms st) (fs_formId fstate) = Some formst ->
  check_rules' doc (getFieldValue doc field) (fs_rules fstate)
  = Some (isValid, errs) ->
  exists st',
    validateField' doc field st = Some (isValid, st') /\
    let formId := fs_formId fstate in
    let r := Z.of_nat (length (requiredFields formId st')) in
    let v := Z.of_nat (length (validFields formId st')) in
    let c := completionPercentage st' in
    (form_completion <$> obj_get (forms st') formId) = Some c /\
    (r = 0 -> c = 100) /\
    (0 < r -> Z.abs (2 * r * c - 200 * v) <= r) /\
    c <= 100 /\
    (form_isValid <$> obj_get (forms st') formId)
    = Some (forallb fs_isValid (requiredFields formId st')) /\
    (forall b, obj_get (submitDisabled st) formId = Some b ->
       obj_get (submitDisabled st') formId
       = Some (negb (forallb fs_isValid (requiredFields formId st')))) /\
    (hasRequiredRule (fs_rules fstate) = true ->
     validator_required (getFieldValue doc field) = false ->
       isValid = false /\
       (r < 200 -> c < 100) /\
       (form_isValid <$> obj_get (forms st') formId) = Some false /\
       (forall b, obj_get (submitDisabled st) formId = Some b ->
                  obj_get (submitDisabled st') formId = Some true)).
Proof.
  intros Hfield Hform Hc.
  unfold Validation.validateField. rewrite Hfield, Hc. cbn [mbind option_bind].
  eexists. split; [reflexivity|].
  set (fs' := mkFieldState _ _ _ isValid _ _).
  set (st1 := mkState _ _ _ _ _ _).
  set (st2 := updateFieldUI field isValid errs st1).
  destruct (updateFieldUI_frame field isValid errs st1) as (Hf2 & Hfl2 & Hs2).
  fold st2 in Hf2, Hfl2, Hs2.
  assert (Hform2 : obj_get (forms st2) (fs_formId fstate) = Some formst)
    by (by rewrite Hf2).
  destruct (updateFormCompletion_spec (fs_formId fstate) st2 formst Hform2)
    as (Hfl & Hfo & H0 & Hpos & Hrange & Hinv & Hbtn).
  set (st3 := updateFormCompletion' (fs_formId fstate) st2) in *.
  assert (Hreq3 : requiredFields (fs_formId fstate) st3
                  = requiredFields (fs_formId fstate) st2).
  { unfold requiredFields, formFields. by rewrite Hfl. }
  assert (Hval3 : validFields (fs_formId fstate) st3
                  = validFields (fs_formId fstate) st2).
  { unfold validFields. by rewrite Hreq3. }
  cbv zeta. rewrite Hreq3, Hval3, Hfo.
  cbn [fmap option_fmap option_map form_completion form_isValid].
  split; [done|]. split; [done|]. split; [done|]. split; [lia|].
  split; [done|].
  split. { intros b Hbb. apply (Hbtn b). by rewrite Hs2. }
  intros Hreq Hval.
  assert (Hb : isValid = false).
  { eapply (check_rules_failed RegExp_test toLowerCase doc _ _ RRequired);
      [by apply hasRequiredRule_In | | exact Hc].
    cbn [Validation.check_rule]. by rewrite Hval. }
  assert (Hin : In fs' (requiredFields (fs_formId fstate) st2)).
  { unfold requiredFields, formFields. rewrite Hfl2.
    apply filter_In. split; [|exact Hreq].
    apply filter_In. split; [apply map_set_In|].
    cbn. by apply str_eqb_eq. }
  assert (Hinvalid : fs_isValid fs' = false) by (by subst fs').
  destruct (Hinv fs' Hin Hinvalid) as (Hlt & Hall & Hoff).
  split; [done|]. split; [done|]. split; [by rewrite Hall|].
  intros b Hbb. apply (Hoff b). by rewrite Hs2.
Qed.

End Completion.

Lemma completion_percentage_witness :
  exists st',
    validateField any_regexp ascii_lower (fun _ _ => true) [] empty_field
                  (registered "f" [(empty_field, false)])
    = Some (false, st') /\
    completionPercentage st' = 0 /\
    obj_get (submitDisabled st') (js "f") = Some true.
Proof.
  destruct (completion_percentage any_regexp ascii_lower (fun _ _ => true)
              [] empty_field (registered "f" [(empty_field, false)])
              (mkFieldState empty_field (js "f") [RRequired] false false (VStr []))
              (mkFormState false 0) false [msg_required])
    as (st' & Hv & Hc & H0 & Hn & Hle & _ & _ & Hreq);
    [reflexivity | reflexivity | reflexivity |].
  exists st'. split; [exact Hv|].
  injection Hv as <-. split; reflexivity.
Defined.

(** The [required] validator passes the value [false] of a checkbox
    without a name: a form whose one required field is such a box,
    not checked, is complete after its validation and its submit
    control is enabled. *)
Example unchecked_box_counts_as_filled :
  exists st',
    validateField any_regexp ascii_lower (fun _ _ => true) [] agree_box
                  (registered "f" [(agree_box, false)])
    = Some (true, st') /\
    completionPercentage st' = 100 /\
    obj_get (submitDisabled st') (js "f") = Some false.
Proof. eexists. split; [vm_compute; reflexivity|]. split; reflexivity. Qed.

(** The percentage follows the recorded flags, not the controls: a
    required field recorded as valid and emptied since, on which
    [validateField] has not run again, still counts as valid. *)
Example emptied_field_keeps_its_flag :
  let st := updateFormCompletion (fun _ _ => true) (js "f")
              (registered "f" [(empty_field, true)]) in
  getFieldValue [] empty_field = VStr [] /\
  completionPercentage st = 100 /\
  obj_get (submitDisabled st) (js "f") = Some false.
Proof. cbv zeta. split; [reflexivity|]. split; reflexivity. Qed.

(** A form of 200 valid required fields and one empty required field:
    200 of 201 rounds to 100. *)
Lemma completion_100_with_empty_required :
  ~ (forall half_up doc field st fstate st',
       obj_get (fields st) (el_id field) = Some fstate ->
       hasRequiredRule (fs_rules fstate) = true ->
       getFieldValue doc field = VStr [] ->
       validateField any_regexp ascii_lower half_up doc field st = Some (false, st') ->
       completionPercentage st' < 100).
Proof.
  intros H.
  specialize (H (fun _ _ => true) [] empty_field large_form
                (mkFieldState empty_field (js "f") [RRequired] false false (VStr []))
                (updateFormCompletion (fun _ _ => true) (js "f") large_form)).
  assert (Hc : completionPercentage
                 (updateFormCompletion (fun _ _ => true) (js "f") large_form) = 100)
    by (vm_compute; reflexivity).
  rewrite Hc in H. apply (Z.lt_irrefl 100). apply H.
  - vm_compute. reflexivity.
  - reflexivity.
  - reflexivity.
  - vm_compute. reflexivity.
Qed.

Section MinLength.
Variable RegExp_test : jsstring -> jsstring -> option bool.
Variable toLowerCase : jsstring -> jsstring.
Variable half_up : Z -> Z -> bool.

Lemma extract_minLength field a :
  attribute_or field "minlength" "data-min-length" = Some a ->
  In (RMinLength (parseInt a)) (extractValidationRules field).
Proof.
  intros Ha. unfold extractValidationRules. rewrite Ha.
  do 3 (apply in_or_app; right). apply in_or_app. left. by left.
Qed.

Lemma minLength_short s L :
  s <> [] -> Z.of_nat (length (trim s)) < L ->
  validator_minLength (VStr s) (Some L) = Some false.
Proof.
  intros Hs Hl. unfold validator_minLength. destruct s as [|c s]; [done|].
  cbn [truthy negb ge_number]. f_equal. apply Z.leb_gt. exact Hl.
Qed.

Lemma minLength_long s L :
  L <= Z.of_nat (length (trim s)) ->
  validator_minLength (VStr s) (Some L) = Some true.
Proof.
  intros Hl. unfold validator_minLength.
  destruct (negb (truthy (VStr s))); [done|].
  cbn [ge_number]. f_equal. apply Z.leb_le. exact Hl.
Qed.


End MinLength.



(** An empty value passes a minimum length of 1. *)
Example minimum_length_empty_passes :
  fst <$> validateField any_regexp ascii_lower (fun _ _ => true) []
            (text_input "nick" "nick" "" [("minlength", "1")]%string)
            (registered "f" [(text_input "nick" "nick" "" [("minlength", "1")]%string, true)])
  = Some true.
Proof. vm_compute. reflexivity. Qed.

End ValidationFacts.

(** ** The form/step controller *)

Module FormFacts.
Import JS JSONFacts StorageFacts FormHandler.

Lemma same_step_refl w : same_step w w.
Proof. by split. Qed.

Lemma same_step_trans a b c : same_step a b -> same_step b c -> same_step a c.
Proof. intros [? ?] [? ?]. split; congruence. Qed.

Lemma same_step_range w w' : same_step w w' -> in_range w -> in_range w'.
Proof. unfold in_range. intros [-> ->]. done. Qed.

Lemma showFormError_step m w : same_step w (showFormError m w).
Proof. unfold showFormError. by destruct (errorContainer w). Qed.

Lemma showFormSuccess_step m w : same_step w (showFormSuccess m w).
Proof. unfold showFormSuccess. by destruct (successContainer w). Qed.

Lemma showStepError_step m w : same_step w (showStepError m w).
Proof. unfold showStepError. by destruct (_ !! _). Qed.

Lemma clearErrors_step w : same_step w (clearErrors w).
Proof. unfold clearErrors. by destruct (errorContainer w). Qed.

Lemma showLoadingState_step b w : same_step w (showLoadingState b w).
Proof. unfold showLoadingState. by destruct (submitBtn w). Qed.

Lemma handleSubmitError_step m w : same_step w (handleSubmitError m w).
Proof.
  unfold handleSubmitError.
  pose proof (showFormError_step m w).
  by destruct (submitBtn (showFormError m w)).
Qed.

Lemma Storage_get_step k w r w' : Storage_get k w = (r, w') -> same_step w w'.
Proof.
  unfold Storage_get. destruct (LocalStorage.get _ _ _). by intros [= <- <-].
Qed.

Lemma Storage_set_step k v w r w' : Storage_set k v w = (r, w') -> same_step w w'.
Proof.
  unfold Storage_set. destruct (LocalStorage.set _ _ _ _). by intros [= <- <-].
Qed.

Lemma Storage_remove_step k w r w' : Storage_remove k w = (r, w') -> same_step w w'.
Proof.
  unfold Storage_remove. destruct (LocalStorage.remove _ _ _). by intros [= <- <-].
Qed.

Lemma showStep_total n w : totalSteps (showStep n w) = totalSteps w.
Proof.
  unfold showStep. destruct (_ || _); [done|].
  by destruct (_ !! _) as [[|]|].
Qed.

Lemma showStep_current n w :
  currentStep (showStep n w) =
  if (n <? 1) || (totalSteps w <? n) then currentStep w else n.
Proof.
  unfold showStep. destruct (_ || _); [done|].
  by destruct (_ !! _) as [[|]|].
Qed.

Lemma showStep_range n w : in_range w -> in_range (showStep n w).
Proof.
  unfold in_range. rewrite showStep_total, showStep_current.
  destruct (Z.ltb_spec n 1); cbn [orb]; [done|].
  destruct (Z.ltb_spec (totalSteps w) n); [done|]. lia.
Qed.

Lemma saveStepData_step w o w' : saveStepData w = o -> leaves o w' -> same_step w w'.
Proof.
  unfold saveStepData. intros <-.
  destruct (_ !! _) as [fs|].
  2:{ intros [[= <-]|[e [=]]]. apply same_step_refl. }
  destruct (formData w);
    try (destruct (forallb _ fs); intros [[= <-]|[e [= <- <-]]]; by try done).
  destruct (saveFields ms fs) as [ms' [|]]; intros [[= <-]|[e [= <- <-]]]; done.
Qed.

Lemma goToStep_range n w w' : in_range w -> leaves (goToStep n w) w' -> in_range w'.
Proof.
  intros Hr. unfold goToStep. destruct (_ && _).
  - destruct (saveStepData w) as [w1|e w1|u w1] eqn:E.
    + intros [[= <-]|[e [=]]]. apply showStep_range.
      eapply same_step_range; [|exact Hr]. eapply saveStepData_step; [exact E|by left].
    + intros [[=]|[e' [= <- <-]]].
      eapply same_step_range; [|exact Hr]. eapply saveStepData_step; [exact E|by right; eauto].
    + by intros [[=]|[e' [=]]].
  - intros [[= <-]|[e [=]]]. done.
Qed.

Lemma clickIndicator_range i w w' :
  in_range w -> leaves (clickIndicator i w) w' -> in_range w'.
Proof.
  intros Hr. unfold clickIndicator.
  destruct (_ !! _) as [ind|]; [destruct (ind_completed ind)|].
  - by apply goToStep_range.
  - by intros [[= <-]|[e [=]]].
  - by intros [[= <-]|[e [=]]].
Qed.

Lemma handlePrev_range w w' : in_range w -> leaves (handlePrev w) w' -> in_range w'.
Proof.
  intros Hr. unfold handlePrev.
  destruct (saveStepData w) as [w1|e w1|u w1] eqn:E.
  - assert (in_range w1).
    { eapply same_step_range; [|exact Hr]. eapply saveStepData_step; [exact E|by left]. }
    destruct (1 <? currentStep w1); intros [[= <-]|[e [=]]]; [by apply showStep_range|done].
  - intros [[=]|[e' [= <- <-]]].
    eapply same_step_range; [|exact Hr]. eapply saveStepData_step; [exact E|by right; eauto].
  - by intros [[=]|[e' [=]]].
Qed.

Lemma clearFormData_range w : in_range w -> in_range (clearFormData w).
Proof. unfold in_range. cbn. lia. Qed.

Lemma clearAutoSave_step w : same_step w (clearAutoSave w).
Proof.
  unfold clearAutoSave.
  destruct (Storage_remove autoSaveCurrentKey w) as [[b|e] w1] eqn:E;
    apply Storage_remove_step in E; [|done].
  destruct E. by split.
Qed.

Lemma handleSubmitSuccess_range r w w' :
  in_range w -> leaves (handleSubmitSuccess r w) w' -> in_range w'.
Proof.
  intros Hr. unfold handleSubmitSuccess.
  set (w1 := clearFormData (clearAutoSave w)).
  assert (H1 : in_range w1).
  { apply clearFormData_range. eapply same_step_range; [apply clearAutoSave_step|done]. }
  set (w2 := showFormSuccess _ w1).
  assert (H2 : in_range w2).
  { eapply same_step_range; [apply showFormSuccess_step|done]. }
  destruct (truthy _).
  - destruct (LocalStorage.setItem _ _ _ _) as [[u|e] st].
    + destruct (confetti (set_storage st w2)); intros [[= <-]|[e [=]]]; exact H2.
    + intros [[=]|[e' [= <- <-]]]. exact H2.
  - destruct (confetti w2); intros [[= <-]|[e [=]]]; exact H2.
Qed.

(** [handleSubmitSuccess] shows no stored step. *)
Lemma handleSubmitSuccess_returns r w :
  match handleSubmitSuccess r w with Stray _ _ => False | _ => True end.
Proof.
  unfold handleSubmitSuccess. destruct (truthy _); [|done].
  by destruct (LocalStorage.setItem _ _ _ _) as [[u|e] st].
Qed.

Lemma submitForm_step s w r w' : submitForm s w = (r, w') -> same_step w w'.
Proof.
  unfold submitForm. destruct (sub_fetch s) as [e|ok status body].
  - by intros [= <- <-].
  - destruct ok; [destruct body|]; by intros [= <- <-].
Qed.

Lemma handleSubmit_range valid s w w' :
  in_range w -> leaves (handleSubmit valid s w) w' -> in_range w'.
Proof.
  intros Hr. unfold handleSubmit.
  destruct (isSubmitting w). { by intros [[= <-]|[e [=]]]. }
  destruct (negb valid).
  { intros [[= <-]|[e [=]]]. eapply same_step_range; [apply showFormError_step|done]. }
  set (w1 := clearErrors _).
  assert (H1 : in_range w1).
  { eapply same_step_range; [apply clearErrors_step|].
    eapply same_step_range; [apply showLoadingState_step|]. done. }
  destruct (negb (prepareSubmitData w1)).
  { by intros [[=]|[e [= <- <-]]]. }
  destruct (submitForm s w1) as [r w2] eqn:E.
  assert (H2 : in_range w2) by (eapply same_step_range; [eapply submitForm_step|]; eauto).
  intros [[= <-]|[e [=]]].
  eapply same_step_range; [apply showLoadingState_step|].
  match goal with |- in_range (set_isSubmitting false ?x) =>
    assert (in_range x); [|done] end.
  destruct r as [response|e].
  - destruct (get_prop response (js "success")) as [success|].
    + destruct (truthy success).
      * pose proof (handleSubmitSuccess_returns response w2) as Hn.
        destruct (handleSubmitSuccess response w2) as [w3|e w3|u w3] eqn:Es.
        -- eapply handleSubmitSuccess_range; [exact H2|rewrite Es; by left].
        -- eapply same_step_range; [apply handleSubmitError_step|].
           eapply handleSubmitSuccess_range; [exact H2|rewrite Es; right; eauto].
        -- done.
      * eapply same_step_range; [apply handleSubmitError_step|done].
    + eapply same_step_range; [apply handleSubmitError_step|done].
  - eapply same_step_range; [apply handleSubmitError_step|done].
Qed.

Lemma handleNext_range valid validAll s w w' :
  in_range w -> leaves (handleNext valid validAll s w) w' -> in_range w'.
Proof.
  intros Hr. unfold handleNext. destruct (negb valid).
  { intros [[= <-]|[e [=]]]. eapply same_step_range; [apply showStepError_step|done]. }
  destruct (saveStepData w) as [w1|e w1|u w1] eqn:E.
  - assert (in_range w1).
    { eapply same_step_range; [|exact Hr]. eapply saveStepData_step; [exact E|by left]. }
    destruct (currentStep w1 <? totalSteps w1).
    + intros [[= <-]|[e [=]]]. by apply showStep_range.
    + by apply handleSubmit_range.
  - intros [[=]|[e' [= <- <-]]].
    eapply same_step_range; [|exact Hr]. eapply saveStepData_step; [exact E|by right; eauto].
  - by intros [[=]|[e' [=]]].
Qed.

Lemma performAutoSave_step now newId w : same_step w (performAutoSave now newId w).
Proof.
  unfold performAutoSave.
  destruct (Storage_set _ _ _) as [[b|e] w1] eqn:E; apply Storage_set_step in E;
    destruct E; by split.
Qed.

Lemma saveDraft_step a t n i w : same_step w (saveDraft a t n i w).
Proof.
  unfold saveDraft.
  destruct (Storage_get draftsKey w) as [[stored|e] w1] eqn:E;
    apply Storage_get_step in E.
  2:{ eapply same_step_trans; [exact E|apply showFormError_step]. }
  destruct (or_else stored (VArr []));
    try (eapply same_step_trans; [exact E|apply showFormError_step]).
  destruct (Storage_set _ _ _) as [[b|e] w2] eqn:E2; apply Storage_set_step in E2.
  - eapply same_step_trans; [exact E|].
    eapply same_step_trans; [exact E2|apply showFormSuccess_step].
  - eapply same_step_trans; [exact E|].
    eapply same_step_trans; [exact E2|apply showFormError_step].
Qed.

Lemma deleteDraft_step c i w : same_step w (deleteDraft c i w).
Proof.
  unfold deleteDraft. destruct (negb c); [apply same_step_refl|].
  destruct (Storage_get draftsKey w) as [[stored|e] w1] eqn:E;
    apply Storage_get_step in E.
  2:{ eapply same_step_trans; [exact E|apply showFormError_step]. }
  destruct (or_else stored (VArr []));
    try (eapply same_step_trans; [exact E|apply showFormError_step]).
  destruct (withoutDraft l i).
  2:{ eapply same_step_trans; [exact E|apply showFormError_step]. }
  destruct (Storage_set _ _ _) as [[b|e] w2] eqn:E2; apply Storage_set_step in E2.
  - eapply same_step_trans; [exact E|].
    eapply same_step_trans; [exact E2|apply showFormSuccess_step].
  - eapply same_step_trans; [exact E|].
    eapply same_step_trans; [exact E2|apply showFormError_step].
Qed.

Lemma initMultiStepForm_range w : in_range (initMultiStepForm w) \/ initMultiStepForm w = w.
Proof.
  unfold initMultiStepForm.
  destruct (negb (form w)); [by right|]. cbn [orb].
  destruct (Nat.eqb_spec (length (steps w)) 0); [by right|]. left.
  unfold in_range. rewrite showStep_total, showStep_current. cbn.
  destruct (Z.ltb_spec (Z.of_nat (length (steps w))) 1); lia.
Qed.

Section RunFacts.
Variable restoreFields : value -> list (list field) -> option (list (list field)).
Variable lessThan : value -> Z -> option bool.
Variable greaterThan : value -> Z -> option bool.
Local Abbreviation showStoredStep' := (showStoredStep lessThan greaterThan).
Local Abbreviation loadAutoSave' := (loadAutoSave restoreFields lessThan greaterThan).
Local Abbreviation loadDraft' := (loadDraft restoreFields lessThan greaterThan).
Local Abbreviation handle' := (handle restoreFields lessThan greaterThan).
Local Abbreviation reachable' := (reachable restoreFields lessThan greaterThan).

Lemma restoreFormData_step w w' :
  restoreFormData restoreFields w = Some w' -> same_step w w'.
Proof.
  unfold restoreFormData.
  destruct (formData w); try done;
    destruct (restoreFields _ _); try done; by intros [= <-].
Qed.

Lemma showStoredStep_range v w w' :
  in_range w -> leaves (showStoredStep' v w) w' -> in_range w'.
Proof.
  intros Hr. unfold showStoredStep.
  assert (Hs : forall u,
             leaves match lessThan u 1 with
                    | None => Raised (TypeError "Cannot convert object to primitive value") w
                    | Some true => Done w
                    | Some false =>
                        match greaterThan u (totalSteps w) with
                        | None => Raised (TypeError "Cannot convert object to primitive value") w
                        | Some true => Done w
                        | Some false => Stray u w
                        end
                    end w' -> in_range w').
  { intros u. destruct (lessThan u 1) as [[|]|].
    - by intros [[= <-]|[e [=]]].
    - destruct (greaterThan u (totalSteps w)) as [[|]|].
      + by intros [[= <-]|[e [=]]].
      + by intros [[=]|[e [=]]].
      + by intros [[=]|[e [= _ <-]]].
    - by intros [[=]|[e [= _ <-]]]. }
  destruct v as [| | |[z|]| | | |]; try apply Hs.
  intros [[= <-]|[e [=]]]. by apply showStep_range.
Qed.

Lemma showStoredStep_stray v w u w' :
  showStoredStep' v w = Stray u w' ->
  u = v /\ w' = w /\ (forall z, v <> VNum (Int z)) /\
  lessThan v 1 = Some false /\ greaterThan v (totalSteps w) = Some false.
Proof.
  unfold showStoredStep.
  assert (Hs : match lessThan v 1 with
               | None => Raised (TypeError "Cannot convert object to primitive value") w
               | Some true => Done w
               | Some false =>
                   match greaterThan v (totalSteps w) with
                   | None => Raised (TypeError "Cannot convert object to primitive value") w
                   | Some true => Done w
                   | Some false => Stray v w
                   end
               end = Stray u w' ->
               u = v /\ w' = w /\
               lessThan v 1 = Some false /\ greaterThan v (totalSteps w) = Some false).
  { destruct (lessThan v 1) as [[|]|]; try done.
    destruct (greaterThan v (totalSteps w)) as [[|]|]; try done.
    by intros [= <- <-]. }
  destruct v as [| | |[z|]| | | |]; try done;
    intros H; destruct (Hs H) as (-> & -> & H1 & H2); done.
Qed.

Lemma loadAutoSave_range w w' :
  in_range w -> leaves (loadAutoSave' w) w' -> in_range w'.
Proof.
  intros Hr. unfold loadAutoSave.
  destruct (Storage_get _ _) as [[saved|e] w1] eqn:E; apply Storage_get_step in E.
  2:{ intros [[= <-]|[e' [=]]]. by eapply same_step_range. }
  assert (H1 : in_range w1) by (by eapply same_step_range).
  destruct (_ && _); [|by intros [[= <-]|[e' [=]]]].
  set (w2 := set_currentDraftId _ _).
  assert (H2 : in_range w2) by done.
  destruct (restoreFormData restoreFields w2) as [w3|] eqn:Er.
  2:{ by intros [[= <-]|[e' [=]]]. }
  assert (H3 : in_range w3).
  { eapply same_step_range; [eapply restoreFormData_step; exact Er|done]. }
  destruct (truthy _); [|by intros [[= <-]|[e' [=]]]].
  destruct (showStoredStep _ _ _ w3) as [w4|e w4|u w4] eqn:Es.
  - intros [[= <-]|[e' [=]]].
    assert (in_range w4); [|done].
    eapply showStoredStep_range; [exact H3|rewrite Es; by left].
  - intros [[= <-]|[e' [=]]].
    eapply showStoredStep_range; [exact H3|rewrite Es; right; eauto].
  - by intros [[=]|[e' [=]]].
Qed.

Lemma loadDraft_range i w w' :
  in_range w -> leaves (loadDraft' i w) w' -> in_range w'.
Proof.
  intros Hr. unfold loadDraft.
  destruct (Storage_get _ _) as [[stored|e] w1] eqn:E; apply Storage_get_step in E.
  2:{ intros [[= <-]|[e' [=]]].
      eapply same_step_range; [apply showFormError_step|by eapply same_step_range]. }
  assert (H1 : in_range w1) by (by eapply same_step_range).
  destruct (or_else stored (VArr []));
    try (intros [[= <-]|[e' [=]]];
         eapply same_step_range; [apply showFormError_step|done]).
  destruct (findDraft l i) as [[draft|]|].
  - set (w2 := set_currentDraftId _ _).
    assert (H2 : in_range w2) by done.
    destruct (restoreFormData restoreFields w2) as [w3|] eqn:Er.
    2:{ intros [[= <-]|[e' [=]]].
        eapply same_step_range; [apply showFormError_step|done]. }
    assert (H3 : in_range w3).
    { eapply same_step_range; [eapply restoreFormData_step; exact Er|done]. }
    destruct (showStoredStep _ _ _ w3) as [w4|e w4|u w4] eqn:Es.
    + intros [[= <-]|[e' [=]]].
      eapply same_step_range; [apply showFormSuccess_step|].
      eapply showStoredStep_range; [exact H3|rewrite Es; by left].
    + intros [[= <-]|[e' [=]]].
      eapply same_step_range; [apply showFormError_step|].
      eapply showStoredStep_range; [exact H3|rewrite Es; right; eauto].
    + by intros [[=]|[e' [=]]].
  - by intros [[= <-]|[e' [=]]].
  - intros [[= <-]|[e' [=]]].
    eapply same_step_range; [apply showFormError_step|done].
Qed.

Lemma handle_range ev w w' :
  in_range w -> leaves (handle' ev w) w' -> in_range w'.
Proof.
  intros Hr. destruct ev; cbn [handle].
  - intros [[= <-]|[e [=]]]. destruct (initMultiStepForm_range w) as [H| ->]; done.
  - by apply handleNext_range.
  - by apply handlePrev_range.
  - by apply goToStep_range.
  - by apply clickIndicator_range.
  - unfold handleKeyboardNavigation.
    destruct (negb (form w)); [by intros [[= <-]|[e [=]]]|].
    destruct altKey; [|by intros [[= <-]|[e [=]]]].
    destruct (_ && _); [by apply handleNext_range|].
    destruct (_ && _); [by apply handlePrev_range|].
    by intros [[= <-]|[e [=]]].
  - by apply handleSubmit_range.
  - intros [[= <-]|[e [=]]]. eapply same_step_range; [apply performAutoSave_step|done].
  - by apply loadAutoSave_range.
  - intros [[= <-]|[e [=]]]. eapply same_step_range; [apply saveDraft_step|done].
  - by apply loadDraft_range.
  - intros [[= <-]|[e [=]]]. eapply same_step_range; [apply deleteDraft_step|done].
  - intros [[= <-]|[e [=]]]. by apply clearFormData_range.
Qed.

Lemma showStoredStep_other v w :
  (forall z, v <> VNum (Int z)) ->
  showStoredStep' v w =
  match lessThan v 1 with
  | None => Raised (TypeError "Cannot convert object to primitive value") w
  | Some true => Done w
  | Some false =>
      match greaterThan v (totalSteps w) with
      | None => Raised (TypeError "Cannot convert object to primitive value") w
      | Some true => Done w
      | Some false => Stray v w
      end
  end.
Proof.
  intros H. destruct v as [| | |[z|l]| | | |]; try reflexivity. by destruct (H z).
Qed.

Lemma saveStepData_settled w : settled (saveStepData w).
Proof.
  unfold saveStepData. destruct (_ !! _) as [fs|]; [|done].
  destruct (formData w); try (by destruct (forallb _ fs)).
  by destruct (saveFields ms fs) as [ms' [|]].
Qed.

Lemma goToStep_settled n w : settled (goToStep n w).
Proof.
  unfold goToStep. destruct (_ && _); [|done].
  pose proof (saveStepData_settled w). by destruct (saveStepData w).
Qed.

Lemma handlePrev_settled w : settled (handlePrev w).
Proof.
  unfold handlePrev. pose proof (saveStepData_settled w).
  destruct (saveStepData w) as [w1|e w1|u w1]; try done. by destruct (1 <? _).
Qed.

Lemma handleSubmit_settled valid s w : settled (handleSubmit valid s w).
Proof.
  unfold handleSubmit. destruct (isSubmitting w); [done|].
  destruct (negb valid); [done|]. destruct (negb _); [done|].
  by destruct (submitForm s _).
Qed.

Lemma handleNext_settled valid validAll s w : settled (handleNext valid validAll s w).
Proof.
  unfold handleNext. destruct (negb valid); [done|].
  pose proof (saveStepData_settled w).
  destruct (saveStepData w) as [w1|e w1|u w1]; try done.
  destruct (_ <? _); [done|]. apply handleSubmit_settled.
Qed.

Lemma loadAutoSave_stray w v w' :
  loadAutoSave' w = Stray v w' ->
  (forall z, v <> VNum (Int z)) /\ truthy v = true /\
  lessThan v 1 = Some false /\ greaterThan v (totalSteps w) = Some false.
Proof.
  unfold loadAutoSave.
  destruct (Storage_get _ _) as [[saved|e] w1] eqn:E; [|done].
  apply Storage_get_step in E as [_ Et].
  destruct (_ && _); [|done].
  set (w2 := set_currentDraftId _ _).
  destruct (restoreFormData restoreFields w2) as [w3|] eqn:Er; [|done].
  apply restoreFormData_step in Er as [_ Et3].
  destruct (truthy _) eqn:Ht; [|done].
  destruct (showStoredStep _ _ _ w3) as [w4|e w4|u w4] eqn:Es; try done.
  intros [= <- <-]. apply showStoredStep_stray in Es as (-> & _ & Hz & Hl & Hg).
  split; [done|]. split; [done|]. split; [done|].
  rewrite <- Et, <- Hg. f_equal. by rewrite Et3.
Qed.

Lemma loadDraft_stray i w v w' :
  loadDraft' i w = Stray v w' ->
  (forall z, v <> VNum (Int z)) /\ truthy v = true /\
  lessThan v 1 = Some false /\ greaterThan v (totalSteps w) = Some false.
Proof.
  unfold loadDraft.
  destruct (Storage_get _ _) as [[stored|e] w1] eqn:E; [|done].
  apply Storage_get_step in E as [_ Et].
  destruct (or_else stored (VArr [])); try done.
  destruct (findDraft l i) as [[draft|]|]; try done.
  set (w2 := set_currentDraftId _ _).
  destruct (restoreFormData restoreFields w2) as [w3|] eqn:Er; [|done].
  apply restoreFormData_step in Er as [_ Et3].
  destruct (showStoredStep _ _ _ w3) as [w4|e w4|u w4] eqn:Es; try done.
  intros [= <- <-]. apply showStoredStep_stray in Es as (Hu & _ & Hz & Hl & Hg).
  assert (Ho : u = default VUndefined (get_prop draft (js "currentStep")) /\
               truthy u = true).
  { rewrite Hu. unfold or_else in *.
    destruct (truthy (default VUndefined (get_prop draft (js "currentStep")))) eqn:Ht.
    - done.
    - by destruct (Hz 1). }
  destruct Ho as [Hd Ht]. rewrite <- Hu in *.
  split; [done|]. split; [done|]. split; [done|].
  rewrite <- Et, <- Hg. f_equal. by rewrite Et3.
Qed.

Lemma handle_stray ev w v w' :
  handle' ev w = Stray v w' ->
  (ev = LoadAutoSave \/ exists i, ev = LoadDraft i) /\
  (forall z, v <> VNum (Int z)) /\ truthy v = true /\
  lessThan v 1 = Some false /\ greaterThan v (totalSteps w) = Some false.
Proof.
  destruct ev; cbn [handle]; try done.
  - intros H. pose proof (handleNext_settled valid validAll s w) as Hn.
    by rewrite H in Hn.
  - intros H. pose proof (handlePrev_settled w) as Hn. by rewrite H in Hn.
  - intros H. pose proof (goToStep_settled stepNumber w) as Hn. by rewrite H in Hn.
  - unfold clickIndicator. destruct (_ !! _) as [ind|]; [|done].
    destruct (ind_completed ind); [|done].
    intros H. pose proof (goToStep_settled (Z.of_nat index + 1) w) as Hn.
    by rewrite H in Hn.
  - unfold handleKeyboardNavigation.
    destruct (negb (form w)); [done|]. destruct altKey; [|done].
    destruct (_ && _).
    { intros H. pose proof (handleNext_settled valid validAll s w) as Hn.
      by rewrite H in Hn. }
    destruct (_ && _); [|done].
    intros H. pose proof (handlePrev_settled w) as Hn. by rewrite H in Hn.
  - intros H. pose proof (handleSubmit_settled valid s w) as Hn. by rewrite H in Hn.
  - intros H. split; [by left|]. by apply (loadAutoSave_stray w v w').
  - intros H. split; [right; by eexists|]. by apply (loadDraft_stray draftId w v w').
Qed.

Lemma reachable_range w : reachable' w -> in_range w.
Proof.
  induction 1 as [| w ev w' _ IH Hl].
  - unfold in_range. cbn. unfold configSteps. lia.
  - by eapply handle_range.
Qed.

End RunFacts.

Lemma showStep_indicators n w :
  1 <= n <= totalSteps w ->
  stepIndicators (showStep n w) =
  imap (fun index _ => mkIndicator (Z.of_nat index + 1 =? n) (Z.of_nat index + 1 <? n))
       (stepIndicators w).
Proof.
  intros Hn. unfold showStep.
  destruct (Z.ltb_spec n 1); [lia|]. destruct (Z.ltb_spec (totalSteps w) n); [lia|].
  cbn [orb]. by destruct (_ !! _) as [[|]|].
Qed.

Lemma showStep_synced n w : 1 <= n <= totalSteps w -> synced (showStep n w).
Proof.
  intros Hn i ind. rewrite showStep_indicators by done.
  rewrite showStep_current.
  destruct (Z.ltb_spec n 1); [lia|]. destruct (Z.ltb_spec (totalSteps w) n); [lia|].
  cbn [orb]. rewrite list_lookup_imap.
  destruct (stepIndicators w !! i); [|done]. by intros [= <-].
Qed.

Lemma goToStep_current n w w' :
  leaves (goToStep n w) w' ->
  currentStep w' = currentStep w \/
  (currentStep w' = n /\ 1 <= n <= totalSteps w).
Proof.
  unfold goToStep.
  destruct (Z.leb_spec 1 n); cbn [andb];
    [destruct (Z.leb_spec n (totalSteps w))|].
  - destruct (saveStepData w) as [w1|e w1|u w1] eqn:E.
    + intros [[= <-]|[e [=]]].
      destruct (saveStepData_step w _ w1 E) as [Hc Ht]; [by left|].
      rewrite showStep_current, Ht.
      destruct (Z.ltb_spec n 1); [lia|]. destruct (Z.ltb_spec (totalSteps w) n); [lia|].
      cbn [orb]. right. done.
    + intros [[=]|[e' [= <- <-]]].
      destruct (saveStepData_step w _ w1 E) as [Hc Ht]; [right; eauto|]. by left.
    + by intros [[=]|[e' [=]]].
  - intros [[= <-]|[e [=]]]. by left.
  - intros [[= <-]|[e [=]]]. by left.
Qed.

Lemma same_marks_refl w : same_marks w w.
Proof. by split. Qed.

Lemma same_marks_trans a b c : same_marks a b -> same_marks b c -> same_marks a c.
Proof. intros [? ?] [? ?]. split; congruence. Qed.

Lemma same_marks_synced w w' : same_marks w w' -> synced w -> synced w'.
Proof. intros [Hc Hi] Hs i ind. rewrite Hi, Hc. apply Hs. Qed.

Lemma showFormError_marks m w : same_marks w (showFormError m w).
Proof. unfold showFormError. by destruct (errorContainer w). Qed.

Lemma showFormSuccess_marks m w : same_marks w (showFormSuccess m w).
Proof. unfold showFormSuccess. by destruct (successContainer w). Qed.

Lemma showStepError_marks m w : same_marks w (showStepError m w).
Proof. unfold showStepError. by destruct (_ !! _). Qed.

Lemma clearErrors_marks w : same_marks w (clearErrors w).
Proof. unfold clearErrors. by destruct (errorContainer w). Qed.

Lemma showLoadingState_marks b w : same_marks w (showLoadingState b w).
Proof. unfold showLoadingState. by destruct (submitBtn w). Qed.

Lemma handleSubmitError_marks m w : same_marks w (handleSubmitError m w).
Proof.
  unfold handleSubmitError.
  pose proof (showFormError_marks m w).
  by destruct (submitBtn (showFormError m w)).
Qed.

Lemma Storage_get_marks k w r w' : Storage_get k w = (r, w') -> same_marks w w'.
Proof.
  unfold Storage_get. destruct (LocalStorage.get _ _ _). by intros [= <- <-].
Qed.

Lemma Storage_set_marks k v w r w' : Storage_set k v w = (r, w') -> same_marks w w'.
Proof.
  unfold Storage_set. destruct (LocalStorage.set _ _ _ _). by intros [= <- <-].
Qed.

Lemma Storage_remove_marks k w r w' : Storage_remove k w = (r, w') -> same_marks w w'.
Proof.
  unfold Storage_remove. destruct (LocalStorage.remove _ _ _). by intros [= <- <-].
Qed.

Lemma saveStepData_marks w w' : leaves (saveStepData w) w' -> same_marks w w'.
Proof.
  unfold saveStepData.
  destruct (_ !! _) as [fs|].
  2:{ intros [[= <-]|[e [=]]]. apply same_marks_refl. }
  destruct (formData w);
    try (destruct (forallb _ fs); intros [[= <-]|[e [= <- <-]]]; by try done).
  destruct (saveFields ms fs) as [ms' [|]]; intros [[= <-]|[e [= <- <-]]]; done.
Qed.

Lemma showStep_keeps_synced n w : synced w -> synced (showStep n w).
Proof.
  intros Hs. destruct (Z.ltb_spec n 1) as [Hlt|Hge].
  { unfold showStep. destruct (Z.ltb_spec n 1); [done|lia]. }
  destruct (Z.ltb_spec (totalSteps w) n) as [Hgt|Hle].
  { unfold showStep. destruct (Z.ltb_spec (totalSteps w) n); [|lia].
    by rewrite orb_true_r. }
  apply showStep_synced. lia.
Qed.

Lemma goToStep_synced n w w' : synced w -> leaves (goToStep n w) w' -> synced w'.
Proof.
  intros Hs. unfold goToStep. destruct (_ && _).
  - pose proof (saveStepData_marks w) as Hm.
    destruct (saveStepData w) as [w1|e w1|u w1].
    + intros [[= <-]|[e [=]]]. apply showStep_keeps_synced.
      eapply same_marks_synced; [|exact Hs]. apply Hm. by left.
    + intros [[=]|[e' [= <- <-]]].
      eapply same_marks_synced; [|exact Hs]. apply Hm. right. by eexists.
    + by intros [[=]|[e' [=]]].
  - by intros [[= <-]|[e [=]]].
Qed.

Lemma clickIndicator_synced i w w' :
  synced w -> leaves (clickIndicator i w) w' -> synced w'.
Proof.
  intros Hs. unfold clickIndicator.
  destruct (_ !! _) as [ind|]; [destruct (ind_completed ind)|].
  - by apply goToStep_synced.
  - by intros [[= <-]|[e [=]]].
  - by intros [[= <-]|[e [=]]].
Qed.

Lemma handlePrev_synced w w' : synced w -> leaves (handlePrev w) w' -> synced w'.
Proof.
  intros Hs. unfold handlePrev.
  pose proof (saveStepData_marks w) as Hm.
  destruct (saveStepData w) as [w1|e w1|u w1].
  - assert (synced w1).
    { eapply same_marks_synced; [|exact Hs]. apply Hm. by left. }
    destruct (1 <? currentStep w1); intros [[= <-]|[e [=]]];
      [by apply showStep_keeps_synced|done].
  - intros [[=]|[e' [= <- <-]]].
    eapply same_marks_synced; [|exact Hs]. apply Hm. right. by eexists.
  - by intros [[=]|[e' [=]]].
Qed.

Lemma clearAutoSave_marks w : same_marks w (clearAutoSave w).
Proof.
  unfold clearAutoSave.
  destruct (Storage_remove _ _) as [[b|e] w1] eqn:E; apply Storage_remove_marks in E;
    destruct E; by split.
Qed.

Lemma reset_unmarked_marks a b c :
  reset_unmarked a b -> same_marks b c -> reset_unmarked a c.
Proof. intros [? ?] [? ?]. split; congruence. Qed.

Lemma marks_reset_unmarked a b c :
  same_marks a b -> reset_unmarked b c -> reset_unmarked a c.
Proof. intros [? ?] [? ?]. split; congruence. Qed.

Lemma handleSubmitSuccess_reset r w w' :
  leaves (handleSubmitSuccess r w) w' -> reset_unmarked w w'.
Proof.
  unfold handleSubmitSuccess.
  set (w1 := clearFormData (clearAutoSave w)).
  assert (H1 : reset_unmarked w w1).
  { destruct (clearAutoSave_marks w) as [_ Hi]. split; [done|]. by rewrite <- Hi. }
  set (w2 := showFormSuccess _ w1).
  assert (H2 : reset_unmarked w w2).
  { eapply reset_unmarked_marks; [exact H1|]. apply showFormSuccess_marks. }
  destruct (truthy _).
  - destruct (LocalStorage.setItem _ _ _ _) as [[u|e] st].
    + destruct (confetti (set_storage st w2)); intros [[= <-]|[e [=]]]; exact H2.
    + intros [[=]|[e' [= <- <-]]]. exact H2.
  - destruct (confetti w2); intros [[= <-]|[e [=]]]; exact H2.
Qed.

Lemma submitForm_marks s w r w' : submitForm s w = (r, w') -> same_marks w w'.
Proof.
  unfold submitForm. destruct (sub_fetch s) as [e|ok status body].
  - by intros [= <- <-].
  - destruct ok; [destruct body|]; by intros [= <- <-].
Qed.

Lemma handleSubmit_marks valid s w w' :
  leaves (handleSubmit valid s w) w' -> same_marks w w' \/ reset_unmarked w w'.
Proof.
  unfold handleSubmit.
  destruct (isSubmitting w). { intros [[= <-]|[e [=]]]. left. apply same_marks_refl. }
  destruct (negb valid).
  { intros [[= <-]|[e [=]]]. left. apply showFormError_marks. }
  set (w1 := clearErrors _).
  assert (H1 : same_marks w w1).
  { eapply same_marks_trans; [|apply clearErrors_marks].
    eapply same_marks_trans; [|apply showLoadingState_marks]. done. }
  destruct (negb (prepareSubmitData w1)).
  { intros [[=]|[e [= <- <-]]]. by left. }
  destruct (submitForm s w1) as [r w2] eqn:E.
  assert (H2 : same_marks w w2).
  { eapply same_marks_trans; [exact H1|]. eapply submitForm_marks; eauto. }
  intros [[= <-]|[e [=]]].
  match goal with |- context [set_isSubmitting false ?x] =>
    assert (Hx : same_marks w x \/ reset_unmarked w x) end.
  { destruct r as [response|e].
    - destruct (get_prop response (js "success")) as [success|].
      + destruct (truthy success).
        * pose proof (handleSubmitSuccess_reset response w2) as Hr.
          pose proof (handleSubmitSuccess_returns response w2) as Hn.
          destruct (handleSubmitSuccess response w2) as [w3|e w3|u w3]; [| |done].
          -- right. eapply marks_reset_unmarked; [exact H2|]. apply Hr. by left.
          -- right. eapply reset_unmarked_marks; [|apply handleSubmitError_marks].
             eapply marks_reset_unmarked; [exact H2|]. apply Hr. right. by eexists.
        * left. eapply same_marks_trans; [exact H2|apply handleSubmitError_marks].
      + left. eapply same_marks_trans; [exact H2|apply handleSubmitError_marks].
    - left. eapply same_marks_trans; [exact H2|apply handleSubmitError_marks]. }
  match goal with |- context [showLoadingState false ?y] =>
    pose proof (showLoadingState_marks false y) as Hy end.
  destruct Hx as [Hx|Hx]; [left|right].
  - eapply same_marks_trans; [|exact Hy]. done.
  - eapply reset_unmarked_marks; [|exact Hy]. done.
Qed.

Lemma handleNext_marks valid validAll s w w' :
  synced w -> leaves (handleNext valid validAll s w) w' ->
  synced w' \/ reset_unmarked w w'.
Proof.
  intros Hs. unfold handleNext. destruct (negb valid).
  { intros [[= <-]|[e [=]]]. left.
    eapply same_marks_synced; [apply showStepError_marks|done]. }
  pose proof (saveStepData_marks w) as Hm.
  destruct (saveStepData w) as [w1|e w1|u w1].
  - assert (H1 : same_marks w w1) by (apply Hm; by left).
    destruct (currentStep w1 <? totalSteps w1).
    + intros [[= <-]|[e [=]]]. left. apply showStep_keeps_synced.
      by eapply same_marks_synced.
    + intros Hl. apply handleSubmit_marks in Hl as [H|H].
      * left. eapply same_marks_synced; [|exact Hs]. by eapply same_marks_trans.
      * right. by eapply marks_reset_unmarked.
  - intros [[=]|[e' [= <- <-]]]. left.
    eapply same_marks_synced; [|exact Hs]. apply Hm. right. by eexists.
  - by intros [[=]|[e' [=]]].
Qed.

Lemma performAutoSave_marks now newId w : same_marks w (performAutoSave now newId w).
Proof.
  unfold performAutoSave.
  destruct (Storage_set _ _ _) as [[b|e] w1] eqn:E; apply Storage_set_marks in E;
    destruct E; by split.
Qed.

Lemma saveDraft_marks a t n i w : same_marks w (saveDraft a t n i w).
Proof.
  unfold saveDraft.
  destruct (Storage_get draftsKey w) as [[stored|e] w1] eqn:E;
    apply Storage_get_marks in E.
  2:{ eapply same_marks_trans; [exact E|apply showFormError_marks]. }
  destruct (or_else stored (VArr []));
    try (eapply same_marks_trans; [exact E|apply showFormError_marks]).
  destruct (Storage_set _ _ _) as [[b|e] w2] eqn:E2; apply Storage_set_marks in E2.
  - eapply same_marks_trans; [exact E|].
    eapply same_marks_trans; [exact E2|apply showFormSuccess_marks].
  - eapply same_marks_trans; [exact E|].
    eapply same_marks_trans; [exact E2|apply showFormError_marks].
Qed.

Lemma deleteDraft_marks c i w : same_marks w (deleteDraft c i w).
Proof.
  unfold deleteDraft. destruct (negb c); [apply same_marks_refl|].
  destruct (Storage_get draftsKey w) as [[stored|e] w1] eqn:E;
    apply Storage_get_marks in E.
  2:{ eapply same_marks_trans; [exact E|apply showFormError_marks]. }
  destruct (or_else stored (VArr []));
    try (eapply same_marks_trans; [exact E|apply showFormError_marks]).
  destruct (withoutDraft l i).
  2:{ eapply same_marks_trans; [exact E|apply showFormError_marks]. }
  destruct (Storage_set _ _ _) as [[b|e] w2] eqn:E2; apply Storage_set_marks in E2.
  - eapply same_marks_trans; [exact E|].
    eapply same_marks_trans; [exact E2|apply showFormSuccess_marks].
  - eapply same_marks_trans; [exact E|].
    eapply same_marks_trans; [exact E2|apply showFormError_marks].
Qed.

Lemma initMultiStepForm_binds w :
  form w = true -> steps w <> [] -> synced (initMultiStepForm w).
Proof.
  intros Hf Hs. unfold initMultiStepForm. rewrite Hf. cbn [negb orb].
  destruct (steps w) as [|s l] eqn:E; [done|]. cbn [length Nat.eqb].
  apply showStep_synced. cbn [totalSteps set_totalSteps length]. lia.
Qed.

Lemma initMultiStepForm_synced w : synced w -> synced (initMultiStepForm w).
Proof.
  intros Hs. unfold initMultiStepForm. destruct (_ || _); [done|].
  by apply showStep_keeps_synced.
Qed.

Lemma stored_step_cases v :
  (exists z, v = VNum (Int z)) \/ (forall z, v <> VNum (Int z)).
Proof. destruct v as [| | |[z|l]| | | |]; try (by right). left. by exists z. Qed.

Section Gate.
Variable restoreFields : value -> list (list field) -> option (list (list field)).
Variable lessThan : value -> Z -> option bool.
Variable greaterThan : value -> Z -> option bool.
Local Abbreviation showStoredStep' := (showStoredStep lessThan greaterThan).
Local Abbreviation loadAutoSave' := (loadAutoSave restoreFields lessThan greaterThan).
Local Abbreviation loadDraft' := (loadDraft restoreFields lessThan greaterThan).
Local Abbreviation handle' := (handle restoreFields lessThan greaterThan).

Lemma restoreFormData_marks w w' :
  restoreFormData restoreFields w = Some w' -> same_marks w w'.
Proof.
  unfold restoreFormData.
  destruct (formData w); try done;
    destruct (restoreFields _ _); try done; by intros [= <-].
Qed.

Lemma showStoredStep_synced v w w' :
  synced w -> leaves (showStoredStep' v w) w' -> synced w'.
Proof.
  intros Hs Hl.
  destruct (stored_step_cases v) as [[z ->]|Hz].
  - cbn [showStoredStep] in Hl. destruct Hl as [[= <-]|[e [=]]].
    by apply showStep_keeps_synced.
  - rewrite (showStoredStep_other lessThan greaterThan v w Hz) in Hl.
    destruct (lessThan v 1) as [[|]|].
    + by destruct Hl as [[= <-]|[e [=]]].
    + destruct (greaterThan v (totalSteps w)) as [[|]|].
      * by destruct Hl as [[= <-]|[e [=]]].
      * by destruct Hl as [[=]|[e [=]]].
      * by destruct Hl as [[=]|[e [= _ <-]]].
    + by destruct Hl as [[=]|[e [= _ <-]]].
Qed.

Lemma loadAutoSave_synced w w' :
  synced w -> leaves (loadAutoSave' w) w' -> synced w'.
Proof.
  intros Hs. unfold loadAutoSave.
  destruct (Storage_get _ _) as [[saved|e] w1] eqn:E; apply Storage_get_marks in E.
  2:{ intros [[= <-]|[e' [=]]]. by eapply same_marks_synced. }
  assert (H1 : synced w1) by (by eapply same_marks_synced).
  destruct (_ && _); [|by intros [[= <-]|[e' [=]]]].
  set (w2 := set_currentDraftId _ _).
  assert (H2 : synced w2) by done.
  destruct (restoreFormData restoreFields w2) as [w3|] eqn:Er.
  2:{ by intros [[= <-]|[e' [=]]]. }
  assert (H3 : synced w3).
  { eapply same_marks_synced; [eapply restoreFormData_marks; exact Er|done]. }
  destruct (truthy _); [|by intros [[= <-]|[e' [=]]]].
  destruct (showStoredStep _ _ _ w3) as [w4|e w4|u w4] eqn:Es.
  - intros [[= <-]|[e' [=]]].
    assert (synced w4); [|done].
    eapply showStoredStep_synced; [exact H3|rewrite Es; by left].
  - intros [[= <-]|[e' [=]]].
    eapply showStoredStep_synced; [exact H3|rewrite Es; right; eauto].
  - by intros [[=]|[e' [=]]].
Qed.

Lemma loadDraft_synced i w w' :
  synced w -> leaves (loadDraft' i w) w' -> synced w'.
Proof.
  intros Hs. unfold loadDraft.
  destruct (Storage_get _ _) as [[stored|e] w1] eqn:E; apply Storage_get_marks in E.
  2:{ intros [[= <-]|[e' [=]]].
      eapply same_marks_synced; [apply showFormError_marks|by eapply same_marks_synced]. }
  assert (H1 : synced w1) by (by eapply same_marks_synced).
  destruct (or_else stored (VArr []));
    try (intros [[= <-]|[e' [=]]];
         eapply same_marks_synced; [apply showFormError_marks|done]).
  destruct (findDraft l i) as [[draft|]|].
  - set (w2 := set_currentDraftId _ _).
    assert (H2 : synced w2) by done.
    destruct (restoreFormData restoreFields w2) as [w3|] eqn:Er.
    2:{ intros [[= <-]|[e' [=]]].
        eapply same_marks_synced; [apply showFormError_marks|done]. }
    assert (H3 : synced w3).
    { eapply same_marks_synced; [eapply restoreFormData_marks; exact Er|done]. }
    destruct (showStoredStep _ _ _ w3) as [w4|e w4|u w4] eqn:Es.
    + intros [[= <-]|[e' [=]]].
      eapply same_marks_synced; [apply showFormSuccess_marks|].
      eapply showStoredStep_synced; [exact H3|rewrite Es; by left].
    + intros [[= <-]|[e' [=]]].
      eapply same_marks_synced; [apply showFormError_marks|].
      eapply showStoredStep_synced; [exact H3|rewrite Es; right; eauto].
    + by intros [[=]|[e' [=]]].
  - by intros [[= <-]|[e' [=]]].
  - intros [[= <-]|[e' [=]]].
    eapply same_marks_synced; [apply showFormError_marks|done].
Qed.

Lemma handle_marks ev w w' :
  synced w -> leaves (handle' ev w) w' -> synced w' \/ reset_unmarked w w'.
Proof.
  intros Hs. destruct ev; cbn [handle].
  - intros [[= <-]|[e [=]]]. left. by apply initMultiStepForm_synced.
  - by apply handleNext_marks.
  - intros Hl. left. by eapply handlePrev_synced.
  - intros Hl. left. by eapply goToStep_synced.
  - intros Hl. left. by eapply clickIndicator_synced.
  - unfold handleKeyboardNavigation.
    destruct (negb (form w)); [intros [[= <-]|[e [=]]]; by left|].
    destruct altKey; [|intros [[= <-]|[e [=]]]; by left].
    destruct (_ && _); [by apply handleNext_marks|].
    destruct (_ && _); [intros Hl; left; by eapply handlePrev_synced|].
    intros [[= <-]|[e [=]]]. by left.
  - intros Hl. apply handleSubmit_marks in Hl as [H|H]; [left|by right].
    by eapply same_marks_synced.
  - intros [[= <-]|[e [=]]]. left.
    eapply same_marks_synced; [apply performAutoSave_marks|done].
  - intros Hl. left. by eapply loadAutoSave_synced.
  - intros [[= <-]|[e [=]]]. left.
    eapply same_marks_synced; [apply saveDraft_marks|done].
  - intros Hl. left. by eapply loadDraft_synced.
  - intros [[= <-]|[e [=]]]. left.
    eapply same_marks_synced; [apply deleteDraft_marks|done].
  - intros [[= <-]|[e [=]]]. right. by split.
Qed.

(** C5 (amended).  A click on the indicator of a step changes the
    current step only when that indicator is marked completed, and
    then to the step of the indicator.  [showStep] marks exactly the
    steps below the one it shows, and [initMultiStepForm] has shown
    step 1 when it binds the listeners; with the marks so, a click
    moves the current step only to a step below the current one and
    otherwise leaves it unchanged.  Every handler that returns or
    raises leaves the marks so, or has run [clearFormData], which sets
    the step to 1 and leaves the marks as they were.  [goToStep(j)]
    itself has no such gate: it leaves the current step unchanged when
    [j] is outside [1, totalSteps], and for [j] inside that range the
    step it leaves is [j] or the one before the call. *)
Theorem jump_gating w j index :
  (forall w', leaves (clickIndicator index w) w' ->
     currentStep w' = currentStep w \/
     (exists ind, stepIndicators w !! index = Some ind /\
                  ind_completed ind = true /\
                  currentStep w' = Z.of_nat index + 1)) /\
  (synced w ->
   (forall w', leaves (clickIndicator index w) w' ->
      currentStep w' = currentStep w \/
      (currentStep w' = Z.of_nat index + 1 /\ Z.of_nat index + 1 < currentStep w)) /\
   (forall ev w', leaves (handle' ev w) w' -> synced w' \/ reset_unmarked w w')) /\
  (forall w', leaves (goToStep j w) w' ->
     currentStep w' = currentStep w \/
     (currentStep w' = j /\ 1 <= j <= totalSteps w)) /\
  (~ (1 <= j <= totalSteps w) -> goToStep j w = Done w) /\
  (1 <= j <= totalSteps w -> synced (showStep j w)) /\
  (form w = true -> steps w <> [] -> synced (initMultiStepForm w)).
Proof.
  assert (Hclick : forall w', leaves (clickIndicator index w) w' ->
            currentStep w' = currentStep w \/
            (exists ind, stepIndicators w !! index = Some ind /\
                         ind_completed ind = true /\
                         currentStep w' = Z.of_nat index + 1)).
  { intros w'. unfold clickIndicator.
    destruct (stepIndicators w !! index) as [ind|] eqn:Hi.
    - destruct (ind_completed ind) eqn:Hc.
      + intros Hl. apply goToStep_current in Hl as [H|[H _]]; [by left|].
        right. by exists ind.
      + intros [[= <-]|[e [=]]]. by left.
    - intros [[= <-]|[e [=]]]. by left. }
  split; [exact Hclick|]. split; [|split; [|split; [|split]]].
  - intros Hs. split.
    + intros w' Hl. destruct (Hclick w' Hl) as [H|(ind & Hi & Hc & H)]; [by left|].
      right. split; [done|]. rewrite (Hs _ _ Hi) in Hc. by apply Z.ltb_lt.
    + intros ev w'. by apply handle_marks.
  - apply goToStep_current.
  - intros Hn. unfold goToStep.
    destruct (Z.leb_spec 1 j); cbn [andb]; [|done].
    destruct (Z.leb_spec j (totalSteps w)); [lia|done].
  - apply showStep_synced.
  - apply initMultiStepForm_binds.
Qed.
End Gate.

Lemma jump_gating_witness :
  exists w',
    clickIndicator 1 at_step_three = Done w' /\
    (currentStep w' = currentStep at_step_three \/
     (currentStep w' = 2 /\ 2 < currentStep at_step_three)).
Proof.
  eexists. split; [vm_compute; reflexivity|].
  destruct (jump_gating keep nan_compare nan_compare at_step_three 2 1)
    as (_ & H & _).
  destruct H as [H _].
  - intros i ind. do 5 (destruct i as [|i]; [intros [= <-]; reflexivity|]).
    intros H. vm_compute in H. discriminate.
  - apply H. left. vm_compute. reflexivity.
Defined.

(** After [clearFormData] on step 3 the step is 1 and the indicators of
    steps 1 and 2 are still marked: a click on the second one shows
    step 2. *)
Example click_after_clearFormData :
  exists w',
    clickIndicator 1 (clearFormData at_step_three) = Done w' /\
    currentStep (clearFormData at_step_three) = 1 /\ currentStep w' = 2.
Proof. eexists. split; [vm_compute; reflexivity|]. split; reflexivity. Qed.

(** From step 1 of four, with no step completed, [goToStep(3)] shows
    step 3. *)
Lemma goToStep_skips_ahead :
  ~ (forall w j w',
       (forall k ind, j <= k -> stepIndicators w !! Z.to_nat (k - 1) = Some ind ->
                      ind_completed ind = false) ->
       leaves (goToStep j w) w' ->
       currentStep w' = currentStep w).
Proof.
  intros H.
  specialize (H four_steps 3 at_step_three).
  assert (Hc : currentStep at_step_three = 3) by (vm_compute; reflexivity).
  assert (H1 : currentStep four_steps = 1) by (vm_compute; reflexivity).
  rewrite Hc, H1 in H. assert (3 = 1); [|lia].
  apply H.
  - intros k ind Hk. remember (Z.to_nat (k - 1)) as n.
    do 5 (destruct n as [|n]; [intros [= <-]; reflexivity|]).
    intros Hn. vm_compute in Hn. discriminate.
  - left. vm_compute. reflexivity.
Qed.

Import LocalStorage.

Lemma get_state k sc st : snd (get k sc st) = st.
Proof.
  unfold get. destruct (invalid_key k); [done|].
  unfold bind, getStorage, try_catch, getItem, ret, getMemoryStorage.
  destruct (if sc then _ else _).
  - by destruct (native_getItem _ _) as [[s|]|e].
  - done.
Qed.

Lemma get_total k sc st : exists v, get k sc st = (Ok v, st).
Proof.
  unfold get. destruct (invalid_key k); [by eexists|].
  unfold bind, getStorage, try_catch, getItem, ret, getMemoryStorage.
  destruct (if sc then _ else _).
  - destruct (native_getItem _ _) as [[s|]|e]; by eexists.
  - by eexists.
Qed.

Lemma set_total k v sc st : exists b st', set k v sc st = (Ok b, st').
Proof.
  unfold set. destruct (invalid_key k); [by eexists _, _|].
  destruct (safeStringify v) as [text|]; [|by eexists _, _].
  unfold bind. destruct (native_write_total sc k text st) as (b & st1 & ->).
  destruct b; by eexists _, _.
Qed.

Lemma remove_total k sc st : exists b st', remove k sc st = (Ok b, st').
Proof.
  unfold remove. destruct (invalid_key k); [by eexists _, _|].
  unfold bind, getStorage, try_catch, ret, getMemoryStorage, putMemoryStorage.
  destruct (if sc then _ else _).
  - destruct (removeItem sc k st) as [[[]|e] st1]; by eexists _, _.
  - by eexists _, _.
Qed.

Lemma obj_get_delete {A} (o : list (jsstring * A)) k : obj_get (obj_delete o k) k = None.
Proof.
  unfold obj_get, obj_delete. induction o as [|[k' v'] o IH]; [done|].
  cbn [List.filter fst]. destruct (str_eqb k' k) eqn:E; cbn [negb]; [exact IH|].
  cbn [find fst]. by rewrite E.
Qed.

Lemma available_set_window_storage sc n st :
  available sc (set_window_storage sc n st) = available sc st.
Proof. by destruct sc. Qed.

Lemma memory_set_window_storage sc n st :
  memory sc (set_window_storage sc n st) = memory sc st.
Proof. by destruct sc. Qed.

(** [Storage.get] when the native object of the scope works and has
    no item under [k]. *)
Lemma get_absent sc k st :
  available sc st = true -> failing (window_storage sc st) = None ->
  items (window_storage sc st) !! k = None ->
  get k sc st = (Ok VNull, st).
Proof.
  intros Ha Hf Hi. unfold get. destruct (invalid_key k); [done|].
  unfold bind, getStorage. fold (available sc st). rewrite Ha.
  unfold try_catch, bind, getItem, native_getItem. by rewrite Hf, Hi.
Qed.

(** After [Storage.remove(key)], [Storage.get(key)] is [null]. *)
Lemma remove_get k sc st b st' :
  k <> [] -> inherited k = false ->
  remove k sc st = (Ok b, st') -> get k sc st' = (Ok VNull, st').
Proof.
  intros Hk Hi. unfold remove. destruct k as [|c k]; [done|]. cbn [invalid_key].
  unfold bind at 1. unfold getStorage at 1. fold (available sc st).
  assert (Hmem : forall st0, down sc st0 ->
            get (c :: k) sc (set_memory sc (obj_delete (memory sc st0) (c :: k)) st0)
            = (Ok VNull, set_memory sc (obj_delete (memory sc st0) (c :: k)) st0)).
  { intros st0 Hd. rewrite down_get by (by apply down_set_memory).
    rewrite memory_set_memory. unfold memory_answer, mem_read.
    by rewrite obj_get_delete, Hi. }
  destruct (available sc st) eqn:Ha.
  - unfold bind at 1. unfold try_catch at 1.
    destruct (removeItem sc (c :: k) st) as [[[]|e] st1] eqn:Er.
    + unfold bind, getMemoryStorage, putMemoryStorage, ret.
      fold (memory sc st1). intros [= <- <-].
      unfold removeItem, native_removeItem in Er.
      destruct (failing (window_storage sc st)) eqn:Hf; [done|].
      injection Er as <-.
      apply get_absent.
      * by rewrite available_set_memory, available_set_window_storage.
      * by rewrite window_storage_set_memory, window_storage_set.
      * rewrite window_storage_set_memory, window_storage_set. cbn.
        apply lookup_delete_eq.
    + unfold bind, getMemoryStorage, putMemoryStorage, ret.
      fold (memory sc st1). intros [= <- <-].
      unfold removeItem, native_removeItem in Er.
      destruct (failing (window_storage sc st)) eqn:Hf; [|done].
      injection Er as <- <-. apply Hmem. right. eauto.
  - unfold bind, getMemoryStorage, putMemoryStorage, ret.
    fold (memory sc st). intros [= <- <-]. apply Hmem. by left.
Qed.

Lemma startsWith_head s c p :
  match s with x :: _ => x <> c | [] => True end -> startsWith s (c :: p) = false.
Proof.
  destruct s as [|x s]; [done|]. cbn. intros H.
  assert ((c =? x)%N = false) as -> by (apply N.eqb_neq; congruence). done.
Qed.

Lemma includes_absent s c p : ~ In c s -> includes s (c :: p) = false.
Proof.
  induction s as [|x s IH]; intros Hn.
  - reflexivity.
  - cbn [includes]. rewrite startsWith_head.
    + apply IH. intros H. apply Hn. by right.
    + intros ->. apply Hn. by left.
Qed.

Lemma uint_units_digits d c : In c (uint_units d) -> is_digit c = true.
Proof.
  induction d; cbn; try done; intros [<-|H]; auto.
Qed.

Lemma Z_toString_chars z c : In c (Z_toString z) -> is_digit c = true \/ c = 45%N.
Proof.
  destruct z as [|p|p]; cbn.
  - intros [<-|[]]. by left.
  - intros H. left. by apply uint_units_digits in H.
  - intros [<-|H]; [by right|]. left. by apply uint_units_digits in H.
Qed.

Lemma http_error_passes status :
  passes_through (mkExn (js "Error") 0 (js "HTTP error! status: " ++ Z_toString status))
  = true.
Proof.
  unfold passes_through. cbn [exn_name exn_message].
  change (js "fetch") with (102%N :: js "etch").
  rewrite includes_absent; [reflexivity|].
  intros H. apply in_app_or in H as [H|H].
  - vm_compute in H. repeat (destruct H as [H|H]; [discriminate|]). done.
  - apply Z_toString_chars in H as [H|H]; discriminate.
Qed.

Lemma submitForm_catch_failure s e :
  passes_through e = true \/ Qle_bool (sub_random s) (1 # 10) = true ->
  no_success (submitForm_catch s e) = true.
Proof.
  unfold submitForm_catch, passes_through. intros [H|H].
  - apply negb_true_iff in H. by rewrite H.
  - destruct (_ || _); [|done]. unfold simulateSubmission. by rewrite H.
Qed.

Lemma failure_no_success s w : failure s -> no_success (fst (submitForm s w)) = true.
Proof.
  unfold failure, submitForm.
  destruct (sub_fetch s) as [e|[|] status [v|e]]; cbn [fst]; intros H;
    try (by apply submitForm_catch_failure); try done.
  - apply submitForm_catch_failure. left. apply http_error_passes.
  - apply submitForm_catch_failure. left. apply http_error_passes.
Qed.

Lemma submitForm_world s w :
  snd (submitForm s w) = set_requests (S (requests w)) w.
Proof.
  unfold submitForm. destruct (sub_fetch s) as [e|[|] status [v|e]]; done.
Qed.

Lemma get_local_after_session k n st :
  fst (get k false (set_window_storage true n st)) = fst (get k false st).
Proof.
  unfold get. destruct (invalid_key k); [done|].
  destruct st as [la sa ml ms wl ws].
  unfold bind, getStorage, try_catch, ret, getMemoryStorage, getItem.
  cbn [set_window_storage window_storage localStorageAvailable
       window_localStorage memory_local].
  destruct la; [|done]. unfold native_getItem. cbn -[js].
  destruct (failing wl); [reflexivity|].
  destruct (items wl !! k); reflexivity.
Qed.

Lemma remove_local_session k st :
  window_sessionStorage (snd (remove k false st)) = window_sessionStorage st.
Proof.
  unfold remove. destruct (invalid_key k); [done|].
  unfold bind, getStorage, try_catch, ret, getMemoryStorage, putMemoryStorage.
  destruct (localStorageAvailable st); [|done].
  unfold removeItem. by destruct (native_removeItem _ _).
Qed.

Lemma clearAutoSave_storage w :
  storage (clearAutoSave w) = snd (remove autoSaveCurrentKey false (storage w)).
Proof.
  unfold clearAutoSave, Storage_remove.
  by destruct (remove autoSaveCurrentKey false (storage w)) as [[b|e] st].
Qed.

(** What [handleSubmitSuccess] does when the session storage accepts
    the reference code. *)
Lemma handleSubmitSuccess_refused w response ref e :
  get_prop response (js "referenceNumber") = Some (VStr ref) -> ref <> [] ->
  native_setItem (window_sessionStorage (storage w)) submissionRefKey ref = Throw e ->
  exists w', handleSubmitSuccess response w = Raised e w'.
Proof.
  intros Hr Hne Hset. unfold handleSubmitSuccess. rewrite Hr. cbn [default from_option id].
  assert (Ht : truthy (VStr ref) = true) by (by destruct ref).
  rewrite Ht. cbn [toString].
  set (w2 := showFormSuccess _ _).
  assert (Hst : storage w2 = snd (remove autoSaveCurrentKey false (storage w))).
  { subst w2. unfold showFormSuccess.
    destruct (successContainer _); cbn; apply clearAutoSave_storage. }
  unfold setItem. cbn [window_storage]. rewrite Hst, remove_local_session, Hset.
  by eexists.
Qed.

Lemma handleSubmitSuccess_effects w response ref n :
  get_prop response (js "referenceNumber") = Some (VStr ref) -> ref <> [] ->
  native_setItem (window_sessionStorage (storage w)) submissionRefKey ref = Ok n ->
  exists w',
    handleSubmitSuccess response w = Done w' /\
    fst (get autoSaveCurrentKey false (storage w')) = Ok VNull /\
    formData w' = VObj [] /\ currentStep w' = 1 /\ currentDraftId w' = VNull /\
    items (window_sessionStorage (storage w')) !! submissionRefKey = Some ref /\
    In (2000, Redirect successRedirect) (timers w').
Proof.
  intros Hr Hne Hset. unfold handleSubmitSuccess. rewrite Hr. cbn [default from_option id].
  assert (Ht : truthy (VStr ref) = true) by (by destruct ref).
  rewrite Ht. cbn [toString].
  set (w2 := showFormSuccess _ _).
  assert (Hst : storage w2 = snd (remove autoSaveCurrentKey false (storage w))).
  { subst w2. unfold showFormSuccess.
    destruct (successContainer _); cbn; apply clearAutoSave_storage. }
  unfold setItem. cbn [window_storage]. rewrite Hst, remove_local_session, Hset.
  set (st1 := snd (remove autoSaveCurrentKey false (storage w))).
  assert (Hnull : fst (get autoSaveCurrentKey false st1) = Ok VNull).
  { destruct (remove_total autoSaveCurrentKey false (storage w)) as (b & st' & Hrm).
    subst st1. rewrite Hrm. cbn [snd].
    rewrite (remove_get autoSaveCurrentKey false (storage w) b st'); done. }
  assert (Hitems : items n !! submissionRefKey = Some ref).
  { unfold native_setItem in Hset. destruct (failing _); [done|].
    destruct (accepts _ _ _ _); [|done]. injection Hset as <-. cbn.
    apply lookup_insert_eq. }
  assert (Hfields : formData w2 = VObj [] /\ currentStep w2 = 1 /\ currentDraftId w2 = VNull).
  { subst w2. unfold showFormSuccess. by destruct (successContainer _). }
  destruct Hfields as (Hf & Hc & Hd).
  destruct (confetti (set_storage _ w2)) eqn:Hco.
  - eexists. split; [reflexivity|].
    unfold setTimeout, set_timers, set_confetti, set_storage.
    cbn [storage formData currentStep currentDraftId timers].
    rewrite get_local_after_session.
    repeat split; try done. apply in_or_app. right. by left.
  - eexists. split; [reflexivity|].
    unfold setTimeout, set_timers, set_confetti, set_storage.
    cbn [storage formData currentStep currentDraftId timers].
    rewrite get_local_after_session.
    repeat split; try done. apply in_or_app. right. by left.
Qed.

(** C7.  The endpoint answers with [success: true] and a reference
    code, and the session storage of the page refuses every call.
    [handleSubmitSuccess] calls [sessionStorage.setItem] directly, the
    exception leaves it before the redirect is scheduled, and
    [handleSubmit] reports it as a failed submission: the form is
    cleared, no reference is stored and no redirect is scheduled. *)
Lemma success_without_redirect :
  exists w',
    handleSubmit true accepted session_blocked = Done w' /\
    (forall d url, ~ In (d, Redirect url) (timers w')) /\
    errorContainer w'
    = Some (mkContainer (VStr (js "The operation is insecure.")) true) /\
    formData w' = VObj [] /\
    items (window_sessionStorage (storage w')) !! submissionRefKey = None.
Proof.
  eexists. split; [vm_compute; reflexivity|].
  split; [|split; [|split]]; try (vm_compute; reflexivity).
  intros d url H. vm_compute in H.
  repeat (destruct H as [H|H]; [discriminate|]). done.
Qed.

(** The same answer on a page whose session storage works. *)
Example success_with_redirect :
  exists w',
    handleSubmit true accepted (filled four_steps) = Done w' /\
    In (2000, Redirect successRedirect) (timers w') /\
    items (window_sessionStorage (storage w')) !! submissionRefKey
    = Some (js "RARE-202501-0042") /\
    formData w' = VObj [] /\ currentStep w' = 1.
Proof.
  eexists. split; [vm_compute; reflexivity|].
  split; [|split; [|split]]; try (vm_compute; reflexivity).
  vm_compute. repeat (first [left; reflexivity | right]).
Qed.

Lemma simulated_answer s w :
  simulated s ->
  submitForm s w
  = (Ok (VObj [(js "success", VBool true);
               (js "referenceNumber",
                VStr (generateReferenceNumber (sub_year s) (sub_month s)
                                              (sub_refRandom s)));
               (js "message", VStr (js "Nomination submitted successfully"))]),
     set_requests (S (requests w)) w).
Proof.
  intros [Hf Hr]. unfold submitForm, submitForm_catch, simulateSubmission.
  unfold passes_through in Hf. rewrite Hr. cbn [negb].
  destruct (sub_fetch s) as [e|[|] status [v|e]]; try done;
    apply negb_false_iff in Hf; by rewrite Hf.
Qed.

Lemma generateReferenceNumber_text y m q : generateReferenceNumber y m q <> [].
Proof.
  unfold generateReferenceNumber. change (js "RARE-") with [82; 65; 82; 69; 45]%N. done.
Qed.

(** What [handleSubmitSuccess] leaves whether it returns or raises;
    the redirect is scheduled only when it returns. *)
Lemma handleSubmitSuccess_frame r w w' :
  leaves (handleSubmitSuccess r w) w' ->
  requests w' = requests w /\ isSubmitting w' = isSubmitting w /\
  errorContainer w' = errorContainer w /\ submitBtn w' = submitBtn w /\
  formData w' = VObj [] /\ currentStep w' = 1 /\
  announcements w'
  = announcements w
    ++ [or_else (default VUndefined (get_prop r (js "message")))
                (VStr (js "Form submitted successfully"))] /\
  ((exists e, handleSubmitSuccess r w = Raised e w') ->
   timers w' = timers w ++ [(1000, RemoveAnnouncement); (5000, HideSuccess)]).
Proof.
  unfold handleSubmitSuccess.
  set (m := or_else _ _).
  assert (H0 : requests (clearAutoSave w) = requests w /\
               isSubmitting (clearAutoSave w) = isSubmitting w /\
               errorContainer (clearAutoSave w) = errorContainer w /\
               submitBtn (clearAutoSave w) = submitBtn w /\
               announcements (clearAutoSave w) = announcements w /\
               timers (clearAutoSave w) = timers w).
  { unfold clearAutoSave, Storage_remove.
    by destruct (remove _ _ _) as [[b|e] st]. }
  destruct H0 as (A1 & A2 & A3 & A4 & A7 & A8).
  set (w2 := showFormSuccess m (clearFormData (clearAutoSave w))).
  assert (H2 : requests w2 = requests w /\ isSubmitting w2 = isSubmitting w /\
               errorContainer w2 = errorContainer w /\ submitBtn w2 = submitBtn w /\
               formData w2 = VObj [] /\ currentStep w2 = 1 /\
               announcements w2 = announcements w ++ [m] /\
               timers w2 = timers w ++ [(1000, RemoveAnnouncement); (5000, HideSuccess)]).
  { subst w2. unfold showFormSuccess, announceToScreenReader, setTimeout.
    destruct (successContainer _); cbn -[js];
      rewrite ?A1, ?A2, ?A3, ?A4, ?A7, ?A8, <- ?app_assoc; done. }
  destruct H2 as (B1 & B2 & B3 & B4 & B5 & B6 & B7 & B8).
  assert (Hdone : forall x,
            (x = w2 \/ exists st, x = set_storage st w2) ->
            forall y, y = match confetti x with
                          | Some n => set_confetti (Some (S n)) x
                          | None => x
                          end ->
            requests (setTimeout (Redirect successRedirect) 2000 y) = requests w /\
            isSubmitting (setTimeout (Redirect successRedirect) 2000 y)
            = isSubmitting w /\
            errorContainer (setTimeout (Redirect successRedirect) 2000 y)
            = errorContainer w /\
            submitBtn (setTimeout (Redirect successRedirect) 2000 y) = submitBtn w /\
            formData (setTimeout (Redirect successRedirect) 2000 y) = VObj [] /\
            currentStep (setTimeout (Redirect successRedirect) 2000 y) = 1 /\
            announcements (setTimeout (Redirect successRedirect) 2000 y)
            = announcements w ++ [m]).
  { intros x Hx y ->.
    assert (Hy : requests x = requests w /\ isSubmitting x = isSubmitting w /\
                 errorContainer x = errorContainer w /\ submitBtn x = submitBtn w /\
                 formData x = VObj [] /\ currentStep x = 1 /\
                 announcements x = announcements w ++ [m]).
    { destruct Hx as [->|[st ->]]; by cbn [requests isSubmitting errorContainer
        submitBtn formData currentStep announcements set_storage]. }
    destruct Hy as (Y1 & Y2 & Y3 & Y4 & Y5 & Y6 & Y7).
    destruct (confetti x);
      by cbn [requests isSubmitting errorContainer submitBtn formData currentStep
              announcements setTimeout set_timers set_confetti]. }
  destruct (truthy _).
  - destruct (setItem _ _ _ _) as [[u|e] st].
    + intros [[= <-]|[e [=]]].
      destruct (Hdone (set_storage st w2) (or_intror (ex_intro _ st eq_refl)) _ eq_refl)
        as (D1 & D2 & D3 & D4 & D5 & D6 & D7).
      split; [exact D1|]. split; [exact D2|]. split; [exact D3|]. split; [exact D4|].
      split; [exact D5|]. split; [exact D6|]. split; [exact D7|]. by intros [e [=]].
    + intros [[=]|[e' [= <- <-]]].
      cbn [requests isSubmitting errorContainer submitBtn formData currentStep
           announcements timers set_storage].
      split; [exact B1|]. split; [exact B2|]. split; [exact B3|]. split; [exact B4|].
      split; [exact B5|]. split; [exact B6|]. split; [exact B7|]. intros _. exact B8.
  - intros [[= <-]|[e [=]]].
    destruct (Hdone w2 (or_introl eq_refl) _ eq_refl)
      as (D1 & D2 & D3 & D4 & D5 & D6 & D7).
    split; [exact D1|]. split; [exact D2|]. split; [exact D3|]. split; [exact D4|].
    split; [exact D5|]. split; [exact D6|]. split; [exact D7|]. by intros [e [=]].
Qed.

Lemma handleSubmit_begins w :
  let w1 := clearErrors (showLoadingState true (set_isSubmitting true w)) in
  formData w1 = formData w /\ storage w1 = storage w /\ requests w1 = requests w /\
  timers w1 = timers w /\ announcements w1 = announcements w /\
  currentStep w1 = currentStep w /\
  (forall c, errorContainer w = Some c ->
             errorContainer w1 = Some (mkContainer (VStr []) false)) /\
  totalSteps w1 = totalSteps w /\ currentDraftId w1 = currentDraftId w /\
  steps w1 = steps w.
Proof.
  cbv zeta. unfold clearErrors, showLoadingState.
  destruct (submitBtn w) as [b|] eqn:Hb; destruct (errorContainer w) as [c|] eqn:Hc;
    repeat (cbn -[js]; rewrite ?Hb, ?Hc); repeat split; try done; intros c0 [=].
Qed.

Lemma handleSubmit_ends w3 :
  let w' := showLoadingState false (set_isSubmitting false w3) in
  formData w' = formData w3 /\ storage w' = storage w3 /\ requests w' = requests w3 /\
  timers w' = timers w3 /\ announcements w' = announcements w3 /\
  currentStep w' = currentStep w3 /\ errorContainer w' = errorContainer w3 /\
  isSubmitting w' = false /\
  totalSteps w' = totalSteps w3 /\ currentDraftId w' = currentDraftId w3 /\
  steps w' = steps w3.
Proof.
  cbv zeta. unfold showLoadingState.
  destruct (submitBtn w3) as [b|] eqn:Hb; repeat (cbn -[js]; rewrite ?Hb); done.
Qed.

Lemma handleSubmitError_frame message w :
  let w' := handleSubmitError message w in
  formData w' = formData w /\ storage w' = storage w /\ requests w' = requests w /\
  timers w' = timers w ++ [(1000, RemoveAnnouncement)] /\
  announcements w' = announcements w ++ [message] /\
  currentStep w' = currentStep w /\
  (forall c, errorContainer w = Some c ->
             errorContainer w' = Some (mkContainer message true)) /\
  totalSteps w' = totalSteps w /\ currentDraftId w' = currentDraftId w /\
  steps w' = steps w.
Proof.
  cbv zeta. unfold handleSubmitError, showFormError, announceToScreenReader, setTimeout.
  destruct (submitBtn w) as [b|] eqn:Hb; destruct (errorContainer w) as [c|] eqn:Hc;
    repeat (cbn -[js]; rewrite ?Hb, ?Hc); repeat split; try done; intros c0 [=].
Qed.

(** C6 (amended).  When [fetch] rejects for a reason other than a
    TypeError or a message that mentions [fetch] (a timeout, say), or
    answers with a status that is not ok, or with a body that does not
    parse or whose [success] is falsy, or when the simulated submission
    that stands in for an unreachable endpoint draws a failure,
    [handleSubmit] puts an error message into the error container,
    leaves the aggregate, the step and the stored data as they were,
    issues exactly one request and schedules no other.  When the
    endpoint is not reached and the simulated submission draws a
    success, [handleSubmit] issues one request and empties the
    aggregate; if the session storage takes the reference number it
    stores it and schedules the redirect, and if the session storage
    throws it surfaces the message of that error and schedules no
    redirect. *)
Theorem submission_failure w s :
  isSubmitting w = false -> prepareSubmitData w = true ->
  (failure s ->
   exists w' message,
     handleSubmit true s w = Done w' /\
     error_surfaced w w' message /\
     formData w' = formData w /\ currentStep w' = currentStep w /\
     totalSteps w' = totalSteps w /\ currentDraftId w' = currentDraftId w /\
     steps w' = steps w /\ storage w' = storage w /\
     requests w' = S (requests w) /\ isSubmitting w' = false) /\
  (simulated s ->
   let ref := generateReferenceNumber (sub_year s) (sub_month s) (sub_refRandom s) in
   (forall n,
      native_setItem (window_sessionStorage (storage w)) submissionRefKey ref = Ok n ->
      exists w',
        handleSubmit true s w = Done w' /\
        formData w' = VObj [] /\ currentStep w' = 1 /\
        items (window_sessionStorage (storage w')) !! submissionRefKey = Some ref /\
        In (2000, Redirect successRedirect) (timers w') /\
        (forall c, errorContainer w = Some c ->
                   errorContainer w' = Some (mkContainer (VStr []) false)) /\
        requests w' = S (requests w) /\ isSubmitting w' = false) /\
   (forall e,
      native_setItem (window_sessionStorage (storage w)) submissionRefKey ref = Throw e ->
      exists w',
        handleSubmit true s w = Done w' /\
        formData w' = VObj [] /\ currentStep w' = 1 /\
        let message := or_else (VStr (exn_message e))
                               (VStr (js "Network error occurred")) in
        In message (announcements w') /\
        (forall c, errorContainer w = Some c ->
                   errorContainer w' = Some (mkContainer message true)) /\
        (forall d url, In (d, Redirect url) (timers w') ->
                       In (d, Redirect url) (timers w)) /\
        requests w' = S (requests w) /\ isSubmitting w' = false)).
Proof.
  intros Hs Hp. split.
  { intros Hf. revert Hs Hp Hf.
    intros Hs Hp Hf. unfold handleSubmit. rewrite Hs. cbn [negb].
    set (w1 := clearErrors _).
    assert (Hp1 : prepareSubmitData w1 = true).
    { unfold prepareSubmitData in *. subst w1. unfold clearErrors, showLoadingState.
      destruct (submitBtn _); destruct (errorContainer _); exact Hp. }
    rewrite Hp1. cbn [negb].
    pose proof (failure_no_success s w1 Hf) as Hn.
    pose proof (submitForm_world s w1) as Hw.
    destruct (submitForm s w1) as [r w2]. cbn [fst snd] in Hn, Hw. subst w2.
    assert (Hgen : forall message,
      let w3 := handleSubmitError message (set_requests (S (requests w1)) w1) in
      let w' := showLoadingState false (set_isSubmitting false w3) in
      error_surfaced w w' message /\
      formData w' = formData w /\ currentStep w' = currentStep w /\
      totalSteps w' = totalSteps w /\ currentDraftId w' = currentDraftId w /\
      steps w' = steps w /\ storage w' = storage w /\
      requests w' = S (requests w) /\ isSubmitting w' = false).
    { intros message. cbv zeta.
      destruct (handleSubmit_begins w)
        as (I1 & I2 & I3 & I4 & I5 & I6 & I7 & I8 & I9 & I10).
      fold w1 in I1, I2, I3, I4, I5, I6, I7, I8, I9, I10.
      set (w2 := set_requests (S (requests w1)) w1).
      destruct (handleSubmitError_frame message w2)
        as (G1 & G2 & G3 & G4 & G5 & G6 & G7 & G8 & G9 & G10).
      destruct (handleSubmit_ends (handleSubmitError message w2))
        as (E1 & E2 & E3 & E4 & E5 & E6 & E7 & E8 & E9 & E10 & E11).
      unfold error_surfaced.
      rewrite E1, E2, E3, E4, E5, E6, E7, E8, E9, E10, E11,
        G1, G2, G3, G4, G5, G6, G8, G9, G10.
      split.
      { split; [subst w2; cbn [announcements set_requests]; by rewrite I5|].
        split; [|subst w2; cbn [timers set_requests]; by rewrite I4].
        intros c Hc. apply (G7 (mkContainer (VStr []) false)).
        subst w2. cbn [errorContainer set_requests]. by apply (I7 c). }
      subst w2.
      cbn [formData storage requests currentStep totalSteps currentDraftId steps
           set_requests].
      rewrite I1, I2, I3, I6, I8, I9, I10. repeat split; done. }
    destruct r as [response|e].
    - unfold no_success in Hn.
      destruct (get_prop response (js "success")) as [x|].
      + apply negb_true_iff in Hn. rewrite Hn. eexists _, _. split; [reflexivity|]. apply Hgen.
      + eexists _, _. split; [reflexivity|]. apply Hgen.
    - eexists _, _. split; [reflexivity|]. apply Hgen.
  }
  { revert Hs Hp.
    intros Hs Hp Hsim. cbv zeta.
    destruct (handleSubmit_begins w) as (I1 & I2 & I3 & I4 & I5 & I6 & I7 & _).
    unfold handleSubmit. rewrite Hs. cbn [negb].
    set (w1 := clearErrors _) in *.
    assert (Hp1 : prepareSubmitData w1 = true).
    { unfold prepareSubmitData in *. by rewrite I1. }
    rewrite Hp1. cbn [negb].
    rewrite (simulated_answer s w1 Hsim).
    set (ref := generateReferenceNumber _ _ _).
    set (response := VObj _).
    change (get_prop response (js "success")) with (Some (VBool true)).
    cbn [truthy].
    set (w2 := set_requests (S (requests w1)) w1).
    split.
    - intros n Hset.
      destruct (handleSubmitSuccess_effects w2 response ref n)
        as (w' & Hdone & _ & Hfd & Hcs & _ & Hit & Htm);
        [reflexivity|apply generateReferenceNumber_text| |].
      { subst w2. cbn [storage set_requests]. by rewrite I2. }
      destruct (handleSubmitSuccess_frame response w2 w') as (F1 & F2 & F3 & _);
        [by left|].
      rewrite Hdone. eexists. split; [reflexivity|].
      destruct (handleSubmit_ends w') as (E1 & E2 & E3 & E4 & E5 & E6 & E7 & E8 & _).
      rewrite E1, E2, E3, E4, E6, E7, E8, F1, F3.
      subst w2. cbn [requests errorContainer set_requests]. rewrite I3.
      repeat split; done.
    - intros e Hset.
      destruct (handleSubmitSuccess_refused w2 response ref e) as (w' & Hraised);
        [reflexivity|apply generateReferenceNumber_text| |].
      { subst w2. cbn [storage set_requests]. by rewrite I2. }
      destruct (handleSubmitSuccess_frame response w2 w')
        as (F1 & F2 & F3 & F4 & F5 & F6 & F7 & F8); [right; by eexists|].
      specialize (F8 (ex_intro _ e Hraised)).
      rewrite Hraised. eexists. split; [reflexivity|].
      set (message := or_else _ _).
      destruct (handleSubmitError_frame message w')
        as (G1 & G2 & G3 & G4 & G5 & G6 & G7 & _).
      destruct (handleSubmit_ends (handleSubmitError message w'))
        as (E1 & E2 & E3 & E4 & E5 & E6 & E7 & E8 & _).
      rewrite E1, E3, E4, E5, E6, E7, E8, G1, G3, G4, G5, G6, F1, F5, F6, F8.
      subst w2. cbn [requests timers set_requests]. rewrite I3, I4.
      split; [done|]. split; [done|]. split; [apply in_or_app; right; by left|].
      split.
      { intros c Hc. apply (G7 (mkContainer (VStr []) false)).
        rewrite F3. cbn [errorContainer set_requests]. by apply (I7 c). }
      split; [|done].
      intros d url Hin. rewrite <- !app_assoc in Hin.
      apply in_app_or in Hin as [Hin|Hin]; [done|].
      cbn in Hin. destruct Hin as [[=]|[[=]|[[=]|[]]]].
  }
Qed.

Lemma submission_failure_witness :
  exists w' message,
    handleSubmit true timed_out (filled four_steps) = Done w' /\
    error_surfaced (filled four_steps) w' message /\
    formData w' = VObj [(js "nominee", VStr (js "Ada"))].
Proof.
  destruct (submission_failure (filled four_steps) timed_out) as [H _];
    [reflexivity|reflexivity|].
  destruct H as (w' & message & H1 & H2 & H3 & _); [left; reflexivity|].
  exists w', message. split; [exact H1|]. split; [exact H2|]. rewrite H3. reflexivity.
Defined.

(** [fetch] rejects with a TypeError and the simulated submission draws
    a success: the form is cleared and the redirect is scheduled. *)
Lemma network_error_clears_the_form :
  ~ (forall w s e w',
       isSubmitting w = false -> sub_fetch s = Rejected e ->
       handleSubmit true s w = Done w' ->
       formData w' = formData w /\
       exists message, announcements w' = announcements w ++ [message] /\
                       errorContainer w' = Some (mkContainer message true)).
Proof.
  intros H.
  destruct (H (filled four_steps) network_error _
              (advance (handleSubmit true network_error (filled four_steps)))
              eq_refl eq_refl) as [Hfd _].
  - vm_compute. reflexivity.
  - vm_compute in Hfd. discriminate.
Qed.

Lemma forallb_removelast {A} (f : A -> bool) l :
  forallb f l = true -> forallb f (removelast l) = true.
Proof.
  induction l as [|a [|b l] IH]; [done|done|].
  intros H. apply andb_true_iff in H as [Ha Hl].
  change (removelast (a :: b :: l)) with (a :: removelast (b :: l)).
  cbn [forallb]. rewrite Ha. by apply IH.
Qed.

Lemma draftRecord_json answer today now newId w :
  json_value (formData w) = true -> safe_integer (currentStep w) = true ->
  json_value (draftRecord answer today now newId w) = true.
Proof.
  intros Hf Hs. unfold draftRecord. rewrite json_value_obj.
  cbn [map fst members_json json_value]. rewrite Hf, Hs.
  vm_compute. reflexivity.
Qed.

Lemma draftsAfter_json d l :
  json_value d = true -> json_value (VArr l) = true ->
  json_value (VArr (draftsAfter d l)) = true.
Proof.
  intros Hd Hl. cbn [json_value] in *. unfold draftsAfter.
  assert (H : forallb json_value (d :: l) = true) by (cbn [forallb]; by rewrite Hd).
  destruct (_ <? _)%nat; [by apply forallb_removelast|done].
Qed.

Lemma draftsAfter_length d l :
  (length l <= maxDrafts)%nat -> (length (draftsAfter d l) <= maxDrafts)%nat.
Proof.
  intros H. unfold draftsAfter.
  destruct (Nat.ltb_spec maxDrafts (length (d :: l))) as [Hlt|Hge].
  - rewrite removelast_firstn_len, length_firstn. cbn [length] in *. lia.
  - done.
Qed.

Lemma draftsAfter_take d l :
  (length l <= maxDrafts)%nat -> draftsAfter d l = take maxDrafts (d :: l).
Proof.
  intros H. unfold draftsAfter.
  destruct (Nat.ltb_spec maxDrafts (length (d :: l))) as [Hlt|Hge].
  - rewrite removelast_firstn_len. f_equal. cbn [length] in *. lia.
  - by rewrite take_ge.
Qed.

Lemma draftsAfter_full d l :
  length l = maxDrafts -> draftsAfter d l = d :: removelast l.
Proof.
  intros H. unfold draftsAfter. cbn [length]. rewrite H.
  destruct l as [|a l]; [done|]. reflexivity.
Qed.

Lemma set_storage_same w : set_storage (storage w) w = w.
Proof. by destruct w. Qed.

Lemma showFormSuccess_storage m w : storage (showFormSuccess m w) = storage w.
Proof. unfold showFormSuccess. by destruct (successContainer w). Qed.

Lemma saveDraft_stored answer today now newId w l :
  storedDrafts w l ->
  json_value (VArr l) = true ->
  json_value (formData w) = true ->
  safe_integer (currentStep w) = true ->
  let drafts := draftsAfter (draftRecord answer today now newId w) l in
  lands false draftsKey (stringify (VArr drafts)) (storage w) ->
  storedDrafts (saveDraft answer today now newId w) drafts.
Proof.
  intros (stored & Hg & Hor) Hl Hf Hs drafts Hlands.
  assert (Hj : json_value (VArr drafts) = true).
  { apply draftsAfter_json; [by apply draftRecord_json|done]. }
  unfold saveDraft. fold (draftRecord answer today now newId w).
  unfold Storage_get in *.
  pose proof (get_state draftsKey false (storage w)) as Hst.
  destruct (get draftsKey false (storage w)) as [r st]. cbn in Hg, Hst.
  subst r st. rewrite set_storage_same, Hor.
  fold (draftsAfter (draftRecord answer today now newId w) l). fold drafts.
  destruct (set_get_lands false (storage w) draftsKey (VArr drafts)
              (stringify (VArr drafts))) as (st' & Hset & Hget); [done|done|done|].
  unfold Storage_set. rewrite Hset.
  exists (VArr drafts). split; [|done].
  rewrite safeParse_stringify in Hget by done.
  unfold Storage_get. rewrite showFormSuccess_storage.
  change (storage (set_storage st' w)) with st'. by rewrite Hget.
Qed.

Lemma showFormError_formData m w : formData (showFormError m w) = formData w.
Proof. unfold showFormError. by destruct (errorContainer w). Qed.

Lemma showFormSuccess_formData m w : formData (showFormSuccess m w) = formData w.
Proof. unfold showFormSuccess. by destruct (successContainer w). Qed.

Lemma saveDraft_formData a t n i w : formData (saveDraft a t n i w) = formData w.
Proof.
  unfold saveDraft, Storage_get, Storage_set.
  destruct (get draftsKey false (storage w)) as [[stored|e] st];
    [|by rewrite showFormError_formData].
  destruct (or_else stored (VArr [])); try by rewrite showFormError_formData.
  destruct (set _ _ _ _) as [[b|e] st2];
    by rewrite ?showFormError_formData, ?showFormSuccess_formData.
Qed.

(** C8.  Saving a draft leaves a stored list that does not exceed the
    cap of five: the new draft is first, followed by the drafts that were
    stored, and when five were stored the last (oldest) of them is left
    out.  The premises say that the stored list and the aggregate are
    values that JSON represents and that the write lands where
    [Storage.get] reads. *)
Theorem draft_list_cap answer today now newId w l :
  storedDrafts w l ->
  (length l <= maxDrafts)%nat ->
  json_value (VArr l) = true ->
  json_value (formData w) = true ->
  safe_integer (currentStep w) = true ->
  let draft := draftRecord answer today now newId w in
  lands false draftsKey (stringify (VArr (draftsAfter draft l))) (storage w) ->
  exists l',
    storedDrafts (saveDraft answer today now newId w) l' /\
    (length l' <= maxDrafts)%nat /\
    l' = take maxDrafts (draft :: l) /\
    (length l < maxDrafts -> l' = draft :: l)%nat /\
    (length l = maxDrafts -> l' = draft :: removelast l).
Proof.
  intros Hst Hlen Hl Hf Hs draft Hlands.
  exists (draftsAfter draft l).
  split; [by apply saveDraft_stored|].
  split; [by apply draftsAfter_length|].
  split; [by apply draftsAfter_take|].
  split; [|by apply draftsAfter_full].
  intros Hlt. rewrite draftsAfter_take by done. apply take_ge. cbn [length]. lia.
Qed.

Lemma draft_list_cap_witness :
  exists l',
    storedDrafts
      (saveDraft (Some (js "draft")) (js "1/1/2025")
                 (js "2025-01-01T00:00:00.000Z") (js "draft_6") five_saved) l' /\
    length l' = 5%nat /\
    l' = draftRecord (Some (js "draft")) (js "1/1/2025")
                     (js "2025-01-01T00:00:00.000Z") (js "draft_6") five_saved
         :: removelast five_drafts.
Proof.
  destruct (draft_list_cap (Some (js "draft")) (js "1/1/2025")
              (js "2025-01-01T00:00:00.000Z") (js "draft_6") five_saved five_drafts)
    as (l' & H1 & H2 & H3 & H4 & H5).
  - eexists. split; vm_compute; reflexivity.
  - vm_compute. lia.
  - vm_compute. reflexivity.
  - vm_compute. reflexivity.
  - vm_compute. reflexivity.
  - right. eexists. vm_compute. reflexivity.
  - exists l'. split; [exact H1|]. rewrite (H5 eq_refl). split; reflexivity.
Defined.

Lemma roomy_native_write sc k v st :
  roomy sc st ->
  native_write sc k v st
  = (LocalStorage.Ok true,
     set_window_storage sc
       (with_items (window_storage sc st) (<[k := v]> (items (window_storage sc st))))
       st).
Proof.
  intros (Ha & Hf & Hacc).
  unfold native_write, bind, getStorage. fold (available sc st). rewrite Ha.
  unfold try_catch, bind, setItem, native_setItem. by rewrite Hf, Hacc.
Qed.

Lemma dependable_lands sc k text st :
  dependable sc st -> k <> js "__proto__" -> lands sc k text st.
Proof.
  intros [Hd|Hr] Hk; [by left|]. right. eexists. by apply roomy_native_write.
Qed.

Lemma dependable_set sc k v st :
  dependable sc st -> dependable sc (snd (set k v sc st)).
Proof.
  intros [Hd|Hr].
  - left. rewrite (down_set sc st Hd).
    destruct k as [|c k]; [done|]. destruct (safeStringify v); [|done].
    by apply down_set_memory.
  - unfold set. destruct (invalid_key k); [by right|].
    destruct (safeStringify v) as [text|]; [|by right].
    unfold bind. rewrite roomy_native_write by done. right.
    destruct Hr as (Ha & Hf & Hacc). unfold roomy, ret. cbn [snd].
    by rewrite available_set_window_storage, window_storage_set.
Qed.

Lemma showFormError_storage m w : storage (showFormError m w) = storage w.
Proof. unfold showFormError. by destruct (errorContainer w). Qed.

Lemma saveDraft_dependable a t n i w :
  dependable false (storage w) -> dependable false (storage (saveDraft a t n i w)).
Proof.
  intros Hd. unfold saveDraft, Storage_get.
  pose proof (get_state draftsKey false (storage w)) as Hst.
  destruct (get draftsKey false (storage w)) as [[stored|e] st]; cbn in Hst; subst st;
    rewrite set_storage_same; [|by rewrite showFormError_storage].
  destruct (or_else stored (VArr [])); try by rewrite showFormError_storage.
  unfold Storage_set.
  match goal with
  | |- context [set ?k ?v false (storage w)] =>
      pose proof (dependable_set false k v (storage w) Hd) as Hs;
      destruct (set k v false (storage w)) as [[b|e] st2]
  end; by rewrite ?showFormError_storage, ?showFormSuccess_storage.
Qed.

Lemma take_app_take {A} n (a b : list A) : take n (a ++ take n b) = take n (a ++ b).
Proof.
  rewrite !take_app, take_take. do 2 f_equal. lia.
Qed.

Lemma draftRecords_same ds w w' :
  formData w' = formData w -> currentStep w' = currentStep w ->
  draftRecords ds w' = draftRecords ds w.
Proof.
  intros Hf Hc. unfold draftRecords. apply map_ext. intros [[[a t] n] i].
  unfold draftRecord. by rewrite Hf, Hc.
Qed.

(** Saving any number of drafts one after the other, on a store that
    takes every write or is out of use altogether, leaves the five most
    recent ones, newest first. *)
Corollary saveDrafts_stored ds : forall w l,
  dependable false (storage w) ->
  storedDrafts w l ->
  (length l <= maxDrafts)%nat ->
  json_value (VArr l) = true ->
  json_value (formData w) = true ->
  safe_integer (currentStep w) = true ->
  storedDrafts (saveDrafts ds w) (take maxDrafts (rev (draftRecords ds w) ++ l)).
Proof.
  induction ds as [|[[[a t] n] i] ds IH]; intros w l Hd Hst Hlen Hl Hf Hs.
  - cbn [saveDrafts draftRecords map rev app]. by rewrite take_ge.
  - cbn [saveDrafts].
    set (d := draftRecord a t n i w).
    assert (Hnew : storedDrafts (saveDraft a t n i w) (draftsAfter d l)).
    { apply saveDraft_stored; try done. by apply dependable_lands. }
    destruct (saveDraft_step a t n i w) as [Hc _].
    pose proof (saveDraft_formData a t n i w) as Hfd.
    specialize (IH (saveDraft a t n i w) (draftsAfter d l)
                   (saveDraft_dependable a t n i w Hd) Hnew
                   (draftsAfter_length d l Hlen)).
    rewrite Hfd, Hc in IH.
    specialize (IH (draftsAfter_json d l (draftRecord_json a t n i w Hf Hs) Hl) Hf Hs).
    rewrite (draftRecords_same ds w _ Hfd Hc) in IH.
    rewrite draftsAfter_take, take_app_take in IH by done.
    unfold draftRecords in *. cbn [map rev]. fold d.
    by rewrite <- app_assoc.
Qed.

Section StepIndex.
Variable restoreFields : value -> list (list field) -> option (list (list field)).
Variable lessThan : value -> Z -> option bool.
Variable greaterThan : value -> Z -> option bool.
Local Abbreviation loadDraft' := (loadDraft restoreFields lessThan greaterThan).
Local Abbreviation handle' := (handle restoreFields lessThan greaterThan).
Local Abbreviation reachable' := (reachable restoreFields lessThan greaterThan).

End StepIndex.



(** What that step is, and what the page has when it is written. *)
Example stored_text_step :
  exists w',
    loadDraft keep nan_compare nan_compare (js "draft_7") (initMultiStepForm texted_page)
    = Stray (VStr (js "abc")) w' /\
    formData w' = VObj [(js "nominee", VStr (js "Ada"))] /\
    totalSteps w' = 4.
Proof.
  eexists. split; [vm_compute; reflexivity|]. split; reflexivity.
Qed.

End FormFacts.

(** ** The submission endpoint *)

Module EndpointFacts.
Import JS JSONFacts SubmitNomination.

Lemma checked_below (f : Z -> bool) (a n : Z) :
  forallb f (seqZ a n) = true -> forall z, a <= z < a + n -> f z = true.
Proof.
  intros H z Hz. rewrite forallb_forall in H.
  apply H, list_elem_of_In, elem_of_seqZ. exact Hz.
Qed.

Lemma suffix_four_digits z :
  0 <= z < 10000 -> four_digits (padStart0 4 (Z_toString z)) = true.
Proof.
  apply (checked_below (fun z => four_digits (padStart0 4 (Z_toString z))) 0 10000).
  vm_compute. reflexivity.
Qed.

Lemma year_four_digits z :
  1000 <= z <= 9999 -> four_digits (Z_toString z) = true.
Proof.
  intros H.
  apply (checked_below (fun z => four_digits (Z_toString z)) 1000 9000);
    [vm_compute; reflexivity|lia].
Qed.

Lemma month_two_digits z :
  0 <= z <= 11 -> two_digits (padStart0 2 (Z_toString (z + 1))) = true.
Proof.
  intros H.
  apply (checked_below (fun z => two_digits (padStart0 2 (Z_toString (z + 1)))) 0 12);
    [vm_compute; reflexivity|lia].
Qed.

Lemma Qfloor_range q : (0 <= q)%Q -> (q < 10000)%Q -> 0 <= Qfloor q < 10000.
Proof.
  intros H0 H1. split.
  - change 0 with (Qfloor 0). by apply Qfloor_resp_le.
  - rewrite Zlt_Qlt. eapply Qle_lt_trans; [apply Qfloor_le|]. exact H1.
Qed.

Lemma four_digits_inv t :
  four_digits t = true ->
  exists a b c d, t = [a; b; c; d] /\ forallb is_digit [a; b; c; d] = true.
Proof.
  unfold four_digits. intros H. apply andb_true_iff in H as [Hl Hd].
  apply Nat.eqb_eq in Hl.
  destruct t as [|a [|b [|c [|d [|x t]]]]]; try discriminate.
  by exists a, b, c, d.
Qed.

Lemma two_digits_inv t :
  two_digits t = true ->
  exists a b, t = [a; b] /\ forallb is_digit [a; b] = true.
Proof.
  unfold two_digits. intros H. apply andb_true_iff in H as [Hl Hd].
  apply Nat.eqb_eq in Hl.
  destruct t as [|a [|b [|x t]]]; try discriminate.
  by exists a, b.
Qed.

Section HandlerFacts.
Variable SyntaxError_message : jsstring -> jsstring.
Variable TypeError_message : jsstring.
Local Abbreviation handler := (handler SyntaxError_message TypeError_message).

Lemma reference_shape s :
  1000 <= fullYear s <= 9999 -> 0 <= month s <= 11 ->
  (0 <= scaled s)%Q -> (scaled s < 10000)%Q ->
  is_reference (reference s) = true.
Proof.
  intros Hy Hm H0 H1. unfold reference.
  destruct (four_digits_inv _ (year_four_digits _ Hy)) as (y1 & y2 & y3 & y4 & -> & Hyd).
  destruct (two_digits_inv _ (month_two_digits _ Hm)) as (m1 & m2 & -> & Hmd).
  destruct (four_digits_inv _ (suffix_four_digits _ (Qfloor_range _ H0 H1)))
    as (n1 & n2 & n3 & n4 & -> & Hnd).
  change (js "RARE-") with [82; 65; 82; 69; 45]%N.
  change (js "-") with [45%N].
  cbn [app is_reference]. cbn [forallb] in *.
  repeat match goal with
         | H : _ && _ = true |- _ => apply andb_true_iff in H as [? H]
         end.
  by repeat match goal with
            | H : is_digit _ = true |- _ => rewrite H; clear H
            end.
Qed.

(** C9 (amended).  For a method other than POST the handler answers 405
    with the method-not-allowed body.  For POST it answers 200 with
    [success: true] and the reference code unless the [try] block
    raises, which it does when the event has no headers or when the
    content type names JSON and the body is not JSON text; it then
    answers 400 with [success: false] and the message of the error.
    For a four-digit year the reference code is [RARE-], six digits, a
    hyphen and four digits. *)
Theorem handler_response e s :
  (httpMethod e <> js "POST" ->
   handler e s
   = mkResponse 405 (stringify (VObj [(js "error", VStr (js "Method Not Allowed"))]))) /\
  (httpMethod e = js "POST" -> raises e = false ->
   handler e s
   = mkResponse 200 (stringify (VObj [(js "success", VBool true);
                                      (js "referenceNumber", VStr (reference s))]))) /\
  (httpMethod e = js "POST" -> raises e = true ->
   exists message,
     handler e s
     = mkResponse 400 (stringify (VObj [(js "success", VBool false);
                                        (js "error", VStr message)]))) /\
  (1000 <= fullYear s <= 9999 -> 0 <= month s <= 11 ->
   (0 <= scaled s)%Q -> (scaled s < 10000)%Q ->
   is_reference (reference s) = true).
Proof.
  split; [|split; [|split]].
  - intros H. apply str_eqb_neq in H. unfold SubmitNomination.handler. by rewrite H.
  - intros H Hr. apply str_eqb_eq in H. unfold SubmitNomination.handler, raises in *.
    rewrite H. cbn [negb]. destruct (headers e) as [hs|]; [|done].
    fold (payload_text e). by rewrite Hr.
  - intros H Hr. apply str_eqb_eq in H. unfold SubmitNomination.handler, raises in *.
    rewrite H. cbn [negb]. destruct (headers e) as [hs|].
    + fold (payload_text e). rewrite Hr. by eexists.
    + by eexists.
  - apply reference_shape.
Qed.

End HandlerFacts.

Lemma handler_response_witness :
  handler engine_message engine_TypeError urlencoded january
  = mkResponse 200 (stringify (VObj [(js "success", VBool true);
                                     (js "referenceNumber",
                                      VStr (js "RARE-202501-0042"))])) /\
  is_reference (reference january) = true.
Proof.
  destruct (handler_response engine_message engine_TypeError urlencoded january)
    as (_ & H200 & _ & Hshape).
  split.
  - rewrite H200; reflexivity.
  - apply Hshape; vm_compute; done.
Defined.

(** A POST with a JSON content type and the body [{] is answered with
    400. *)
Lemma handler_rejects_truncated_json :
  httpMethod truncated = js "POST" /\
  handler engine_message engine_TypeError truncated january
  = mkResponse 400
      (stringify (VObj [(js "success", VBool false);
                        (js "error", VStr (js "Unexpected end of JSON input"))])).
Proof. split; vm_compute; reflexivity. Qed.

(** A POST without headers is answered with 400. *)
Lemma handler_rejects_missing_headers :
  handler engine_message engine_TypeError (mkEvent (js "POST") None None) january
  = mkResponse 400
      (stringify (VObj [(js "success", VBool false);
                        (js "error", VStr engine_TypeError)])).
Proof. vm_compute. reflexivity. Qed.

End EndpointFacts.

(* ================================================================== *)
(** * Property order under assignment *)
(* ================================================================== *)

Module ObjectFacts.
Import JS JSONFacts.

Lemma array_index_inj k k' n :
  array_index k = Some n -> array_index k' = Some n -> k = k'.
Proof.
  unfold array_index. intros H H'.
  destruct k as [|c k]; [done|]. destruct k' as [|c' k']; [done|].
  destruct (units_value (c :: k) 0) as [m|]; [|done].
  destruct (units_value (c' :: k') 0) as [m'|]; [|done].
  destruct (str_eqb (N_toString m) (c :: k) && (m <? 4294967295)%N) eqn:E; [|done].
  destruct (str_eqb (N_toString m') (c' :: k') && (m' <? 4294967295)%N) eqn:E'; [|done].
  injection H as ->. injection H' as ->.
  apply andb_true_iff in E as [E _]. apply andb_true_iff in E' as [E' _].
  apply str_eqb_eq in E, E'. congruence.
Qed.

Lemma existsb_same {A} (f : A -> bool) l1 l2 :
  (forall x, In x l1 <-> In x l2) -> existsb f l1 = existsb f l2.
Proof.
  intros H. apply eq_iff_eq_true. rewrite !existsb_exists.
  split; intros (x & Hx & Hf); exists x; (split; [by apply H|done]).
Qed.

Lemma forallb_same {A} (f : A -> bool) l1 l2 :
  (forall x, In x l1 <-> In x l2) -> forallb f l1 = forallb f l2.
Proof.
  intros H. apply eq_iff_eq_true. rewrite !forallb_forall.
  split; intros Hf x Hx; by apply Hf, H.
Qed.

Lemma appendable_same s1 s2 k :
  (forall x, In x s1 <-> In x s2) -> appendable s1 k = appendable s2 k.
Proof.
  intros H. unfold appendable. rewrite (existsb_same _ s1 s2 H).
  destruct (array_index k); [|done]. by rewrite (forallb_same _ s1 s2 H).
Qed.

Lemma keys_ordered_same ks : forall s1 s2,
  (forall x, In x s1 <-> In x s2) -> keys_ordered s1 ks = keys_ordered s2 ks.
Proof.
  induction ks as [|k ks IH]; intros s1 s2 H; cbn [keys_ordered]; [done|].
  rewrite (appendable_same s1 s2 k H). f_equal. apply IH.
  intros x. rewrite !in_app_iff. by rewrite H.
Qed.

Lemma appendable_index seen k n :
  array_index k = Some n ->
  appendable seen k
  = negb (existsb (fun k' => str_eqb k' k) seen) && forallb (below n) seen.
Proof. unfold appendable, below. by intros ->. Qed.

Lemma appendable_other seen k :
  array_index k = None ->
  appendable seen k = negb (existsb (fun k' => str_eqb k' k) seen).
Proof. unfold appendable. intros ->. apply andb_true_r. Qed.

Lemma absent_In k l :
  existsb (fun k' => str_eqb k' k) l = false <-> ~ In k l.
Proof.
  split.
  - intros H Hin. apply not_true_iff_false in H. apply H.
    apply existsb_exists. exists k. split; [done|]. by apply str_eqb_eq.
  - intros H. apply not_true_iff_false. intros He.
    apply existsb_exists in He as (x & Hx & Hk). apply str_eqb_eq in Hk. by subst.
Qed.

Lemma keys_ordered_above ks : forall seen k0 n,
  keys_ordered seen ks = true -> In k0 seen -> above n k0 = true ->
  forallb (above n) ks = true.
Proof.
  induction ks as [|k ks IH]; intros seen k0 n; cbn [keys_ordered forallb]; [done|].
  intros H Hin Hk0. apply andb_true_iff in H as [Ha Hr].
  apply andb_true_iff. split.
  - unfold above. destruct (array_index k) as [m|] eqn:Em; [|done].
    rewrite (appendable_index _ _ _ Em) in Ha. apply andb_true_iff in Ha as [_ Ha].
    rewrite forallb_forall in Ha. specialize (Ha k0 Hin).
    unfold below in Ha. unfold above in Hk0.
    destruct (array_index k0) as [m0|]; [|done].
    apply N.ltb_lt in Ha, Hk0. apply N.ltb_lt. lia.
  - apply (IH (seen ++ [k]) k0 n); [done| |done]. apply in_app_iff. by left.
Qed.

(** A new array index can be put behind the keys seen so far when the
    keys still to come follow it. *)
Lemma keys_ordered_insert k n ks : forall seen,
  array_index k = Some n ->
  ~ In k ks ->
  keys_ordered seen ks = true ->
  forallb (above n) ks = true ->
  keys_ordered (seen ++ [k]) ks = true.
Proof.
  induction ks as [|k1 ks IH]; intros seen Hk Hnew Ho Hab; [done|].
  cbn [keys_ordered forallb] in *.
  apply andb_true_iff in Ho as [Ha Hr]. apply andb_true_iff in Hab as [Hab1 Hab].
  assert (Hne : k1 <> k) by (intros ->; apply Hnew; by left).
  apply andb_true_iff. split.
  - unfold above in Hab1.
    destruct (array_index k1) as [m|] eqn:Em.
    + rewrite (appendable_index (seen ++ [k]) _ _ Em).
      rewrite (appendable_index seen _ _ Em) in Ha.
      apply andb_true_iff in Ha as [Ha1 Ha2].
      rewrite existsb_app, forallb_app, Ha2. cbn.
      apply negb_true_iff in Ha1. rewrite Ha1. cbn.
      assert (str_eqb k k1 = false) as -> by (apply str_eqb_neq; congruence).
      cbn. unfold below. rewrite Hk. by rewrite Hab1.
    + rewrite (appendable_other (seen ++ [k]) _ Em).
      rewrite (appendable_other seen _ Em) in Ha.
      rewrite existsb_app. cbn.
      apply negb_true_iff in Ha. rewrite Ha. cbn.
      by assert (str_eqb k k1 = false) as -> by (apply str_eqb_neq; congruence).
  - rewrite (keys_ordered_same ks ((seen ++ [k]) ++ [k1]) ((seen ++ [k1]) ++ [k])).
    + apply IH; try done. intros H. apply Hnew. by right.
    + intros x. rewrite !in_app_iff. cbn. tauto.
Qed.

Lemma keys_ordered_snoc k ks : forall seen,
  array_index k = None -> ~ In k (seen ++ ks) ->
  keys_ordered seen ks = true -> keys_ordered seen (ks ++ [k]) = true.
Proof.
  induction ks as [|k1 ks IH]; intros seen Hk Hnew Ho; cbn [app keys_ordered] in *.
  - rewrite (appendable_other _ _ Hk). rewrite andb_true_r.
    apply negb_true_iff, absent_In. by rewrite app_nil_r in Hnew.
  - apply andb_true_iff in Ho as [Ha Hr]. rewrite Ha. cbn.
    apply IH; [done| |done]. intros H. apply Hnew.
    rewrite <- app_assoc in H. exact H.
Qed.

Lemma obj_replace_keys {A} (o : list (jsstring * A)) k v :
  map fst (obj_replace o k v) = map fst o.
Proof.
  induction o as [|[k' v'] o IH]; [done|]. cbn.
  destruct (str_eqb k' k); cbn; [done|]. by rewrite IH.
Qed.

Lemma obj_insert_index_ordered {A} (o : list (jsstring * A)) n k v : forall seen,
  array_index k = Some n ->
  ~ In k (seen ++ map fst o) ->
  forallb (below n) seen = true ->
  keys_ordered seen (map fst o) = true ->
  keys_ordered seen (map fst (obj_insert_index o n k v)) = true.
Proof.
  induction o as [|[k' v'] o IH]; intros seen Hk Hnew Hbel Ho.
  - cbn. rewrite andb_true_r, (appendable_index _ _ _ Hk), Hbel, andb_true_r.
    apply negb_true_iff, absent_In. by rewrite app_nil_r in Hnew.
  - cbn [map fst keys_ordered obj_insert_index] in *.
    apply andb_true_iff in Ho as [Ha Hr].
    assert (Hk1 : appendable seen k = true).
    { rewrite (appendable_index _ _ _ Hk), Hbel, andb_true_r.
      apply negb_true_iff, absent_In. intros H. apply Hnew. apply in_app_iff. by left. }
    assert (Hnot : ~ In k (k' :: map fst o)).
    { intros H. apply Hnew. apply in_app_iff. by right. }
    assert (Hins : above n k' = true ->
                   keys_ordered seen (k :: k' :: map fst o) = true).
    { intros Hab. cbn [keys_ordered]. rewrite Hk1. cbn.
      apply (keys_ordered_insert k n (k' :: map fst o) seen Hk Hnot).
      - cbn [keys_ordered]. by rewrite Ha.
      - cbn [forallb]. rewrite Hab. cbn.
        apply (keys_ordered_above _ (seen ++ [k']) k' n Hr); [|done].
        apply in_app_iff. right. by left. }
    destruct (array_index k') as [m|] eqn:Em.
    + destruct (N.ltb_spec m n) as [Hlt|Hge].
      * cbn [map fst keys_ordered]. rewrite Ha. cbn.
        apply IH; [done| | |done].
        -- intros H. apply Hnew. rewrite <- app_assoc in H. exact H.
        -- rewrite forallb_app, Hbel. cbn. unfold below. rewrite Em.
           rewrite andb_true_r. by apply N.ltb_lt.
      * apply Hins. unfold above. rewrite Em. apply N.ltb_lt.
        assert (m <> n); [|lia]. intros ->.
        apply Hnot. left. by apply (array_index_inj k' k n).
    + apply Hins. unfold above. by rewrite Em.
Qed.

(** [o[k] = v] keeps the keys in property order. *)
Lemma obj_set_ordered {A} (o : list (jsstring * A)) k v :
  keys_ordered [] (map fst o) = true ->
  keys_ordered [] (map fst (obj_set o k v)) = true.
Proof.
  intros Ho. unfold obj_set. destruct (obj_has o k) eqn:Hh.
  - by rewrite obj_replace_keys.
  - assert (Hnew : ~ In k (map fst o)).
    { rewrite obj_has_keys in Hh. by apply absent_In. }
    destruct (array_index k) as [n|] eqn:Ek.
    + by apply obj_insert_index_ordered.
    + rewrite map_app. by apply keys_ordered_snoc.
Qed.

Lemma obj_set_values {A} (P : A -> Prop) (o : list (jsstring * A)) k v :
  P v -> Forall (fun kv => P (snd kv)) o ->
  Forall (fun kv => P (snd kv)) (obj_set o k v).
Proof.
  intros Hv Ho. unfold obj_set. destruct (obj_has o k).
  - induction o as [|[k' v'] o IH]; [done|]. cbn.
    inversion Ho; subst. destruct (str_eqb k' k); constructor; auto.
  - destruct (array_index k) as [n|].
    + induction o as [|[k' v'] o IH]; cbn; [by constructor|].
      inversion Ho; subst.
      destruct (array_index k') as [m|]; [destruct (m <? n)%N|];
        repeat constructor; auto.
    + apply Forall_app. split; [done|]. by constructor.
Qed.

Lemma members_json_Forall ms :
  members_json ms = true <-> Forall (fun kv => json_value (snd kv) = true) ms.
Proof.
  induction ms as [|[k v] ms IH]; cbn [members_json].
  - split; [by constructor|done].
  - rewrite andb_true_iff, IH. split.
    + intros [H1 H2]. by constructor.
    + intros H. by inversion H.
Qed.

(** [o[k] = v] on an object that JSON represents. *)
Lemma obj_set_json o k v :
  json_value (VObj o) = true -> json_value v = true ->
  json_value (VObj (obj_set o k v)) = true.
Proof.
  rewrite !json_value_obj. intros Ho Hv.
  apply andb_true_iff in Ho as [H1 H2]. apply andb_true_iff. split.
  - by apply obj_set_ordered.
  - apply members_json_Forall. apply (obj_set_values (fun v => json_value v = true)); [done|].
    by apply members_json_Forall.
Qed.

End ObjectFacts.

(* ================================================================== *)
(** * The storage adapter: other keys, reads, removal and the probe *)
(* ================================================================== *)

Module StorageScopeFacts.
Import JS LocalStorage JSONFacts StorageFacts.

Lemma get_native sc k st :
  k <> [] -> available sc st = true -> failing (window_storage sc st) = None ->
  get k sc st = (Ok (native_answer (window_storage sc st) k), st).
Proof.
  intros Hk Ha Hf. unfold get. destruct k as [|c k]; [done|]. cbn [invalid_key].
  unfold bind, getStorage. fold (available sc st). rewrite Ha.
  unfold try_catch, bind, getItem, native_getItem, native_answer. rewrite Hf.
  by destruct (items _ !! _).
Qed.

Lemma removeItem_items sc k st r st' k0 :
  removeItem sc k st = (r, st') -> k0 <> k -> same_item sc k0 st st'.
Proof.
  unfold removeItem, native_removeItem, same_item.
  destruct (failing (window_storage sc st)); intros [= <- <-] Hne; [done|].
  rewrite window_storage_set. cbn. by apply lookup_delete_ne.
Qed.

Lemma setItem_items sc k v st r st' k0 :
  setItem sc k v st = (r, st') -> k0 <> k -> same_item sc k0 st st'.
Proof.
  unfold setItem, native_setItem, same_item.
  destruct (failing (window_storage sc st)); [by intros [= <- <-]|].
  destruct (accepts _ _ _ _); intros [= <- <-] Hne; [|done].
  rewrite window_storage_set. cbn. by apply lookup_insert_ne.
Qed.

Lemma same_item_trans sc k a b c :
  same_item sc k a b -> same_item sc k b c -> same_item sc k a c.
Proof. unfold same_item. congruence. Qed.

Lemma evictable_prefix k :
  existsb (fun prefix => startsWith k prefix) keysToCheck = true -> evictable k = true.
Proof. unfold evictable. by intros ->. Qed.

Lemma evictable_timestamp k :
  includes k (js "_timestamp_") = true -> evictable k = true.
Proof. unfold evictable. intros ->. apply orb_true_r. Qed.

(** The first loop removes keys with one of the prefixes only; until it
    has stored the new value it writes nothing. *)
Lemma evict_prefixed_items i sc k v k0 : forall st r st',
  evict_prefixed i sc k v st = (r, st') ->
  evictable k0 = false ->
  (k0 <> k \/ r <> Ok true) -> same_item sc k0 st st'.
Proof.
  induction i as [|j IH]; intros st r st'; cbn [evict_prefixed].
  - by intros [= <- <-].
  - unfold bind at 1.
    destruct (storage_key sc j st) as [[key|e] st1] eqn:Ek;
      apply storage_key_state in Ek as ->; [|by intros [= <- <-]].
    destruct key as [key|]; [|apply IH].
    destruct (_ && _) eqn:Hp; [|apply IH].
    apply andb_true_iff in Hp as [_ Hp]. apply evictable_prefix in Hp.
    unfold bind at 1.
    destruct (removeItem sc key st) as [[[]|e] st1] eqn:Er.
    2:{ intros [= <- <-] Hk0 _. eapply removeItem_items; [exact Er|].
        intros ->. congruence. }
    unfold bind at 1. unfold try_catch at 1. unfold bind at 1.
    destruct (setItem sc k v st1) as [[[]|e] st2] eqn:Es; cbn [ret].
    + intros [= <- <-] Hk0 [Hne|Hr]; [|done].
      eapply same_item_trans.
      * eapply removeItem_items; [exact Er|]. intros ->. congruence.
      * eapply setItem_items; [exact Es|done].
    + intros Hrec Hk0 Hor.
      apply setItem_throw in Es as ->.
      eapply same_item_trans.
      * eapply removeItem_items; [exact Er|]. intros ->. congruence.
      * by eapply IH.
Qed.

Lemma timestamped_keys f : forall i sc acc st r st',
  timestamped f i sc acc st = (Ok r, st') ->
  Forall (fun k => evictable k = true) acc ->
  Forall (fun k => evictable k = true) r.
Proof.
  induction f as [|f IH]; intros i sc acc st r st'; cbn [timestamped].
  - by intros [= <- <-].
  - unfold bind at 1. cbn [storage_length].
    destruct (native_length (window_storage sc st)) as [len|e]; [|done].
    destruct (i <? len)%nat; [|by intros [= <- <-]].
    unfold bind at 1. cbn [storage_key].
    destruct (native_key (window_storage sc st) i) as [[key|]|e]; [| apply IH | done].
    destruct (_ && _) eqn:Hp; [|apply IH].
    intros H Hacc. eapply IH; [exact H|].
    apply Forall_app. split; [done|]. constructor; [|done].
    apply andb_true_iff in Hp as [_ Hp]. by apply evictable_timestamp.
Qed.

Lemma removeAll_items sc k0 ks : forall st r st',
  removeAll sc ks st = (r, st') ->
  Forall (fun k => evictable k = true) ks -> evictable k0 = false ->
  same_item sc k0 st st'.
Proof.
  induction ks as [|k ks IH]; intros st r st'; cbn [removeAll].
  - by intros [= <- <-].
  - unfold bind. intros H Hall Hk0. inversion Hall as [|? ? Hk Hks]; subst.
    destruct (removeItem sc k st) as [[[]|e] st1] eqn:Er.
    + eapply same_item_trans.
      * eapply removeItem_items; [exact Er|]. intros ->. congruence.
      * by eapply IH.
    + injection H as <- <-.
      eapply removeItem_items; [exact Er|]. intros ->. congruence.
Qed.

Lemma handleQuotaExceeded_items sc k v k0 st r st' :
  handleQuotaExceeded sc k v st = (r, st') ->
  evictable k0 = false ->
  (k0 <> k \/ r <> Ok tt) -> same_item sc k0 st st'.
Proof.
  unfold handleQuotaExceeded. unfold bind at 1.
  destruct (storage_length sc st) as [[len|e] st1] eqn:El;
    apply storage_length_state in El as ->; [|by intros [= <- <-]].
  unfold bind at 1.
  destruct (evict_prefixed len sc k v st) as [[b|e] st1] eqn:Ee.
  2:{ intros [= <- <-] Hk0 _. eapply evict_prefixed_items; [exact Ee|done|by right]. }
  destruct b.
  { intros [= <- <-] Hk0 [Hne|Hr]; [|done].
    eapply evict_prefixed_items; [exact Ee|done|by left]. }
  intros H Hk0 Hor.
  eapply same_item_trans.
  { eapply evict_prefixed_items; [exact Ee|done|by right]. }
  revert H. unfold bind at 1. unfold key_count at 1.
  unfold bind at 1.
  destruct (timestamped _ 0 sc [] st1) as [[ts|e] st2] eqn:Et.
  2:{ apply timestamped_state in Et as ->. by intros [= <- <-]. }
  pose proof (timestamped_keys _ _ _ _ _ _ _ Et (Forall_nil_2 _)) as Hts.
  apply timestamped_state in Et as ->.
  destruct (0 <? length ts)%nat; [|by intros [= <- <-]].
  unfold bind.
  destruct (removeAll sc _ st1) as [[[]|e] st2] eqn:Era.
  - intros Hs.
    eapply same_item_trans.
    + eapply removeAll_items; [exact Era| |done].
      by apply Forall_take.
    + destruct (setItem sc k v st2) as [[[]|e] st3] eqn:Es.
      * injection Hs as <- <-. destruct Hor as [Hne|Hr]; [|done].
        eapply setItem_items; [exact Es|done].
      * injection Hs as <- <-. apply setItem_throw in Es as ->. done.
  - intros [= <- <-].
    eapply removeAll_items; [exact Era| |done].
    by apply Forall_take.
Qed.

Lemma native_write_items sc k v k0 st r st' :
  native_write sc k v st = (r, st') ->
  evictable k0 = false ->
  (k0 <> k \/ r <> Ok true) -> same_item sc k0 st st'.
Proof.
  unfold native_write, bind, getStorage.
  match goal with |- context [if ?c then _ else _] => destruct c end;
    [|by intros [= <- <-]].
  unfold try_catch at 1.
  destruct (setItem sc k v st) as [[[]|e] st1] eqn:Es.
  - intros [= <- <-] Hk0 [Hne|Hr]; [|done]. eapply setItem_items; [exact Es|done].
  - apply setItem_throw in Es as ->.
    destruct (is_quota_error e); [|by intros [= <- <-]].
    unfold try_catch.
    destruct (handleQuotaExceeded sc k v st) as [[[]|e'] st2] eqn:Eh.
    + intros [= <- <-] Hk0 [Hne|Hr]; [|done].
      eapply handleQuotaExceeded_items; [exact Eh|done|by left].
    + intros [= <- <-] Hk0 _.
      eapply handleQuotaExceeded_items; [exact Eh|done|by right].
Qed.

Lemma find_app_none {A} (f : A -> bool) l1 l2 :
  find f l2 = None -> find f (l1 ++ l2) = find f l1.
Proof.
  intros H. induction l1 as [|a l1 IH]; cbn; [done|]. by destruct (f a).
Qed.

Lemma obj_get_insert_index_other {A} (o : list (jsstring * A)) n k v k0 :
  k0 <> k -> obj_get (obj_insert_index o n k v) k0 = obj_get o k0.
Proof.
  intros Hne. assert (Hk : str_eqb k k0 = false) by (by apply str_eqb_neq).
  unfold obj_get. induction o as [|[k' v'] o IH]; cbn.
  - by rewrite Hk.
  - destruct (array_index k') as [m|]; [destruct (m <? n)%N|]; cbn; rewrite ?Hk; try done.
    destruct (str_eqb k' k0); [done|]. exact IH.
Qed.

Lemma obj_get_set_other {A} (o : list (jsstring * A)) k v k0 :
  k0 <> k -> obj_get (obj_set o k v) k0 = obj_get o k0.
Proof.
  intros Hne. assert (Hk : str_eqb k k0 = false) by (by apply str_eqb_neq).
  unfold obj_set. destruct (obj_has o k).
  - by rewrite ValidationFacts.obj_get_replace_other, Hk.
  - destruct (array_index k); [by apply obj_get_insert_index_other|].
    unfold obj_get. rewrite find_app_none; [done|]. cbn. by rewrite Hk.
Qed.

Lemma obj_get_delete_other {A} (o : list (jsstring * A)) k k0 :
  k0 <> k -> obj_get (obj_delete o k) k0 = obj_get o k0.
Proof.
  intros Hne. unfold obj_get, obj_delete.
  induction o as [|[k' v'] o IH]; [done|]. cbn [List.filter fst].
  destruct (str_eqb k' k) eqn:E; cbn [negb find fst].
  - apply str_eqb_eq in E as ->.
    assert (str_eqb k k0 = false) as -> by (by apply str_eqb_neq). exact IH.
  - destruct (str_eqb k' k0); [done|exact IH].
Qed.

Lemma mem_read_set_other o k text k0 :
  k0 <> k -> mem_read (mem_set o k text) k0 = mem_read o k0.
Proof.
  intros Hne. unfold mem_read, mem_set.
  destruct (str_eqb k (js "__proto__")); [done|]. by rewrite obj_get_set_other.
Qed.

(** [Storage.get] reads the flag of the scope, the native object at
    the key and the fallback object at the key, and nothing else. *)
Lemma get_congr sc k st st' :
  available sc st' = available sc st ->
  failing (window_storage sc st') = failing (window_storage sc st) ->
  same_item sc k st st' ->
  mem_read (memory sc st') k = mem_read (memory sc st) k ->
  fst (get k sc st') = fst (get k sc st).
Proof.
  intros Ha Hf Hi Hm. unfold get. destruct (invalid_key k); [done|].
  unfold bind, getStorage, try_catch, getItem, native_getItem, getMemoryStorage, ret.
  fold (available sc st) (available sc st').
  rewrite Ha. destruct (available sc st); cbv beta.
  - rewrite Hf. destruct (failing (window_storage sc st)); cbv beta iota.
    + fold (memory sc st) (memory sc st'). by rewrite Hm.
    + unfold same_item in Hi. rewrite Hi. by destruct (items _ !! k).
  - fold (memory sc st) (memory sc st'). by rewrite Hm.
Qed.

Lemma same_shell_memory sc st st' : same_shell st st' -> memory sc st' = memory sc st.
Proof. intros (?&?&?&?&?&?). by destruct sc. Qed.

Lemma set_after sc key v st text :
  key <> [] -> safeStringify v = Some text ->
  exists b st1,
    native_write sc key text st = (Ok b, st1) /\
    set key v sc st
    = (Ok true, if b then st1
                else set_memory sc (mem_set (memory sc st1) key text) st1).
Proof.
  intros Hk Hs. destruct (native_write_total sc key text st) as (b & st1 & Hw).
  exists b, st1. split; [done|].
  unfold set. destruct key as [|c key]; [done|]. cbn [invalid_key].
  rewrite Hs. unfold bind. rewrite Hw. destruct b; [done|]. by destruct sc.
Qed.

(** X1. Storage.set under one key leaves what Storage.get returns for any
    other key unchanged, whether the write succeeds, evicts items or
    falls back to memory, provided the other key is not one the quota
    handler may evict: it starts with none of rare_form_draft_,
    rare_form_autosave_, rare_temp_, rare_old_ and does not contain
    _timestamp_. *)
Theorem set_keeps_other_keys sc st key v k0 :
  k0 <> key -> evictable k0 = false ->
  fst (get k0 sc (snd (set key v sc st))) = fst (get k0 sc st).
Proof.
  intros Hne Hev.
  destruct key as [|c key]; [done|].
  destruct (safeStringify v) as [text|] eqn:Hs.
  2:{ unfold set. cbn [invalid_key]. by rewrite Hs. }
  destruct (set_after sc (c :: key) v st text) as (b & st1 & Hw & ->); [done|done|].
  pose proof (native_write_items sc _ _ k0 _ _ _ Hw Hev (or_introl Hne)) as Hi.
  apply native_write_post in Hw as [Hsh _]. cbn [snd].
  destruct b.
  - apply get_congr; [by apply same_shell_available|by apply same_shell_failing|done|].
    by rewrite (same_shell_memory sc st st1).
  - apply get_congr.
    + rewrite available_set_memory. by apply same_shell_available.
    + rewrite window_storage_set_memory. by apply same_shell_failing.
    + unfold same_item. by rewrite window_storage_set_memory.
    + rewrite memory_set_memory, mem_read_set_other by done.
      by rewrite (same_shell_memory sc st st1).
Qed.

(** X2. When the native store is in use and still refuses the write after
    the quota handler ran (the key itself not being evictable),
    Storage.set returns true and puts the text into the in-memory
    fallback, but Storage.get keeps answering from the native store:
    it returns what it returned before the set, not the new value. *)
Theorem set_refused_reads_old sc st key v text st1 :
  key <> [] -> evictable key = false ->
  safeStringify v = Some text ->
  available sc st = true -> failing (window_storage sc st) = None ->
  native_write sc key text st = (Ok false, st1) ->
  exists st',
    set key v sc st = (Ok true, st') /\
    memory sc st' = mem_set (memory sc st) key text /\
    get key sc st' = (Ok (native_answer (window_storage sc st) key), st') /\
    get key sc st = (Ok (native_answer (window_storage sc st) key), st).
Proof.
  intros Hk Hev Hs Ha Hf Hw.
  destruct (set_after sc key v st text Hk Hs) as (b & st2 & Hw' & Hset).
  rewrite Hw in Hw'. injection Hw' as <- <-.
  eexists. split; [exact Hset|].
  assert (Hi : same_item sc key st st1).
  { eapply native_write_items; [exact Hw|exact Hev|]. right. discriminate. }
  apply native_write_post in Hw as [Hsh _].
  rewrite memory_set_memory, (same_shell_memory sc st st1 Hsh).
  split; [reflexivity|]. split; [|apply get_native; assumption].
  rewrite get_native.
  - unfold native_answer. rewrite window_storage_set_memory.
    unfold same_item in Hi. rewrite Hi. reflexivity.
  - exact Hk.
  - rewrite available_set_memory, (same_shell_available sc st st1 Hsh). exact Ha.
  - rewrite window_storage_set_memory, (same_shell_failing sc st st1 Hsh). exact Hf.
Qed.

Lemma set_refused_reads_old_witness :
  exists st',
    set (js "note") (VStr (js "a longer text")) false cramped = (Ok true, st') /\
    fst (get (js "note") false st') = Ok (VStr (js "old")).
Proof.
  destruct (set_refused_reads_old false cramped
              (js "note") (VStr (js "a longer text")) (js "a longer text") cramped)
    as (st' & H1 & _ & H3 & _).
  - done.
  - vm_compute. reflexivity.
  - reflexivity.
  - vm_compute. reflexivity.
  - vm_compute. reflexivity.
  - vm_compute. reflexivity.
  - exists st'. split; [exact H1|]. rewrite H3. vm_compute. reflexivity.
Defined.

Lemma has_state k sc st : snd (has k sc st) = st.
Proof.
  unfold has. destruct (invalid_key k); [done|].
  unfold bind, getStorage, try_catch, getItem, ret, getMemoryStorage.
  destruct (if sc then _ else _); [|done].
  by destruct (native_getItem _ _) as [[s|]|e].
Qed.

Lemma native_keys_state f : forall i sc acc st, snd (native_keys f i sc acc st) = st.
Proof.
  induction f as [|f IH]; intros i sc acc st; cbn [native_keys]; [done|].
  unfold bind at 1. cbn [storage_length].
  destruct (native_length (window_storage sc st)) as [len|e]; [|done].
  destruct (i <? len)%nat; [|done].
  unfold bind at 1. cbn [storage_key].
  destruct (native_key (window_storage sc st) i) as [[[|c k]|]|e]; try done; apply IH.
Qed.

Lemma keys_state sc st : snd (keys sc st) = st.
Proof.
  unfold keys, bind, getStorage, try_catch, key_count, getMemoryStorage, ret.
  destruct (if sc then _ else _); [|done].
  match goal with |- context [native_keys ?f ?i sc ?a st] =>
    pose proof (native_keys_state f i sc a st) as H;
    destruct (native_keys f i sc a st) as [[ks|e] st1]
  end; cbn [snd] in H; by subst.
Qed.

Lemma size_loop_state ks sc : forall acc st, snd (size_loop ks sc acc st) = st.
Proof.
  induction ks as [|k ks IH]; intros acc st; cbn [size_loop]; [done|].
  unfold bind.
  pose proof (FormFacts.get_state k sc st) as Hg.
  destruct (get k sc st) as [[v|e] st1]; cbn [snd] in Hg; subst st1; [|done].
  destruct (safeStringify v) as [[|c s]|]; apply IH.
Qed.

Lemma size_state sc st : snd (size sc st) = st.
Proof.
  unfold size, bind.
  pose proof (keys_state sc st) as Hk.
  destruct (keys sc st) as [[ks|e] st1]; cbn [snd] in Hk; subst st1; [|done].
  apply size_loop_state.
Qed.

(** X3. get, has, keys, size and isAvailable leave the adapter's state as
    it was: the items of both native stores, both fallback objects and
    the availability flags. *)
Theorem storage_reads_change_nothing sc st k :
  snd (get k sc st) = st /\ snd (has k sc st) = st /\
  snd (keys sc st) = st /\ snd (size sc st) = st /\
  snd (isAvailable sc st) = st.
Proof.
  split; [apply FormFacts.get_state|]. split; [apply has_state|].
  split; [apply keys_state|]. split; [apply size_state|done].
Qed.

Lemma native_length_ok n : failing n = None ->
  native_length n = Ok (length (map_to_list (items n))).
Proof. unfold native_length. by intros ->. Qed.

Lemma native_keys_ok f : forall i sc acc st,
  failing (window_storage sc st) = None ->
  (length (map_to_list (items (window_storage sc st))) < f + i)%nat ->
  native_keys f i sc acc st
  = (Ok (acc ++ List.filter (fun k => match k with [] => false | _ => true end)
                   (drop i (map fst (map_to_list (items (window_storage sc st)))))),
     st).
Proof.
  induction f as [|f IH]; intros i sc acc st Hf Hlen; cbn [native_keys].
  - rewrite drop_ge by (rewrite length_map; lia). cbn. by rewrite app_nil_r.
  - unfold bind at 1. cbn [storage_length]. rewrite native_length_ok by done.
    destruct (Nat.ltb_spec i (length (map_to_list (items (window_storage sc st)))))
      as [Hlt|Hge].
    + unfold bind at 1. cbn [storage_key]. unfold native_key. rewrite Hf.
      destruct (map_to_list (items (window_storage sc st)) !! i) as [[k0 v0]|] eqn:Hi.
      2:{ apply lookup_ge_None in Hi. lia. }
      cbn [fmap option_fmap option_map fst].
      assert (Hd : drop i (map fst (map_to_list (items (window_storage sc st))))
                   = k0 :: drop (S i) (map fst (map_to_list (items (window_storage sc st))))).
      { apply drop_S. by rewrite list_lookup_fmap, Hi. }
      rewrite Hd. cbn [List.filter].
      destruct k0 as [|c k0].
      * apply IH; [done|lia].
      * rewrite IH by (done || lia). by rewrite <- app_assoc.
    + rewrite drop_ge by (rewrite length_map; lia). cbn. by rewrite app_nil_r.
Qed.

Lemma keys_native sc st :
  available sc st = true -> failing (window_storage sc st) = None ->
  keys sc st = (Ok (native_key_list (window_storage sc st)), st).
Proof.
  intros Ha Hf. unfold keys, bind, getStorage. fold (available sc st). rewrite Ha.
  unfold try_catch, bind, key_count.
  rewrite native_keys_ok by (done || lia). done.
Qed.

Lemma has_native sc k st :
  k <> [] -> available sc st = true -> failing (window_storage sc st) = None ->
  has k sc st
  = (Ok match items (window_storage sc st) !! k with Some _ => true | None => false end,
     st).
Proof.
  intros Hk Ha Hf. unfold has. destruct k as [|c k]; [done|]. cbn [invalid_key].
  unfold bind, getStorage. fold (available sc st). rewrite Ha.
  unfold try_catch, bind, getItem, native_getItem. rewrite Hf.
  by destruct (items _ !! _).
Qed.

Lemma obj_has_delete {A} (o : list (jsstring * A)) k : obj_has (obj_delete o k) k = false.
Proof.
  unfold obj_has, obj_delete. induction o as [|[k' v'] o IH]; [done|].
  cbn [List.filter fst]. destruct (str_eqb k' k) eqn:E; cbn [negb]; [exact IH|].
  cbn [existsb fst]. by rewrite E.
Qed.

Lemma obj_has_set {A} (o : list (jsstring * A)) k v : obj_has (obj_set o k v) k = true.
Proof.
  pose proof (obj_get_set o k v) as H. unfold obj_get in H. unfold obj_has.
  destruct (find _ _) as [[k' v']|] eqn:Hf; [|done].
  apply find_some in Hf as [Hin Hk]. apply existsb_exists. eauto.
Qed.

(** The three ways a scope can be: its native object is out of use or
    failing, or it is in use and works. *)
Lemma down_or_working sc st :
  down sc st \/ (available sc st = true /\ failing (window_storage sc st) = None).
Proof.
  unfold down. destruct (available sc st); [|by left; left].
  destruct (failing (window_storage sc st)) as [e|]; [left; right; eauto|by right].
Qed.

Lemma remove_after sc k st :
  k <> [] ->
  exists st1,
    remove k sc st = (Ok true, set_memory sc (obj_delete (memory sc st) k) st1) /\
    available sc st1 = available sc st /\
    failing (window_storage sc st1) = failing (window_storage sc st) /\
    memory sc st1 = memory sc st /\
    (forall k0, k0 <> k -> same_item sc k0 st st1) /\
    (available sc st = true -> failing (window_storage sc st) = None ->
     items (window_storage sc st1) !! k = None).
Proof.
  intros Hk. unfold remove. destruct k as [|c k]; [done|]. cbn [invalid_key].
  unfold bind at 1. unfold getStorage at 1. fold (available sc st).
  destruct (available sc st) eqn:Ha.
  - unfold bind at 1. unfold try_catch at 1.
    destruct (removeItem sc (c :: k) st) as [[[]|e] st1] eqn:Er.
    + exists st1. pose proof (removeItem_shell _ _ _ _ _ Er) as Hsh.
      split; [|split; [|split; [|split; [|split]]]].
      * unfold bind, getMemoryStorage, putMemoryStorage, ret. fold (memory sc st1).
        by rewrite (same_shell_memory sc st st1).
      * by rewrite (same_shell_available sc st st1).
      * by apply same_shell_failing.
      * by apply same_shell_memory.
      * intros k0 Hne. by eapply removeItem_items.
      * intros _ Hf. unfold removeItem, native_removeItem in Er. rewrite Hf in Er.
        injection Er as <-. rewrite window_storage_set. cbn. apply lookup_delete_eq.
    + exists st. unfold removeItem, native_removeItem in Er.
      destruct (failing (window_storage sc st)) eqn:Hf; [|done].
      injection Er as <- <-.
      split; [unfold bind, getMemoryStorage, putMemoryStorage, ret;
              by fold (memory sc st)|].
      split; [done|]. split; [done|]. split; [done|]. split; [done|]. congruence.
  - exists st.
    split; [unfold bind, getMemoryStorage, putMemoryStorage, ret;
            by fold (memory sc st)|].
    split; [done|]. split; [done|]. split; [done|]. split; [done|]. congruence.
Qed.

(** X4. For a non-empty key that is not a member of Object.prototype,
    Storage.remove returns true; afterwards get returns null and has
    returns false for that key, and get returns for every other key
    what it returned before. *)
Theorem remove_forgets_one_key sc k st :
  k <> [] -> inherited k = false ->
  exists st',
    remove k sc st = (Ok true, st') /\
    get k sc st' = (Ok VNull, st') /\
    has k sc st' = (Ok false, st') /\
    forall k0, k0 <> k -> fst (get k0 sc st') = fst (get k0 sc st).
Proof.
  intros Hk Hi.
  destruct (remove_after sc k st Hk) as (st1 & Hr & Ha & Hf & Hm & Hit & Hgone).
  eexists. split; [exact Hr|].
  split; [by eapply FormFacts.remove_get|]. split.
  - destruct (down_or_working sc st) as [Hd|[Ha' Hf']].
    + rewrite down_has.
      2:{ apply down_set_memory. unfold down in *. by rewrite Ha, Hf. }
      destruct k as [|c k]; [done|]. rewrite memory_set_memory.
      unfold mem_in. by rewrite obj_has_delete, Hi.
    + rewrite has_native; try done.
      * by rewrite window_storage_set_memory, (Hgone Ha' Hf').
      * by rewrite available_set_memory, Ha.
      * by rewrite window_storage_set_memory, Hf.
  - intros k0 Hne. apply get_congr.
    + by rewrite available_set_memory.
    + by rewrite window_storage_set_memory.
    + unfold same_item. rewrite window_storage_set_memory. by apply Hit.
    + rewrite memory_set_memory. unfold mem_read. by rewrite obj_get_delete_other.
Qed.

Lemma remove_forgets_one_key_witness :
  exists st',
    remove (js "note") false cramped = (Ok true, st') /\
    get (js "note") false st' = (Ok VNull, st').
Proof.
  destruct (remove_forgets_one_key false (js "note") cramped)
    as (st' & H1 & H2 & _); [done|reflexivity|].
  by exists st'.
Defined.

Lemma clear_after sc st :
  clear sc st
  = (Ok true,
     set_memory sc []
       (if available sc st
        then match failing (window_storage sc st) with
             | None => set_window_storage sc (with_items (window_storage sc st) ∅) st
             | Some _ => st
             end
        else st)).
Proof.
  unfold clear, bind, getStorage. fold (available sc st).
  destruct (available sc st).
  - unfold try_catch, clearItems, native_clear.
    destruct (failing (window_storage sc st)).
    + unfold getMemoryStorage, putMemoryStorage, ret. fold (memory sc st).
      by rewrite obj_delete_all.
    + unfold getMemoryStorage, putMemoryStorage, ret.
      match goal with |- context [fold_left _ (obj_keys ?m) ?m] =>
        rewrite (obj_delete_all m) end. done.
  - unfold getMemoryStorage, putMemoryStorage, ret. fold (memory sc st).
    by rewrite obj_delete_all.
Qed.

(** X5. Storage.clear returns true and leaves the scope empty: keys
    returns the empty list, size returns 0, and for every key that is
    not a member of Object.prototype get returns null and has returns
    false. *)
Theorem clear_empties_the_scope sc st :
  exists st',
    clear sc st = (Ok true, st') /\
    keys sc st' = (Ok [], st') /\
    size sc st' = (Ok 0, st') /\
    forall k, inherited k = false ->
      get k sc st' = (Ok VNull, st') /\ has k sc st' = (Ok false, st').
Proof.
  eexists. split; [apply clear_after|].
  set (st1 := if available sc st then _ else st).
  assert (Hcase : (down sc st1 /\ st1 = st) \/
                  (available sc st1 = true /\ failing (window_storage sc st1) = None /\
                   items (window_storage sc st1) = ∅)).
  { subst st1. destruct (down_or_working sc st) as [Hd|[Ha Hf]].
    - left. destruct Hd as [Ha|[e He]].
      + rewrite Ha. split; [by left|done].
      + rewrite He. destruct (available sc st); (split; [right; eauto|done]).
    - right. rewrite Ha, Hf.
      by rewrite FormFacts.available_set_window_storage, window_storage_set. }
  assert (Hkeys : keys sc (set_memory sc [] st1) = (Ok [], set_memory sc [] st1)).
  { destruct Hcase as [[Hd _]|(Ha & Hf & Hi)].
    - rewrite down_keys by (by apply down_set_memory). by rewrite memory_set_memory.
    - rewrite keys_native.
      + unfold native_key_list. rewrite window_storage_set_memory, Hi.
        by rewrite map_to_list_empty.
      + by rewrite available_set_memory.
      + by rewrite window_storage_set_memory. }
  split; [exact Hkeys|]. split.
  { unfold size, bind. by rewrite Hkeys. }
  intros k Hk. destruct Hcase as [[Hd _]|(Ha & Hf & Hi)].
  - rewrite down_get, down_has by (by apply down_set_memory).
    rewrite memory_set_memory. destruct k as [|c k]; [done|].
    unfold memory_answer, mem_read, mem_in, obj_get, obj_has.
    cbn [find existsb fmap option_fmap option_map orb]. by rewrite Hk.
  - destruct k as [|c k]; [done|]. split.
    + apply FormFacts.get_absent.
      * by rewrite available_set_memory.
      * by rewrite window_storage_set_memory.
      * by rewrite window_storage_set_memory, Hi.
    + rewrite has_native.
      * by rewrite window_storage_set_memory, Hi.
      * done.
      * by rewrite available_set_memory.
      * by rewrite window_storage_set_memory.
Qed.

Lemma clear_empties_the_scope_witness :
  exists st',
    clear false cramped = (Ok true, st') /\
    get (js "note") false st' = (Ok VNull, st').
Proof.
  destruct (clear_empties_the_scope false cramped) as (st' & H1 & _ & _ & H4).
  exists st'. split; [exact H1|]. apply H4. reflexivity.
Defined.

Lemma native_key_list_In n k :
  k <> [] -> is_Some (items n !! k) -> In k (native_key_list n).
Proof.
  intros Hk [v Hv]. unfold native_key_list. apply filter_In. split.
  - apply in_map_iff. exists (k, v). split; [done|].
    apply list_elem_of_In. by apply elem_of_map_to_list.
  - by destruct k.
Qed.

Lemma obj_keys_In {A} (o : list (jsstring * A)) k :
  obj_has o k = true -> In k (obj_keys o).
Proof.
  unfold obj_has, obj_keys. intros H. apply existsb_exists in H as (kv & Hin & Hk).
  apply str_eqb_eq in Hk as <-. by apply in_map.
Qed.

(** X6. After a Storage.set with a non-empty key whose write lands (the
    native store takes it, or the store is out of use and the key is
    not __proto__), has returns true for the key and keys lists it. *)
Theorem set_then_has_and_keys sc st key v text :
  key <> [] -> safeStringify v = Some text -> lands sc key text st ->
  exists st' ks,
    set key v sc st = (Ok true, st') /\
    has key sc st' = (Ok true, st') /\
    keys sc st' = (Ok ks, st') /\ In key ks.
Proof.
  intros Hk Hs [[Hd Hp]|[st1 Hw]].
  - rewrite (down_set sc st Hd). destruct key as [|c key]; [done|]. rewrite Hs.
    eexists _, _. split; [reflexivity|].
    assert (Hd' : down sc (set_memory sc (mem_set (memory sc st) (c :: key) text) st))
      by (by apply down_set_memory).
    rewrite (down_has _ _ Hd'), (down_keys _ _ Hd'), memory_set_memory.
    assert (Hh : obj_has (mem_set (memory sc st) (c :: key) text) (c :: key) = true).
    { unfold mem_set. apply str_eqb_neq in Hp. rewrite Hp. apply obj_has_set. }
    split; [|split; [reflexivity|by apply obj_keys_In]].
    unfold mem_in. by rewrite Hh.
  - exists st1. eexists.
    assert (Hset : set key v sc st = (Ok true, st1)).
    { unfold set. destruct key as [|c key]; [done|]. cbn [invalid_key].
      rewrite Hs. unfold bind. by rewrite Hw. }
    apply native_write_post in Hw as [Hsh Hst].
    destruct (Hst eq_refl) as [Ha [Hf Hi]].
    assert (Ha1 : available sc st1 = true) by (by rewrite (same_shell_available sc st st1)).
    split; [exact Hset|]. split; [|split].
    + rewrite has_native by done. by rewrite Hi.
    + by apply keys_native.
    + apply native_key_list_In; [done|]. by rewrite Hi.
Qed.

Lemma set_then_has_and_keys_witness :
  exists st' ks,
    set (js "tiny") (VNum (Int 7)) false cramped = (Ok true, st') /\
    has (js "tiny") false st' = (Ok true, st') /\
    keys false st' = (Ok ks, st') /\ In (js "tiny") ks.
Proof.
  apply (set_then_has_and_keys false cramped (js "tiny") (VNum (Int 7)) (js "7")).
  - done.
  - reflexivity.
  - right. eexists. vm_compute. reflexivity.
Defined.

Lemma testStorageAvailability_after sc st :
  testStorageAvailability sc st
  = (Ok (usable (window_storage sc st)),
     if usable (window_storage sc st)
     then set_window_storage sc
            (with_items (window_storage sc st)
                        (delete (js "__storage_test__") (items (window_storage sc st))))
            st
     else st).
Proof.
  unfold testStorageAvailability, try_catch, bind, setItem, native_setItem, usable.
  destruct (failing (window_storage sc st)) eqn:Hf; [done|].
  destruct (accepts _ _ _ _); [|done].
  unfold removeItem, native_removeItem. rewrite window_storage_set. cbn [failing with_items].
  rewrite Hf. cbn [items with_items ret]. rewrite delete_insert_eq.
  by destruct sc.
Qed.

(** X7. initLocalStorage returns without raising and sets the availability
    flag of each scope to whether its native store takes the probe
    item __storage_test__; the fallback objects and every other item
    are left as they were, and a store found available no longer holds
    the probe key. *)
Theorem initLocalStorage_probes st :
  exists st',
    initLocalStorage st = (Ok tt, st') /\
    (forall sc,
       available sc st' = usable (window_storage sc st) /\
       memory sc st' = memory sc st /\
       failing (window_storage sc st') = failing (window_storage sc st) /\
       (forall k, k <> js "__storage_test__" -> same_item sc k st st') /\
       (usable (window_storage sc st) = true ->
        items (window_storage sc st') !! js "__storage_test__" = None)).
Proof.
  unfold initLocalStorage, bind.
  rewrite (testStorageAvailability_after false st).
  set (st1 := if usable (window_storage false st) then _ else st).
  rewrite (testStorageAvailability_after true st1).
  eexists. split; [reflexivity|].
  subst st1. destruct st as [la sa ml ms wl ws]. intros sc.
  unfold same_item, available, memory. cbn -[js usable].
  destruct (usable wl) eqn:Hl; cbn -[js usable];
    destruct (usable ws) eqn:Hs; cbn -[js usable];
    destruct sc; cbn -[js usable]; rewrite ?Hl, ?Hs;
    (split; [done|]); (split; [done|]); (split; [done|]);
    (split; [intros k Hk; by rewrite ?lookup_delete_ne|]);
    intros; by rewrite ?lookup_delete_eq.
Qed.

Lemma set_keeps_other_keys_witness :
  fst (get (js "note") false (snd (set (js "draft") sample false cramped)))
  = Ok (VStr (js "old")).
Proof.
  rewrite (set_keeps_other_keys false cramped (js "draft") sample (js "note")).
  - vm_compute. reflexivity.
  - discriminate.
  - vm_compute. reflexivity.
Defined.

Lemma initLocalStorage_probes_witness :
  exists st',
    initLocalStorage (loaded (small_quota {[ js "__storage_test__" := js "x" ]}) blocked)
    = (Ok tt, st') /\
    available false st' = true /\ available true st' = false /\
    items (window_storage false st') !! js "__storage_test__" = None.
Proof.
  destruct (initLocalStorage_probes
              (loaded (small_quota {[ js "__storage_test__" := js "x" ]}) blocked))
    as (st' & H1 & H2).
  exists st'. split; [exact H1|].
  destruct (H2 false) as (Ha & _ & _ & _ & Hgone).
  destruct (H2 true) as (Hb & _).
  split; [rewrite Ha; reflexivity|]. split; [rewrite Hb; reflexivity|].
  apply Hgone. reflexivity.
Defined.

End StorageScopeFacts.

(* ================================================================== *)
(** * Validation: messages, maximum length and registration *)
(* ================================================================== *)

Module FieldFacts.
Import JS JSONFacts StorageFacts Validation ValidationFacts.

Section Engine.
Variable RegExp_test : jsstring -> jsstring -> option bool.
Variable toLowerCase : jsstring -> jsstring.
Variable half_up : Z -> Z -> bool.
Local Abbreviation check_rule := (check_rule RegExp_test toLowerCase).
Local Abbreviation check_rules := (check_rules RegExp_test toLowerCase).
Local Abbreviation validateField := (validateField RegExp_test toLowerCase half_up).

(** Every rule that fails pushes a message, and only those do. *)
Lemma check_rules_messages doc v rules b errs :
  check_rules doc v rules = Some (b, errs) ->
  (b = true <-> errs = []).
Proof.
  revert b errs. induction rules as [|r rules IH]; intros b errs.
  - by intros [= <- <-].
  - cbn [Validation.check_rules].
    destruct (check_rule doc v r) as [[p m]|]; [|done]. cbn.
    destruct (check_rules doc v rules) as [[b' e']|]; [|done]. cbn.
    intros [= <- <-]. specialize (IH b' e' eq_refl).
    destruct p; cbn; [exact IH|]. split; discriminate.
Qed.

Lemma updateFormCompletion_errors formId st :
  errors (updateFormCompletion half_up formId st) = errors st /\
  touched (updateFormCompletion half_up formId st) = touched st.
Proof.
  unfold updateFormCompletion. by destruct (obj_get (forms st) formId).
Qed.

Lemma obj_get_map_set_other {A} (m : list (jsstring * A)) k v k0 :
  k0 <> k -> obj_get (map_set m k v) k0 = obj_get m k0.
Proof.
  intros Hne. assert (Hk : str_eqb k k0 = false) by (by apply str_eqb_neq).
  unfold map_set. destruct (obj_has m k).
  - by rewrite obj_get_replace_other, Hk.
  - unfold obj_get. induction m as [|[k' v'] m IH]; cbn; [by rewrite Hk|].
    by destruct (str_eqb k' k0).
Qed.

Lemma obj_get_delete_ne {A} (o : list (jsstring * A)) k k0 :
  k0 <> k -> obj_get (obj_delete o k) k0 = obj_get o k0.
Proof.
  intros Hne. unfold obj_get, obj_delete.
  induction o as [|[k' v'] o IH]; [done|]. cbn [List.filter fst].
  destruct (str_eqb k' k) eqn:E; cbn [negb find fst].
  - apply str_eqb_eq in E as ->.
    assert (str_eqb k k0 = false) as -> by (by apply str_eqb_neq). exact IH.
  - destruct (str_eqb k' k0); [done|exact IH].
Qed.

(** X8. validateField on a registered field never changes the set of
    touched fields and records messages for a touched field only: for
    an untouched field the error map is unchanged; for a touched field
    the map has an entry for it, with at least one message, exactly
    when the result is false. The entries of other fields are not
    changed. *)
Theorem validateField_records_errors doc field st fstate b st' :
  obj_get (fields st) (el_id field) = Some fstate ->
  validateField doc field st = Some (b, st') ->
  touched st' = touched st /\
  (is_touched (el_id field) st = false -> errors st' = errors st) /\
  (is_touched (el_id field) st = true ->
   if b then obj_get (errors st') (el_id field) = None
   else exists errs, errs <> [] /\ obj_get (errors st') (el_id field) = Some errs) /\
  (forall id, id <> el_id field ->
     obj_get (errors st') id = obj_get (errors st) id).
Proof.
  intros Hf. unfold Validation.validateField. rewrite Hf.
  destruct (check_rules doc (getFieldValue doc field) (fs_rules fstate))
    as [[isValid errs]|] eqn:Hc; [|done].
  cbn [mbind option_bind]. intros [= <- <-].
  destruct (updateFormCompletion_errors (fs_formId fstate)
              (updateFieldUI field isValid errs
                 (mkState (forms st)
                    (map_set (fields st) (el_id field)
                       (mkFieldState (fs_element fstate) (fs_formId fstate)
                          (fs_rules fstate) isValid (fs_isDirty fstate)
                          (getFieldValue doc field)))
                    (errors st) (touched st) (completionPercentage st)
                    (submitDisabled st)))) as [-> ->].
  unfold updateFieldUI, is_touched. cbn [touched].
  destruct (existsb _ (touched st)) eqn:Ht; cbn [negb touched errors].
  - split; [done|]. split; [done|]. split.
    + intros _. destruct isValid.
      * apply FormFacts.obj_get_delete.
      * exists errs. split; [|apply obj_get_map_set].
        intros ->. destruct (check_rules_messages _ _ _ _ _ Hc) as [_ H].
        by specialize (H eq_refl).
    + intros id Hne. destruct isValid.
      * by apply obj_get_delete_ne.
      * by apply obj_get_map_set_other.
  - split; [done|]. split; [done|]. split; [done|]. done.
Qed.

End Engine.

Lemma validateField_records_errors_witness :
  (exists errs, errs <> [] /\
     obj_get (errors (touch (js "last") (registered "f" [(empty_field, false)])))
             (js "last") = None /\
     exists st',
       validateField any_regexp ascii_lower (fun _ _ => true) [] empty_field
         (touch (js "last") (registered "f" [(empty_field, false)]))
       = Some (false, st') /\
       obj_get (errors st') (js "last") = Some errs).
Proof.
  destruct (validateField_records_errors any_regexp ascii_lower (fun _ _ => true)
              [] empty_field
              (touch (js "last") (registered "f" [(empty_field, false)]))
              (mkFieldState empty_field (js "f") [RRequired] false false (VStr []))
              false
              (snd (default (true, initial [])
                      (validateField any_regexp ascii_lower (fun _ _ => true) []
                         empty_field
                         (touch (js "last") (registered "f" [(empty_field, false)]))))))
    as (_ & _ & H & _).
  - reflexivity.
  - vm_compute. reflexivity.
  - destruct (H eq_refl) as (errs & Hne & He).
    exists errs. split; [exact Hne|]. split; [reflexivity|].
    eexists. split; [vm_compute; reflexivity|]. exact He.
Defined.

Section MaxLength.
Variable RegExp_test : jsstring -> jsstring -> option bool.
Variable toLowerCase : jsstring -> jsstring.
Variable half_up : Z -> Z -> bool.

Lemma extract_maxLength field a :
  attribute_or field "maxlength" "data-max-length" = Some a ->
  In (RMaxLength (parseInt a)) (extractValidationRules field).
Proof.
  intros Ha. unfold extractValidationRules. rewrite Ha.
  do 4 (apply in_or_app; right). apply in_or_app. left. by left.
Qed.


End MaxLength.


Lemma initField_fields form doc now field formId st :
  fields (fst (initField form doc now field formId st)) = fields st \/
  exists fs, fields (fst (initField form doc now field formId st))
             = map_set (fields st) (fieldIdOf now field) fs.
Proof.
  unfold initField, fieldIdOf.
  destruct (el_id field) as [|c i], (el_name field) as [|d n]; cbn; eauto.
Qed.

Lemma initField_returned form doc now field formId st :
  snd (initField form doc now field formId st) = negb (raising_checkbox form field).
Proof.
  unfold initField, raising_checkbox, named_checkbox.
  destruct (el_id field) as [|c i], (el_name field) as [|d n]; cbn [snd];
    rewrite ?andb_false_r; try done;
    by destruct (str_eqb (el_type field) (js "checkbox")), (finds_group form).
Qed.

Lemma initFields_unregistered form doc formId fs : forall st id,
  obj_get (fields st) id = None ->
  ~ In id (map (fun ft => fieldIdOf (snd ft) (fst ft)) fs) ->
  obj_get (fields (fst (initFields form doc formId fs st))) id = None.
Proof.
  induction fs as [|[f t] fs IH]; intros st id Hn Hin; cbn [initFields]; [done|].
  cbn [map fst snd] in Hin.
  assert (H1 : obj_get (fields (fst (initField form doc t f formId st))) id = None).
  { destruct (initField_fields form doc t f formId st) as [->|[x ->]]; [done|].
    rewrite obj_get_map_set_other; [done|]. intros ->. apply Hin. by left. }
  destruct (initField form doc t f formId st) as [st1 [|]]; cbn [fst] in *.
  - apply IH; [done|]. intros H. apply Hin. by right.
  - done.
Qed.

Lemma initFields_stops form doc formId cb t post : forall pre st,
  raising_checkbox form cb = true ->
  initFields form doc formId (pre ++ (cb, t) :: post) st
  = initFields form doc formId (pre ++ [(cb, t)]) st /\
  snd (initFields form doc formId (pre ++ (cb, t) :: post) st) = false.
Proof.
  intros pre st Hcb. revert st.
  induction pre as [|[f u] pre IH]; intros st; cbn [app initFields].
  - pose proof (initField_returned form doc t cb formId st) as Hr. rewrite Hcb in Hr.
    destruct (initField form doc t cb formId st) as [st1 r]. cbn in Hr. by subst r.
  - destruct (initField form doc u f formId st) as [st1 [|]]; [apply IH|done].
Qed.

Lemma initFields_returned form doc formId fs : forall st,
  snd (initFields form doc formId fs st)
  = negb (existsb (fun ft => raising_checkbox form (fst ft)) fs).
Proof.
  induction fs as [|[f t] fs IH]; intros st; cbn [initFields existsb fst]; [done|].
  pose proof (initField_returned form doc t f formId st) as Hf.
  destruct (initField form doc t f formId st) as [st1 r]. cbn in Hf. subst r.
  destruct (raising_checkbox form f); cbn; [done|]. apply IH.
Qed.

(** X10. initField reads the identifier form, which it does not bind,
    to look up the group of a checkbox that has a name.  When that
    lookup raises (nothing in the global scope has the name form, or
    the value it has there has no querySelectorAll), the loop of
    initForms over the controls of a form stops at the first such
    checkbox: the state is the one reached at that checkbox, the
    controls after it are not registered, and validateField on a
    control that was not registered returns true. *)
Theorem named_checkbox_ends_initFields
        RegExp_test toLowerCase half_up form doc formId pre cb t post st f :
  named_checkbox cb = true ->
  finds_group form = false ->
  obj_get (fields st) (el_id f) = None ->
  ~ In (el_id f) (map (fun ft => fieldIdOf (snd ft) (fst ft)) (pre ++ [(cb, t)])) ->
  let st' := fst (initFields form doc formId (pre ++ (cb, t) :: post) st) in
  snd (initFields form doc formId (pre ++ (cb, t) :: post) st) = false /\
  st' = fst (initFields form doc formId (pre ++ [(cb, t)]) st) /\
  validateField RegExp_test toLowerCase half_up doc f st' = Some (true, st').
Proof.
  intros Hnamed Hgroup Hn Hin st'.
  assert (Hcb : raising_checkbox form cb = true)
    by (unfold raising_checkbox; by rewrite Hnamed, Hgroup).
  destruct (initFields_stops form doc formId cb t post pre st Hcb) as [Heq Hfl].
  split; [exact Hfl|]. split; [subst st'; by rewrite Heq|].
  unfold validateField. subst st'. rewrite Heq.
  by rewrite initFields_unregistered.
Qed.

Lemma named_checkbox_ends_initFields_witness :
  let st' := fst (initFields Unresolvable [] (js "nominationForm")
                             (fe_fields nomination) (initial [])) in
  snd (initFields Unresolvable [] (js "nominationForm")
                  (fe_fields nomination) (initial [])) = false /\
  validateField any_regexp ascii_lower (fun _ _ => true) [] story_area st'
  = Some (true, st').
Proof.
  destruct (named_checkbox_ends_initFields any_regexp ascii_lower (fun _ _ => true)
              Unresolvable [] (js "nominationForm")
              [(text_input "nominee" "nominee" "" [("required", "")]%string, 1)]
              (quality "q1" "reliable") 2
              [(quality "q2" "empathetic", 3); (story_area, 4)]
              (initial []) story_area) as (H1 & _ & H3).
  - reflexivity.
  - reflexivity.
  - reflexivity.
  - vm_compute. intros [H|[H|[]]]; discriminate.
  - split; [exact H1|exact H3].
Defined.

Lemma initForms_returned form doc fms : forall st,
  snd (initForms form doc fms st) = negb (existsb (has_raising_checkbox form) fms).
Proof.
  induction fms as [|fm fms IH]; intros st; cbn [initForms existsb]; [done|].
  match goal with |- context [initFields form doc ?i ?fs ?s] =>
    pose proof (initFields_returned form doc i fs s) as Hr;
    destruct (initFields form doc i fs s) as [st2 r] end.
  cbn in Hr. subst r. fold (has_raising_checkbox form fm).
  destruct (has_raising_checkbox form fm); cbn; [done|]. apply IH.
Qed.

(** With the form itself reachable under the name, as on a page whose
    form has the id [form], the loop goes through every control. *)
Example initFields_with_form_in_scope :
  snd (initFields AnElement [] (js "form") (fe_fields nomination) (initial []))
  = true.
Proof. reflexivity. Qed.

End FieldFacts.

(* ================================================================== *)
(** * Validation: whole forms and their saved values *)
(* ================================================================== *)

Module FormValidationFacts.
Import ObjectFacts StorageScopeFacts FieldFacts.
Import JS JSONFacts StorageFacts Validation ValidationFacts.

Lemma same_rules_refl st : same_rules st st.
Proof. done. Qed.

Lemma same_rules_trans a b c : same_rules a b -> same_rules b c -> same_rules a c.
Proof. unfold same_rules. intros H1 H2 id. by rewrite H2, H1. Qed.

Lemma getElementById_id doc id field :
  getElementById doc id = Some field -> el_id field = id.
Proof.
  unfold getElementById. destruct id as [|c i]; [done|].
  intros H. apply find_some in H as [_ H]. by apply str_eqb_eq in H.
Qed.

Lemma is_touched_touch id st : is_touched id (touch id st) = true.
Proof.
  unfold touch, is_touched. cbn [touched].
  destruct (existsb _ (touched st)) eqn:E; [exact E|].
  rewrite existsb_app. cbn. apply orb_true_iff. right.
  apply orb_true_iff. left. by apply str_eqb_eq.
Qed.

Lemma is_touched_touch_other id id0 st :
  is_touched id0 st = true -> is_touched id0 (touch id st) = true.
Proof.
  unfold touch, is_touched. cbn [touched]. intros H.
  destruct (existsb _ (touched st)) in |- *; [exact H|].
  rewrite existsb_app. apply orb_true_iff. by left.
Qed.

Lemma map_set_keys {A} (m : list (jsstring * A)) k v :
  obj_has m k = true -> map fst (map_set m k v) = map fst m.
Proof. intros H. unfold map_set. rewrite H. apply obj_replace_keys. Qed.

Section HandlersFacts.
Variable RegExp_test : jsstring -> jsstring -> option bool.
Variable toLowerCase : jsstring -> jsstring.
Variable half_up : Z -> Z -> bool.
Local Abbreviation validateField' := (validateField RegExp_test toLowerCase half_up).
Local Abbreviation check_rules' := (check_rules RegExp_test toLowerCase).
Local Abbreviation validateEach' := (validateEach RegExp_test toLowerCase half_up).
Local Abbreviation validateForm' := (validateForm RegExp_test toLowerCase half_up).
Local Abbreviation handleFormSubmit' := (handleFormSubmit RegExp_test toLowerCase half_up).
Local Abbreviation handleFieldBlur' := (handleFieldBlur RegExp_test toLowerCase half_up).
Local Abbreviation field_ok' := (field_ok RegExp_test toLowerCase).

Lemma updateFormCompletion_fields formId st :
  fields (updateFormCompletion half_up formId st) = fields st.
Proof. unfold updateFormCompletion. by destruct (obj_get (forms st) formId). Qed.

Lemma validateField_after doc field st fstate b st' :
  obj_get (fields st) (el_id field) = Some fstate ->
  validateField' doc field st = Some (b, st') ->
  (exists errs, check_rules' doc (getFieldValue doc field) (fs_rules fstate)
                = Some (b, errs)) /\
  same_rules st st' /\ touched st' = touched st /\
  obj_get (fields st') (el_id field)
  = Some (mkFieldState (fs_element fstate) (fs_formId fstate) (fs_rules fstate)
                       b (fs_isDirty fstate) (getFieldValue doc field)) /\
  (forall id, id <> el_id field -> obj_get (fields st') id = obj_get (fields st) id) /\
  map fst (fields st') = map fst (fields st).
Proof.
  intros Hf. unfold Validation.validateField. rewrite Hf.
  destruct (check_rules' doc (getFieldValue doc field) (fs_rules fstate))
    as [[isValid errs]|] eqn:Hc; [|done].
  cbn [mbind option_bind]. intros [= <- <-].
  split; [by eauto|]. unfold same_rules.
  rewrite (proj2 (updateFormCompletion_errors half_up _ _)).
  rewrite !updateFormCompletion_fields.
  destruct (updateFieldUI_frame field isValid errs
              (mkState (forms st)
                 (map_set (fields st) (el_id field)
                    (mkFieldState (fs_element fstate) (fs_formId fstate)
                       (fs_rules fstate) isValid (fs_isDirty fstate)
                       (getFieldValue doc field)))
                 (errors st) (touched st) (completionPercentage st)
                 (submitDisabled st))) as (_ & Hfl & _).
  rewrite !Hfl. cbn [fields].
  assert (Ht : forall e b st0, touched (updateFieldUI field b e st0) = touched st0).
  { intros e b0 st0. unfold updateFieldUI. by destruct (negb _). }
  rewrite Ht. cbn [touched].
  split; [|split; [done|split; [apply obj_get_map_set|]]].
  - intros id. cbn [fields].
    destruct (decide (id = el_id field)) as [->|Hne].
    + by rewrite obj_get_map_set, Hf.
    + by rewrite obj_get_map_set_other.
  - split; [intros id Hne; by apply obj_get_map_set_other|].
    apply map_set_keys. apply obj_has_get. eauto.
Qed.

Lemma field_ok_same_rules doc formId st0 st id :
  same_rules st0 st -> field_ok' doc formId st id = field_ok' doc formId st0 id.
Proof.
  intros H. specialize (H id). unfold field_ok.
  destruct (obj_get (fields st) id) as [f|], (obj_get (fields st0) id) as [f0|];
    cbn in H; try done.
  injection H as -> ->. done.
Qed.
End HandlersFacts.

Lemma forallb_pointwise {A} (f g : A -> bool) l :
  (forall x, f x = g x) -> forallb g l = forallb f l.
Proof. intros H. induction l as [|a l IH]; cbn; [done|]. by rewrite H, IH. Qed.

Section Loops.
Variable RegExp_test : jsstring -> jsstring -> option bool.
Variable toLowerCase : jsstring -> jsstring.
Variable half_up : Z -> Z -> bool.
Local Abbreviation validateField' := (validateField RegExp_test toLowerCase half_up).
Local Abbreviation validateEach' := (validateEach RegExp_test toLowerCase half_up).
Local Abbreviation validateForm' := (validateForm RegExp_test toLowerCase half_up).
Local Abbreviation handleFormSubmit' := (handleFormSubmit RegExp_test toLowerCase half_up).
Local Abbreviation field_ok' := (field_ok RegExp_test toLowerCase).

Lemma same_rules_touch id st : same_rules st (touch id st).
Proof. done. Qed.

Lemma validateEach_result touching doc formId ids : forall st acc b st',
  validateEach' touching doc formId ids st acc = Some (b, st') ->
  b = acc && forallb (field_ok' doc formId st) ids /\
  same_rules st st' /\
  (touching = false -> touched st' = touched st) /\
  (forall id, is_touched id st = true -> is_touched id st' = true) /\
  (touching = true ->
   forall id fstate, In id ids -> obj_get (fields st) id = Some fstate ->
     fs_formId fstate = formId -> is_touched id st' = true).
Proof.
  induction ids as [|fieldId rest IH]; intros st acc b st'; cbn [validateEach forallb].
  - intros [= <- <-]. rewrite andb_true_r. repeat split; done.
  - unfold field_ok at 1.
    destruct (obj_get (fields st) fieldId) as [fieldState|] eqn:Hf.
    2:{ intros H. apply IH in H as (-> & Hr & Ht & Hk & Hall).
        repeat split; try done. intros Htt id fstate [<-|Hin] Hg Hfm; [congruence|].
        by eapply Hall. }
    destruct (str_eqb (fs_formId fieldState) formId) eqn:Hfm.
    2:{ intros H. apply IH in H as (-> & Hr & Ht & Hk & Hall).
        repeat split; try done. intros Htt id fstate [<-|Hin] Hg Hfm'.
        - rewrite Hf in Hg. injection Hg as <-. apply str_eqb_neq in Hfm. done.
        - by eapply Hall. }
    set (st1 := if touching then touch fieldId st else st).
    assert (Hst1 : same_rules st st1) by (subst st1; by destruct touching).
    assert (Hfields1 : fields st1 = fields st) by (subst st1; by destruct touching).
    assert (Htouch1 : forall id, is_touched id st = true -> is_touched id st1 = true).
    { intros id Hid. subst st1. destruct touching; [by apply is_touched_touch_other|done]. }
    assert (Hself : touching = true -> is_touched fieldId st1 = true).
    { intros ->. subst st1. apply is_touched_touch. }
    assert (Hnt : touching = false -> touched st1 = touched st).
    { intros ->. done. }
    destruct (getElementById doc fieldId) as [field|] eqn:Hel.
    + pose proof (getElementById_id _ _ _ Hel) as Hid.
      destruct (validateField' doc field st1) as [[valid st2]|] eqn:Hv; [|done].
      cbn [mbind option_bind]. intros H.
      destruct (validateField_after RegExp_test toLowerCase half_up doc field st1
                  fieldState valid st2) as ((errs & Hc) & Hr2 & Ht2 & _ & _ & _).
      { by rewrite Hid, Hfields1. }
      { exact Hv. }
      rewrite Hc.
      apply IH in H as (-> & Hr & Ht & Hk & Hall).
      assert (Hst2 : same_rules st st2) by (by eapply same_rules_trans).
      split.
      { rewrite <- andb_assoc. do 2 f_equal. apply forallb_pointwise. intros id.
        symmetry. by apply field_ok_same_rules. }
      split; [by eapply same_rules_trans|].
      assert (Hkeep : forall id, is_touched id st1 = true -> is_touched id st2 = true).
      { intros id. unfold is_touched. by rewrite Ht2. }
      split; [intros Hn; rewrite (Ht Hn), Ht2; by apply Hnt|].
      split; [intros id Hid'; by apply Hk, Hkeep, Htouch1|].
      intros Htt id fstate [<-|Hin] Hg Hfm'.
      * by apply Hk, Hkeep, Hself.
      * specialize (Hst2 id). rewrite Hg in Hst2.
        destruct (obj_get (fields st2) id) as [f2|] eqn:Hg2; [|done].
        cbn in Hst2. injection Hst2 as _ Hfm2.
        eapply (Hall Htt id f2); [done|done|congruence].
    + intros H. apply IH in H as (-> & Hr & Ht & Hk & Hall).
      split.
      { f_equal. apply forallb_pointwise. intros id. symmetry.
        by apply field_ok_same_rules. }
      split; [by eapply same_rules_trans|].
      split; [intros Hn; rewrite (Ht Hn); by apply Hnt|].
      split; [intros id Hid'; by apply Hk, Htouch1|].
      intros Htt id fstate [<-|Hin] Hg Hfm'.
      * by apply Hk, Hself.
      * eapply (Hall Htt id fstate); [done| |done]. by rewrite Hfields1.
Qed.

(** X11. When validateForm returns, its result is false for a form id that
    is not registered, and otherwise the conjunction over the
    registered fields of that form found in the document of the field
    passing its rules. It adds no field to the touched set and changes
    no field's rules or form id. *)
Theorem validateForm_checks_every_field doc formId st b st' :
  validateForm' doc formId st = Some (b, st') ->
  b = match obj_get (forms st) formId with
      | Some _ => forallb (field_ok' doc formId st) (map fst (fields st))
      | None => false
      end /\
  touched st' = touched st /\
  same_rules st st'.
Proof.
  unfold validateForm. destruct (obj_get (forms st) formId).
  - intros H. apply validateEach_result in H as (-> & Hr & Ht & _).
    split; [done|]. split; [by apply Ht|done].
  - by intros [= <- <-].
Qed.
End Loops.

Lemma getFieldValue_json doc field : json_value (getFieldValue doc field) = true.
Proof.
  unfold getFieldValue.
  destruct (str_eqb (el_type field) (js "checkbox")).
  - destruct (el_name field); [done|]. cbn [json_value].
    apply forallb_forall. intros x Hx. apply in_map_iff in Hx as (e & <- & _). done.
  - destruct (str_eqb (el_type field) (js "radio")); [|done].
    by destruct (checked_inputs doc (el_name field)).
Qed.

Lemma collect_json formId (l : list (jsstring * fieldState)) : forall data,
  json_value (VObj data) = true ->
  Forall (fun kv => json_value (fs_value (snd kv)) = true) l ->
  json_value
    (VObj (fold_left
             (fun data kv =>
                if str_eqb (fs_formId (snd kv)) formId
                then if str_eqb (fst kv) (js "__proto__") then data
                     else obj_set data (fst kv) (fs_value (snd kv))
                else data) l data)) = true.
Proof.
  induction l as [|kv l IH]; intros data Hd Hl; cbn [fold_left]; [done|].
  inversion Hl as [|? ? Hv Hr]; subst. apply IH; [|done].
  destruct (str_eqb (fs_formId (snd kv)) formId); [|done].
  destruct (str_eqb kv.1 (js "__proto__")); [done|]. by apply obj_set_json.
Qed.

Lemma collectFormData_json formId st :
  plain_values st -> json_value (collectFormData formId st) = true.
Proof. intros H. unfold collectFormData. by apply collect_json. Qed.

Lemma collect_get formId id f (l : list (jsstring * fieldState)) : forall data,
  NoDup (map fst l) -> In (id, f) l ->
  fs_formId f = formId -> id <> js "__proto__" ->
  obj_get (fold_left
             (fun data kv =>
                if str_eqb (fs_formId (snd kv)) formId
                then if str_eqb (fst kv) (js "__proto__") then data
                     else obj_set data (fst kv) (fs_value (snd kv))
                else data) l data) id = Some (fs_value f).
Proof.
  assert (Hkeep : forall (l : list (jsstring * fieldState)) data,
             ~ In id (map fst l) ->
             obj_get (fold_left
                        (fun data kv =>
                           if str_eqb (fs_formId (snd kv)) formId
                           then if str_eqb (fst kv) (js "__proto__") then data
                                else obj_set data (fst kv) (fs_value (snd kv))
                           else data) l data) id = obj_get data id).
  { clear. induction l as [|[k g] l IH]; intros data Hn; cbn [fold_left]; [done|].
    rewrite IH by (intros H; apply Hn; by right). cbn [fst snd].
    destruct (str_eqb (fs_formId g) formId); [|done].
    destruct (str_eqb k (js "__proto__")); [done|].
    apply obj_get_set_other. intros ->. apply Hn. by left. }
  induction l as [|[k g] l IH]; intros data Hnd Hin Hfm Hp; [done|].
  cbn [map fst] in Hnd. apply NoDup_cons in Hnd as [Hk Hnd'].
  rewrite list_elem_of_In in Hk. subst formId.
  cbn [fold_left fst snd]. destruct Hin as [[= -> ->]|Hin].
  - rewrite Hkeep by done.
    assert (str_eqb (fs_formId f) (fs_formId f) = true) as -> by (by apply str_eqb_eq).
    assert (str_eqb id (js "__proto__") = false) as -> by (by apply str_eqb_neq).
    apply obj_get_set.
  - by apply IH.
Qed.

Lemma obj_get_In {A} (o : list (jsstring * A)) k v :
  obj_get o k = Some v -> In (k, v) o.
Proof.
  unfold obj_get. destruct (find _ o) as [[k' v']|] eqn:Hf; [|done].
  intros [= <-]. apply find_some in Hf as [Hin Hk]. apply str_eqb_eq in Hk.
  cbn in Hk. by subst.
Qed.

Lemma inherited_autosave formId : LocalStorage.inherited (formAutosaveKey formId) = false.
Proof.
  apply not_true_is_false. intros H. unfold LocalStorage.inherited in H.
  apply existsb_exists in H as (p & Hin & Hp). apply str_eqb_eq in Hp. subst p.
  vm_compute in Hin. repeat (destruct Hin as [Hin|Hin]; [discriminate|]). done.
Qed.

Section Saving.
Variable RegExp_test : jsstring -> jsstring -> option bool.
Variable toLowerCase : jsstring -> jsstring.
Variable half_up : Z -> Z -> bool.
Local Abbreviation handleFieldBlur' := (handleFieldBlur RegExp_test toLowerCase half_up).
Local Abbreviation handleFormSubmit' := (handleFormSubmit RegExp_test toLowerCase half_up).
Local Abbreviation field_ok' := (field_ok RegExp_test toLowerCase).

(** X12. handleFieldBlur on a registered field of a form marks the field
    as touched and saves the values of the form: the record collected
    for the form holds the field's current value under its id and,
    when the write lands, Storage.get of rare_form_autosave_<formId>
    returns that record. Field ids are distinct, the id is not
    __proto__ and the recorded values are JSON values. *)
Theorem handleFieldBlur_saves doc field st ls fstate st1 ls1 :
  obj_get (fields st) (el_id field) = Some fstate ->
  fs_formId fstate <> [] -> el_id field <> js "__proto__" ->
  NoDup (map fst (fields st)) -> plain_values st ->
  handleFieldBlur' doc field st ls = Some (st1, ls1) ->
  let formId := fs_formId fstate in
  let data := collectFormData formId st1 in
  is_touched (el_id field) st1 = true /\
  get_prop data (el_id field) = Some (getFieldValue doc field) /\
  (LocalStorage.lands false (formAutosaveKey formId) (stringify data) ls ->
   LocalStorage.get (formAutosaveKey formId) false ls1 = (LocalStorage.Ok data, ls1)).
Proof.
  intros Hf Hfm Hp Hnd Hpl. unfold handleFieldBlur.
  destruct (validateField RegExp_test toLowerCase half_up doc field
              (touch (el_id field) st)) as [[b st2]|] eqn:Hv; [|done].
  cbn [mbind option_bind]. intros [= <- <-]. cbv zeta.
  destruct (validateField_after RegExp_test toLowerCase half_up doc field
              (touch (el_id field) st) fstate b st2 Hf Hv)
    as (_ & Hr & Ht & Hg & Hother & Hkeys).
  cbn [fields touch] in Hkeys.
  split.
  { unfold is_touched. rewrite Ht. apply is_touched_touch. }
  assert (Hpl2 : plain_values st2).
  { unfold plain_values in *. apply List.Forall_forall. intros [k g] Hin. cbn [snd].
    destruct (decide (k = el_id field)) as [->|Hne].
    - assert (Hgk : obj_get (fields st2) (el_id field) = Some g).
      { assert (Hnd2 : NoDup (map fst (fields st2))) by (by rewrite Hkeys).
        clear -Hin Hnd2. induction (fields st2) as [|[k' g'] l IH]; [done|].
        cbn [map fst] in Hnd2. apply NoDup_cons in Hnd2 as [Hk Hnd'].
        rewrite list_elem_of_In in Hk.
        unfold obj_get. cbn [find fst]. destruct Hin as [[= -> ->]|Hin].
        - assert (str_eqb (el_id field) (el_id field) = true) as ->
            by (by apply str_eqb_eq). done.
        - assert (str_eqb k' (el_id field) = false) as ->.
          { apply str_eqb_neq. intros ->. apply Hk.
            apply in_map_iff. exists (el_id field, g). done. }
          by apply IH. }
      rewrite Hg in Hgk. injection Hgk as <-. apply getFieldValue_json.
    - assert (Hgk : obj_get (fields st) k = obj_get (fields st2) k)
        by (symmetry; by apply Hother).
      assert (Hin0 : In (k, g) (fields st)).
      { apply obj_get_In. rewrite Hgk.
        assert (Hnd2 : NoDup (map fst (fields st2))) by (by rewrite Hkeys).
        clear -Hin Hnd2. induction (fields st2) as [|[k' g'] l IH]; [done|].
        cbn [map fst] in Hnd2. apply NoDup_cons in Hnd2 as [Hk Hnd'].
        rewrite list_elem_of_In in Hk.
        unfold obj_get. cbn [find fst]. destruct Hin as [[= -> ->]|Hin].
        - assert (str_eqb k k = true) as -> by (by apply str_eqb_eq). done.
        - assert (str_eqb k' k = false) as ->.
          { apply str_eqb_neq. intros ->. apply Hk.
            apply in_map_iff. exists (k, g). done. }
          by apply IH. }
      rewrite List.Forall_forall in Hpl. apply (Hpl (k, g) Hin0). }
  split.
  { unfold collectFormData, get_prop.
    rewrite (collect_get (fs_formId fstate) (el_id field) _ (fields st2) []
               ltac:(by rewrite Hkeys) (obj_get_In _ _ _ Hg) eq_refl Hp).
    reflexivity. }
  intros Hl. unfold saveFieldToStorage. rewrite Hg. cbn [fs_formId].
  destruct (fs_formId fstate) as [|c fid] eqn:Hfid; [done|].
  destruct (set_get_lands false ls (formAutosaveKey (c :: fid))
              (collectFormData (c :: fid) st2)
              (stringify (collectFormData (c :: fid) st2)))
    as (ls' & Hset & Hget); [done| |done|].
  { apply safeStringify_json; [by apply collectFormData_json|done]. }
  rewrite Hset. cbn [snd]. rewrite Hget.
  by rewrite safeParse_stringify by (by apply collectFormData_json).
Qed.

End Saving.

Lemma obj_get_key_In {A} (o : list (jsstring * A)) k v :
  obj_get o k = Some v -> In k (map fst o).
Proof. intros H. apply obj_get_In in H. apply in_map_iff. by exists (k, v). Qed.

Section Submit.
Variable RegExp_test : jsstring -> jsstring -> option bool.
Variable toLowerCase : jsstring -> jsstring.
Variable half_up : Z -> Z -> bool.
Local Abbreviation validateField' := (validateField RegExp_test toLowerCase half_up).
Local Abbreviation validateEach' := (validateEach RegExp_test toLowerCase half_up).
Local Abbreviation handleFormSubmit' := (handleFormSubmit RegExp_test toLowerCase half_up).
Local Abbreviation run' := (run RegExp_test toLowerCase half_up).
Local Abbreviation dispatch' := (dispatch RegExp_test toLowerCase half_up).
Local Abbreviation field_ok' := (field_ok RegExp_test toLowerCase).

Lemma validateField_touched doc field st b st' :
  validateField' doc field st = Some (b, st') -> touched st' = touched st.
Proof.
  destruct (obj_get (fields st) (el_id field)) as [fstate|] eqn:Hf.
  - intros H.
    by destruct (validateField_after RegExp_test toLowerCase half_up doc field st
                   fstate b st' Hf H) as (_ & _ & Ht & _).
  - unfold Validation.validateField. rewrite Hf. by intros [= <- <-].
Qed.

Lemma run_touched doc l st ls id :
  is_touched id st = true -> is_touched id (fst (run' doc l st ls)) = true.
Proof.
  intros Hid. destruct l as [target|target|field]; cbn [run].
  - unfold handleFieldBlur.
    destruct (validateField' doc target (touch (el_id target) st))
      as [[b st1]|] eqn:Hv; cbn [mbind option_bind fst].
    + unfold is_touched. rewrite (validateField_touched _ _ _ _ _ Hv).
      by apply is_touched_touch_other.
    + by apply is_touched_touch_other.
  - unfold handleFieldChange.
    destruct (validateField' doc target st) as [[b st1]|] eqn:Hv;
      cbn [mbind option_bind fst]; [|done].
    unfold is_touched. by rewrite (validateField_touched _ _ _ _ _ Hv).
  - destruct (validateField' doc field st) as [[b st1]|] eqn:Hv; cbn [fst]; [|done].
    unfold is_touched. by rewrite (validateField_touched _ _ _ _ _ Hv).
Qed.

Lemma dispatch_touched doc ls_ : forall st ls id,
  is_touched id st = true -> is_touched id (fst (dispatch' doc ls_ st ls)) = true.
Proof.
  induction ls_ as [|l rest IH]; intros st ls id Hid; cbn [dispatch]; [done|].
  pose proof (run_touched doc l st ls id Hid) as H1.
  destruct (run' doc l st ls) as [st1 ls1]. by apply IH.
Qed.

Lemma dispatch_quiet doc ls_ : forall st ls,
  Forall (fun l => saving l = false) ls_ ->
  snd (dispatch' doc ls_ st ls) = ls.
Proof.
  induction ls_ as [|l rest IH]; intros st ls Hq; cbn [dispatch]; [done|].
  apply Forall_cons in Hq as [Hl Hq].
  destruct l as [target|target|field]; try done. cbn [run].
  destruct (validateField' doc field st) as [[b st1]|]; by apply IH.
Qed.

(** X13. When handleFormSubmit returns, its result is the conjunction of
    the form's fields passing their rules, and every registered field
    of the form has been marked as touched.  On false the module
    state and the storage are those that the listeners set off by
    focusing the first field in error leave, started from the state
    after the validation and the storage as it was: the storage is
    untouched when there is no such field or none of these listeners
    saves.  On true the saved values of the form are removed:
    Storage.get of rare_form_autosave_<formId> returns null. *)
Theorem handleFormSubmit_result focus doc formId st ls b st' ls' :
  handleFormSubmit' focus doc formId st ls = Some (b, st', ls') ->
  b = forallb (field_ok' doc formId st) (map fst (fields st)) /\
  (forall id fstate, obj_get (fields st) id = Some fstate ->
     fs_formId fstate = formId -> is_touched id st' = true) /\
  (b = false ->
   exists st1,
     validateEach' true doc formId (map fst (fields st)) st true = Some (false, st1) /\
     match firstErrorField doc st1 with
     | Some field =>
         (st', ls') = dispatch' doc (focus field) st1 ls /\
         (Forall (fun l => saving l = false) (focus field) -> ls' = ls)
     | None => st' = st1 /\ ls' = ls
     end) /\
  (b = true ->
   LocalStorage.get (formAutosaveKey formId) false ls' = (LocalStorage.Ok VNull, ls')).
Proof.
  unfold handleFormSubmit.
  destruct (validateEach _ _ _ true doc formId (map fst (fields st)) st true)
    as [[a st1]|] eqn:Hv; [|done].
  pose proof Hv as Hv0.
  apply validateEach_result in Hv as (Hb & _ & _ & _ & Hall).
  cbn [andb] in Hb.
  assert (Ht : forall id fstate, obj_get (fields st) id = Some fstate ->
                 fs_formId fstate = formId -> is_touched id st1 = true).
  { intros id fstate Hg Hfm. eapply (Hall eq_refl id fstate); [|done|done].
    by eapply obj_get_key_In. }
  destruct a.
  - intros [= <- <- <-].
    split; [done|]. split; [done|]. split; [done|]. intros _.
    destruct (FormFacts.remove_total (formAutosaveKey formId) false ls) as (r & ls1 & Hr).
    rewrite Hr. cbn [snd].
    eapply FormFacts.remove_get; [|apply inherited_autosave|exact Hr].
    unfold formAutosaveKey. discriminate.
  - destruct (firstErrorField doc st1) as [field|] eqn:Hfe.
    + destruct (dispatch' doc (focus field) st1 ls) as [st2 ls2] eqn:Hd.
      intros [= <- <- <-].
      split; [done|]. split.
      { intros id fstate Hg Hfm.
        pose proof (dispatch_touched doc (focus field) st1 ls id (Ht id fstate Hg Hfm)) as H.
        by rewrite Hd in H. }
      split; [|done]. intros _. exists st1. split; [done|].
      rewrite Hfe. split; [done|]. intros Hq.
      pose proof (dispatch_quiet doc (focus field) st1 ls Hq) as H.
      by rewrite Hd in H.
    + intros [= <- <- <-].
      split; [done|]. split; [done|]. split; [|done].
      intros _. exists st1. split; [done|]. by rewrite Hfe.
Qed.
End Submit.

Lemma validateForm_checks_every_field_witness :
  exists st',
    validateForm any_regexp ascii_lower (fun _ _ => true)
      [name_input "Ada"; nick_input "abcd"] (js "form") (two_fields "" "")
    = Some (false, st') /\
    touched st' = [].
Proof.
  destruct (validateForm any_regexp ascii_lower (fun _ _ => true)
              [name_input "Ada"; nick_input "abcd"] (js "form") (two_fields "" ""))
    as [[b st']|] eqn:E; [|vm_compute in E; discriminate].
  destruct (validateForm_checks_every_field _ _ _ _ _ _ _ _ E) as (Hb & Ht & _).
  exists st'. split; [|exact Ht]. rewrite Hb. vm_compute. reflexivity.
Defined.

Lemma handleFormSubmit_result_witness :
  exists st' ls',
    handleFormSubmit any_regexp ascii_lower (fun _ _ => true) from_nick
      [name_input "Ada"; nick_input "abc"] (js "form") (two_fields "" "")
      roomy_storage
    = Some (true, st', ls') /\
    LocalStorage.get (formAutosaveKey (js "form")) false ls' = (LocalStorage.Ok VNull, ls').
Proof.
  destruct (handleFormSubmit any_regexp ascii_lower (fun _ _ => true) from_nick
              [name_input "Ada"; nick_input "abc"] (js "form") (two_fields "" "")
              roomy_storage)
    as [[[b st'] ls']|] eqn:E; [|vm_compute in E; discriminate].
  destruct (handleFormSubmit_result _ _ _ _ _ _ _ _ _ _ _ E) as (Hb & _ & _ & Hg).
  assert (Hbt : b = true) by (rewrite Hb; vm_compute; reflexivity).
  exists st', ls'. split; [by rewrite Hbt|]. by apply Hg.
Defined.

Lemma handleFieldBlur_saves_witness :
  exists st1 ls1,
    handleFieldBlur any_regexp ascii_lower (fun _ _ => true)
      [name_input "Ada"; nick_input ""] (name_input "Ada") (two_fields "" "")
      roomy_storage
    = Some (st1, ls1) /\
    get_prop (collectFormData (js "form") st1) (js "name") = Some (VStr (js "Ada")) /\
    LocalStorage.get (formAutosaveKey (js "form")) false ls1
    = (LocalStorage.Ok (collectFormData (js "form") st1), ls1).
Proof.
  destruct (handleFieldBlur any_regexp ascii_lower (fun _ _ => true)
              [name_input "Ada"; nick_input ""] (name_input "Ada") (two_fields "" "")
              roomy_storage)
    as [[st1 ls1]|] eqn:E; [|vm_compute in E; discriminate].
  destruct (handleFieldBlur_saves any_regexp ascii_lower (fun _ _ => true)
              [name_input "Ada"; nick_input ""] (name_input "Ada") (two_fields "" "")
              roomy_storage
              (mkFieldState (name_input "") (js "form") [RRequired] false false (VStr []))
              st1 ls1)
    as (_ & H2 & H3).
  - vm_compute. reflexivity.
  - discriminate.
  - discriminate.
  - change (NoDup [js "name"; js "nick"]).
    apply NoDup_cons_2; [|apply NoDup_singleton].
    rewrite list_elem_of_In. intros [H|[]]. discriminate.
  - unfold plain_values. apply List.Forall_forall. intros kv Hin.
    vm_compute in Hin. destruct Hin as [<-|[<-|[]]]; reflexivity.
  - exact E.
  - exists st1, ls1. split; [reflexivity|]. split; [exact H2|]. apply H3.
    right. eexists. unfold roomy_storage. apply FormFacts.roomy_native_write.
    split; [done|]. split; done.
Defined.

(** A submission that fails while the nickname has the focus: moving
    the focus to the name, the first field in error, runs the blur
    listener of the nickname, and the values of the form are saved. *)
Example failed_submission_saves_on_blur :
  exists st' ls',
    handleFormSubmit any_regexp ascii_lower (fun _ _ => true) from_nick
      [name_input ""; nick_input "abc"] (js "form") (two_fields "" "")
      roomy_storage
    = Some (false, st', ls') /\
    LocalStorage.get (formAutosaveKey (js "form")) false roomy_storage
    = (LocalStorage.Ok VNull, roomy_storage) /\
    LocalStorage.get (formAutosaveKey (js "form")) false ls'
    = (LocalStorage.Ok (VObj [(js "name", VStr []); (js "nick", VStr (js "abc"))]), ls').
Proof. do 2 eexists. split; [vm_compute; reflexivity|]. split; vm_compute; reflexivity. Qed.

End FormValidationFacts.

(* ================================================================== *)
(** * The form controller: steps, submission, drafts and auto-save *)
(* ================================================================== *)

Module ControllerFacts.
Import ObjectFacts StorageScopeFacts.
Import JS LocalStorage JSONFacts StorageFacts FormHandler FormFacts.

Lemma same_page_refl w : same_page w w.
Proof. by repeat split. Qed.

Lemma same_page_trans a b c : same_page a b -> same_page b c -> same_page a c.
Proof.
  intros (H1 & H2 & H3 & H4 & H5 & H6 & H7) (G1 & G2 & G3 & G4 & G5 & G6 & G7).
  repeat split; congruence.
Qed.

Lemma showStep_page n w : same_page w (showStep n w).
Proof.
  unfold showStep. destruct (_ || _); [apply same_page_refl|].
  by destruct (_ !! _) as [[|]|].
Qed.

Lemma showStepError_page m w : same_page w (showStepError m w).
Proof. unfold showStepError. by destruct (_ !! _). Qed.

Lemma saveStepData_frame w w1 :
  saveStepData w = Done w1 ->
  currentStep w1 = currentStep w /\ totalSteps w1 = totalSteps w /\
  storage w1 = storage w /\ requests w1 = requests w /\
  isSubmitting w1 = isSubmitting w /\ currentDraftId w1 = currentDraftId w /\
  steps w1 = steps w.
Proof.
  unfold saveStepData. destruct (_ !! _) as [fs|]; [|by intros [= <-]].
  destruct (formData w);
    try (destruct (forallb _ fs); intros [= <-]; by try done).
  destruct (saveFields ms fs) as [ms' [|]]; intros [= <-]; done.
Qed.

(** X14. On a page whose step index is in range and whose step data can be
    saved: handleNext with an invalid current step leaves the step
    index, the form data, the storage, the pending auto-save and the
    request count as they were; with a valid step that is not the last
    it moves exactly one step forward and keeps the data that
    saveStepData collected. *)
Theorem handleNext_gates_on_validity validAll s w w1 :
  in_range w -> saveStepData w = Done w1 ->
  (exists w', handleNext false validAll s w = Done w' /\
              currentStep w' = currentStep w /\ same_page w w' /\
              autoSaveTimer w' = autoSaveTimer w) /\
  (currentStep w < totalSteps w ->
   exists w', handleNext true validAll s w = Done w' /\
              currentStep w' = currentStep w + 1 /\ same_page w1 w').
Proof.
  intros [Hlo Hhi] Hsave. split.
  - eexists. split; [reflexivity|].
    unfold showStepError. by destruct (_ !! _).
  - intros Hlt. unfold handleNext. cbn [negb]. rewrite Hsave.
    destruct (saveStepData_frame _ _ Hsave) as (Hc & Ht & _).
    rewrite Hc, Ht. destruct (Z.ltb_spec (currentStep w) (totalSteps w)); [|lia].
    eexists. split; [reflexivity|]. split; [|apply showStep_page].
    rewrite showStep_current, Ht.
    destruct (Z.ltb_spec (currentStep w + 1) 1); [lia|].
    destruct (Z.ltb_spec (totalSteps w) (currentStep w + 1)); [lia|]. done.
Qed.

Lemma handleNext_gates_on_validity_witness :
  exists w', handleNext true true accepted four_steps = Done w' /\
             currentStep w' = 2 /\
             formData w' = VObj [(js "nominee", VStr (js "Ada"))].
Proof.
  destruct (saveStepData four_steps) as [w1| |] eqn:E;
    [|vm_compute in E; discriminate..].
  destruct (handleNext_gates_on_validity true accepted four_steps w1) as [_ H];
    [by vm_compute|exact E|].
  destruct H as (w' & Hn & Hc & Hp); [by vm_compute|].
  exists w'. split; [exact Hn|]. split; [exact Hc|].
  destruct Hp as [-> _]. vm_compute in E. by injection E as <-.
Defined.

(** X15. On a page whose step index is in range and whose step data can be
    saved, handlePrev keeps the collected data and moves to the
    previous step, but never below the first: the new step index is
    max(1, currentStep - 1). *)
Theorem handlePrev_steps_back w w1 :
  in_range w -> saveStepData w = Done w1 ->
  exists w', handlePrev w = Done w' /\ same_page w1 w' /\
             currentStep w' = Z.max 1 (currentStep w - 1).
Proof.
  intros [Hlo Hhi] Hsave. unfold handlePrev. rewrite Hsave.
  destruct (saveStepData_frame _ _ Hsave) as (Hc & Ht & _). rewrite Hc.
  destruct (Z.ltb_spec 1 (currentStep w)).
  - eexists. split; [reflexivity|]. split; [apply showStep_page|].
    rewrite showStep_current, Ht, Hc.
    destruct (Z.ltb_spec (currentStep w - 1) 1); [lia|].
    destruct (Z.ltb_spec (totalSteps w) (currentStep w - 1)); cbn [orb]; lia.
  - eexists. split; [reflexivity|]. split; [apply same_page_refl|]. lia.
Qed.

Lemma handlePrev_steps_back_witness :
  exists w', handlePrev at_step_three = Done w' /\ currentStep w' = 2.
Proof.
  destruct (saveStepData at_step_three) as [w1| |] eqn:E;
    [|vm_compute in E; discriminate..].
  destruct (handlePrev_steps_back at_step_three w1) as (w' & Hp & _ & Hc);
    [by vm_compute|exact E|].
  exists w'. split; [exact Hp|]. rewrite Hc. by vm_compute.
Defined.

Lemma same_traffic_refl w : same_traffic w w.
Proof. by split. Qed.

Lemma same_traffic_trans a b c :
  same_traffic a b -> same_traffic b c -> same_traffic a c.
Proof. intros [H1 H2] [G1 G2]. split; congruence. Qed.

Lemma showFormError_traffic m w : same_traffic w (showFormError m w).
Proof. unfold showFormError. by destruct (errorContainer w). Qed.

Lemma showFormSuccess_traffic m w : same_traffic w (showFormSuccess m w).
Proof. unfold showFormSuccess. by destruct (successContainer w). Qed.

Lemma clearErrors_traffic w : same_traffic w (clearErrors w).
Proof. unfold clearErrors. by destruct (errorContainer w). Qed.

Lemma showLoadingState_traffic b w : same_traffic w (showLoadingState b w).
Proof. unfold showLoadingState. by destruct (submitBtn w). Qed.

Lemma handleSubmitError_traffic m w : same_traffic w (handleSubmitError m w).
Proof.
  unfold handleSubmitError.
  pose proof (showFormError_traffic m w) as H.
  by destruct (submitBtn (showFormError m w)).
Qed.

Lemma clearAutoSave_traffic w : same_traffic w (clearAutoSave w).
Proof.
  unfold clearAutoSave, Storage_remove.
  by destruct (remove _ _ _) as [[b|e] st].
Qed.

Lemma handleSubmitSuccess_traffic r w w' :
  leaves (handleSubmitSuccess r w) w' -> same_traffic w w'.
Proof.
  unfold handleSubmitSuccess.
  set (w2 := showFormSuccess _ _).
  assert (H2 : same_traffic w w2).
  { eapply same_traffic_trans; [apply clearAutoSave_traffic|].
    eapply same_traffic_trans; [|apply showFormSuccess_traffic]. done. }
  destruct (truthy _).
  - destruct (setItem _ _ _ _) as [[u|e] st].
    + intros [[= <-]|[e [=]]].
      eapply same_traffic_trans; [exact H2|]. by destruct (confetti _).
    + intros [[=]|[e' [= <- <-]]]. exact H2.
  - intros [[= <-]|[e [=]]].
    eapply same_traffic_trans; [exact H2|]. by destruct (confetti _).
Qed.

Lemma submitForm_requests s w :
  requests (snd (submitForm s w)) = S (requests w) /\
  isSubmitting (snd (submitForm s w)) = isSubmitting w.
Proof.
  unfold submitForm. destruct (sub_fetch s) as [e|[|] status [v|e]]; done.
Qed.

Lemma showLoadingState_formData b w : formData (showLoadingState b w) = formData w.
Proof. unfold showLoadingState. by destruct (submitBtn w). Qed.

Lemma clearErrors_formData w : formData (clearErrors w) = formData w.
Proof. unfold clearErrors. by destruct (errorContainer w). Qed.

(** The part of [handleSubmit] inside [try]: it keeps the request count
    and the flag. *)
Lemma handleSubmit_settles r w2 w3 :
  w3 = match r with
       | Ok response =>
           match get_prop response (js "success") with
           | None =>
               handleSubmitError
                 (or_else (VStr (exn_message (TypeError "Cannot read properties of null")))
                          (VStr (js "Network error occurred"))) w2
           | Some success =>
               if truthy success then
                 match handleSubmitSuccess response w2 with
                 | Done w' => w'
                 | Raised e w' =>
                     handleSubmitError
                       (or_else (VStr (exn_message e))
                                (VStr (js "Network error occurred"))) w'
                 | Stray _ w' => w'
                 end
               else
                 handleSubmitError
                   (or_else (default VUndefined (get_prop response (js "error")))
                            (VStr (js "Submission failed"))) w2
           end
       | Throw e =>
           handleSubmitError
             (or_else (VStr (exn_message e)) (VStr (js "Network error occurred"))) w2
       end ->
  same_traffic w2 w3.
Proof.
  intros ->.
  destruct r as [response|e]; [|apply handleSubmitError_traffic].
  destruct (get_prop response _) as [success|]; [|apply handleSubmitError_traffic].
  destruct (truthy success); [|apply handleSubmitError_traffic].
  pose proof (handleSubmitSuccess_traffic response w2) as Hl.
  pose proof (handleSubmitSuccess_returns response w2) as Hn.
  destruct (handleSubmitSuccess response w2) as [w'|e w'|u w']; [| |done].
  - apply Hl. by left.
  - eapply same_traffic_trans; [|apply handleSubmitError_traffic].
    apply Hl. right. by eexists.
Qed.

(** X16. handleSubmit changes nothing while a submission is in progress;
    with an invalid form it sends no request and leaves the form data
    and the storage unchanged; with a valid form whose data aggregate
    is not null or undefined it sends exactly one request, whatever
    the answer, and isSubmitting is false when it returns. *)
Theorem handleSubmit_sends_at_most_once valid s w :
  (isSubmitting w = true -> handleSubmit valid s w = Done w) /\
  (isSubmitting w = false -> valid = false ->
   exists w', handleSubmit valid s w = Done w' /\ requests w' = requests w /\
              isSubmitting w' = false /\ formData w' = formData w /\
              storage w' = storage w) /\
  (isSubmitting w = false -> valid = true -> prepareSubmitData w = true ->
   exists w', handleSubmit valid s w = Done w' /\ requests w' = S (requests w) /\
              isSubmitting w' = false).
Proof.
  unfold handleSubmit. split; [by intros ->|]. split.
  - intros Hs ->. rewrite Hs. cbn [negb]. eexists. split; [reflexivity|].
    destruct (showFormError_traffic (VStr (js "Please complete all required fields")) w)
      as [Hr Hi]. rewrite showFormError_formData, showFormError_storage. by rewrite Hr, Hi.
  - intros Hs -> Hp. rewrite Hs. cbn [negb].
    set (w1 := clearErrors _).
    assert (Hr1 : requests w1 = requests w).
    { subst w1.
      destruct (clearErrors_traffic (showLoadingState true (set_isSubmitting true w)))
        as [-> _].
      by destruct (showLoadingState_traffic true (set_isSubmitting true w)) as [-> _]. }
    assert (Hp1 : prepareSubmitData w1 = true).
    { unfold prepareSubmitData in *. subst w1.
      by rewrite clearErrors_formData, showLoadingState_formData. }
    rewrite Hp1. cbn [negb].
    pose proof (submitForm_requests s w1) as [Hr2 _].
    destruct (submitForm s w1) as [r w2]. cbn [snd] in Hr2.
    eexists. split; [reflexivity|].
    match goal with
    | |- requests (showLoadingState false (set_isSubmitting false ?w3)) = _ /\ _ =>
        pose proof (handleSubmit_settles r w2 w3 eq_refl) as [H3 _];
        destruct (showLoadingState_traffic false (set_isSubmitting false w3))
          as [Hr4 Hi4]
    end.
    split; [rewrite Hr4; cbn [requests set_isSubmitting]; congruence|].
    by rewrite Hi4.
Qed.

Lemma handleSubmit_sends_at_most_once_witness :
  exists w', handleSubmit true network_error (filled four_steps) = Done w' /\
             requests w' = 1%nat /\ isSubmitting w' = false.
Proof.
  destruct (handleSubmit_sends_at_most_once true network_error (filled four_steps))
    as (_ & _ & H).
  destruct H as (w' & H1 & H2 & H3); [reflexivity..|].
  exists w'. split; [exact H1|]. split; [|exact H3]. rewrite H2. reflexivity.
Defined.

(** X17. If state.formData is null or undefined, handleSubmit on a valid
    form raises in prepareSubmitData, which runs before the try block:
    no request is sent, isSubmitting stays true, and every later call
    of handleSubmit returns at once without any effect. *)
Theorem handleSubmit_without_aggregate s w :
  isSubmitting w = false -> formData w = VNull \/ formData w = VUndefined ->
  exists e w1,
    handleSubmit true s w = Raised e w1 /\
    isSubmitting w1 = true /\ requests w1 = requests w /\
    forall valid' s', handleSubmit valid' s' w1 = Done w1.
Proof.
  intros Hs Hf. unfold handleSubmit at 1. rewrite Hs. cbn [negb].
  set (w1 := clearErrors _).
  assert (Hp1 : prepareSubmitData w1 = false).
  { unfold prepareSubmitData. subst w1.
    rewrite clearErrors_formData, showLoadingState_formData.
    cbn [formData set_isSubmitting]. by destruct Hf as [-> | ->]. }
  rewrite Hp1. cbn [negb].
  assert (Hi : isSubmitting w1 = true).
  { subst w1.
    destruct (clearErrors_traffic (showLoadingState true (set_isSubmitting true w)))
      as [_ ->].
    by destruct (showLoadingState_traffic true (set_isSubmitting true w)) as [_ ->]. }
  exists (TypeError "Cannot convert undefined or null to object"), w1.
  split; [done|]. split; [done|]. split.
  - subst w1.
    destruct (clearErrors_traffic (showLoadingState true (set_isSubmitting true w)))
      as [-> _].
    by destruct (showLoadingState_traffic true (set_isSubmitting true w)) as [-> _].
  - intros valid' s'. unfold handleSubmit. by rewrite Hi.
Qed.

Lemma handleSubmit_without_aggregate_witness :
  exists e w1, handleSubmit true accepted emptied = Raised e w1 /\
               isSubmitting w1 = true /\
               handleSubmit true accepted w1 = Done w1.
Proof.
  destruct (handleSubmit_without_aggregate accepted emptied)
    as (e & w1 & H1 & H2 & _ & H3); [reflexivity|by left|].
  exists e, w1. split; [exact H1|]. split; [exact H2|]. apply H3.
Defined.

Lemma withoutDraft_null l draftId : In VNull l -> withoutDraft l draftId = None.
Proof.
  induction l as [|d l IH]; [done|]. intros [->|Hin]; [done|].
  cbn [withoutDraft]. destruct (get_prop d (js "id")); [|done].
  cbn. by rewrite IH.
Qed.

Lemma withoutDraft_filter l draftId :
  json_value (VArr l) = true -> ~ In VNull l ->
  withoutDraft l draftId = Some (List.filter (keeps draftId) l).
Proof.
  induction l as [|d l IH]; [done|]. intros Hj Hn.
  cbn [json_value forallb] in Hj. apply andb_true_iff in Hj as [Hd Hl].
  cbn [withoutDraft List.filter]. unfold keeps at 1.
  destruct (get_prop d (js "id")) as [i|] eqn:Ei.
  - cbn. rewrite IH; [done|done|]. intros Hin. apply Hn. by right.
  - destruct d; try done. exfalso. apply Hn. by left.
Qed.

Lemma forallb_filter {A} (f g : A -> bool) l :
  forallb f l = true -> forallb f (List.filter g l) = true.
Proof.
  induction l as [|a l IH]; [done|]. cbn [forallb List.filter].
  intros H. apply andb_true_iff in H as [Ha Hl].
  destruct (g a); [cbn [forallb]; rewrite Ha|]; by apply IH.
Qed.

Lemma Storage_get_fst k w : fst (Storage_get k w) = fst (get k false (storage w)).
Proof. unfold Storage_get. by destruct (get k false (storage w)). Qed.

Lemma Storage_get_snd k w : snd (Storage_get k w) = w.
Proof.
  unfold Storage_get. pose proof (get_state k false (storage w)) as H.
  destruct (get k false (storage w)) as [r st]. cbn in *. subst st.
  apply set_storage_same.
Qed.

Lemma storedDrafts_storage w w' l :
  storage w' = storage w -> storedDrafts w l -> storedDrafts w' l.
Proof.
  intros Hs (stored & Hg & Hor). exists stored. split; [|done].
  by rewrite Storage_get_fst, Hs, <- Storage_get_fst.
Qed.

(** X18. deleteDraft changes nothing when the user does not confirm. When
    the user confirms and the write lands, the stored list of drafts
    becomes the old list without the drafts whose id is the given one,
    the others in their order; when the stored list has a null element
    the filter raises and the storage is left as it was. *)
Theorem deleteDraft_removes_the_draft draftId w l :
  storedDrafts w l -> json_value (VArr l) = true ->
  lands false draftsKey (stringify (VArr (List.filter (keeps draftId) l))) (storage w) ->
  deleteDraft false draftId w = w /\
  (In VNull l -> storage (deleteDraft true draftId w) = storage w) /\
  (~ In VNull l ->
   storedDrafts (deleteDraft true draftId w) (List.filter (keeps draftId) l)).
Proof.
  intros (stored & Hg & Hor) Hl Hlands. split; [reflexivity|].
  unfold deleteDraft. cbn [negb].
  pose proof (Storage_get_snd draftsKey w) as Hsnd.
  destruct (Storage_get draftsKey w) as [r w1]. cbn in Hg, Hsnd. subst r w1.
  rewrite Hor. split.
  - intros Hin. rewrite withoutDraft_null by done. apply showFormError_storage.
  - intros Hn. rewrite withoutDraft_filter by done.
    assert (Hj : json_value (VArr (List.filter (keeps draftId) l)) = true).
    { cbn [json_value] in *. by apply forallb_filter. }
    destruct (set_get_lands false (storage w) draftsKey
                (VArr (List.filter (keeps draftId) l))
                (stringify (VArr (List.filter (keeps draftId) l))))
      as (st' & Hset & Hget); [done|by apply safeStringify_json|done|].
    unfold Storage_set. rewrite Hset.
    exists (VArr (List.filter (keeps draftId) l)). split; [|done].
    rewrite safeParse_stringify in Hget by done.
    rewrite Storage_get_fst, showFormSuccess_storage.
    change (storage (set_storage st' w)) with st'. by rewrite Hget.
Qed.

Lemma deleteDraft_removes_the_draft_witness :
  storedDrafts (deleteDraft true (js "draft_3") five_saved)
               (List.filter (keeps (js "draft_3")) five_drafts) /\
  length (List.filter (keeps (js "draft_3")) five_drafts) = 4%nat.
Proof.
  split; [|vm_compute; reflexivity].
  destruct (deleteDraft_removes_the_draft (js "draft_3") five_saved five_drafts)
    as (_ & _ & H).
  - eexists. split; vm_compute; reflexivity.
  - vm_compute. reflexivity.
  - right. eexists. vm_compute. reflexivity.
  - apply H. vm_compute. intros Hin.
    repeat (destruct Hin as [Hin|Hin]; [discriminate Hin|]). exact Hin.
Defined.

Lemma showFormSuccess_page m w : same_page w (showFormSuccess m w).
Proof. unfold showFormSuccess. by destruct (successContainer w). Qed.

Lemma draftsAfter_head d l : exists r, draftsAfter d l = d :: r.
Proof.
  unfold draftsAfter. destruct (_ <? _)%nat eqn:E; [|by eexists].
  destruct l as [|a l]; [done|]. by eexists.
Qed.

Lemma str_eqb_refl s : str_eqb s s = true.
Proof. by apply str_eqb_eq. Qed.

Lemma autoSaveRecord_json now newId w :
  json_value (formData w) = true -> safe_integer (currentStep w) = true ->
  json_value (currentDraftId w) = true ->
  json_value (autoSaveRecord now newId w) = true.
Proof.
  intros Hf Hs Hd. unfold autoSaveRecord. rewrite json_value_obj.
  assert (Ho : json_value (or_else (currentDraftId w) (VStr newId)) = true).
  { unfold or_else. by destruct (truthy _). }
  cbn [map fst members_json json_value]. rewrite Hf, Hs, Ho.
  vm_compute. reflexivity.
Qed.

Lemma performAutoSave_storage now newId w :
  storage (performAutoSave now newId w)
  = snd (set autoSaveCurrentKey (autoSaveRecord now newId w) false (storage w)).
Proof.
  unfold performAutoSave, Storage_set, autoSaveRecord.
  cbn [formData currentStep currentDraftId storage set_autoSaveTimer].
  by destruct (set _ _ _ _) as [[b|e] st].
Qed.

Section RoundTrips.
Variable restoreFields : value -> list (list field) -> option (list (list field)).
Variable lessThan : value -> Z -> option bool.
Variable greaterThan : value -> Z -> option bool.

(** X19. After saveDraft has stored a draft whose form data is an object
    that JSON represents (the write lands), loadDraft with the id of
    that draft, on a page with the storage saveDraft left, restores
    the saved form data, makes that id the current draft id and shows
    the saved step, provided that restoring the controls does not
    raise and the page has the saved step. *)
Theorem saveDraft_then_loadDraft answer today now newId w l ms w' s' :
  storedDrafts w l -> json_value (VArr l) = true ->
  formData w = VObj ms -> json_value (VObj ms) = true ->
  safe_integer (currentStep w) = true ->
  lands false draftsKey
        (stringify (VArr (draftsAfter (draftRecord answer today now newId w) l)))
        (storage w) ->
  storage w' = storage (saveDraft answer today now newId w) ->
  restoreFields (VObj ms) (steps w') = Some s' ->
  1 <= currentStep w <= totalSteps w' ->
  exists w'', loadDraft restoreFields lessThan greaterThan newId w' = Done w'' /\
              formData w'' = VObj ms /\ currentDraftId w'' = VStr newId /\
              currentStep w'' = currentStep w /\ steps w'' = s'.
Proof.
  intros Hst Hl Hfd Hms Hsafe Hlands Hsto Hres [Hlo Hhi].
  assert (Hf : json_value (formData w) = true) by (by rewrite Hfd).
  pose proof (saveDraft_stored answer today now newId w l Hst Hl Hf Hsafe Hlands)
    as Hnew.
  apply (storedDrafts_storage _ w') in Hnew; [|done].
  destruct Hnew as (stored & Hg & Hor).
  destruct (draftsAfter_head (draftRecord answer today now newId w) l) as [r Hr].
  rewrite Hr in Hor.
  unfold loadDraft.
  pose proof (Storage_get_snd draftsKey w') as Hsnd.
  destruct (Storage_get draftsKey w') as [g w1]. cbn in Hg, Hsnd. subst g w1.
  rewrite Hor. cbn [findDraft].
  change (get_prop (draftRecord answer today now newId w) (js "id"))
    with (Some (VStr newId)).
  cbn iota. rewrite str_eqb_refl.
  change (get_prop (draftRecord answer today now newId w) (js "formData"))
    with (Some (formData w)).
  change (get_prop (draftRecord answer today now newId w) (js "currentStep"))
    with (Some (VNum (Int (currentStep w)))).
  cbn [default from_option id]. rewrite Hfd.
  unfold restoreFormData.
  cbn [formData set_currentDraftId set_formData steps]. rewrite Hres.
  cbn [fmap option_fmap option_map].
  assert (Ht : or_else (VNum (Int (currentStep w))) (VNum (Int 1))
               = VNum (Int (currentStep w))).
  { unfold or_else, truthy. destruct (Z.eqb_spec (currentStep w) 0); [lia|done]. }
  rewrite Ht. cbn [showStoredStep].
  eexists. split; [reflexivity|].
  match goal with
  | |- context [showFormSuccess ?m (showStep ?c ?w3)] =>
      destruct (showFormSuccess_page m (showStep c w3))
        as (F1 & _ & _ & _ & F5 & _ & F7);
      destruct (showStep_page c w3) as (G1 & _ & _ & _ & G5 & _ & G7);
      destruct (showFormSuccess_step m (showStep c w3)) as [C1 _];
      pose proof (showStep_current c w3) as C2
  end.
  rewrite F1, F5, F7, G1, G5, G7, C1, C2.
  cbn [formData currentDraftId steps totalSteps set_steps set_currentDraftId
         set_formData].
  destruct (Z.ltb_spec (currentStep w) 1); [lia|].
  destruct (Z.ltb_spec (totalSteps w') (currentStep w)); [lia|]. done.
Qed.

(** X20. After performAutoSave has stored its record, the form data being
    an object that JSON represents (the write lands), loadAutoSave on
    a page with that storage restores the saved form data, the saved
    draft id (the current one, or the generated one if there was none)
    and the saved step, provided that restoring the controls does not
    raise and the page has the saved step. *)
Theorem performAutoSave_then_loadAutoSave now newId w ms w' s' :
  formData w = VObj ms -> json_value (VObj ms) = true ->
  json_value (currentDraftId w) = true ->
  safe_integer (currentStep w) = true ->
  lands false autoSaveCurrentKey (stringify (autoSaveRecord now newId w)) (storage w) ->
  storage w' = storage (performAutoSave now newId w) ->
  restoreFields (VObj ms) (steps w') = Some s' ->
  1 <= currentStep w <= totalSteps w' ->
  exists w'', loadAutoSave restoreFields lessThan greaterThan w' = Done w'' /\
              formData w'' = VObj ms /\
              currentDraftId w'' = or_else (currentDraftId w) (VStr newId) /\
              currentStep w'' = currentStep w /\ steps w'' = s'.
Proof.
  intros Hfd Hms Hd Hsafe Hlands Hsto Hres [Hlo Hhi].
  assert (Hf : json_value (formData w) = true) by (by rewrite Hfd).
  pose proof (autoSaveRecord_json now newId w Hf Hsafe Hd) as Hj.
  destruct (set_get_lands false (storage w) autoSaveCurrentKey
              (autoSaveRecord now newId w) (stringify (autoSaveRecord now newId w)))
    as (st' & Hset & Hget); [done|by apply safeStringify_json|done|].
  rewrite safeParse_stringify in Hget by done.
  assert (Hst' : storage (performAutoSave now newId w) = st').
  { by rewrite performAutoSave_storage, Hset. }
  rewrite Hst' in Hsto.
  unfold loadAutoSave.
  pose proof (Storage_get_snd autoSaveCurrentKey w') as Hsnd.
  pose proof (Storage_get_fst autoSaveCurrentKey w') as Hfst.
  rewrite Hsto, Hget in Hfst.
  destruct (Storage_get autoSaveCurrentKey w') as [g w1]. cbn in Hfst, Hsnd.
  subst g w1.
  change (get_prop (autoSaveRecord now newId w) (js "formData"))
    with (Some (formData w)).
  change (get_prop (autoSaveRecord now newId w) (js "currentStep"))
    with (Some (VNum (Int (currentStep w)))).
  change (get_prop (autoSaveRecord now newId w) (js "draftId"))
    with (Some (or_else (currentDraftId w) (VStr newId))).
  cbn [default from_option id]. rewrite Hfd.
  change (truthy (autoSaveRecord now newId w) && truthy (VObj ms)) with true.
  cbn iota. unfold restoreFormData.
  cbn [formData set_currentDraftId set_formData steps]. rewrite Hres.
  cbn [fmap option_fmap option_map].
  assert (Ht : truthy (VNum (Int (currentStep w))) = true).
  { unfold truthy. destruct (Z.eqb_spec (currentStep w) 0); [lia|done]. }
  rewrite Ht. cbn [showStoredStep].
  eexists. split; [reflexivity|].
  unfold showFormInfo, setTimeout.
  cbn [formData currentDraftId steps currentStep set_timers].
  match goal with
  | |- context [showStep ?c ?w3] =>
      destruct (showStep_page c w3) as (G1 & _ & _ & _ & G5 & _ & G7);
      pose proof (showStep_current c w3) as C2
  end.
  rewrite G1, G5, G7, C2.
  cbn [formData currentDraftId steps totalSteps set_steps set_currentDraftId
         set_formData].
  destruct (Z.ltb_spec (currentStep w) 1); [lia|].
  destruct (Z.ltb_spec (totalSteps w') (currentStep w)); [lia|]. done.
Qed.
End RoundTrips.

Lemma saveDraft_then_loadDraft_witness :
  exists w'',
    loadDraft keep nan_compare nan_compare (js "draft_1")
      (reloaded (saveDraft (Some (js "draft")) (js "1/1/2025")
                           (js "2025-01-01T00:00:00.000Z") (js "draft_1")
                           (filled at_step_three))) = Done w'' /\
    formData w'' = VObj [(js "nominee", VStr (js "Ada"))] /\
    currentDraftId w'' = VStr (js "draft_1") /\
    currentStep w'' = 3.
Proof.
  destruct (saveDraft_then_loadDraft keep nan_compare nan_compare
              (Some (js "draft")) (js "1/1/2025")
              (js "2025-01-01T00:00:00.000Z") (js "draft_1")
              (filled at_step_three) [] [(js "nominee", VStr (js "Ada"))]
              (reloaded (saveDraft (Some (js "draft")) (js "1/1/2025")
                                   (js "2025-01-01T00:00:00.000Z") (js "draft_1")
                                   (filled at_step_three)))
              (steps four_steps))
    as (w'' & H1 & H2 & H3 & H4 & _).
  - eexists. split; vm_compute; reflexivity.
  - reflexivity.
  - reflexivity.
  - vm_compute. reflexivity.
  - vm_compute. reflexivity.
  - right. eexists. vm_compute. reflexivity.
  - reflexivity.
  - reflexivity.
  - vm_compute. split; discriminate.
  - exists w''. split; [exact H1|]. split; [exact H2|]. split; [exact H3|].
    rewrite H4. vm_compute. reflexivity.
Defined.

Lemma performAutoSave_then_loadAutoSave_witness :
  exists w'',
    loadAutoSave keep nan_compare nan_compare
      (reloaded (performAutoSave (js "2025-01-01T00:00:00.000Z") (js "draft_1")
                                 (filled at_step_three))) = Done w'' /\
    formData w'' = VObj [(js "nominee", VStr (js "Ada"))] /\
    currentDraftId w'' = VStr (js "draft_1") /\
    currentStep w'' = 3.
Proof.
  destruct (performAutoSave_then_loadAutoSave keep nan_compare nan_compare
              (js "2025-01-01T00:00:00.000Z")
              (js "draft_1") (filled at_step_three)
              [(js "nominee", VStr (js "Ada"))]
              (reloaded (performAutoSave (js "2025-01-01T00:00:00.000Z")
                                         (js "draft_1") (filled at_step_three)))
              (steps four_steps))
    as (w'' & H1 & H2 & H3 & H4 & _).
  - reflexivity.
  - vm_compute. reflexivity.
  - vm_compute. reflexivity.
  - vm_compute. reflexivity.
  - right. eexists. vm_compute. reflexivity.
  - reflexivity.
  - reflexivity.
  - vm_compute. split; discriminate.
  - exists w''. split; [exact H1|]. split; [exact H2|].
    split; [rewrite H3; vm_compute; reflexivity|].
    rewrite H4. vm_compute. reflexivity.
Defined.

Lemma prop_read_write ms name v :
  name <> js "__proto__" -> prop_read (prop_write ms name v) name = v.
Proof.
  intros Hn. unfold prop_read, prop_write.
  assert (E : str_eqb name (js "__proto__") = false) by (by apply str_eqb_neq).
  by rewrite E, obj_get_set.
Qed.

Lemma prop_write_other ms name v k :
  k <> name -> obj_get (prop_write ms name v) k = obj_get ms k.
Proof.
  intros Hk. unfold prop_write. destruct (str_eqb name _); [done|].
  by apply obj_get_set_other.
Qed.

Lemma differs_false s x : differs s x = false <-> x = VStr s.
Proof.
  destruct x; cbn; try (split; [done|discriminate]).
  rewrite negb_false_iff, str_eqb_eq. split; [by intros ->|by intros [= ->]].
Qed.

Lemma differs_true s x : differs s x = true <-> x <> VStr s.
Proof.
  rewrite <- differs_false. by destruct (differs s x).
Qed.

Lemma forallb_false_In {A} (f : A -> bool) l :
  forallb f l = false -> exists x, In x l /\ f x = false.
Proof.
  induction l as [|a l IH]; [done|]. cbn [forallb].
  destruct (f a) eqn:Ea.
  - intros H. destruct (IH H) as (x & Hx & Hf). exists x. split; [by right|done].
  - intros _. exists a. split; [by left|done].
Qed.

Lemma forallb_differs s l : forallb (differs s) l = true <-> ~ In (VStr s) l.
Proof.
  rewrite forallb_forall. split.
  - intros H Hin. specialize (H _ Hin). by apply differs_true in H.
  - intros H x Hx. apply differs_true. by intros ->.
Qed.

(** X21. For a checkbox whose name is not empty and not __proto__, when
    the aggregate holds an array or nothing truthy under that name,
    the body of the loop of saveStepData leaves an array under the
    name that contains the value of the box exactly when the box is
    checked; the other elements of the array and the other properties
    of the aggregate are kept. *)
Theorem saveField_checkbox ms f :
  f_type f = js "checkbox" ->
  fieldName f <> [] -> fieldName f <> js "__proto__" ->
  truthy (prop_read ms (fieldName f)) = false \/
  (exists l, prop_read ms (fieldName f) = VArr l) ->
  exists ms' l',
    saveField ms f = Some ms' /\
    prop_read ms' (fieldName f) = VArr l' /\
    (In (VStr (f_value f)) l' <-> f_checked f = true) /\
    (forall x, x <> VStr (f_value f) ->
               (In x l' <-> In x (group ms (fieldName f)))) /\
    (forall k, k <> fieldName f -> obj_get ms' k = obj_get ms k).
Proof.
  intros Ht Hne Hp Hcur. unfold saveField. fold (fieldName f).
  destruct (fieldName f) as [|c n] eqn:En; [done|]. rewrite <- En in *.
  rewrite Ht, str_eqb_refl.
  set (ms1 := if truthy (prop_read ms (fieldName f)) then ms
              else prop_write ms (fieldName f) (VArr [])).
  assert (H1 : prop_read ms1 (fieldName f) = VArr (group ms (fieldName f)) /\
               forall k, k <> fieldName f -> obj_get ms1 k = obj_get ms k).
  { subst ms1. unfold group. destruct Hcur as [Hf|[l Hl]].
    - rewrite Hf. rewrite prop_read_write by done. split.
      + by destruct (prop_read ms (fieldName f)).
      + intros k Hk. by apply prop_write_other.
    - rewrite Hl. cbn [truthy]. by rewrite Hl. }
  destruct H1 as [Hr Ho]. rewrite Hr.
  set (l := group ms (fieldName f)) in *.
  destruct (f_checked f) eqn:Ec.
  - destruct (forallb (differs (f_value f)) l) eqn:Ef.
    + exists (prop_write ms1 (fieldName f) (VArr (l ++ [VStr (f_value f)]))),
             (l ++ [VStr (f_value f)]).
      split; [done|]. split; [by apply prop_read_write|].
      split; [|split].
      * split; [done|]. intros _. apply in_or_app. right. by left.
      * intros x Hx. rewrite in_app_iff. cbn [In]. split; [|by left].
        intros [H|[H|[]]]; [done|]. by destruct Hx.
      * intros k Hk. rewrite prop_write_other by done. by apply Ho.
    + exists ms1, l. split; [done|]. split; [done|]. split; [|split; [done|done]].
      split; [done|]. intros _.
      apply forallb_false_In in Ef as (x & Hx & Hd).
      apply differs_false in Hd. by subst x.
  - exists (prop_write ms1 (fieldName f) (VArr (List.filter (differs (f_value f)) l))),
           (List.filter (differs (f_value f)) l).
    split; [done|]. split; [by apply prop_read_write|].
    split; [|split].
    + split; [|done]. intros Hin. apply filter_In in Hin as [_ Hd].
      apply differs_true in Hd. by destruct Hd.
    + intros x Hx. rewrite filter_In. split; [by intros [H _]|].
      intros H. split; [done|]. by apply differs_true.
    + intros k Hk. rewrite prop_write_other by done. by apply Ho.
Qed.

Lemma saveField_checkbox_witness :
  exists ms' l',
    saveField [] fast_box = Some ms' /\
    prop_read ms' (js "values") = VArr l' /\
    In (VStr (js "fast")) l'.
Proof.
  destruct (saveField_checkbox [] fast_box) as (ms' & l' & H1 & H2 & H3 & _).
  - reflexivity.
  - vm_compute. discriminate.
  - vm_compute. discriminate.
  - left. vm_compute. reflexivity.
  - exists ms', l'. split; [exact H1|]. split; [exact H2|].
    apply H3. reflexivity.
Defined.

Lemma showLoadingState_keeps b w :
  storage (showLoadingState b w) = storage w /\
  formData (showLoadingState b w) = formData w /\
  currentStep (showLoadingState b w) = currentStep w /\
  timers (showLoadingState b w) = timers w /\
  requests (showLoadingState b w) = requests w.
Proof. unfold showLoadingState. by destruct (submitBtn w). Qed.

Lemma clearErrors_keeps w :
  storage (clearErrors w) = storage w /\ requests (clearErrors w) = requests w.
Proof. unfold clearErrors. by destruct (errorContainer w). Qed.

Section Exchange.
Variable SyntaxError_message : jsstring -> jsstring.
Variable TypeError_message : jsstring.
Local Abbreviation handler' :=
  (SubmitNomination.handler SyntaxError_message TypeError_message).

Lemma handler_accepts e s :
  SubmitNomination.httpMethod e = js "POST" -> SubmitNomination.raises e = false ->
  handler' e s
  = SubmitNomination.mkResponse 200
      (stringify (VObj [(js "success", VBool true);
                        (js "referenceNumber",
                         VStr (SubmitNomination.reference s))])).
Proof.
  intros Hm Hr. unfold SubmitNomination.handler, SubmitNomination.raises in *.
  rewrite Hm, str_eqb_refl. cbn [negb].
  destruct (SubmitNomination.headers e) as [hs|]; [|done].
  unfold SubmitNomination.payload_text in Hr. by rewrite Hr.
Qed.

(** X22. For a POST request whose try block does not raise, the function
    answers 200 with a body that parses as JSON; when fetch hands that
    parsed body to a page that is not submitting and whose data
    aggregate is not null or undefined, handleSubmit on a valid form
    takes the success path: the reference number of the function is
    stored under rare_submission_ref in the session storage (when that
    store takes it), the form data is emptied, the step is 1, the
    redirect to success.html is scheduled after 2000 ms, and exactly
    one request was sent. *)
Theorem accepted_nomination_reaches_the_page e s :
  SubmitNomination.httpMethod e = js "POST" -> SubmitNomination.raises e = false ->
  exists v,
    SubmitNomination.statusCode (handler' e s) = 200 /\
    JSON_parse (SubmitNomination.responseBody (handler' e s)) = Some v /\
    forall sub w n,
      sub_fetch sub = Responded true 200 (Ok v) ->
      isSubmitting w = false -> prepareSubmitData w = true ->
      native_setItem (window_sessionStorage (storage w)) submissionRefKey
                     (SubmitNomination.reference s) = Ok n ->
      exists w',
        handleSubmit true sub w = Done w' /\
        items (window_sessionStorage (storage w')) !! submissionRefKey
        = Some (SubmitNomination.reference s) /\
        formData w' = VObj [] /\ currentStep w' = 1 /\
        In (2000, Redirect successRedirect) (timers w') /\
        requests w' = S (requests w).
Proof.
  intros Hm Hr. rewrite (handler_accepts e s Hm Hr).
  set (v := VObj [(js "success", VBool true);
                  (js "referenceNumber", VStr (SubmitNomination.reference s))]).
  exists v. split; [done|]. split.
  { cbn [SubmitNomination.responseBody]. apply JSON_parse_stringify.
    subst v. rewrite json_value_obj. vm_compute. reflexivity. }
  intros sub w n Hfetch Hs Hp Hset.
  unfold handleSubmit. rewrite Hs. cbn [negb].
  set (w1 := clearErrors _).
  assert (H1 : storage w1 = storage w /\ requests w1 = requests w /\
               formData w1 = formData w).
  { subst w1. rewrite clearErrors_formData.
    destruct (clearErrors_keeps (showLoadingState true (set_isSubmitting true w)))
      as [-> ->].
    by destruct (showLoadingState_keeps true (set_isSubmitting true w))
      as (-> & -> & _ & _ & ->). }
  destruct H1 as (Hst1 & Hrq1 & Hf1).
  assert (Hp1 : prepareSubmitData w1 = true).
  { unfold prepareSubmitData in *. by rewrite Hf1. }
  rewrite Hp1. cbn [negb].
  unfold submitForm. rewrite Hfetch.
  change (get_prop v (js "success")) with (Some (VBool true)).
  cbn [truthy].
  destruct (handleSubmitSuccess_effects (set_requests (S (requests w1)) w1) v
              (SubmitNomination.reference s) n)
    as (w' & Hdone & _ & Hfd & Hcs & _ & Hit & Htm).
  { reflexivity. }
  { unfold SubmitNomination.reference.
    change (js "RARE-") with [82; 65; 82; 69; 45]%N. done. }
  { cbn [storage set_requests]. by rewrite Hst1. }
  rewrite Hdone. eexists. split; [reflexivity|].
  destruct (showLoadingState_keeps false (set_isSubmitting false w'))
    as (-> & -> & -> & -> & ->).
  cbn [storage formData currentStep timers requests set_isSubmitting].
  split; [done|]. split; [done|]. split; [done|]. split; [done|].
  destruct (handleSubmitSuccess_traffic v (set_requests (S (requests w1)) w1) w')
    as [-> _]; [by left|].
  cbn [requests set_requests]. by rewrite Hrq1.
Qed.
End Exchange.

Lemma accepted_nomination_reaches_the_page_witness :
  exists w',
    handleSubmit true accepted (filled four_steps) = Done w' /\
    items (window_sessionStorage (storage w')) !! submissionRefKey
    = Some (js "RARE-202501-0042").
Proof.
  destruct (accepted_nomination_reaches_the_page
              SubmitNomination.engine_message SubmitNomination.engine_TypeError
              SubmitNomination.urlencoded SubmitNomination.january)
    as (v & _ & Hv & H); [reflexivity|vm_compute; reflexivity|].
  vm_compute in Hv. injection Hv as <-.
  destruct (H accepted (filled four_steps)
              (with_items unlimited
                 (<[submissionRefKey := js "RARE-202501-0042"]> ∅)))
    as (w' & H1 & H2 & _); [reflexivity|reflexivity|reflexivity|
                            vm_compute; reflexivity|].
  exists w'. split; [exact H1|]. rewrite H2. vm_compute. reflexivity.
Defined.

End ControllerFacts.
